(* ===== verification/_CoqProject ===== *)
-Q . S2P
Prelude.v
GoStrings.v
GoNet.v
PodMap.v
PodMapSpec.v
Http.v
HTTPProxy.v
Cache.v
CachingTransport.v
RuleRouter.v
Concurrent.v
PktLine.v
Delta.v
Packfile.v
RepoStore.v
GoURL.v
Target.v
GitServer.v
GitServerSpec.v
GitConcurrent.v
GitLocks.v
Dns.v
Portal.v
Logging.v
Binaries.v
Networking.v
Netfilter.v
NriPlugin.v
NriSpec.v
NriHost.v
NriSafety.v
NriRegistry.v
EndToEnd.v
GoOS.v
Lifecycle.v
Pki.v
NodeInit.v
Programs.v
