(* ===== verification/Prelude.v ===== *)
(** * service-portals: a verification development

    The portals give workloads (pods, sandboxes) access to upstream services
    without giving them credentials. A portal is an HTTP(S) server: it looks up
    the host of a request in a table of rules, asks the pod map whether the
    calling pod may use the rule, replaces the credential header by the rule's
    own secret and relays the request, optionally through a response cache and
    with headers that attribute the request to the pod. On every node an NRI
    plugin confines the opted-in pods with iptables rules so that they reach
    nothing but the portal, and registers them in the pod map through an admin
    API; init programs create the certificate authority the portal signs with
    and the pods trust. A DNS server answers the names the rules match with the
    portal's address. A separate Git proxy resolves the upstream
    repository from the request, serves fetches from a store of parsed Git
    objects and asks the upstream only for what the store lacks.

    ** Files, parts and sources

    - [Prelude] (this file): bytes, machine words ([u32], [u64], [int64]), the
      [outcome] type of fallible code ([Ok], [Err] for returned errors, [Panic]
      for run-time panics) with its bind, the monad [io] of computations that
      also act on a world, with [io_step] for what they do to it, and lemmas on
      lists and words.
    - [GoStrings], [GoNet], [GoURL], [GoOS], [Http]: the functions of Go's [strings],
      [strconv], [hex], [fmt], [net], [net/url], [os], [path/filepath] and [net/http] that the sources
      call, as executable definitions from their documented behaviour. They model the
      language's library, not the repository, except
      [HostWithoutPort] (pkg/proxy/proxy.go).
    - [PodMap] (pkg/portals/podmap.go and the admin handlers): a heap of
      [PodInfo] structs and the two Go maps of pointers into it. [PodMapSpec]
      has the pointer-free contract [Registry], the abstraction function [abs]
      and the invariant [wf].
    - [HTTPProxy] (pkg/proxy/proxy.go): [ServeHTTP], [proxyRequest], the
      relaying of responses and the certificate cache, as a sequential
      function ([getCert]) and as a step relation over the lock's critical
      sections ([cert_step]).
    - [Cache] (pkg/cache/cache.go): the class [CacheOps] with the laws
      [CacheLaws], and the modules [InMemoryCache] and [DiskCache] that
      implement them.
    - [CachingTransport] (pkg/proxy/transport.go): [RoundTrip], against the
      class, as a function and as the steps of concurrent requests ([trip_step]).
    - [RuleRouter] (pkg/portals/rules.go): [loadRules], [ServeHTTP],
      [GetCertificate], [MatchHost]; it uses the pod map, the proxy and the
      caching transport.
    - [Concurrent] (pkg/portals/rules.go with podmap.go): [RuleRouter.ServeHTTP]
      as steps between two accesses to shared memory ([req_step]), interleaved
      with the admin API's operations and the reload ([env]); a binding is
      stored field by field, in any order.
    - [PktLine] (pkg/gitproxy/protocol.go): framing, the strict parser of
      fetch requests, the builder of upstream requests, the classifier.
    - [Delta], [Packfile] (pkg/gitproxy/packfile.go): deltas with [uint32]
      and [uint64] arithmetic, object identifiers, the packfile parser and
      builder, side-band framing.
    - [RepoStore] (pkg/gitproxy/repocache.go): ingestion, reachable objects,
      the objects of a fetch, the manager of stores.
    - [Target] (pkg/gitproxy/target.go): [ResolveUpstreamURL].
    - [GitServer] (pkg/gitproxy/server.go): [ServeHTTP], which composes
      [Target], [PktLine], [RepoStore], [Packfile], a cache of the class
      [CacheOps] and the upstream; its gob record [CachedResponse] is that of
      [CachingTransport], and its copies of the hop-by-hop functions are in
      its module [Own]. [GitServerSpec] has its theorems.
      [GitConcurrent] is the handler as steps between two accesses to what
      requests share ([gstep]), the system of any number of requests
      ([sys_step]), and the lemma that a request alone is [ServeHTTP].
      [GitLocks] is the same system with the mutexes of repocache.go and cache.go:
      the lock operations around each access ([code]), readers and writers that
      wait, and an upstream that answers when it likes; its runs are runs of
      [GitConcurrent].
    - [Dns] (pkg/dns/server.go): [handleQuery], [forward], the UDP loop, the TCP
      connection loop, and [Start]/[Shutdown] as steps on the set of open sockets.
    - [Portal] (pkg/portals/server.go): [Run_plan], what [Run] decides before it
      serves, composing [PodMap], [RuleRouter], [HTTPProxy] and [Dns]; [serve]
      hands a request to the handler it made. [Lifecycle] is [Run] itself on a
      host of listening endpoints and socket files: what it decides interleaved
      with what it opens, the reload on SIGHUP and the shutdown.
    - [Logging] (gemini-portal/pkg/transport/logging.go and the transports in
      the main files of anthropic-portal and github-portal): one [RoundTrip] over a
      [logger] record, and the three loggers.
    - [Binaries] (the main packages): the configurations the programs run with,
      and the options of the Git proxy with [Run] of pkg/gitproxy/server.go.
      [Programs] has the main functions: the exit status of every program, the
      commands of the plugin and its reconciliation loop, the flags of the init
      programs.
    - [Networking] (pkg/networking/ip.go): the parsers of what ip prints and
      the discovery of addresses and interfaces, on a world of commands.
    - [Netfilter]: iptables by its manual, as the specification the plugin is
      proved against: tables, commands, the verdict on a packet; the classes
      [Netfilter] (a command acts on the tables as documented or fails) and
      [NetfilterLive] (it fails only for documented reasons).
    - [NriPlugin] (cmd/portal-nri-plugin/main.go): the rules, every event
      handler, reconciliation, the commands bind and unbind. [NriSpec] has the
      effects of the rules on the tables and on packets; [NriHost] the class
      [AdminServer] (the admin API at the other end of the HTTP client) and a
      reference host on which the theorems are run; [NriSafety] the theorems
      about traffic, [NriRegistry] those about the pod map.
    - [EndToEnd] composes the plugin, the admin API, the pod map and the router:
      [node_run] is the life of a node, event by event, with the reconciliation
      loop's steps between them; the class [CommandServer]
      is the admin API as the commands bind and unbind reach it.
    - [Pki] (the certificate templates of init.go and init-service-portals,
      [NewHTTPProxy] and [signCert] of pkg/proxy/proxy.go): crypto/x509 as the
      class [X509] with its laws, and what a TLS client checks.
    - [NodeInit] (cmd/portal-nri-plugin/init.go, cmd/init-service-portals):
      [initNode] and [generateCA] on the files of [GoOS].

    Definitions keep the names of the Go functions; [Set_] and [Type_] are
    [Set] and [Type]. A method that runs under a lock is one step of its
    component, and [GitLocks] justifies that for the Git proxy, with the mutexes
    themselves; the places where the source works outside a lock (certificate
    signing, the disk cache's removal goroutines, the router's reads of a pod's
    binding) are separate steps and the
    theorems quantify over their interleavings. Loops over Go maps take the
    order of the iteration as an argument, any permutation of the entries.

    ** What the theorems show

    - From the sandbox to the upstream: [sandbox_to_upstream] follows one pod
      through the plugin, the admin API, the pod map and the router;
      [ungranted_pod_never_forwarded] and [stopped_pod_forgotten] hold over the
      life of the node; [bind_command_effect] and [unbind_command_effect] are the
      operator's side.
    - Concurrency: [forwarded_requests_were_granted] (what a request saw, in
      which order, when the control plane moves under it),
      [revocation_effective], [undisturbed_request_is_sequential] and
      [control_plane_linearizable] (the sequential theorems hold of the running
      server), [requests_never_deadlock]; [rebind_splits_request] is what does
      not hold. For the Git proxy [concurrent_responses_genuine],
      [assisted_bases_kept], and with its mutexes [stores_never_race] (no shared
      map is touched without its lock) and [git_requests_finish] (no deadlock, a
      bound on the steps, and who waits for the upstream holds up nobody).
    - Confinement: [pod_traffic_confined] (a pod that starts reaches only the
      portal), [confinement_survives] (whatever happens to other pods),
      [rules_leave_no_trace], [rules_well_formed], [host_interface_of_peer],
      [discovered_addresses].
    - The pod map and the node: [run_pod_registers] composes the plugin, the
      HTTP client, the admin API and the pod map; [notify_terminates],
      [restart_recovery].
    - The portal as wired: [portal_pod_map_scope], [portal_admin_confined],
      [portal_dns_agrees_with_routes]; its life: [start_up_implements_plan]
      (the effects refine the plan), [admin_socket_fail_closed],
      [stale_socket_replaced], [reload_keeps_serving],
      [shutdown_releases_everything]; [portal_exit_status],
      [git_proxy_shuts_down], [sync_loop_stopped], [defaults_agree] for the programs.
    - Certificates: [tls_interception], from the init container to the check
      in a pod, [node_ca_files], [init_idempotent], [ca_published].
    - Logs: [secret_never_logged], [logging_transparent].
    - Access: [router_access_control] (no upstream contact without a bound,
      registered caller whose policy allows the rule), with the facts about
      the pod map it stands on: [pod_map_refines_registry] and its
      consequences [lookup_never_stale], [registration_resolves],
      [binding_visible_by_ip], [sync_registers_exactly],
      [ungranted_pod_denied], [policy_allows_named], [admin_api_fails_closed].
    - Routing: [match_host_iff_routed], [routing_order_independent],
      [load_rules_all_or_nothing], [tls_agrees_with_http].
    - Credentials: [upstream_sees] gives every header line of the upstream
      request, [upstream_attribution] the attribution headers,
      [response_relayed] the response, [one_certificate_per_host] the
      certificate cache under concurrency.
    - Caches: [in_memory_cache_refines_history] (what is returned is what the
      history of calls says), [disk_cache_sound], and for the transport
      [cached_responses_come_from_upstream] and, with requests
      interleaved, [concurrent_responses_come_from_upstream].
    - Git: [parse_fetch_request_strict] and the round trips
      [fetch_request_roundtrip], [delta_roundtrip], [packfile_roundtrip];
      [packfile_objects_genuine] and [delta_result_in_bounds] for hostile
      input; [reachable_objects_exact] and [collect_objects_spec] for the
      store; [fetch_served_from_store] and [fetch_responses_genuine] for what
      clients get, over any history; [git_upstream_sees] for what the upstream
      gets; [target_spellings_agree] for the names of repositories.
    - DNS: [dns_answers_by_policy], [dns_forwards_in_order],
      [dns_tcp_framing], [dns_udp_replies], [dns_sockets],
      [addresses_survive_shutdown].
    - Limits of the code, proved rather than assumed away:
      [sync_drops_reused_ip], [empty_token_allows_unnamed],
      [connection_header_strips_credential], [overlapping_rules_race],
      [cache_shared_across_rules], [cache_ignores_request_headers],
      [fallback_policy_denied_over_tls], [delta_copy_overflow_panics],
      [empty_object_breaks_pack], [has_commit_without_tree],
      [late_removal_drops_fresh_entry], [disk_ttl_ignored],
      [failed_delete_keeps_entry], [router_advertisements_rejected],
      [path_escaped_twice], [host_links_match_prefix], [reinstall_opens],
      [missing_iptables_is_success], [reconcile_by_count],
      [single_stack_cleanup_fails], [synchronize_none_keeps_proxy],
      [other_header_logs_credential], [cache_of_programs],
      [torn_key_is_kept],
      [rebind_splits_request], [update_forgets_newcomer], [failed_run_leaves_servers],
      [tcp_admin_fails_silently].

    ** Fuel and bounds

    Every loop that is not structural takes fuel that is enough for every
    input, and the theorems are about the definitions with that fuel, never
    about runs that happen to finish. [pkt_loop], [extract_loop],
    [delta_loop], [tree_loop], [tcp_loop] and [sideband_chunks] consume at
    least one byte a turn and get the length of their input
    ([parsePktLines_eq], [extract_fuel] and [delta_loop_eq] are the equations
    without fuel). [leb] and [more_size] write at most ten groups of seven
    bits, enough for 64-bit sizes. [search], the walk over trees and commits,
    gets the number of nodes it starts from and can still push, and
    [search_complete] shows that it always finishes. The 50 passes of
    [resolve_passes] are the source's own bound: it reports an error when
    they do not suffice. [maxAlloc], 2^48, is the largest size for which
    [make] does not panic. [eval_chain] gets as fuel the depth of
    chains a packet may enter; the theorems hold for every depth from two on,
    the plugin's own chains. [notify_attempts] has the source's own bound of three.

    ** Parameters and hypotheses

    What the source takes from elsewhere is an argument: the Unicode case
    tables (class [Unicode], which fixes what they do on ASCII), SHA-1 (of
    length 20 where that matters) and SHA-256, zlib (reading back what it
    wrote, followed by anything), gob (a round-trip law), the YAML and JSON
    decoders, [url.Parse] and the URL [http.NewRequest] parses,
    [time.ParseDuration], the DNS wire format (dnsmessage), X.509, RSA and PEM,
    the commands ip, nsenter and iptables with the kernel's tables of
    interfaces, the decoders of the logged payloads, the upstream transport, the exchanges with DNS servers and the
    success of writes to the client. Which calls on the host succeed is an
    oracle of the history ([works] of [Lifecycle], [fate] of [NodeInit]) or given
    call by call ([disk_io] of [Cache]); which goroutines of the DNS servers have
    run before each call of a shutdown is [background] of [Lifecycle]; the
    order in which other goroutines run is a step relation or a list of events. Each theorem that assumes a law of one
    of them is applied to a concrete instance at the end of its file.

    ** Not modelled

    Timeouts, the delivery of signals and the flag package (their outcome is an
    event or an argument); connections the listeners hold, and the work
    a shutdown waits for; a context that ends while the portal still starts; the torn read of a string header that Go's memory model
    permits where the router reads a binding without a lock; the file system
    beyond the nodes, contents, modes, owners and modification times the sources
    use (symbolic links, missing parents); metrics, traces
    (OTEL_INSTRUMENTATION_ENABLED), log lines other than the logging transports'
    and the text of errors; the NRI stub that calls the plugin's handlers; the
    test hooks [runIptables] and [runIp6tables]; the test toolbox and the
    end-to-end harness (tests/), which only drive other programs. *)

From Stdlib Require Export ZArith Ascii.
From Stdlib Require Import String.
From stdpp Require Export base tactics option list list_numbers gmap strings.
From Stdlib Require Export Lia.

#[export] Set Default Goal Selector "!".

(** ** Bytes, Go strings and byte slices *)

(** A Go [byte] is an [ascii]; a Go [string] and a [[]byte] are both finite
    sequences of bytes, so the conversions [string(data)] and [[]byte(s)] of
    the source are the identity in the model. *)
Abbreviation byte := Ascii.ascii.
Abbreviation gostring := (list Ascii.ascii).
Abbreviation bytes := (list Ascii.ascii).

Declare Scope go_scope.
Delimit Scope go_scope with go.

(** [#"text"] is the Go string literal "text". *)
Definition gostr (s : String.string) : gostring := String.list_ascii_of_string s.
Notation "# s" := (gostr s) (at level 8, s at level 0, format "# s") : go_scope.
#[export] Set Warnings "-notation-overridden".
#[global] Open Scope go_scope.

(** The unsigned value of a byte and the conversion [byte(z)], which keeps the
    low eight bits. *)
Definition b2z (b : byte) : Z := Z.of_N (N_of_ascii b).
Definition z2b (z : Z) : byte := ascii_of_N (Z.to_N (z `mod` 256)).

Lemma b2z_range b : (0 ≤ b2z b < 256)%Z.
Proof.
  unfold b2z. pose proof (N_ascii_bounded b). lia.
Qed.

Lemma z2b_b2z b : z2b (b2z b) = b.
Proof.
  unfold z2b. rewrite Z.mod_small by apply b2z_range.
  unfold b2z. rewrite N2Z.id. apply ascii_N_embedding.
Qed.

Lemma b2z_z2b z : b2z (z2b z) = (z `mod` 256)%Z.
Proof.
  unfold b2z, z2b. pose proof (Z.mod_pos_bound z 256 ltac:(lia)).
  rewrite N_ascii_embedding by lia. lia.
Qed.

#[global] Instance b2z_inj : Inj (=) (=) b2z.
Proof. intros x y H. rewrite <- (z2b_b2z x), <- (z2b_b2z y). by rewrite H. Qed.

Lemma b2z_z2b_small z : (0 ≤ z < 256)%Z → b2z (z2b z) = z.
Proof. intros. rewrite b2z_z2b. by apply Z.mod_small. Qed.

(** A property of every byte is checked on the 256 values. *)
Definition all_bytes : list byte := (λ n, ascii_of_nat n) <$> seq 0 256.

Lemma all_bytes_complete b : b ∈ all_bytes.
Proof.
  unfold all_bytes. apply list_elem_of_fmap. exists (nat_of_ascii b). split.
  - symmetry. apply ascii_nat_embedding.
  - apply elem_of_seq. pose proof (nat_ascii_bounded b). lia.
Qed.

Lemma byte_ind_bool (P : byte → bool) :
  forallb P all_bytes = true → ∀ b, P b = true.
Proof.
  intros H b. rewrite forallb_forall in H. apply H.
  apply list_elem_of_In, all_bytes_complete.
Qed.

(** An encoding into bytes of anything countable. *)
Fixpoint bits (p : positive) : bytes :=
  match p with xH => [] | xO p => "0"%char :: bits p | xI p => "1"%char :: bits p end.
Fixpoint from_bits (b : bytes) : positive :=
  match b with [] => xH | c :: b => if bool_decide (c = "1"%char) then xI (from_bits b) else xO (from_bits b) end.
Lemma from_bits_bits p : from_bits (bits p) = p.
Proof. induction p as [p IH|p IH|]; cbn; [by rewrite IH..|done]. Qed.

(** ** Fixed-width integers *)

Definition u8 (z : Z) : Z := (z `mod` 2 ^ 8)%Z.
Definition u16 (z : Z) : Z := (z `mod` 2 ^ 16)%Z.
Definition u32 (z : Z) : Z := (z `mod` 2 ^ 32)%Z.
Definition u64 (z : Z) : Z := (z `mod` 2 ^ 64)%Z.
(** [int(x)] for a 64-bit [x]: two's complement. *)
Definition int64 (z : Z) : Z := ((z + 2 ^ 63) `mod` 2 ^ 64 - 2 ^ 63)%Z.

Lemma u32_small z : (0 ≤ z < 2 ^ 32)%Z → u32 z = z.
Proof. intros. by apply Z.mod_small. Qed.
Lemma u64_small z : (0 ≤ z < 2 ^ 64)%Z → u64 z = z.
Proof. intros. by apply Z.mod_small. Qed.
Lemma int64_small z : (- 2 ^ 63 ≤ z < 2 ^ 63)%Z → int64 z = z.
Proof. intros. unfold int64. rewrite Z.mod_small by lia. lia. Qed.
Lemma u32_range z : (0 ≤ u32 z < 2 ^ 32)%Z.
Proof. by apply Z.mod_pos_bound. Qed.
Lemma u64_range z : (0 ≤ u64 z < 2 ^ 64)%Z.
Proof. by apply Z.mod_pos_bound. Qed.

(** Or-ing in bits above the ones already there is adding them. *)
Lemma lor_shiftl_add a b k : (0 ≤ k)%Z → (0 ≤ a < 2 ^ k)%Z →
  Z.lor a (Z.shiftl b k) = (a + b * 2 ^ k)%Z.
Proof.
  intros Hk Ha. rewrite <- (Z.shiftl_mul_pow2 b k) by done.
  assert (Hl : Z.land a (Z.shiftl b k) = 0%Z).
  { apply Z.bits_inj'. intros n Hn. rewrite Z.land_spec, Z.bits_0, Z.shiftl_spec by done.
    destruct (Z.lt_ge_cases n k).
    - by rewrite (Z.testbit_neg_r b), andb_false_r by lia.
    - rewrite <- (Z.mod_small a (2 ^ k)) by done. by rewrite Z.mod_pow2_bits_high by lia. }
  by rewrite Z.add_nocarry_lxor, Z.lxor_lor.
Qed.

Lemma land_low z : Z.land z 127 = (z `mod` 128)%Z.
Proof. change 127%Z with (Z.ones 7). by rewrite Z.land_ones. Qed.

(** The continuation bit and the payload of a seven-bit group. *)
Lemma seven_bits m : (0 ≤ m < 128)%Z →
  Z.land m 127 = m ∧ Z.land (128 + m) 127 = m ∧
  Z.land m 128 = 0%Z ∧ (Z.land (128 + m) 128 =? 0)%Z = false ∧ Z.lor m 128 = (128 + m)%Z.
Proof.
  intros Hm. rewrite !land_low, (Z.mod_small m) by done.
  assert (Hl : Z.land m 128 = 0%Z).
  { rewrite <- (Z.mod_small m 128) by done. rewrite <- land_low, <- Z.land_assoc. apply Z.land_0_r. }
  assert (Ho : Z.lor m 128 = (128 + m)%Z) by (rewrite (lor_shiftl_add m 1 7 ltac:(done) Hm : Z.lor m 128 = _); lia).
  split_and!; [done| |done| |done].
  - rewrite Z.add_comm, <- (Z.mul_1_l 128), Z.mod_add by lia. by apply Z.mod_small.
  - apply Z.eqb_neq. rewrite <- Ho, Z.land_lor_distr_l, Hl. done.
Qed.

(** ** Outcomes of a Go call

    A call returns a value, returns a non-nil [error], or panics. *)
Inductive panic :=
  | SliceBounds        (** slice bounds out of range *)
  | IndexRange         (** index out of range *)
  | MakeSliceLen       (** makeslice: len out of range *)
  | NilDereference.

Inductive outcome (E A : Type) : Type :=
  | Ok (a : A)
  | Err (e : E)
  | Panic (p : panic).
Arguments Ok {E A} a.
Arguments Err {E A} e.
Arguments Panic {E A} p.

#[global] Instance panic_eq_dec : EqDecision panic.
Proof. solve_decision. Defined.

#[export] Instance outcome_ret {E} : MRet (outcome E) := λ A, Ok.
#[export] Instance outcome_bind {E} : MBind (outcome E) := λ A B f m,
  match m with Ok a => f a | Err e => Err e | Panic p => Panic p end.
#[export] Instance outcome_fmap {E} : FMap (outcome E) := λ A B f m,
  match m with Ok a => Ok (f a) | Err e => Err e | Panic p => Panic p end.

Definition outcome_map_err {E F A} (f : E → F) (m : outcome E A) : outcome F A :=
  match m with Ok a => Ok a | Err e => Err (f e) | Panic p => Panic p end.

Definition is_ok {E A} (m : outcome E A) : bool :=
  match m with Ok _ => true | _ => false end.
Definition no_panic {E A} (m : outcome E A) : bool :=
  match m with Panic _ => false | _ => true end.

Lemma outcome_bind_ok {E A B} (m : outcome E A) (f : A → outcome E B) b :
  m ≫= f = Ok b ↔ ∃ a, m = Ok a ∧ f a = Ok b.
Proof. destruct m; cbn; naive_solver. Qed.

Lemma outcome_bind_err {E A B} (m : outcome E A) (f : A → outcome E B) e :
  m ≫= f = Err e ↔ m = Err e ∨ ∃ a, m = Ok a ∧ f a = Err e.
Proof. destruct m; cbn; naive_solver. Qed.

Lemma no_panic_bind {E A B} (m : outcome E A) (f : A → outcome E B) :
  no_panic m = true → (∀ a, m = Ok a → no_panic (f a) = true) →
  no_panic (m ≫= f) = true.
Proof. destruct m; cbn; naive_solver. Qed.

(** ** Effects

    A computation on a world [W] that may fail; what it did to the world before
    it failed stays done. *)
Definition io (W E A : Type) : Type := W → outcome E A * W.

#[export] Instance io_ret {W E} : MRet (io W E) := λ A a w, (Ok a, w).
#[export] Instance io_bind {W E} : MBind (io W E) := λ A B f m w,
  match m w with
  | (Ok a, w) => f a w
  | (Err e, w) => (Err e, w)
  | (Panic p, w) => (Panic p, w)
  end.
Definition throw {W E A} (e : E) : io W E A := λ w, (Err e, w).
Definition lift {W E A} (m : outcome E A) : io W E A := λ w, (m, w).
Definition gets {W E A} (f : W → A) : io W E A := λ w, (Ok (f w), w).
Definition modify {W E} (f : W → W) : io W E () := λ w, (Ok (), f w).
(** The error as a value, for code that looks at it. *)
Definition attempt {W E F A} (m : io W E A) : io W F (outcome E A) := λ w,
  match m w with
  | (Panic p, w) => (Panic p, w)
  | (r, w) => (Ok r, w)
  end.
Definition map_err {W E F A} (f : E → F) (m : io W E A) : io W F A := λ w,
  let '(r, w) := m w in (outcome_map_err f r, w).

Lemma io_bind_ok {W E A B} (m : io W E A) (f : A → io W E B) w b w' :
  (m ≫= f) w = (Ok b, w') ↔ ∃ a w1, m w = (Ok a, w1) ∧ f a w1 = (Ok b, w').
Proof. unfold mbind, io_bind. destruct (m w) as [[] ?]; naive_solver. Qed.

Lemma io_bind_run {W E A B} (m : io W E A) (f : A → io W E B) w a w1 :
  m w = (Ok a, w1) → (m ≫= f) w = f a w1.
Proof. unfold mbind, io_bind. by intros ->. Qed.

(** [io_step R m]: whatever [m] does and however it ends, the world it leaves
    is related to the one it found. *)
Definition io_step {W E A} (R : W → W → Prop) (m : io W E A) : Prop := ∀ w, R w (m w).2.

Section IoStep.
Context {W E : Type} (R : W → W → Prop) `{!Reflexive R} `{!Transitive R}.

Lemma io_step_ret {A} (a : A) : io_step R (mret (M := io W E) a).
Proof. intros w. done. Qed.
Lemma io_step_throw {A} e : io_step R (throw (A := A) e : io W E A).
Proof. intros w. done. Qed.
Lemma io_step_lift {A} (m : outcome E A) : io_step R (lift m).
Proof. intros w. done. Qed.
Lemma io_step_gets {A} (f : W → A) : io_step R (gets f : io W E A).
Proof. intros w. done. Qed.

Lemma io_step_bind {A B} (m : io W E A) (f : A → io W E B) :
  io_step R m → (∀ w a w', m w = (Ok a, w') → io_step R (f a)) → io_step R (m ≫= f).
Proof.
  intros Hm Hf w. specialize (Hm w). unfold mbind, io_bind. destruct (m w) as [[a|e|p] w'] eqn:Em; cbn [snd] in *; try done.
  transitivity w'; [done|]. by apply (Hf w a w').
Qed.

Lemma io_step_attempt {F A} (m : io W E A) : io_step R m → io_step R (attempt (F := F) m).
Proof. intros Hm w. specialize (Hm w). unfold attempt. by destruct (m w) as [[] ?]. Qed.
Lemma io_step_map_err {F A} (f : E → F) (m : io W E A) : io_step R m → io_step R (map_err f m).
Proof. intros Hm w. specialize (Hm w). unfold map_err. by destruct (m w). Qed.
Lemma io_step_if {A} (b : bool) (m1 m2 : io W E A) : io_step R m1 → io_step R m2 → io_step R (if b then m1 else m2).
Proof. by destruct b. Qed.
End IoStep.

Lemma attempt_ok {W E F A} (m : io W E A) w r w' :
  attempt (F := F) m w = (Ok r, w') → m w = (r, w').
Proof. unfold attempt. destruct (m w) as [[] ?]; naive_solver. Qed.

Lemma map_err_ok {W E F A} (f : E → F) (m : io W E A) w a w' :
  map_err f m w = (Ok a, w') → m w = (Ok a, w').
Proof. unfold map_err. destruct (m w) as [[] ?]; cbn; congruence. Qed.

(** ** Tactics *)

(** Invert the monadic equations in the context. *)
Ltac outcome_inv :=
  repeat match goal with
  | H : _ ≫= _ = Ok _ |- _ => apply outcome_bind_ok in H as (? & ? & ?)
  | H : Ok _ = Ok _ |- _ => injection H as H
  | H : Err _ = Err _ |- _ => injection H as H
  | H : Ok _ = Err _ |- _ => discriminate H
  | H : Err _ = Ok _ |- _ => discriminate H
  | H : Panic _ = _ |- _ => discriminate H
  | H : _ = Panic _ |- _ => discriminate H
  end.

(** Split the innermost test of the goal or of a hypothesis, keeping the
    equation. *)
Ltac case_test :=
  match goal with
  | |- context [match ?x with _ => _ end] =>
      lazymatch x with context [match _ with _ => _ end] => fail | _ => destruct x eqn:? end
  end.
Ltac case_test_in H :=
  match type of H with
  | context [match ?x with _ => _ end] =>
      lazymatch x with context [match _ with _ => _ end] => fail | _ => destruct x eqn:? end
  end.

(** Booleans to propositions. *)
Create HintDb bools.
#[export] Hint Rewrite Bool.andb_true_iff Bool.andb_false_iff Bool.orb_true_iff
  Bool.orb_false_iff Bool.negb_true_iff Bool.negb_false_iff
  Z.eqb_eq Z.eqb_neq Z.ltb_lt Z.ltb_ge Z.leb_le Z.leb_gt
  Nat.eqb_eq Nat.eqb_neq Nat.ltb_lt Nat.ltb_ge Nat.leb_le Nat.leb_gt
  bool_decide_eq_true bool_decide_eq_false : bools.
Ltac bools := autorewrite with bools in *.

(** ** Lists *)

Lemma sum_list_with_insert {A} (f : A → nat) l i x y :
  l !! i = Some x → sum_list_with f (<[i := y]> l) + f x = sum_list_with f l + f y.
Proof.
  revert i. induction l as [|z l IH]; intros [|i]; [done..| |]; intros Hi.
  - injection Hi as ->. cbn. lia.
  - cbn. specialize (IH i Hi). unfold insert in *. lia.
Qed.

Lemma sum_list_with_two {A} (f : A → nat) l i j x y :
  i ≠ j → l !! i = Some x → l !! j = Some y → f x + f y ≤ sum_list_with f l.
Proof.
  revert i j. induction l as [|z l IH]; intros [|i] [|j] Hne; cbn; [done..| | |].
  - intros [= ->] Hj. apply list_elem_of_lookup_2, (sum_list_with_in _ f) in Hj. lia.
  - intros Hi [= ->]. apply list_elem_of_lookup_2, (sum_list_with_in _ f) in Hi. lia.
  - intros Hi Hj. assert (i ≠ j) by lia. pose proof (IH i j ltac:(done) Hi Hj). lia.
Qed.

Lemma sum_list_with_zero {A} (f : A → nat) l : (∀ x, x ∈ l → f x = 0) → sum_list_with f l = 0.
Proof.
  induction l as [|z l IH]; intros Hz; cbn; [done|]. rewrite (Hz z), IH; [done| |left].
  intros x Hx. apply Hz. by right.
Qed.

Lemma elem_of_list_insert {A} (l : list A) i x y : x ∈ <[i := y]> l → x = y ∨ x ∈ l.
Proof.
  intros [j Hj]%list_elem_of_lookup. apply list_lookup_insert_Some in Hj as [(_ & <- & _)|[_ Hj]]; [by left|].
  right. by eapply list_elem_of_lookup_2.
Qed.

Lemma some_or_all {A} (P Q : A → Prop) (l : list A) :
  (∀ x, x ∈ l → P x ∨ Q x) → (∃ x, x ∈ l ∧ P x) ∨ (∀ x, x ∈ l → Q x).
Proof.
  induction l as [|x l IH]; intros Hl; [right; intros x Hx; by apply not_elem_of_nil in Hx|].
  destruct (Hl x) as [Hp|Hq]; [left|left; exists x; split; [left|done]|].
  destruct IH as [(y & Hy & Hp)|Hall]; [intros y Hy; apply Hl; by right|left; exists y; split; [by right|done]|].
  right. intros y [->|Hy]%elem_of_cons; [done|by apply Hall].
Qed.

Lemma take_drop_app {A} n (l : list A) : take n l ++ drop n l = l.
Proof. apply take_drop. Qed.

(** [data[lo:hi]] for [lo ≤ hi ≤ len data]. *)
Definition slice {A} (lo hi : nat) (l : list A) : list A := take (hi - lo) (drop lo l).

Lemma length_slice {A} lo hi (l : list A) :
  lo ≤ hi → hi ≤ length l → length (slice lo hi l) = hi - lo.
Proof. intros. unfold slice. rewrite length_take, length_drop. lia. Qed.

Lemma slice_app_mid {A} (l1 l2 l3 : list A) lo hi :
  lo = length l1 → hi = length l1 + length l2 →
  slice lo hi (l1 ++ l2 ++ l3) = l2.
Proof.
  intros -> ->. unfold slice. rewrite drop_app_length.
  rewrite Nat.add_comm, Nat.add_sub. apply take_app_length.
Qed.

Lemma slice_0 {A} n (l : list A) : slice 0 n l = take n l.
Proof. unfold slice. by rewrite drop_0, Nat.sub_0_r. Qed.

(** Looking up a fold of insertions. *)
Definition mem {A} `{EqDecision A} (x : A) (l : list A) : bool := bool_decide (x ∈ l).

Lemma mem_true {A} `{EqDecision A} (x : A) l : mem x l = true ↔ x ∈ l.
Proof. apply bool_decide_eq_true. Qed.
Lemma mem_false {A} `{EqDecision A} (x : A) l : mem x l = false ↔ x ∉ l.
Proof. apply bool_decide_eq_false. Qed.
#[export] Hint Rewrite @mem_true @mem_false : bools.

(** First occurrences, in order: the loop
    [for x { if !seen[x] { seen[x] = true; out = append(out, x) } }]. *)
Fixpoint dedup_from {A} `{EqDecision A} (seen : list A) (l : list A) : list A :=
  match l with
  | [] => []
  | x :: l => if mem x seen then dedup_from seen l else x :: dedup_from (x :: seen) l
  end.

Lemma elem_of_dedup_from {A} `{EqDecision A} (l seen : list A) x :
  x ∈ dedup_from seen l ↔ x ∈ l ∧ x ∉ seen.
Proof.
  revert seen. induction l as [|y l IH]; intros seen; cbn [dedup_from].
  - set_solver.
  - destruct (mem y seen) eqn:E; bools.
    + rewrite IH. set_solver.
    + rewrite !elem_of_cons, IH, elem_of_cons.
      destruct (decide (x = y)) as [->|]; naive_solver.
Qed.

Lemma NoDup_dedup_from {A} `{EqDecision A} (l seen : list A) :
  NoDup (dedup_from seen l).
Proof.
  revert seen. induction l as [|y l IH]; intros seen; cbn [dedup_from]; [constructor|].
  destruct (mem y seen) eqn:E; [apply IH|].
  constructor; [|apply IH]. rewrite elem_of_dedup_from. set_solver.
Qed.

Lemma dedup_from_id {A} `{EqDecision A} (l seen : list A) :
  NoDup l → (∀ x, x ∈ l → x ∉ seen) → dedup_from seen l = l.
Proof.
  revert seen. induction l as [|y l IH]; intros seen Hnd Hdis; [done|].
  apply NoDup_cons in Hnd as [Hy Hnd]. cbn [dedup_from].
  destruct (mem y seen) eqn:E; bools; [set_solver|].
  f_equal. apply IH; [done|]. set_solver.
Qed.

Lemma dedup_from_ext {A} `{EqDecision A} (l s s' : list A) :
  (∀ x, x ∈ s ↔ x ∈ s') → dedup_from s l = dedup_from s' l.
Proof.
  revert s s'. induction l as [|x l IH]; intros s s' Hs; cbn [dedup_from]; [done|].
  assert (mem x s = mem x s') as -> by (apply bool_decide_ext, Hs).
  destruct (mem x s'); [by apply IH|]. f_equal. apply IH. intros y.
  rewrite !elem_of_cons, Hs. done.
Qed.

Lemma dedup_from_snoc {A} `{EqDecision A} (l s : list A) x :
  dedup_from (s ++ [x]) l = dedup_from (x :: s) l.
Proof.
  apply dedup_from_ext. intros y. rewrite elem_of_app, list_elem_of_singleton, elem_of_cons. tauto.
Qed.
