(* ===== verification/GoStrings.v ===== *)
(** * The Go [strings], [strconv], [hex] and [fmt] functions the source calls

    Executable definitions on byte sequences. White space is Go's
    [unicode.IsSpace] read from its UTF-8 encodings; case mapping is exact on
    ASCII strings, and on strings with a byte of 0x80 or more it is the
    Unicode table of the runtime, the parameter [Unicode]. *)

From S2P Require Import Prelude.

(** The Unicode case tables: [strings.ToLower] and [strings.EqualFold] on
    strings that are not pure ASCII. *)
Class Unicode := {
  uni_to_lower : gostring → gostring;
  uni_equal_fold : gostring → gostring → bool;
}.

(** The tables restricted to ASCII letters, for concrete evaluations. *)
Definition ascii_lower (b : byte) : byte :=
  if (65 <=? b2z b)%Z && (b2z b <=? 90)%Z then z2b (b2z b + 32) else b.
Definition ascii_upper (b : byte) : byte :=
  if (97 <=? b2z b)%Z && (b2z b <=? 122)%Z then z2b (b2z b - 32) else b.

Definition ascii_unicode : Unicode := {|
  uni_to_lower := fmap ascii_lower;
  uni_equal_fold s t := bool_decide (ascii_lower <$> s = ascii_lower <$> t);
|}.

(** ** Prefixes, suffixes, searching *)

Fixpoint HasPrefix (s p : gostring) : bool :=
  match p, s with
  | [], _ => true
  | _, [] => false
  | c :: p, d :: s => bool_decide (c = d) && HasPrefix s p
  end.

Definition HasSuffix (s p : gostring) : bool := HasPrefix (rev s) (rev p).
Definition TrimPrefix (s p : gostring) : gostring :=
  if HasPrefix s p then drop (length p) s else s.
Definition TrimSuffix (s p : gostring) : gostring :=
  if HasSuffix s p then take (length s - length p) s else s.

(** [strings.Index] / [bytes.Index]: the first occurrence, [None] for -1. *)
Fixpoint Index (s p : gostring) : option nat :=
  if HasPrefix s p then Some 0
  else match s with [] => None | _ :: s => S <$> Index s p end.

Definition Contains (s p : gostring) : bool := bool_decide (is_Some (Index s p)).

Fixpoint IndexByte (s : gostring) (c : byte) : option nat :=
  match s with
  | [] => None
  | d :: s => if bool_decide (d = c) then Some 0 else S <$> IndexByte s c
  end.
Definition LastIndexByte (s : gostring) (c : byte) : option nat :=
  (λ i, length s - 1 - i) <$> IndexByte (rev s) c.

(** [strings.Split] for a non-empty separator, and [strings.SplitN(s, sep, 2)]. *)
Fixpoint split_aux (sep : gostring) (skip : nat) (cur s : gostring) : list gostring :=
  match s with
  | [] => [rev cur]
  | c :: s' =>
      match skip with
      | S k => split_aux sep k cur s'
      | O => if HasPrefix s sep then rev cur :: split_aux sep (length sep - 1) [] s'
             else split_aux sep 0 (c :: cur) s'
      end
  end.
Definition Split (s sep : gostring) : list gostring := split_aux sep 0 [] s.
Definition SplitN2 (s sep : gostring) : list gostring :=
  match Index s sep with
  | Some i => [take i s; drop (i + length sep) s]
  | None => [s]
  end.

Fixpoint Join (l : list gostring) (sep : gostring) : gostring :=
  match l with
  | [] => []
  | [x] => x
  | x :: l => x ++ sep ++ Join l sep
  end.

(** [strings.TrimRight(s, cutset)] for a one-byte cutset. *)
Fixpoint trim_left_byte (c : byte) (s : gostring) : gostring :=
  match s with
  | d :: s' => if bool_decide (d = c) then trim_left_byte c s' else s
  | [] => []
  end.
Definition TrimRightByte (s : gostring) (c : byte) : gostring :=
  rev (trim_left_byte c (rev s)).

(** ** Case *)

Definition is_ascii (s : gostring) : bool := forallb (λ b, (b2z b <? 128)%Z) s.

Section Case.
Context `{Unicode}.

Definition ToLower (s : gostring) : gostring :=
  if is_ascii s then ascii_lower <$> s else uni_to_lower s.

Definition EqualFold (s t : gostring) : bool :=
  if is_ascii s && is_ascii t then bool_decide (ascii_lower <$> s = ascii_lower <$> t)
  else uni_equal_fold s t.

End Case.

(** ** White space

    [unicode.IsSpace] by the length of the UTF-8 encoding: U+0009-U+000D,
    U+0020; U+0085, U+00A0; U+1680, U+2000-U+200A, U+2028, U+2029, U+202F,
    U+205F, U+3000. *)
Definition space1 (a : byte) : bool :=
  let a := b2z a in ((9 <=? a)%Z && (a <=? 13)%Z) || (a =? 32)%Z.
Definition space2 (a b : byte) : bool :=
  (b2z a =? 194)%Z && ((b2z b =? 133)%Z || (b2z b =? 160)%Z).
Definition space3 (a b c : byte) : bool :=
  let a := b2z a in let b := b2z b in let c := b2z c in
  ((a =? 225)%Z && (b =? 154)%Z && (c =? 128)%Z)
  || ((a =? 226)%Z && (b =? 128)%Z &&
        (((128 <=? c)%Z && (c <=? 138)%Z) || (c =? 168)%Z || (c =? 169)%Z || (c =? 175)%Z))
  || ((a =? 226)%Z && (b =? 129)%Z && (c =? 159)%Z)
  || ((a =? 227)%Z && (b =? 128)%Z && (c =? 128)%Z).

(** The number of bytes of the white-space rune [s] starts with, 0 for none;
    with [flip] the bytes of [s] are in reverse order. *)
Definition space_len (flip : bool) (s : gostring) : nat :=
  match s with
  | a :: s1 =>
      if space1 a then 1 else
      match s1 with
      | b :: s2 =>
          if (if flip then space2 b a else space2 a b) then 2 else
          match s2 with
          | c :: _ => if (if flip then space3 c b a else space3 a b c) then 3 else 0
          | [] => 0
          end
      | [] => 0
      end
  | [] => 0
  end.

Fixpoint trim_spaces (flip : bool) (skip : nat) (s : gostring) : gostring :=
  match s with
  | [] => []
  | _ :: s' =>
      match skip with
      | S k => trim_spaces flip k s'
      | O => match space_len flip s with
             | O => s
             | S k => trim_spaces flip k s'
             end
      end
  end.

Definition TrimLeftSpace (s : gostring) : gostring := trim_spaces false 0 s.
Definition TrimRightSpace (s : gostring) : gostring := rev (trim_spaces true 0 (rev s)).
Definition TrimSpace (s : gostring) : gostring := TrimRightSpace (TrimLeftSpace s).

(** [strings.Fields]: the maximal runs of non-space. *)
Definition push_field (cur : gostring) (l : list gostring) : list gostring :=
  if bool_decide (cur = []) then l else rev cur :: l.
Fixpoint fields_aux (skip : nat) (cur s : gostring) : list gostring :=
  match s with
  | [] => push_field cur []
  | c :: s' =>
      match skip with
      | S k => fields_aux k cur s'
      | O => match space_len false s with
             | O => fields_aux 0 (c :: cur) s'
             | S k => push_field cur (fields_aux k [] s')
             end
      end
  end.
Definition Fields (s : gostring) : list gostring := fields_aux 0 [] s.

(** ** Numbers *)

Definition hex_digit (n : Z) : byte := z2b (if (n <? 10)%Z then 48 + n else 87 + n).
Definition hex_val (b : byte) : option Z :=
  let z := b2z b in
  if (48 <=? z)%Z && (z <=? 57)%Z then Some (z - 48)%Z
  else if (97 <=? z)%Z && (z <=? 102)%Z then Some (z - 87)%Z
  else if (65 <=? z)%Z && (z <=? 70)%Z then Some (z - 55)%Z
  else None.
Definition is_hex (b : byte) : bool := bool_decide (is_Some (hex_val b)).

(** [hex.EncodeToString]; [hex.DecodeString] as an option. *)
Definition EncodeToString (data : bytes) : gostring :=
  data ≫= λ b, [hex_digit (b2z b `div` 16); hex_digit (b2z b `mod` 16)].
Fixpoint DecodeString (s : gostring) : option bytes :=
  match s with
  | [] => Some []
  | [_] => None
  | a :: b :: s =>
      x ← hex_val a; y ← hex_val b; r ← DecodeString s; Some (z2b (x * 16 + y) :: r)
  end.

(** The hexadecimal digits of a non-negative number, least significant first
    (16 digits hold 64 bits), and [fmt.Sprintf("%04x", n)]. *)
Fixpoint hex_rev (fuel : nat) (n : Z) : gostring :=
  match fuel with
  | O => []
  | S fuel => if (n =? 0)%Z then [] else hex_digit (n `mod` 16) :: hex_rev fuel (n `div` 16)
  end.
Definition fmt_04x (n : Z) : gostring :=
  let d := rev (hex_rev 16 n) in replicate (4 - length d) "0"%char ++ d.

(** The decimal digits of a non-negative 64-bit number: [%d]. *)
Fixpoint dec_rev (fuel : nat) (n : Z) : gostring :=
  match fuel with
  | O => []
  | S fuel =>
      z2b (48 + n `mod` 10) :: (if (n <? 10)%Z then [] else dec_rev fuel (n `div` 10))
  end.
Definition fmt_d (n : Z) : gostring := rev (dec_rev 20 n).

(** [strconv.ParseInt(s, 16, 32)]: an optional sign, then hexadecimal digits
    (the base is given, so no underscore and no 0x), within 32 bits. *)
Fixpoint hex_number (acc : Z) (s : gostring) : option Z :=
  match s with
  | [] => Some acc
  | c :: s => v ← hex_val c; hex_number (acc * 16 + v) s
  end.
Definition ParseInt16_32 (s : gostring) : option Z :=
  let '(neg, digits) :=
    match s with
    | c :: r => if bool_decide (c = "+"%char) then (false, r)
                else if bool_decide (c = "-"%char) then (true, r) else (false, s)
    | [] => (false, s)
    end in
  if bool_decide (digits = []) then None else
  v ← hex_number 0 digits;
  if neg then if (v <=? 2 ^ 31)%Z then Some (- v)%Z else None
  else if (v <? 2 ^ 31)%Z then Some v else None.

(** [strconv.Atoi]: an optional sign, then decimal digits, within 64 bits. *)
Fixpoint dec_number (acc : Z) (s : gostring) : option Z :=
  match s with
  | [] => Some acc
  | c :: s =>
      let z := b2z c in
      if (48 <=? z)%Z && (z <=? 57)%Z then dec_number (acc * 10 + (z - 48)) s else None
  end.
Definition Atoi (s : gostring) : option Z :=
  let '(neg, digits) :=
    match s with
    | c :: r => if bool_decide (c = "+"%char) then (false, r)
                else if bool_decide (c = "-"%char) then (true, r) else (false, s)
    | [] => (false, s)
    end in
  if bool_decide (digits = []) then None else
  v ← dec_number 0 digits;
  if neg then if (v <=? 2 ^ 63)%Z then Some (- v)%Z else None
  else if (v <? 2 ^ 63)%Z then Some v else None.

(** [filepath.Base]: the last element of a path. *)
Definition Base (path : gostring) : gostring :=
  if bool_decide (path = []) then #"." else
  let path := TrimRightByte path "/"%char in
  let path := match LastIndexByte path "/"%char with Some i => drop (S i) path | None => path end in
  if bool_decide (path = []) then #"/" else path.

(** ** Lemmas: prefixes and searching *)

Lemma HasPrefix_spec s p : HasPrefix s p = true ↔ ∃ t, s = p ++ t.
Proof.
  revert s. induction p as [|c p IH]; intros s; cbn [HasPrefix].
  { split; [eexists; reflexivity|destruct s; done]. }
  destruct s as [|d s]; cbn [HasPrefix]; [naive_solver|].
  rewrite Bool.andb_true_iff, IH, bool_decide_eq_true. naive_solver.
Qed.

Lemma HasPrefix_app p t : HasPrefix (p ++ t) p = true.
Proof. apply HasPrefix_spec. by exists t. Qed.

Lemma HasPrefix_refl p : HasPrefix p p = true.
Proof. apply HasPrefix_spec. exists []. by rewrite app_nil_r. Qed.

Lemma HasPrefix_nil s : HasPrefix s [] = true.
Proof. by destruct s. Qed.

Lemma HasSuffix_spec s p : HasSuffix s p = true ↔ ∃ t, s = t ++ p.
Proof.
  unfold HasSuffix. rewrite HasPrefix_spec. split.
  - intros [t Ht]. exists (rev t). rewrite <- (rev_involutive s), Ht.
    by rewrite rev_app_distr, rev_involutive.
  - intros [t ->]. exists (rev t). apply rev_app_distr.
Qed.

Lemma TrimPrefix_app p t : TrimPrefix (p ++ t) p = t.
Proof. unfold TrimPrefix. by rewrite HasPrefix_app, drop_app_length. Qed.

Lemma TrimSuffix_app t p : TrimSuffix (t ++ p) p = t.
Proof.
  unfold TrimSuffix. replace (HasSuffix (t ++ p) p) with true
    by (symmetry; apply HasSuffix_spec; eauto).
  rewrite length_app, Nat.add_sub. apply take_app_length.
Qed.

Lemma TrimSuffix_none s p : HasSuffix s p = false → TrimSuffix s p = s.
Proof. unfold TrimSuffix. by intros ->. Qed.

Lemma HasPrefix_length s p : HasPrefix s p = true → length p ≤ length s.
Proof. rewrite HasPrefix_spec. intros [t ->]. rewrite length_app. lia. Qed.

Lemma HasPrefix_trans s p q :
  HasPrefix s p = true → HasPrefix p q = true → HasPrefix s q = true.
Proof.
  rewrite !HasPrefix_spec. intros [t ->] [u ->]. exists (u ++ t). by rewrite app_assoc.
Qed.

(** Two prefixes of one string are comparable. *)
Lemma HasPrefix_total s p q :
  HasPrefix s p = true → HasPrefix s q = true →
  HasPrefix p q = true ∨ HasPrefix q p = true.
Proof.
  rewrite !HasPrefix_spec. intros [t ->] [u E]. revert q u E.
  induction p as [|c p IH]; intros [|d q] u E; [left; by exists []|right; eauto|left; eauto|].
  injection E as -> E. destruct (IH _ _ E) as [[v ->]|[v ->]]; [left|right]; eauto.
Qed.

Lemma Index_cons c s p :
  Index (c :: s) p = if HasPrefix (c :: s) p then Some 0 else S <$> Index s p.
Proof. done. Qed.

Lemma Index_Some s p i :
  Index s p = Some i → ∃ t, s = take i s ++ p ++ t ∧ i ≤ length s.
Proof.
  revert i. induction s as [|c s IH]; intros i.
  - destruct p; cbn; [|done]. intros ?; simplify_eq. exists []. split; [done|lia].
  - rewrite Index_cons. destruct (HasPrefix (c :: s) p) eqn:E.
    + intros ?; simplify_eq. apply HasPrefix_spec in E as [t E]. exists t. split; [done|lia].
    + intros H. destruct (Index s p) as [j|] eqn:Ej; [|done].
      injection H as <-. destruct (IH j eq_refl) as (t & Ht & Hl).
      exists t. cbn. split; [by f_equal|lia].
Qed.

Lemma Index_None s p : Index s p = None ↔ ∀ u t, s ≠ u ++ p ++ t.
Proof.
  induction s as [|c s IH].
  - destruct p; cbn.
    + split; [done|]. intros H. by destruct (H [] []).
    + split; [|done]. intros _ [] ? ?; done.
  - rewrite Index_cons. destruct (HasPrefix (c :: s) p) eqn:E.
    + apply HasPrefix_spec in E as [t E]. split; [done|]. intros H. by destruct (H [] t).
    + rewrite fmap_None, IH. split.
      * intros H [|d u] t Heq; cbn in Heq.
        -- assert (HasPrefix (c :: s) p = true) by (apply HasPrefix_spec; eauto). congruence.
        -- injection Heq as -> Heq. by destruct (H u t).
      * intros H u t ->. by destruct (H (c :: u) t).
Qed.

Lemma Index_byte_app c s t : c ∉ s → Index (s ++ c :: t) [c] = Some (length s).
Proof.
  induction s as [|d s IH]; intros Hc; cbn [app].
  - rewrite Index_cons. cbn [HasPrefix]. by rewrite bool_decide_eq_true_2, HasPrefix_nil by done.
  - apply not_elem_of_cons in Hc as [Hd Hc]. rewrite Index_cons, IH by done. cbn [HasPrefix].
    rewrite bool_decide_eq_false_2 by done. done.
Qed.

Lemma Contains_spec s p : Contains s p = true ↔ ∃ u t, s = u ++ p ++ t.
Proof.
  unfold Contains. rewrite bool_decide_eq_true. split.
  - intros [i Hi]. apply Index_Some in Hi as (t & Ht & _). eauto.
  - intros (u & t & E). destruct (Index s p) eqn:Ei; [eauto|].
    rewrite Index_None in Ei. by destruct (Ei u t).
Qed.

Lemma IndexByte_Some s c i :
  IndexByte s c = Some i → s = take i s ++ c :: drop (S i) s ∧ c ∉ take i s ∧ i < length s.
Proof.
  revert i. induction s as [|d s IH]; intros i; cbn [IndexByte]; [done|].
  case_bool_decide as E.
  - intros ?; simplify_eq. subst. cbn. split; [done|]. split; [apply not_elem_of_nil|lia].
  - destruct (IndexByte s c) as [j|]; [|done]. intros Hi; injection Hi as <-.
    destruct (IH j eq_refl) as (H1 & H2 & H3). cbn. split; [by f_equal|].
    split; [|lia]. rewrite elem_of_cons. intros [->|]; done.
Qed.

Lemma IndexByte_None s c : IndexByte s c = None ↔ c ∉ s.
Proof.
  induction s as [|d s IH]; cbn [IndexByte].
  - split; [intros _; apply not_elem_of_nil|done].
  - rewrite elem_of_cons. case_bool_decide; [naive_solver|].
    rewrite fmap_None, IH. naive_solver.
Qed.

Lemma IndexByte_app s c t : c ∉ s → IndexByte (s ++ c :: t) c = Some (length s).
Proof.
  induction s as [|d s IH]; cbn [IndexByte app length].
  - intros _. by rewrite bool_decide_true.
  - rewrite not_elem_of_cons. intros [Hd Hs].
    rewrite bool_decide_false by congruence. by rewrite IH.
Qed.

(** ** Lemmas: splitting *)

Lemma split_aux_nil sep s cur :
  sep ≠ [] → Index s sep = None → split_aux sep 0 cur s = [rev cur ++ s].
Proof.
  intros Hsep. revert cur. induction s as [|c s IH]; intros cur Hi; cbn [split_aux].
  - by rewrite app_nil_r.
  - rewrite Index_cons in Hi.
    destruct (HasPrefix (c :: s) sep); [done|].
    rewrite fmap_None in Hi. rewrite IH by done. cbn. by rewrite <- app_assoc.
Qed.

Lemma Split_none s sep : sep ≠ [] → Index s sep = None → Split s sep = [s].
Proof. intros. unfold Split. by rewrite split_aux_nil. Qed.

Lemma split_aux_byte c s cur :
  split_aux [c] 0 cur s =
    match IndexByte s c with
    | None => [rev cur ++ s]
    | Some i => (rev cur ++ take i s) :: split_aux [c] 0 [] (drop (S i) s)
    end.
Proof.
  revert cur. induction s as [|d s IH]; intros cur; cbn [split_aux IndexByte HasPrefix].
  { by rewrite app_nil_r. }
  rewrite HasPrefix_nil, Bool.andb_true_r.
  case_bool_decide as E1; case_bool_decide as E2; try congruence.
  - subst. cbn. by rewrite app_nil_r.
  - rewrite IH. destruct (IndexByte s c); cbn; by rewrite <- app_assoc.
Qed.

Lemma Split_byte_app c s t : c ∉ s → Split (s ++ c :: t) [c] = s :: Split t [c].
Proof.
  intros Hc. unfold Split. rewrite split_aux_byte, IndexByte_app by done. cbn.
  rewrite take_app_length. f_equal. f_equal.
  by rewrite drop_app_ge, Nat.sub_succ_l, Nat.sub_diag by lia.
Qed.

Lemma Split_byte_none c s : c ∉ s → Split s [c] = [s].
Proof.
  intros Hc. unfold Split. rewrite split_aux_byte.
  apply IndexByte_None in Hc. by rewrite Hc.
Qed.

Lemma Join_cons x l sep : l ≠ [] → Join (x :: l) sep = x ++ sep ++ Join l sep.
Proof. by destruct l. Qed.

(** Splitting a comma-joined list of comma-free tokens gives the tokens. *)
Lemma Split_Join c l :
  l ≠ [] → Forall (λ x, c ∉ x) l → Split (Join l [c]) [c] = l.
Proof.
  intros Hne Hall. induction l as [|x l IH]; [done|].
  apply Forall_cons in Hall as [Hx Hall]. destruct l as [|y l].
  - by apply Split_byte_none.
  - rewrite Join_cons by done. cbn [app]. rewrite Split_byte_app by done. by rewrite IH.
Qed.

(** A text of lines, each with its end: after the last one comes an empty piece. *)
Lemma Split_lines c l :
  Forall (λ x, c ∉ x) l → Split (concat ((λ x, x ++ [c]) <$> l)) [c] = l ++ [[]].
Proof.
  induction 1 as [|x l Hx _ IH]; [apply Split_byte_none, not_elem_of_nil|].
  cbn [fmap list_fmap concat]. rewrite <- app_assoc. cbn [app]. rewrite Split_byte_app by done.
  f_equal. exact IH.
Qed.

(** ** Lemmas: white space *)

(** Printable ASCII other than the space. *)
Definition graphic (b : byte) : bool := (33 <=? b2z b)%Z && (b2z b <=? 126)%Z.

Lemma space_len_graphic flip a s : graphic a = true → space_len flip (a :: s) = 0.
Proof.
  unfold graphic. intros H. bools. cbn.
  assert (space1 a = false) as -> by (unfold space1; bools; lia).
  destruct s as [|b s]; [done|].
  assert ((if flip then space2 b a else space2 a b) = false) as ->
    by (destruct flip; unfold space2; bools; lia).
  destruct s as [|c s]; [done|].
  assert ((if flip then space3 c b a else space3 a b c) = false) as ->
    by (destruct flip; unfold space3; bools; lia).
  done.
Qed.

Lemma trim_spaces_graphic flip a s :
  graphic a = true → trim_spaces flip 0 (a :: s) = a :: s.
Proof. intros H. cbn [trim_spaces]. by rewrite space_len_graphic. Qed.

(** Trimming a text that starts and ends with a graphic byte, with a trailing
    line feed or without. *)
Lemma TrimSpace_graphic a m z :
  graphic a = true → graphic z = true →
  TrimSpace (a :: m ++ [z]) = a :: m ++ [z].
Proof.
  intros Ha Hz. unfold TrimSpace, TrimLeftSpace, TrimRightSpace.
  rewrite trim_spaces_graphic by done.
  change (a :: m ++ [z]) with ((a :: m) ++ [z]).
  rewrite rev_app_distr. cbn [rev app].
  rewrite trim_spaces_graphic by done. cbn [rev].
  by rewrite rev_app_distr, rev_involutive.
Qed.

Lemma TrimSpace_graphic_nl a m z :
  graphic a = true → graphic z = true →
  TrimSpace (a :: m ++ [z; "010"%char]) = a :: m ++ [z].
Proof.
  intros Ha Hz. unfold TrimSpace, TrimLeftSpace, TrimRightSpace.
  rewrite trim_spaces_graphic by done.
  change (a :: m ++ [z; "010"%char]) with ((a :: m) ++ [z; "010"%char]).
  rewrite rev_app_distr. cbn [rev app].
  change (trim_spaces true 0 ("010"%char :: ?s)) with (trim_spaces true 0 s).
  rewrite trim_spaces_graphic by done. cbn [rev].
  by rewrite rev_app_distr, rev_involutive.
Qed.

Lemma TrimSpace_graphic_spaces a m z n :
  graphic a = true → graphic z = true →
  TrimSpace (a :: m ++ z :: replicate n " "%char) = a :: m ++ [z].
Proof.
  intros Ha Hz. unfold TrimSpace, TrimLeftSpace, TrimRightSpace.
  rewrite trim_spaces_graphic by done.
  change (a :: m ++ z :: replicate n " "%char) with ((a :: m) ++ [z] ++ replicate n " "%char).
  assert (Hrev : rev (replicate n " "%char) = replicate n " "%char)
    by (rewrite rev_alt; apply reverse_replicate).
  rewrite !rev_app_distr, <- app_assoc, Hrev.
  assert (∀ s, trim_spaces true 0 (replicate n " "%char ++ s) = trim_spaces true 0 s) as ->
    by (clear; intros s; induction n as [|n IH]; [done|exact IH]).
  cbn [rev app]. rewrite trim_spaces_graphic by done. cbn [rev].
  by rewrite rev_app_distr, rev_involutive.
Qed.

(** A text of graphic bytes is one field; a space ends a field. *)
Lemma fields_aux_graphic w cur s :
  forallb graphic w = true → fields_aux 0 cur (w ++ s) = fields_aux 0 (rev w ++ cur) s.
Proof.
  revert cur. induction w as [|a w IH]; intros cur; cbn [forallb app rev]; [done|].
  intros H. apply andb_prop in H as [Ha Hw]. cbn [fields_aux].
  rewrite space_len_graphic by done. rewrite IH by done. by rewrite <- app_assoc.
Qed.

Lemma Fields_word w :
  w ≠ [] → forallb graphic w = true → Fields w = [w].
Proof.
  intros Hne Hw. unfold Fields. rewrite <- (app_nil_r w) at 1.
  rewrite fields_aux_graphic, app_nil_r by done. cbn. unfold push_field.
  rewrite bool_decide_false, rev_involutive; [done|].
  intros E. apply Hne. by rewrite <- (rev_involutive w), E.
Qed.

Lemma Fields_word_space w s :
  w ≠ [] → forallb graphic w = true → Fields (w ++ " "%char :: s) = w :: Fields s.
Proof.
  intros Hne Hw. unfold Fields. rewrite fields_aux_graphic, app_nil_r by done.
  cbn [fields_aux]. rewrite (eq_refl : space_len false (" "%char :: s) = 1).
  unfold push_field.
  rewrite bool_decide_false, rev_involutive; [done|].
  intros E. apply Hne. by rewrite <- (rev_involutive w), E.
Qed.

(** ** Lemmas: hexadecimal *)

Lemma hex_val_digit n : (0 ≤ n < 16)%Z → hex_val (hex_digit n) = Some n.
Proof.
  intros Hn. unfold hex_digit, hex_val.
  destruct (n <? 10)%Z eqn:E; bools.
  - rewrite b2z_z2b_small by lia.
    replace ((48 <=? 48 + n)%Z && (48 + n <=? 57)%Z) with true by (symmetry; bools; lia).
    f_equal; lia.
  - rewrite b2z_z2b_small by lia.
    replace ((48 <=? 87 + n)%Z && (87 + n <=? 57)%Z) with false by (symmetry; bools; lia).
    replace ((97 <=? 87 + n)%Z && (87 + n <=? 102)%Z) with true by (symmetry; bools; lia).
    f_equal; lia.
Qed.

Lemma is_hex_digit n : (0 ≤ n < 16)%Z → is_hex (hex_digit n) = true.
Proof. intros. unfold is_hex. rewrite hex_val_digit by done. done. Qed.

Lemma is_hex_graphic b : is_hex b = true → graphic b = true.
Proof.
  intros H. pose proof (byte_ind_bool (λ b, implb (is_hex b) (graphic b)) eq_refl b) as HH.
  cbn in HH. by rewrite H in HH.
Qed.

Lemma length_EncodeToString data : length (EncodeToString data) = 2 * length data.
Proof. unfold EncodeToString. induction data; cbn in *; lia. Qed.

Lemma EncodeToString_hex data : forallb is_hex (EncodeToString data) = true.
Proof.
  unfold EncodeToString. induction data as [|b data IH]; cbn; [done|].
  pose proof (b2z_range b).
  rewrite !is_hex_digit by (split; Z.to_euclidean_division_equations; lia). done.
Qed.

Lemma DecodeString_EncodeToString data : DecodeString (EncodeToString data) = Some data.
Proof.
  unfold EncodeToString. induction data as [|b data IH]; cbn; [done|].
  pose proof (b2z_range b).
  rewrite !hex_val_digit by (split; Z.to_euclidean_division_equations; lia). cbn in *.
  rewrite IH. cbn. rewrite Z.mul_comm, <- Z.div_mod by lia. by rewrite z2b_b2z.
Qed.

#[global] Instance EncodeToString_inj : Inj (=) (=) EncodeToString.
Proof.
  intros a b H. apply (f_equal DecodeString) in H.
  rewrite !DecodeString_EncodeToString in H. by injection H.
Qed.

(** Four digits for the packet lengths. *)
Lemma fmt_04x_digits n :
  (0 ≤ n < 65536)%Z →
  fmt_04x n = [hex_digit (n `div` 4096); hex_digit (n `div` 256 `mod` 16);
               hex_digit (n `div` 16 `mod` 16); hex_digit (n `mod` 16)].
Proof.
  intros Hn. unfold fmt_04x.
  replace (n `div` 4096)%Z with (n `div` 16 `div` 16 `div` 16)%Z
    by (rewrite !Z.div_div by lia; done).
  replace (n `div` 256)%Z with (n `div` 16 `div` 16)%Z by (rewrite Z.div_div by lia; done).
  assert (H1 : (n `div` 16 `div` 16 `div` 16 < 16)%Z).
  { rewrite !Z.div_div by lia. apply Z.div_lt_upper_bound; lia. }
  cbn [hex_rev].
  destruct (n =? 0)%Z eqn:E0; bools; [by subst|].
  destruct (n `div` 16 =? 0)%Z eqn:E1; bools; [rewrite E1; by cbn|].
  destruct (n `div` 16 `div` 16 =? 0)%Z eqn:E2; bools; [rewrite E2; by cbn|].
  assert (0 ≤ n `div` 16)%Z by (apply Z.div_pos; lia).
  assert (0 ≤ n `div` 16 `div` 16)%Z by (apply Z.div_pos; lia).
  assert (0 ≤ n `div` 16 `div` 16 `div` 16)%Z by (apply Z.div_pos; lia).
  destruct (n `div` 16 `div` 16 `div` 16 =? 0)%Z eqn:E3; bools; [rewrite E3; by cbn|].
  rewrite (Z.div_small (n `div` 16 `div` 16 `div` 16)) by lia.
  rewrite (Z.mod_small (n `div` 16 `div` 16 `div` 16)) by lia. done.
Qed.

Lemma fmt_04x_length n : (0 ≤ n < 65536)%Z → length (fmt_04x n) = 4.
Proof. intros. by rewrite fmt_04x_digits. Qed.

Lemma digits_bounds n : (0 ≤ n < 65536)%Z →
  (0 ≤ n `div` 4096 < 16)%Z ∧ (0 ≤ n `div` 256 `mod` 16 < 16)%Z ∧
  (0 ≤ n `div` 16 `mod` 16 < 16)%Z ∧ (0 ≤ n `mod` 16 < 16)%Z.
Proof.
  intros Hn. Z.to_euclidean_division_equations. lia.
Qed.

Lemma digits_value n : (0 ≤ n < 65536)%Z →
  ((((n `div` 4096) * 16 + n `div` 256 `mod` 16) * 16 + n `div` 16 `mod` 16) * 16
    + n `mod` 16)%Z = n.
Proof.
  intros Hn. replace (n `div` 4096)%Z with (n `div` 16 `div` 16 `div` 16)%Z
    by (rewrite !Z.div_div by lia; done).
  replace (n `div` 256)%Z with (n `div` 16 `div` 16)%Z by (rewrite Z.div_div by lia; done).
  pose proof (Z.div_mod n 16). pose proof (Z.div_mod (n `div` 16) 16).
  pose proof (Z.div_mod (n `div` 16 `div` 16) 16). lia.
Qed.

Lemma hex_digit_not_sign n : (0 ≤ n < 16)%Z →
  hex_digit n ≠ "+"%char ∧ hex_digit n ≠ "-"%char.
Proof.
  intros Hn. split; intros E; assert (H := hex_val_digit n Hn); by rewrite E in H.
Qed.

(** The packet length written by [%04x] is read back by [strconv.ParseInt] and
    by [hex.DecodeString]. *)
Lemma ParseInt_fmt_04x n : (0 ≤ n < 65536)%Z → ParseInt16_32 (fmt_04x n) = Some n.
Proof.
  intros Hn. rewrite fmt_04x_digits by done.
  destruct (digits_bounds n Hn) as (H1 & H2 & H3 & H4).
  unfold ParseInt16_32. destruct (hex_digit_not_sign _ H1) as [Hp Hm].
  rewrite !bool_decide_false by done. cbn [hex_number].
  rewrite !hex_val_digit by done. cbn.
  rewrite (Z.mul_0_l 16), Z.add_0_l, digits_value by done.
  replace (n <? _)%Z with true by (symmetry; bools; lia). done.
Qed.

Lemma DecodeString_fmt_04x n : (0 ≤ n < 65536)%Z →
  DecodeString (fmt_04x n) = Some [z2b (n `div` 256); z2b (n `mod` 256)].
Proof.
  intros Hn. rewrite fmt_04x_digits by done.
  destruct (digits_bounds n Hn) as (H1 & H2 & H3 & H4). cbn.
  rewrite !hex_val_digit by done. cbn. f_equal.
  f_equal; [|f_equal]; f_equal; Z.to_euclidean_division_equations; lia.
Qed.

Example Atoi_ex : (Atoi #"12", Atoi #"+7", Atoi #"-1", Atoi #"0x1", Atoi #"", Atoi #"9223372036854775808")
  = (Some 12, Some 7, Some (-1), None, None, None)%Z.
Proof. reflexivity. Qed.
Example Base_ex : Base <$> [ #"/var/run/netns/cni-1"; #"/a//"; #"x"; #"///"; #""]
  = [ #"cni-1"; #"a"; #"x"; #"/"; #"."].
Proof. reflexivity. Qed.
