(* ===== verification/GoNet.v ===== *)
(** * The Go [net] functions the source calls

    [net.SplitHostPort], [net.JoinHostPort], [net.ParseIP] and the predicates
    of [net.IP], from their documented behaviour; and [HostWithoutPort] of
    pkg/proxy/proxy.go, which every component uses. *)

From S2P Require Import Prelude GoStrings.

(** ** Host and port *)

Inductive addr_err :=
  | MissingPort | TooManyColons | MissingBracket | UnexpectedLBracket | UnexpectedRBracket.

#[global] Instance addr_err_eq_dec : EqDecision addr_err.
Proof. solve_decision. Defined.

Definition contains_byte (s : gostring) (c : byte) : bool := bool_decide (is_Some (IndexByte s c)).

Definition check_brackets (lfrom rfrom : nat) (hostport host port : gostring)
    : outcome addr_err (gostring * gostring) :=
  if contains_byte (drop lfrom hostport) "["%char then Err UnexpectedLBracket
  else if contains_byte (drop rfrom hostport) "]"%char then Err UnexpectedRBracket
  else Ok (host, port).

Definition SplitHostPort (hostport : gostring) : outcome addr_err (gostring * gostring) :=
  match LastIndexByte hostport ":"%char with
  | None => Err MissingPort
  | Some i =>
      let port := drop (S i) hostport in
      if HasPrefix hostport #"[" then
        match IndexByte hostport "]"%char with
        | None => Err MissingBracket
        | Some close =>
            if S close =? length hostport then Err MissingPort
            else if S close =? i
            then check_brackets 1 (S close) hostport (slice 1 close hostport) port
            else if bool_decide (hostport !! S close = Some ":"%char) then Err TooManyColons
            else Err MissingPort
        end
      else
        let host := take i hostport in
        if contains_byte host ":"%char then Err TooManyColons
        else check_brackets 0 0 hostport host port
  end.

Definition JoinHostPort (host port : gostring) : gostring :=
  if contains_byte host ":"%char then #"[" ++ host ++ #"]:" ++ port
  else host ++ #":" ++ port.

Definition HostWithoutPort (host : gostring) : gostring :=
  match SplitHostPort host with
  | Ok (h, _) => h
  | _ => host
  end.

(** ** IP addresses

    A [net.IP] returned by [ParseIP] is its 16 bytes; an IPv4 address is
    mapped under ::ffff:0:0/96. *)
Definition IP := list byte.

Fixpoint parseIPv4Fields (val digLen : Z) (fields : bytes) (s : gostring) : option bytes :=
  match s with
  | [] => if length fields <? 3 then None else Some (fields ++ [z2b val])
  | c :: s' =>
      let z := b2z c in
      if (48 <=? z)%Z && (z <=? 57)%Z then
        if (digLen =? 1)%Z && (val =? 0)%Z then None else
        let val := (val * 10 + (z - 48))%Z in
        if (255 <? val)%Z then None else parseIPv4Fields val (digLen + 1) fields s'
      else if bool_decide (c = "."%char) then
        if (digLen =? 0)%Z || bool_decide (s' = []) then None
        else if length fields =? 3 then None
        else parseIPv4Fields 0 0 (fields ++ [z2b val]) s'
      else None
  end.

(** The run of hexadecimal digits [s] starts with, and the rest. *)
Fixpoint hex_run (s : gostring) : list Z * gostring :=
  match s with
  | [] => ([], [])
  | c :: s' =>
      match hex_val c with
      | Some v => let '(ds, rest) := hex_run s' in (v :: ds, rest)
      | None => ([], s)
      end
  end.

Definition hex_value (ds : list Z) : Z := foldl (λ acc d, acc * 16 + d)%Z 0%Z ds.

(** The groups of an IPv6 address; [fuel] is the number of 16-bit groups left,
    8 at the start, so the loop ends with [i = 16] when it is used up. *)
Fixpoint parseIPv6_loop (fuel : nat) (ip : bytes) (ellipsis : option nat) (s : gostring)
    : option (bytes * option nat * gostring) :=
  match fuel with
  | O => Some (ip, ellipsis, s)
  | S fuel =>
      let '(ds, rest) := hex_run s in
      if (4 <? length ds) || (length ds =? 0) then None else
      match rest with
      | c :: r =>
          if bool_decide (c = "."%char) then
            if bool_decide (ellipsis = None) && negb (length ip =? 12) then None
            else if 16 <? length ip + 4 then None
            else v4 ← parseIPv4Fields 0 0 [] s; Some (ip ++ v4, ellipsis, [])
          else
            let ip := ip ++ [z2b (hex_value ds `div` 256); z2b (hex_value ds)] in
            if negb (bool_decide (c = ":"%char)) then None else
            match r with
            | [] => None
            | d :: r' =>
                if bool_decide (d = ":"%char) then
                  if bool_decide (is_Some ellipsis) then None
                  else if bool_decide (r' = []) then Some (ip, Some (length ip), [])
                  else parseIPv6_loop fuel ip (Some (length ip)) r'
                else parseIPv6_loop fuel ip ellipsis r
            end
      | [] => Some (ip ++ [z2b (hex_value ds `div` 256); z2b (hex_value ds)], ellipsis, [])
      end
  end.

Definition expand_ellipsis (ip : bytes) (ellipsis : option nat) : option IP :=
  if length ip <? 16 then
    match ellipsis with
    | None => None
    | Some e => Some (take e ip ++ replicate (16 - length ip) "000"%char ++ drop e ip)
    end
  else if bool_decide (is_Some ellipsis) then None else Some ip.

Definition parseIPv6 (s : gostring) : option IP :=
  let '(s, ellipsis) := if HasPrefix s #"::" then (drop 2 s, Some 0) else (s, None) in
  if bool_decide (s = []) && bool_decide (is_Some ellipsis)
  then Some (replicate 16 "000"%char)
  else
    match parseIPv6_loop 8 [] ellipsis s with
    | Some (ip, ellipsis, rest) =>
        if bool_decide (rest = []) then expand_ellipsis ip ellipsis else None
    | None => None
    end.

Definition v4_prefix : bytes := replicate 10 "000"%char ++ ["255"%char; "255"%char].

(** The first of '.', ':' and '%' selects the syntax; an address with a zone
    is not an IP. *)
Definition ParseIP (s : gostring) : option IP :=
  match find (λ c, bool_decide (c ∈ #".:%")) s with
  | Some c =>
      if bool_decide (c = "."%char) then (λ v4, v4_prefix ++ v4) <$> parseIPv4Fields 0 0 [] s
      else if bool_decide (c = ":"%char)
      then if contains_byte s "%"%char then None else parseIPv6 s
      else None
  | None => None
  end.

(** [net.ParseCIDR]: the address, when what follows the first slash is a
    decimal number of at most its bits. *)
Definition mask_value (bits : Z) (s : gostring) : option Z :=
  if bool_decide (s = []) then None else
  n ← dec_number 0 s; if (n <=? bits)%Z then Some n else None.
Definition ParseCIDR (s : gostring) : option (IP * Z) :=
  match IndexByte s "/"%char with
  | None => None
  | Some i =>
      let addr := take i s in
      ip ← ParseIP addr;
      let v4 := bool_decide (find (λ c, bool_decide (c ∈ #".:%")) addr = Some "."%char) in
      n ← mask_value (if v4 then 32 else 128) (drop (S i) s);
      Some (ip, n)
  end.

Definition To4 (ip : IP) : option bytes :=
  if (length ip =? 16) && bool_decide (take 12 ip = v4_prefix) then Some (drop 12 ip)
  else if length ip =? 4 then Some ip
  else None.
Definition To16 (ip : IP) : option bytes :=
  if length ip =? 4 then Some (v4_prefix ++ ip)
  else if length ip =? 16 then Some ip else None.

Definition IPv6loopback : IP := replicate 15 "000"%char ++ ["001"%char].

Definition IsLoopback (ip : IP) : bool :=
  match To4 ip with
  | Some ip4 => bool_decide (ip4 !! 0 = Some "127"%char)
  | None => bool_decide (ip = IPv6loopback)
  end.

Definition IsLinkLocalUnicast (ip : IP) : bool :=
  match To4 ip with
  | Some ip4 => bool_decide (ip4 !! 0 = Some "169"%char) && bool_decide (ip4 !! 1 = Some "254"%char)
  | None =>
      (length ip =? 16) && bool_decide (ip !! 0 = Some "254"%char) &&
      match ip !! 1 with Some b => (Z.land (b2z b) 192 =? 128)%Z | None => false end
  end.

(** [ip.String()]: dotted for IPv4; for IPv6 the leftmost longest run of two
    or more zero groups is written as two colons. *)
Fixpoint groups (ip : bytes) : list Z :=
  match ip with
  | h :: l :: ip => (b2z h * 256 + b2z l)%Z :: groups ip
  | _ => []
  end.
Fixpoint zero_run (gs : list Z) : nat :=
  match gs with
  | g :: gs => if (g =? 0)%Z then S (zero_run gs) else 0
  | [] => 0
  end.
(** The start and the length of the run, [(0, 0)] if there is none. *)
Fixpoint longest_run (at_ : nat) (gs : list Z) (best : nat * nat) : nat * nat :=
  match gs with
  | [] => best
  | _ :: rest =>
      let n := zero_run gs in
      longest_run (S at_) rest (if (2 <=? n) && (best.2 <? n) then (at_, n) else best)
  end.
Definition fmt_x (n : Z) : gostring := if (n =? 0)%Z then #"0" else rev (hex_rev 16 n).
Definition IPv6_String (gs : list Z) : gostring :=
  let '(i, n) := longest_run 0 gs (0, 0) in
  if n =? 0 then Join (fmt_x <$> gs) #":"
  else Join (fmt_x <$> take i gs) #":" ++ #"::" ++ Join (fmt_x <$> drop (i + n) gs) #":".
Definition IP_String (ip : IP) : gostring :=
  if bool_decide (ip = []) then #"<nil>" else
  match To4 ip with
  | Some ip4 => Join ((λ b, fmt_d (b2z b)) <$> ip4) #"."
  | None => if length ip =? 16 then IPv6_String (groups ip) else #"?" ++ EncodeToString ip
  end.

(** ** Lemmas *)

Lemma contains_byte_true s c : contains_byte s c = true ↔ c ∈ s.
Proof.
  unfold contains_byte. rewrite bool_decide_eq_true. split.
  - intros [i Hi]. apply IndexByte_Some in Hi as (E & _ & _). rewrite E. set_solver.
  - intros Hin. destruct (IndexByte s c) eqn:E; [eauto|].
    by apply IndexByte_None in E.
Qed.

Lemma contains_byte_false s c : contains_byte s c = false ↔ c ∉ s.
Proof. rewrite <- not_true_iff_false. by rewrite contains_byte_true. Qed.
#[export] Hint Rewrite contains_byte_true contains_byte_false : bools.

Lemma LastIndexByte_app s c t : c ∉ t → LastIndexByte (s ++ c :: t) c = Some (length s).
Proof.
  intros Ht. unfold LastIndexByte. rewrite rev_app_distr. cbn [rev].
  rewrite <- app_assoc. cbn [app]. rewrite IndexByte_app.
  - cbn. f_equal. rewrite length_rev, length_app. cbn. lia.
  - by rewrite list_elem_of_In, <- in_rev, <- list_elem_of_In.
Qed.

Lemma LastIndexByte_None s c : LastIndexByte s c = None ↔ c ∉ s.
Proof.
  unfold LastIndexByte. rewrite fmap_None, IndexByte_None.
  by rewrite !list_elem_of_In, <- in_rev.
Qed.

(** A host name with no port is returned unchanged. *)
Lemma HostWithoutPort_plain h : ":"%char ∉ h → HostWithoutPort h = h.
Proof.
  intros Hc. unfold HostWithoutPort, SplitHostPort.
  apply LastIndexByte_None in Hc. by rewrite Hc.
Qed.

(** Characters that [SplitHostPort] treats specially. *)
Definition plain_host (h : gostring) : bool :=
  negb (contains_byte h ":"%char) && negb (contains_byte h "["%char)
  && negb (contains_byte h "]"%char).

Lemma HasPrefix_lbracket s : HasPrefix s #"[" = true → "["%char ∈ s.
Proof. rewrite HasPrefix_spec. intros [t ->]. set_solver. Qed.

Lemma SplitHostPort_Join h p :
  plain_host h = true → plain_host p = true →
  SplitHostPort (h ++ ":"%char :: p) = Ok (h, p).
Proof.
  unfold plain_host. intros Hh Hp. bools. destruct Hh as [[H1 H2] H3], Hp as [[P1 P2] P3].
  unfold SplitHostPort. rewrite LastIndexByte_app by done.
  replace (HasPrefix (h ++ ":"%char :: p) #"[") with false.
  2:{ symmetry. apply not_true_iff_false. intros HP. apply HasPrefix_lbracket in HP. set_solver. }
  rewrite take_app_length. apply contains_byte_false in H1 as ->.
  unfold check_brackets. rewrite !drop_0.
  assert (contains_byte (h ++ ":"%char :: p) "["%char = false) as ->
    by (bools; set_solver).
  assert (contains_byte (h ++ ":"%char :: p) "]"%char = false) as ->
    by (bools; set_solver).
  by rewrite drop_app_ge, Nat.sub_succ_l, Nat.sub_diag by lia.
Qed.

Lemma HostWithoutPort_port h p :
  plain_host h = true → plain_host p = true →
  HostWithoutPort (h ++ ":"%char :: p) = h.
Proof. intros. unfold HostWithoutPort. by rewrite SplitHostPort_Join. Qed.

Example ParseIP_ex1 : ParseIP #"127.0.0.1" = Some (v4_prefix ++ ["127"; "000"; "000"; "001"]%char).
Proof. reflexivity. Qed.
Example ParseIP_ex2 : ParseIP #"::1" = Some IPv6loopback.
Proof. reflexivity. Qed.
Example ParseIP_ex3 : IsLinkLocalUnicast <$> ParseIP #"fe80::a:1" = Some true.
Proof. reflexivity. Qed.
Example ParseIP_ex4 : (ParseIP #"1.2.3", ParseIP #"01.2.3.4", ParseIP #"fe80::1%eth0", ParseIP #"1::2::3") = (None, None, None, None).
Proof. reflexivity. Qed.
Example IP_String_ex : IP_String <$> omap ParseIP
    [ #"127.0.0.2"; #"::1"; #"fe80:0:0:1:0:0:0:A"; #"1:0:2:3:4:5:6:7"; #"::"; #"2001:db8::"]
  = [ #"127.0.0.2"; #"::1"; #"fe80:0:0:1::a"; #"1:0:2:3:4:5:6:7"; #"::"; #"2001:db8::"].
Proof. reflexivity. Qed.
Example HostWithoutPort_ex : HostWithoutPort #"[::1]:443" = #"::1" ∧ HostWithoutPort #"::1" = #"::1".
Proof. split; reflexivity. Qed.

Example ParseCIDR_ex :
  (snd <$> ParseCIDR #"10.244.0.6/24", snd <$> ParseCIDR #"fd00::6/64", snd <$> ParseCIDR #"10.0.0.1/33",
   snd <$> ParseCIDR #"10.0.0.1", snd <$> ParseCIDR #"10.0.0.1/")
  = (Some 24, Some 64, None, None, None)%Z.
Proof. reflexivity. Qed.
