(* ===== verification/PodMap.v ===== *)
(** * The pod map (pkg/portals/podmap.go)

    [PodMap] keeps two Go maps of pointers to shared [PodInfo] structs: a
    binding made through the UID index is seen through the IP index because
    both hold the same pointer. The model keeps that store: [heap] is the
    memory of the [PodInfo] structs, [byUID] and [byIP] hold locations. Every
    operation runs under the write lock, so it is one step. *)

From S2P Require Import Prelude GoStrings.

(** ** Data *)

Record PodInfo := mkPodInfo {
  UID : gostring;
  Namespace : gostring;
  Name : gostring;
  IPs : list gostring;
  Annotations : gmap gostring gostring;
  Labels : gmap gostring gostring;
  Identity : gostring;
  Policy : gostring;
  Bound : bool;
}.

(** [pod.Identity, pod.Policy, pod.Bound = i, p, b] *)
Definition set_binding (i p : gostring) (b : bool) (pod : PodInfo) : PodInfo :=
  mkPodInfo (UID pod) (Namespace pod) (Name pod) (IPs pod)
    (Annotations pod) (Labels pod) i p b.

(** [&PodInfo{UID: uid}] *)
Definition empty_pod (uid : gostring) : PodInfo :=
  mkPodInfo uid [] [] [] ∅ ∅ [] [] false.

Definition loc := positive.

Record PodMap := mkPodMap {
  heap : gmap loc PodInfo;
  byUID : gmap gostring loc;
  byIP : gmap gostring loc;
}.

Definition NewPodMap : PodMap := mkPodMap ∅ ∅ ∅.

(** A new struct at a location no struct has. *)
Definition alloc (info : PodInfo) (pm : PodMap) : loc * PodMap :=
  let l := fresh (dom (heap pm)) in
  (l, mkPodMap (<[l := info]> (heap pm)) (byUID pm) (byIP pm)).

(** ** Operations *)

(** [delete(m, ip)] for the addresses of [ips] that [keep] does not hold. *)
Definition delete_ips {A} (keep : list gostring) (ips : list gostring) (m : gmap gostring A)
    : gmap gostring A :=
  foldl (λ m ip, if mem ip keep then m else delete ip m) m ips.

(** [for _, ip := range ips { if ip != "" { m[ip] = v } }] *)
Definition insert_ips {A} (v : A) (ips : list gostring) (m : gmap gostring A)
    : gmap gostring A :=
  foldl (λ m ip, if bool_decide (ip = []) then m else <[ip := v]> m) m ips.

Definition policy_key : gostring := #"service-portal.gke.io/policy".
Definition identity_key : gostring := #"service-portal.gke.io/identity".

(** The binding a registration gets: kept from the registered pod, or taken
    from the policy annotation, or as the caller filled it in. *)
Definition rebind (ex : option PodInfo) (info : PodInfo) : PodInfo :=
  match ex with
  | Some ex => set_binding (Identity ex) (Policy ex) (Bound ex) info
  | None =>
      match Annotations info !! policy_key with
      | Some pol =>
          if bool_decide (pol = []) then info
          else set_binding (default [] (Annotations info !! identity_key)) pol true info
      | None => info
      end
  end.

Definition addOrUpdateLocked (l : option loc) (pm : PodMap) : PodMap :=
  match l ≫= λ l, (λ info, (l, info)) <$> heap pm !! l with
  | None => pm
  | Some (l, info) =>
      if bool_decide (UID info = []) then pm else
      let ex := byUID pm !! UID info ≫= λ l, heap pm !! l in
      let byIP1 :=
        match ex with
        | Some ex => delete_ips (IPs info) (IPs ex) (byIP pm)
        | None => byIP pm
        end in
      mkPodMap (<[l := rebind ex info]> (heap pm))
               (<[UID info := l]> (byUID pm))
               (insert_ips l (IPs info) byIP1)
  end.

(** The pointer is to a struct of the caller's, freshly decoded. *)
Definition AddOrUpdatePod (info : PodInfo) (pm : PodMap) : PodMap :=
  let '(l, pm) := alloc info pm in addOrUpdateLocked (Some l) pm.

Definition remove_loc (uid : gostring) (l : loc) (pm : PodMap) : PodMap :=
  match heap pm !! l with
  | Some pod => mkPodMap (heap pm) (delete uid (byUID pm)) (delete_ips [] (IPs pod) (byIP pm))
  | None => pm
  end.

Definition RemovePod (uid : gostring) (pm : PodMap) : PodMap :=
  match byUID pm !! uid with
  | Some l => remove_loc uid l pm
  | None => pm
  end.

(** [for uid, pod := range pm.byUID { if !active[uid] { ... } }] over the
    entries in the order the runtime yields them. *)
Definition sweep (active : list gostring) (order : list (gostring * loc)) (pm : PodMap) : PodMap :=
  foldl (λ pm e, if mem e.1 active then pm else remove_loc e.1 e.2 pm) pm order.

Definition SynchronizePods (pods : list PodInfo) (pm : PodMap) : PodMap :=
  let pm := foldl (λ pm info, AddOrUpdatePod info pm) pm pods in
  sweep (UID <$> pods) (map_to_list (byUID pm)) pm.

Definition GetPodByIP (ip : gostring) (pm : PodMap) : option loc := byIP pm !! ip.
(** What the caller reads through the returned pointer. *)
Definition pod_at (ip : gostring) (pm : PodMap) : option PodInfo :=
  GetPodByIP ip pm ≫= λ l, heap pm !! l.

Definition bind_at (l : loc) (i p : gostring) (b : bool) (pm : PodMap) : PodMap :=
  mkPodMap (alter (set_binding i p b) l (heap pm)) (byUID pm) (byIP pm).

Definition Bind (uid identity policy : gostring) (pm : PodMap) : PodMap :=
  match byUID pm !! uid with
  | Some l => bind_at l identity policy true pm
  | None =>
      let '(l, pm) := alloc (empty_pod uid) pm in
      bind_at l identity policy true
        (mkPodMap (heap pm) (<[uid := l]> (byUID pm)) (byIP pm))
  end.

Inductive unbind_err := PodNotFound (uid : gostring).

Definition Unbind (uid : gostring) (pm : PodMap) : outcome unbind_err PodMap :=
  match byUID pm !! uid with
  | None => Err (PodNotFound uid)
  | Some l => Ok (bind_at l [] [] false pm)
  end.

Definition IsRuleAllowed `{Unicode} (pod : option PodInfo) (ruleName host : gostring) : bool :=
  match pod with
  | None => false
  | Some pod =>
      if negb (Bound pod) || bool_decide (Policy pod = []) then false else
      existsb (λ tok,
        let tok := TrimSpace (ToLower tok) in
        bool_decide (tok = #"*") || bool_decide (tok = ToLower ruleName)
        || bool_decide (tok = ToLower host))
        (Split (Policy pod) #",")
  end.

(** ** The admin API

    The JSON decoders are parameters: each gives the decoded value, or [None]
    where [Decode] returns an error. *)
Record BindRequest := mkBindRequest { b_podUID : gostring; b_identity : gostring; b_policy : gostring }.

Record AdminRequest := mkAdminRequest {
  a_method : gostring;
  a_path : gostring;
  a_query : gostring → gostring;      (** [r.URL.Query().Get] *)
  a_body : bytes;
}.

Inductive admin_response :=
  | StatusBound (uid : gostring)
  | StatusUnbound (uid : gostring)
  | PodList (pods : list PodInfo)
  | StatusOK
  | ErrorStatus (code : nat).

(** The patterns the mux serves; a request of another path gets 404. *)
Inductive Endpoint := EpBind | EpUnbind | EpPods | EpPod.

Section Admin.
Context (decode_bind : bytes → option BindRequest)
        (decode_unbind : bytes → option gostring)
        (decode_pod : bytes → option PodInfo)
        (decode_pods : bytes → option (list PodInfo)).

Definition bind_handler (r : AdminRequest) (pm : PodMap) : admin_response * PodMap :=
  let req := match decode_bind (a_body r) with
             | Some req => req
             | None => mkBindRequest (a_query r #"podUID") (a_query r #"identity") (a_query r #"policy")
             end in
  if bool_decide (b_podUID req = []) then (ErrorStatus 400, pm)
  else (StatusBound (b_podUID req), Bind (b_podUID req) (b_identity req) (b_policy req) pm).

Definition unbind_handler (r : AdminRequest) (pm : PodMap) : admin_response * PodMap :=
  let uid := match decode_unbind (a_body r) with
             | Some uid => uid
             | None => a_query r #"podUID"
             end in
  if bool_decide (uid = []) then (ErrorStatus 400, pm)
  else match Unbind uid pm with
       | Ok pm => (StatusUnbound uid, pm)
       | _ => (ErrorStatus 404, pm)
       end.

Definition pods_handler (r : AdminRequest) (pm : PodMap) : admin_response * PodMap :=
  if bool_decide (a_method r = #"GET") then
    (PodList (omap (λ l, heap pm !! l) ((map_to_list (byUID pm)).*2)), pm)
  else if bool_decide (a_method r = #"POST") then
    match decode_pod (a_body r) with
    | None => (ErrorStatus 400, pm)
    | Some info => (StatusOK, AddOrUpdatePod info pm)
    end
  else if bool_decide (a_method r = #"PUT") then
    match decode_pods (a_body r) with
    | None => (ErrorStatus 400, pm)
    | Some pods => (StatusOK, SynchronizePods pods pm)
    end
  else (ErrorStatus 405, pm).

Definition pod_handler (r : AdminRequest) (pm : PodMap) : admin_response * PodMap :=
  let uid := TrimPrefix (a_path r) #"/api/v1/pods/" in
  if bool_decide (a_method r = #"DELETE") && negb (bool_decide (uid = []))
  then (StatusOK, RemovePod uid pm)
  else (ErrorStatus 404, pm).

Definition AdminHandler (e : Endpoint) : AdminRequest → PodMap → admin_response * PodMap :=
  match e with
  | EpBind => bind_handler
  | EpUnbind => unbind_handler
  | EpPods => pods_handler
  | EpPod => pod_handler
  end.
End Admin.
