(* ===== verification/PodMapSpec.v ===== *)
(** * What the pod map promises

    The contract of [PodMap] without pointers: a registry of pods by UID and,
    for every address, the UID it belongs to. [abs] forgets the heap; the
    refinement theorem says every operation on the pointer store computes the
    registry operation. *)

From S2P Require Import Prelude GoStrings PodMap.

(** ** The registry *)

Record Registry := mkRegistry {
  pods : gmap gostring PodInfo;
  owner : gmap gostring gostring;
}.

Definition r_add (info : PodInfo) (r : Registry) : Registry :=
  if bool_decide (UID info = []) then r else
  let ex := pods r !! UID info in
  mkRegistry (<[UID info := rebind ex info]> (pods r))
    (insert_ips (UID info) (IPs info)
      match ex with
      | Some ex => delete_ips (IPs info) (IPs ex) (owner r)
      | None => owner r
      end).

Definition r_remove (uid : gostring) (r : Registry) : Registry :=
  match pods r !! uid with
  | Some pod => mkRegistry (delete uid (pods r)) (delete_ips [] (IPs pod) (owner r))
  | None => r
  end.

(** The pods outside [active] go, with every address they list. *)
Definition stale_ip (active : list gostring) (r : Registry) (ip : gostring) : Prop :=
  map_Exists (λ uid pod, uid ∉ active ∧ ip ∈ IPs pod) (pods r).
#[global] Instance stale_ip_dec active r ip : Decision (stale_ip active r ip).
Proof. unfold stale_ip. apply _. Defined.

Definition r_sweep (active : list gostring) (r : Registry) : Registry :=
  mkRegistry (filter (λ e, e.1 ∈ active) (pods r))
             (filter (λ e, ¬ stale_ip active r e.1) (owner r)).

Definition r_sync (l : list PodInfo) (r : Registry) : Registry :=
  r_sweep (UID <$> l) (foldl (λ r info, r_add info r) r l).

Definition r_bind (uid i p : gostring) (r : Registry) : Registry :=
  mkRegistry (<[uid := set_binding i p true (default (empty_pod uid) (pods r !! uid))]> (pods r))
             (owner r).

Definition r_unbind (uid : gostring) (r : Registry) : option Registry :=
  pod ← pods r !! uid;
  Some (mkRegistry (<[uid := set_binding [] [] false pod]> (pods r)) (owner r)).

Definition r_lookup (ip : gostring) (r : Registry) : option PodInfo :=
  owner r !! ip ≫= λ uid, pods r !! uid.

(** The registry a store represents. *)
Definition abs (pm : PodMap) : Registry :=
  mkRegistry (omap (λ l, heap pm !! l) (byUID pm))
             (omap (λ l, UID <$> heap pm !! l) (byIP pm)).

#[global] Arguments abs : simpl never.

(** ** The store's invariant

    Both indexes point into the heap; a UID points at the struct of that UID;
    an address points at the struct its owner's UID points at, and that
    struct lists the address. *)
Record wf (pm : PodMap) : Prop := {
  wf_uid : ∀ uid l, byUID pm !! uid = Some l →
    ∃ pod, heap pm !! l = Some pod ∧ UID pod = uid;
  wf_ip : ∀ ip l, byIP pm !! ip = Some l →
    ∃ pod, heap pm !! l = Some pod ∧ ip ∈ IPs pod ∧ ip ≠ [] ∧
           byUID pm !! UID pod = Some l;
}.

(** One operation of the API on the store, and the reachable stores. *)
Inductive pod_op :=
  | OpAdd (info : PodInfo)
  | OpRemove (uid : gostring)
  | OpSync (l : list PodInfo)
  | OpBind (uid i p : gostring)
  | OpUnbind (uid : gostring).

Definition run_op (o : pod_op) (pm : PodMap) : PodMap :=
  match o with
  | OpAdd info => AddOrUpdatePod info pm
  | OpRemove uid => RemovePod uid pm
  | OpSync l => SynchronizePods l pm
  | OpBind uid i p => Bind uid i p pm
  | OpUnbind uid => match Unbind uid pm with Ok pm' => pm' | _ => pm end
  end.

Definition r_op (o : pod_op) (r : Registry) : Registry :=
  match o with
  | OpAdd info => r_add info r
  | OpRemove uid => r_remove uid r
  | OpSync l => r_sync l r
  | OpBind uid i p => r_bind uid i p r
  | OpUnbind uid => default r (r_unbind uid r)
  end.

Inductive pod_reachable : PodMap → Prop :=
  | reach_new : pod_reachable NewPodMap
  | reach_op o pm : pod_reachable pm → pod_reachable (run_op o pm).

(** ** Lookups of the folds *)

Lemma lookup_delete_ips {A} (keep ips : list gostring) (m : gmap gostring A) (k : gostring) :
  delete_ips keep ips m !! k = if decide (k ∈ ips ∧ k ∉ keep) then None else m !! k.
Proof.
  unfold delete_ips. revert m. induction ips as [|ip ips IH]; intros m; cbn [foldl].
  { rewrite decide_False by set_solver. done. }
  rewrite IH. destruct (mem ip keep) eqn:E; bools.
  - repeat case_decide; set_solver.
  - destruct (decide (k = ip)) as [->|Hne].
    + rewrite lookup_delete_eq. repeat case_decide; set_solver.
    + rewrite lookup_delete_ne by done. repeat case_decide; set_solver.
Qed.

Lemma lookup_insert_ips {A} (v : A) (ips : list gostring) (m : gmap gostring A) (k : gostring) :
  insert_ips v ips m !! k = if decide (k ∈ ips ∧ k ≠ []) then Some v else m !! k.
Proof.
  unfold insert_ips. revert m. induction ips as [|ip ips IH]; intros m; cbn [foldl].
  { rewrite decide_False by set_solver. done. }
  rewrite IH. case_bool_decide as E.
  - subst. repeat case_decide; set_solver.
  - destruct (decide (k = ip)) as [->|Hne].
    + rewrite lookup_insert_eq. repeat case_decide; set_solver.
    + rewrite lookup_insert_ne by done. repeat case_decide; set_solver.
Qed.

Create HintDb podmap.
#[export] Hint Rewrite @lookup_delete_ips @lookup_insert_ips @lookup_omap : podmap.

Lemma Registry_eq r1 r2 :
  (∀ u, pods r1 !! u = pods r2 !! u) → (∀ i, owner r1 !! i = owner r2 !! i) → r1 = r2.
Proof. intros H1 H2. destruct r1, r2; cbn in *. f_equal; by apply map_eq. Qed.

Lemma abs_pods pm uid : pods (abs pm) !! uid = byUID pm !! uid ≫= λ l, heap pm !! l.
Proof. apply lookup_omap. Qed.
Lemma abs_owner pm ip : owner (abs pm) !! ip = byIP pm !! ip ≫= λ l, UID <$> heap pm !! l.
Proof. apply lookup_omap. Qed.

(** The address index agrees with the pointers. *)
Lemma abs_lookup pm ip : wf pm → r_lookup ip (abs pm) = pod_at ip pm.
Proof.
  intros Hwf. unfold r_lookup, pod_at, GetPodByIP. rewrite abs_owner.
  destruct (byIP pm !! ip) as [l|] eqn:E; [|done].
  destruct (wf_ip _ Hwf _ _ E) as (pod & Hl & _ & _ & Hu). cbn. rewrite Hl. cbn.
  rewrite abs_pods, Hu. cbn. by rewrite Hl.
Qed.

(** ** Allocation and registration *)

Lemma alloc_fresh info pm : heap pm !! (alloc info pm).1 = None.
Proof. cbn. apply not_elem_of_dom, is_fresh. Qed.

Lemma wf_uid_ne pm uid l l' :
  wf pm → heap pm !! l' = None → byUID pm !! uid = Some l → l ≠ l'.
Proof. intros Hwf Hn E ->. destruct (wf_uid _ Hwf _ _ E) as (? & ? & _). congruence. Qed.

Lemma wf_ip_ne pm ip l l' :
  wf pm → heap pm !! l' = None → byIP pm !! ip = Some l → l ≠ l'.
Proof. intros Hwf Hn E ->. destruct (wf_ip _ Hwf _ _ E) as (? & ? & _). congruence. Qed.

Lemma rebind_UID ex info : UID (rebind ex info) = UID info.
Proof. unfold rebind. by repeat case_match. Qed.
Lemma rebind_IPs ex info : IPs (rebind ex info) = IPs info.
Proof. unfold rebind. by repeat case_match. Qed.

(** [AddOrUpdatePod] in one equation, for a fresh location. *)
Lemma AddOrUpdatePod_eq info pm :
  UID info ≠ [] → wf pm →
  let l := (alloc info pm).1 in
  let ex := byUID pm !! UID info ≫= λ l, heap pm !! l in
  AddOrUpdatePod info pm =
    mkPodMap (<[l := rebind ex info]> (heap pm)) (<[UID info := l]> (byUID pm))
      (insert_ips l (IPs info)
        match ex with
        | Some ex => delete_ips (IPs info) (IPs ex) (byIP pm)
        | None => byIP pm
        end).
Proof.
  intros Hu Hwf l ex. unfold AddOrUpdatePod.
  pose proof (alloc_fresh info pm) as Hfresh. fold l in Hfresh.
  unfold alloc. change (fresh (dom (heap pm))) with l. unfold addOrUpdateLocked. cbn.
  rewrite lookup_insert_eq. cbn. rewrite bool_decide_false by done.
  rewrite insert_insert_eq.
  replace (byUID pm !! UID info ≫= λ l0, <[l:=info]> (heap pm) !! l0) with ex; [done|].
  unfold ex. destruct (byUID pm !! UID info) as [l'|] eqn:E; [|done]. cbn.
  rewrite lookup_insert_ne; [done|]. apply not_eq_sym. by eapply wf_uid_ne.
Qed.

Lemma AddOrUpdatePod_noop info pm :
  UID info = [] → heap (AddOrUpdatePod info pm) = <[(alloc info pm).1 := info]> (heap pm)
    ∧ byUID (AddOrUpdatePod info pm) = byUID pm ∧ byIP (AddOrUpdatePod info pm) = byIP pm.
Proof.
  intros Hu. unfold AddOrUpdatePod, alloc, addOrUpdateLocked. cbn.
  rewrite lookup_insert_eq. cbn. by rewrite bool_decide_true.
Qed.

(** A struct no index points at can be added to the heap. *)
Lemma wf_abs_heap_fresh pm h l info :
  wf pm → heap pm !! l = None → h = <[l := info]> (heap pm) →
  let pm' := mkPodMap h (byUID pm) (byIP pm) in wf pm' ∧ abs pm' = abs pm.
Proof.
  intros Hwf Hn -> pm'.
  assert (Hu : ∀ uid l', byUID pm !! uid = Some l' → <[l := info]> (heap pm) !! l' = heap pm !! l').
  { intros uid l' E. rewrite lookup_insert_ne; [done|]. apply not_eq_sym. by eapply wf_uid_ne. }
  assert (Hi : ∀ ip l', byIP pm !! ip = Some l' → <[l := info]> (heap pm) !! l' = heap pm !! l').
  { intros uid l' E. rewrite lookup_insert_ne; [done|]. apply not_eq_sym. by eapply wf_ip_ne. }
  split.
  - split; cbn.
    + intros uid l' E. rewrite (Hu _ _ E). by apply (wf_uid _ Hwf).
    + intros ip l' E. rewrite (Hi _ _ E). by apply (wf_ip _ Hwf).
  - apply Registry_eq; intros k; rewrite ?abs_pods, ?abs_owner; cbn.
    + destruct (byUID pm !! k) eqn:E; [cbn|done]. by rewrite (Hu _ _ E).
    + destruct (byIP pm !! k) eqn:E; [cbn|done]. by rewrite (Hi _ _ E).
Qed.

Lemma AddOrUpdatePod_wf info pm : wf pm → wf (AddOrUpdatePod info pm).
Proof.
  intros Hwf. destruct (decide (UID info = [])) as [Hu|Hu].
  { destruct (AddOrUpdatePod_noop info pm Hu) as (H1 & H2 & H3).
    destruct (wf_abs_heap_fresh _ _ _ _ Hwf (alloc_fresh info pm) H1) as [Hw _].
    destruct (AddOrUpdatePod info pm). cbn in *. by subst. }
  rewrite AddOrUpdatePod_eq by done. pose proof (alloc_fresh info pm) as Hn.
  set (l := (alloc info pm).1) in *. set (ex := byUID pm !! UID info ≫= _).
  split; cbn.
  - intros uid l' E. apply lookup_insert_Some in E as [[<- <-]|[Hne E]].
    + eexists. rewrite lookup_insert_eq. split; [done|]. apply rebind_UID.
    + rewrite lookup_insert_ne by (apply not_eq_sym; by eapply wf_uid_ne).
      by apply (wf_uid _ Hwf).
  - intros ip l' E. rewrite lookup_insert_ips in E. case_decide as Hip.
    { injection E as <-. eexists. rewrite lookup_insert_eq. split; [done|].
      rewrite rebind_UID, rebind_IPs, lookup_insert_eq. naive_solver. }
    assert (Hold : byIP pm !! ip = Some l' ∧
      (∀ pod, ex = Some pod → ip ∈ IPs pod → ip ∈ IPs info)).
    { destruct ex as [pod|]; [|done].
      rewrite lookup_delete_ips in E. case_decide as Hd; [done|]. split; [done|].
      intros ? [= <-] ?. destruct (decide (ip ∈ IPs info)); [done|]. tauto. }
    destruct Hold as [Hold Hex].
    destruct (wf_ip _ Hwf _ _ Hold) as (pod & Hl & Hin & Hne & Hu').
    exists pod. rewrite lookup_insert_ne by (apply not_eq_sym; by eapply wf_ip_ne).
    split_and!; try done. rewrite lookup_insert_ne; [done|].
    intros Heq. assert (ex = Some pod) as HH by (unfold ex; rewrite Heq, Hu'; done).
    specialize (Hex _ HH Hin). tauto.
Qed.

Lemma AddOrUpdatePod_abs info pm : wf pm → abs (AddOrUpdatePod info pm) = r_add info (abs pm).
Proof.
  intros Hwf. unfold r_add. destruct (decide (UID info = [])) as [Hu|Hu].
  { rewrite bool_decide_true by done.
    destruct (AddOrUpdatePod_noop info pm Hu) as (H1 & H2 & H3).
    destruct (wf_abs_heap_fresh _ _ _ _ Hwf (alloc_fresh info pm) H1) as [_ Ha].
    destruct (AddOrUpdatePod info pm). cbn in *. by subst. }
  rewrite bool_decide_false by done. rewrite AddOrUpdatePod_eq by done.
  pose proof (alloc_fresh info pm) as Hn. set (l := (alloc info pm).1) in *.
  rewrite abs_pods. set (ex := byUID pm !! UID info ≫= _).
  apply Registry_eq; intros k; rewrite ?abs_pods, ?abs_owner; cbn.
  - destruct (decide (k = UID info)) as [->|Hne].
    + rewrite !lookup_insert_eq. cbn. by rewrite lookup_insert_eq.
    + rewrite !lookup_insert_ne, abs_pods by done.
      destruct (byUID pm !! k) eqn:E; [cbn|done].
      rewrite lookup_insert_ne; [done|]. apply not_eq_sym. by eapply wf_uid_ne.
  - rewrite !lookup_insert_ips. case_decide as Hip.
    + cbn. rewrite lookup_insert_eq. cbn. by rewrite rebind_UID.
    + assert (Hk : ∀ m : option loc, m = byIP pm !! k ∨ m = None →
        m ≫= (λ l0, UID <$> <[l := rebind ex info]> (heap pm) !! l0)
        = m ≫= (λ l0, UID <$> heap pm !! l0)).
      { intros m [-> | ->]; [|done]. destruct (byIP pm !! k) eqn:E; [cbn|done].
        rewrite lookup_insert_ne; [done|]. apply not_eq_sym. by eapply wf_ip_ne. }
      destruct ex; rewrite ?lookup_delete_ips, ?lookup_omap.
      * case_decide; [done|]. rewrite abs_owner. apply Hk. auto.
      * rewrite abs_owner. apply Hk. auto.
Qed.

(** ** Removal *)

Lemma remove_loc_wf uid l pm : wf pm → byUID pm !! uid = Some l → wf (remove_loc uid l pm).
Proof.
  intros Hwf E. unfold remove_loc.
  destruct (wf_uid _ Hwf _ _ E) as (pod & Hl & Hu). rewrite Hl. split; cbn.
  - intros uid' l' E'. apply lookup_delete_Some in E' as [_ E']. by apply (wf_uid _ Hwf).
  - intros ip l' E'. rewrite lookup_delete_ips in E'. case_decide as Hd; [done|].
    destruct (wf_ip _ Hwf _ _ E') as (pod' & Hl' & Hin & Hne & Hu').
    exists pod'. split_and!; try done. rewrite lookup_delete_ne; [done|].
    intros Heq. rewrite <- Heq in Hu'. assert (l' = l) as -> by congruence.
    assert (pod' = pod) as -> by congruence. apply Hd. split; [done|apply not_elem_of_nil].
Qed.

Lemma remove_loc_abs uid l pm :
  wf pm → byUID pm !! uid = Some l → abs (remove_loc uid l pm) = r_remove uid (abs pm).
Proof.
  intros Hwf E. unfold remove_loc, r_remove. rewrite abs_pods, E. cbn.
  destruct (wf_uid _ Hwf _ _ E) as (pod & Hl & Hu). rewrite Hl.
  apply Registry_eq; intros k; rewrite ?abs_pods, ?abs_owner; cbn.
  - destruct (decide (k = uid)) as [->|]; [by rewrite !lookup_delete_eq|].
    by rewrite !lookup_delete_ne, abs_pods.
  - rewrite !lookup_delete_ips, abs_owner. by case_decide.
Qed.

Lemma RemovePod_wf uid pm : wf pm → wf (RemovePod uid pm).
Proof.
  intros Hwf. unfold RemovePod. destruct (byUID pm !! uid) eqn:E; [|done].
  by apply remove_loc_wf.
Qed.

Lemma RemovePod_abs uid pm : wf pm → abs (RemovePod uid pm) = r_remove uid (abs pm).
Proof.
  intros Hwf. unfold RemovePod. destruct (byUID pm !! uid) eqn:E; [by apply remove_loc_abs|].
  unfold r_remove. by rewrite abs_pods, E.
Qed.

(** ** The sweep of a full synchronisation *)

Definition r_removes (active : list gostring) (us : list gostring) (r : Registry) : Registry :=
  foldl (λ r u, if mem u active then r else r_remove u r) r us.

Lemma r_removes_cons active v us r :
  r_removes active (v :: us) r
  = r_removes active us (if mem v active then r else r_remove v r).
Proof. done. Qed.

Lemma r_remove_pods_ne u u' r : u ≠ u' → pods (r_remove u r) !! u' = pods r !! u'.
Proof. intros. unfold r_remove. case_match; [|done]. by apply lookup_delete_ne. Qed.

Lemma r_removes_pods active us r u :
  pods (r_removes active us r) !! u
  = if decide (u ∈ us ∧ u ∉ active) then None else pods r !! u.
Proof.
  revert r. induction us as [|v us IH]; intros r.
  { rewrite decide_False by set_solver. done. }
  rewrite r_removes_cons, IH. destruct (mem v active) eqn:E; bools.
  { repeat case_decide; set_solver. }
  destruct (decide (u = v)) as [->|Hne].
  - unfold r_remove. destruct (pods r !! v) eqn:Ev; cbn;
      rewrite ?lookup_delete_eq, ?Ev; repeat case_decide; set_solver.
  - rewrite r_remove_pods_ne by done. repeat case_decide; set_solver.
Qed.

(** The pod of [u] is stale and lists the address. *)
Definition drops (active : list gostring) (r : Registry) (ip u : gostring) : Prop :=
  u ∉ active ∧ match pods r !! u with Some pod => ip ∈ IPs pod | None => False end.
#[global] Instance drops_dec active r ip u : Decision (drops active r ip u).
Proof. unfold drops. destruct (pods r !! u); apply _. Defined.

Lemma Exists_drops_ext active r r' ip us :
  (∀ u, u ∈ us → pods r' !! u = pods r !! u) →
  Exists (drops active r' ip) us ↔ Exists (drops active r ip) us.
Proof.
  intros Hr. rewrite !Exists_exists. unfold drops.
  split; intros (u & Hu & H); exists u; (split; [done|]).
  - by rewrite <- Hr.
  - by rewrite Hr.
Qed.

Lemma r_removes_owner active us r ip :
  NoDup us →
  owner (r_removes active us r) !! ip
  = if decide (Exists (drops active r ip) us) then None else owner r !! ip.
Proof.
  intros Hnd. revert r. induction us as [|v us IH]; intros r.
  { rewrite decide_False; [done|]. by intros ?%Exists_nil. }
  apply NoDup_cons in Hnd as [Hv Hnd]. rewrite r_removes_cons, IH by done.
  destruct (mem v active) eqn:E; bools.
  { apply decide_ext. rewrite Exists_cons. unfold drops. naive_solver. }
  assert (Htl : Exists (drops active (r_remove v r) ip) us ↔ Exists (drops active r ip) us).
  { apply Exists_drops_ext. intros u Hu. apply r_remove_pods_ne. set_solver. }
  assert (Ho : owner (r_remove v r) !! ip
    = if decide (drops active r ip v) then None else owner r !! ip).
  { case_decide as Hd; unfold drops in Hd; unfold r_remove;
      destruct (pods r !! v); cbn; try rewrite lookup_delete_ips;
      repeat case_decide; set_solver. }
  rewrite Ho, (decide_ext _ _ _ _ Htl).
  destruct (decide (drops active r ip v)) as [Hd|Hd];
    [rewrite (decide_True (P := Exists _ (_ :: _)))
    |apply decide_ext; rewrite Exists_cons; naive_solver].
  - by case_decide.
  - by apply Exists_cons_hd.
Qed.

Lemma r_removes_sweep active us r :
  NoDup us → (∀ u pod, pods r !! u = Some pod → u ∈ us) →
  r_removes active us r = r_sweep active r.
Proof.
  intros Hnd Hall. apply Registry_eq; intros k; cbn.
  - rewrite r_removes_pods. destruct (pods r !! k) as [pod|] eqn:Ek.
    + pose proof (Hall _ _ Ek). destruct (decide (k ∈ active)).
      * rewrite decide_False by naive_solver. symmetry. by apply map_lookup_filter_Some.
      * rewrite decide_True by done. symmetry. apply map_lookup_filter_None. naive_solver.
    + symmetry. case_decide; apply map_lookup_filter_None; naive_solver.
  - rewrite r_removes_owner by done.
    assert (Heq : Exists (drops active r k) us ↔ stale_ip active r k).
    { rewrite Exists_exists. unfold stale_ip, map_Exists, drops. split.
      - intros (u & _ & Ha & Hp). destruct (pods r !! u) eqn:Eu; naive_solver.
      - intros (u & pod & Hp & Ha & Hi). exists u. rewrite Hp.
        split; [by eapply Hall|done]. }
    symmetry. case_decide as Hd.
    + apply map_lookup_filter_None. right. cbn. naive_solver.
    + destruct (owner r !! k) eqn:Ek.
      * apply map_lookup_filter_Some. cbn. split; [done|]. by rewrite <- Heq.
      * apply map_lookup_filter_None. by left.
Qed.

Lemma sweep_abs active order pm :
  wf pm → NoDup order.*1 → (∀ e, e ∈ order → byUID pm !! e.1 = Some e.2) →
  wf (sweep active order pm) ∧
  abs (sweep active order pm) = r_removes active order.*1 (abs pm).
Proof.
  revert pm. induction order as [|[u l] order IH]; intros pm Hwf Hnd Hall; [done|].
  cbn in Hnd. apply NoDup_cons in Hnd as [Hu Hnd]. cbn.
  pose proof (Hall (u, l) ltac:(set_solver)) as E. cbn in E.
  destruct (mem u active).
  { apply IH; try done. set_solver. }
  rewrite <- (remove_loc_abs u l pm) by done.
  apply IH; [by apply remove_loc_wf|done|].
  intros [u' l'] Hin. cbn. unfold remove_loc.
  destruct (wf_uid _ Hwf _ _ E) as (pod & -> & _). cbn.
  rewrite lookup_delete_ne; [apply (Hall (u', l')); set_solver|].
  intros ->. apply Hu. apply list_elem_of_fmap. by exists (u', l').
Qed.

(** The order in which the runtime ranges over the index does not matter. *)
Lemma sweep_order active order pm :
  wf pm → order ≡ₚ map_to_list (byUID pm) →
  wf (sweep active order pm) ∧ abs (sweep active order pm) = r_sweep active (abs pm).
Proof.
  intros Hwf Hp.
  destruct (sweep_abs active order pm) as [Hw ->]; try done.
  - rewrite Hp. apply NoDup_fst_map_to_list.
  - intros [u l] Hin. rewrite Hp in Hin. by apply elem_of_map_to_list in Hin.
  - split; [done|]. apply r_removes_sweep.
    + rewrite Hp. apply NoDup_fst_map_to_list.
    + intros u pod Hu. rewrite abs_pods in Hu. apply bind_Some in Hu as (l & Hl & _).
      rewrite Hp. apply list_elem_of_fmap. exists (u, l). split; [done|].
      by apply elem_of_map_to_list.
Qed.

Lemma adds_abs l pm :
  wf pm →
  wf (foldl (λ pm info, AddOrUpdatePod info pm) pm l) ∧
  abs (foldl (λ pm info, AddOrUpdatePod info pm) pm l)
    = foldl (λ r info, r_add info r) (abs pm) l.
Proof.
  revert pm. induction l as [|info l IH]; intros pm Hwf; cbn; [done|].
  rewrite <- AddOrUpdatePod_abs by done. apply IH. by apply AddOrUpdatePod_wf.
Qed.

Lemma SynchronizePods_abs l pm :
  wf pm → wf (SynchronizePods l pm) ∧ abs (SynchronizePods l pm) = r_sync l (abs pm).
Proof.
  intros Hwf. unfold SynchronizePods, r_sync.
  destruct (adds_abs l pm Hwf) as [Hw <-]. by apply sweep_order.
Qed.

(** ** Binding *)

Lemma bind_at_wf l i p b pm : wf pm → wf (bind_at l i p b pm).
Proof.
  intros Hwf. split; cbn.
  - intros uid l' E. destruct (wf_uid _ Hwf _ _ E) as (pod & Hl & Hu).
    rewrite lookup_alter. case_decide; subst; rewrite Hl; cbn; eauto.
  - intros ip l' E. destruct (wf_ip _ Hwf _ _ E) as (pod & Hl & Hin & Hne & Hu).
    rewrite lookup_alter. case_decide; subst; rewrite Hl; cbn; [|eauto].
    eexists. split_and!; done.
Qed.

(** Two UIDs never share a struct. *)
Lemma byUID_inj pm u u' l : wf pm → byUID pm !! u = Some l → byUID pm !! u' = Some l → u = u'.
Proof.
  intros Hwf E E'. destruct (wf_uid _ Hwf _ _ E) as (? & ? & <-).
  destruct (wf_uid _ Hwf _ _ E') as (? & ? & <-). congruence.
Qed.

Lemma bind_at_abs uid l i p b pod pm :
  wf pm → byUID pm !! uid = Some l → heap pm !! l = Some pod →
  abs (bind_at l i p b pm)
  = mkRegistry (<[uid := set_binding i p b pod]> (pods (abs pm))) (owner (abs pm)).
Proof.
  intros Hwf E Hl. apply Registry_eq; intros k; rewrite ?abs_pods, ?abs_owner; cbn.
  - destruct (decide (k = uid)) as [->|Hne].
    + rewrite lookup_insert_eq, E. cbn. rewrite lookup_alter_eq, Hl. done.
    + rewrite lookup_insert_ne, abs_pods by done. destruct (byUID pm !! k) as [l'|] eqn:E'; [cbn|done].
      rewrite lookup_alter_ne; [done|]. intros ->. apply Hne. by eapply byUID_inj.
  - rewrite abs_owner. destruct (byIP pm !! k) as [l'|]; [cbn|done].
    rewrite lookup_alter. case_decide; [subst|done]. by rewrite Hl.
Qed.

Lemma Bind_wf_abs uid i p pm :
  wf pm → wf (Bind uid i p pm) ∧ abs (Bind uid i p pm) = r_bind uid i p (abs pm).
Proof.
  intros Hwf. unfold Bind, r_bind. rewrite abs_pods.
  destruct (byUID pm !! uid) as [l|] eqn:E.
  - destruct (wf_uid _ Hwf _ _ E) as (pod & Hl & _). split; [by apply bind_at_wf|].
    erewrite bind_at_abs by done. cbn. by rewrite Hl.
  - pose proof (alloc_fresh (empty_pod uid) pm) as Hn. cbn in Hn.
    unfold alloc. set (l := fresh _) in *. cbn. set (pm' := mkPodMap _ _ _).
    assert (Hw' : wf pm').
    { destruct (wf_abs_heap_fresh pm _ l (empty_pod uid) Hwf Hn eq_refl) as [Hw _].
      split; cbn.
      - intros u l' E'. apply lookup_insert_Some in E' as [[<- <-]|[Hne E']].
        + eexists. by rewrite lookup_insert_eq.
        + by apply (wf_uid _ Hw).
      - intros ip l' E'. destruct (wf_ip _ Hw _ _ E') as (pod & Hl & Hin & Hne & Hu).
        exists pod. split_and!; try done. cbn in Hu. rewrite lookup_insert_ne; [done|].
        intros ->. congruence. }
    split; [by apply bind_at_wf|].
    erewrite (bind_at_abs uid l _ _ _ (empty_pod uid)); [|done|by apply lookup_insert_eq|by apply lookup_insert_eq].
    destruct (wf_abs_heap_fresh pm _ l (empty_pod uid) Hwf Hn eq_refl) as [_ Ha].
    apply Registry_eq; intros k; cbn.
    + destruct (decide (k = uid)) as [->|Hne]; [by rewrite !lookup_insert_eq|].
      rewrite !lookup_insert_ne by done. rewrite <- Ha, !abs_pods. cbn.
      by rewrite lookup_insert_ne.
    + by rewrite <- Ha, !abs_owner.
Qed.

Lemma Unbind_wf_abs uid pm :
  wf pm →
  match Unbind uid pm with
  | Ok pm' => wf pm' ∧ r_unbind uid (abs pm) = Some (abs pm')
  | Err e => e = PodNotFound uid ∧ r_unbind uid (abs pm) = None
  | Panic _ => False
  end.
Proof.
  intros Hwf. unfold Unbind, r_unbind. rewrite abs_pods.
  destruct (byUID pm !! uid) as [l|] eqn:E; cbn; [|done].
  destruct (wf_uid _ Hwf _ _ E) as (pod & Hl & _). rewrite Hl. cbn.
  split; [by apply bind_at_wf|]. by erewrite bind_at_abs.
Qed.

Lemma wf_new : wf NewPodMap.
Proof. split; done. Qed.

Lemma run_op_refines o pm :
  wf pm → wf (run_op o pm) ∧ abs (run_op o pm) = r_op o (abs pm).
Proof.
  intros Hwf. destruct o as [info|uid|l|uid i p|uid]; cbn.
  - split; [by apply AddOrUpdatePod_wf|by apply AddOrUpdatePod_abs].
  - split; [by apply RemovePod_wf|by apply RemovePod_abs].
  - by apply SynchronizePods_abs.
  - by apply Bind_wf_abs.
  - pose proof (Unbind_wf_abs uid pm Hwf) as H.
    destruct (Unbind uid pm); [destruct H as [? ->]|destruct H as [_ ->]|]; done.
Qed.

Lemma reachable_wf pm : pod_reachable pm → wf pm.
Proof.
  induction 1 as [|o pm _ IH]; [apply wf_new|]. by apply run_op_refines.
Qed.

(** ** Policy tokens *)

(** The tokens of a policy, normalised as [IsRuleAllowed] does. *)
Definition policy_tokens `{Unicode} (pol : gostring) : list gostring :=
  (λ tok, TrimSpace (ToLower tok)) <$> Split pol #",".

(** A token an operator writes: lower-case graphic ASCII without a comma. *)
Definition clean_token (t : gostring) : bool :=
  negb (bool_decide (t = [])) && forallb graphic t && negb (bool_decide (","%char ∈ t))
  && bool_decide (ascii_lower <$> t = t).

Lemma graphic_ascii t : forallb graphic t = true → is_ascii t = true.
Proof.
  unfold is_ascii. rewrite !forallb_forall. intros H b Hb. specialize (H b Hb).
  unfold graphic in H. bools. lia.
Qed.

Lemma TrimSpace_word t : forallb graphic t = true → TrimSpace t = t.
Proof.
  destruct t as [|a t]; [done|]. intros H. cbn in H. apply andb_prop in H as [Ha Ht].
  destruct t as [|z t _] using rev_ind.
  - unfold TrimSpace, TrimLeftSpace, TrimRightSpace.
    rewrite trim_spaces_graphic by done. cbn [rev app].
    by rewrite trim_spaces_graphic.
  - apply TrimSpace_graphic; [done|].
    rewrite forallb_app in Ht. apply andb_prop in Ht as [_ Ht].
    cbn in Ht. by destruct (graphic z).
Qed.

Lemma clean_token_norm `{Unicode} t : clean_token t = true → TrimSpace (ToLower t) = t.
Proof.
  unfold clean_token. intros Hc. bools. destruct Hc as [[[Hne Hg] Hcm] Hl].
  unfold ToLower. rewrite graphic_ascii, Hl by done. by apply TrimSpace_word.
Qed.

Lemma policy_tokens_Join `{Unicode} toks :
  toks ≠ [] → forallb clean_token toks = true → policy_tokens (Join toks #",") = toks.
Proof.
  intros Hne Hall. unfold policy_tokens. change #"," with [","%char]. rewrite Split_Join; [|done|].
  - clear Hne. induction toks as [|t toks IH]; [done|].
    cbn in Hall. apply andb_prop in Hall as [Ht Hall]. cbn.
    by rewrite clean_token_norm, IH.
  - apply Forall_forall. intros t Ht. rewrite forallb_forall in Hall.
    specialize (Hall t (proj1 (list_elem_of_In _ _) Ht)). unfold clean_token in Hall.
    bools. tauto.
Qed.

Lemma IsRuleAllowed_tokens `{Unicode} pod ruleName host :
  IsRuleAllowed (Some pod) ruleName host = true ↔
  Bound pod = true ∧ Policy pod ≠ [] ∧
  ∃ tok, tok ∈ policy_tokens (Policy pod) ∧
    (tok = #"*" ∨ tok = ToLower ruleName ∨ tok = ToLower host).
Proof.
  unfold IsRuleAllowed. destruct (negb (Bound pod) || bool_decide (Policy pod = [])) eqn:E; bools.
  - split; [done|]. intros (H1 & H2 & _). destruct E; congruence.
  - destruct E as [E1 E2]. rewrite existsb_exists. unfold policy_tokens. split.
    + intros (t & Ht & Hm). bools. split_and!; [done|done|].
      eexists. split; [apply list_elem_of_fmap; exists t; split; [done|by apply list_elem_of_In]|].
      tauto.
    + intros (_ & _ & tok & Hin & Hm). apply list_elem_of_fmap in Hin as (t & -> & Ht).
      exists t. split; [by apply list_elem_of_In|]. bools. tauto.
Qed.

Lemma Unbound_denied `{Unicode} pod ruleName host :
  Bound pod = false → IsRuleAllowed (Some pod) ruleName host = false.
Proof. intros E. unfold IsRuleAllowed. by rewrite E. Qed.

(** ** Grants *)

(** The operation cannot bind the pod [uid]: no [Bind] of it, and no
    registration of it with a policy annotation or a pre-set binding. *)
Definition plain_registration (uid : gostring) (info : PodInfo) : Prop :=
  UID info = uid → Bound info = false ∧
    (Annotations info !! policy_key = None ∨ Annotations info !! policy_key = Some []).

Definition no_grant (uid : gostring) (o : pod_op) : Prop :=
  match o with
  | OpBind u _ _ => u ≠ uid
  | OpAdd info => plain_registration uid info
  | OpSync l => Forall (plain_registration uid) l
  | _ => True
  end.

Definition unbound_in (uid : gostring) (r : Registry) : Prop :=
  ∀ pod, pods r !! uid = Some pod → Bound pod = false.

Lemma r_add_unbound uid info r :
  plain_registration uid info → unbound_in uid r → unbound_in uid (r_add info r).
Proof.
  intros Hp Hr pod. unfold r_add. case_bool_decide; [apply Hr|]. cbn.
  destruct (decide (UID info = uid)) as [E|E].
  - rewrite E, lookup_insert_eq. intros [= <-]. destruct (Hp E) as [Hb Ha].
    unfold rebind. destruct (pods r !! uid) eqn:Ex; [exact (Hr _ Ex)|].
    destruct Ha as [-> | ->]; [done|]. by rewrite bool_decide_true.
  - rewrite lookup_insert_ne by done. apply Hr.
Qed.

Lemma r_sweep_unbound uid active r : unbound_in uid r → unbound_in uid (r_sweep active r).
Proof. intros Hr pod [E _]%map_lookup_filter_Some. by apply Hr. Qed.

Lemma r_op_unbound uid o r : no_grant uid o → unbound_in uid r → unbound_in uid (r_op o r).
Proof.
  intros Hg Hr. destruct o as [info|u|l|u i p|u]; cbn in *.
  - by apply r_add_unbound.
  - intros pod. unfold r_remove. case_match; [|apply Hr]. cbn.
    intros [_ E]%lookup_delete_Some. by apply Hr.
  - apply r_sweep_unbound. revert r Hr. induction Hg as [|info l Hi _ IH]; intros r Hr; cbn; [done|].
    apply IH. by apply r_add_unbound.
  - intros pod. cbn. rewrite lookup_insert_ne by done. apply Hr.
  - unfold r_unbind. destruct (pods r !! u) eqn:E; cbn; [|done].
    intros pod. cbn. intros [[_ <-]|[_ Hp]]%lookup_insert_Some; [done|by apply Hr].
Qed.

(** The operations keep the store reachable. *)
Lemma reach_add info pm : pod_reachable pm → pod_reachable (AddOrUpdatePod info pm).
Proof. exact (reach_op (OpAdd info) pm). Qed.
Lemma reach_remove uid pm : pod_reachable pm → pod_reachable (RemovePod uid pm).
Proof. exact (reach_op (OpRemove uid) pm). Qed.
Lemma reach_sync l pm : pod_reachable pm → pod_reachable (SynchronizePods l pm).
Proof. exact (reach_op (OpSync l) pm). Qed.
Lemma reach_bind uid i p pm : pod_reachable pm → pod_reachable (Bind uid i p pm).
Proof. exact (reach_op (OpBind uid i p) pm). Qed.
#[export] Hint Resolve reach_add reach_remove reach_sync reach_bind : podmap.

(** ** Registering a list *)

Definition same_binding (p q : PodInfo) : Prop :=
  Identity p = Identity q ∧ Policy p = Policy q ∧ Bound p = Bound q.

Lemma r_add_registered info r uid :
  (is_Some (pods (r_add info r) !! uid)
    ↔ is_Some (pods r !! uid) ∨ uid ≠ [] ∧ uid = UID info) ∧
  ∀ old, pods r !! uid = Some old →
    ∃ mid, pods (r_add info r) !! uid = Some mid ∧ same_binding mid old.
Proof.
  unfold r_add. case_bool_decide as E; cbn.
  { split; [naive_solver|]. intros old Ho. exists old. by split. }
  destruct (decide (UID info = uid)) as [<-|Hne].
  - rewrite lookup_insert_eq. split; [naive_solver|]. intros old ->. eexists. by split.
  - rewrite lookup_insert_ne by done. split; [naive_solver|].
    intros old Ho. exists old. by split.
Qed.

Lemma adds_registered l r uid :
  let r' := foldl (λ r info, r_add info r) r l in
  (is_Some (pods r' !! uid) ↔ is_Some (pods r !! uid) ∨ uid ≠ [] ∧ uid ∈ UID <$> l) ∧
  ∀ old new, pods r !! uid = Some old → pods r' !! uid = Some new → same_binding new old.
Proof.
  revert r. induction l as [|info l IH]; intros r; cbn.
  { split; [set_solver|]. intros old new -> [= ->]. by split. }
  destruct (IH (r_add info r)) as [IH1 IH2]. rewrite IH1. clear IH IH1.
  destruct (r_add_registered info r uid) as [H1 H2]. split.
  - rewrite H1. set_solver.
  - intros old new Ho Hn. destruct (H2 old Ho) as (mid & Hm & Hb).
    unfold same_binding. destruct (IH2 mid new Hm Hn) as (-> & -> & ->). apply Hb.
Qed.

Lemma registered_abs pm u : wf pm → is_Some (byUID pm !! u) ↔ is_Some (pods (abs pm) !! u).
Proof.
  intros Hwf. rewrite abs_pods. destruct (byUID pm !! u) eqn:E; cbn; [|done].
  destruct (wf_uid _ Hwf _ _ E) as (? & -> & _). split; eauto.
Qed.

(** A pod the list does not mention survives the registrations, if its UID is
    still one of the store. *)
Lemma adds_keep l r uid pod :
  uid ∉ UID <$> l → pods r !! uid = Some pod →
  pods (foldl (λ r info, r_add info r) r l) !! uid = Some pod.
Proof.
  revert r. induction l as [|info l IH]; intros r Hu Hp; cbn in *; [done|].
  apply IH; [set_solver|]. unfold r_add. case_bool_decide; [done|]. cbn.
  rewrite lookup_insert_ne; [done|]. set_solver.
Qed.

Lemma r_sweep_registered active r u :
  is_Some (pods (r_sweep active r) !! u) ↔ is_Some (pods r !! u) ∧ u ∈ active.
Proof.
  split.
  - intros [pod [H1 H2]%map_lookup_filter_Some]. eauto.
  - intros [[pod H1] H2]. exists pod. by apply map_lookup_filter_Some.
Qed.

Lemma sync_registers_aux pm l uid :
  pod_reachable pm →
  is_Some (byUID (SynchronizePods l pm) !! uid) ↔
  uid ∈ UID <$> l ∧ (uid ≠ [] ∨ is_Some (byUID pm !! uid)).
Proof.
  intros Hr%reachable_wf. destruct (SynchronizePods_abs l pm Hr) as [Hw Ha].
  rewrite !registered_abs, Ha by done. destruct (adds_registered l (abs pm) uid) as [H1 _].
  unfold r_sync. rewrite r_sweep_registered, H1. set_solver.
Qed.

(** The addresses of a registration resolve to it. *)
Lemma registered_at pm info (ip : gostring) :
  wf pm → UID info ≠ [] → ip ∈ IPs info → ip ≠ [] →
  pod_at ip (AddOrUpdatePod info pm) = Some (rebind (pods (abs pm) !! UID info) info).
Proof.
  intros Hr Hu Hin Hne.
  rewrite <- !abs_lookup, AddOrUpdatePod_abs by auto using AddOrUpdatePod_wf.
  unfold r_add, r_lookup. rewrite bool_decide_false by done. cbn.
  rewrite lookup_insert_ips, decide_True by done. cbn. by rewrite lookup_insert_eq.
Qed.

(** ** Properties *)

(** C5: the pointer store implements the registry. From any reachable store,
    every operation (registration, removal, full synchronisation with its
    range over the UID map, bind, unbind) computes the registry operation, the
    store stays well formed, and the lookup by address through the pointers
    returns what the registry says of the address. *)
Theorem pod_map_refines_registry pm o :
  pod_reachable pm →
  abs (run_op o pm) = r_op o (abs pm) ∧ wf (run_op o pm) ∧
  ∀ ip, pod_at ip (run_op o pm) = r_lookup ip (r_op o (abs pm)).
Proof.
  intros Hr%reachable_wf. destruct (run_op_refines o pm Hr) as [Hw Ha].
  split_and!; [done|done|]. intros ip. by rewrite <- Ha, abs_lookup.
Qed.

(** an address never resolves to a stale or foreign identity: in every
    reachable store, the pod found for an address lists that address, the
    address is not empty, and the pod is the very struct registered under its
    UID now. *)
Theorem lookup_never_stale pm ip l :
  pod_reachable pm → GetPodByIP ip pm = Some l →
  ∃ pod, heap pm !! l = Some pod ∧ ip ∈ IPs pod ∧ ip ≠ [] ∧ byUID pm !! UID pod = Some l.
Proof. intros Hr%reachable_wf. by apply wf_ip. Qed.

(** a binding reaches the data path at once, through the shared pointer:
    after [Bind] (or [Unbind]) of the UID of the pod an address resolves to,
    the address resolves to the same pod with the new binding, and after
    [Unbind] that pod is allowed no rule and no host. *)
Theorem binding_visible_by_ip `{Unicode} pm ip pod i p :
  pod_reachable pm → pod_at ip pm = Some pod →
  pod_at ip (Bind (UID pod) i p pm) = Some (set_binding i p true pod) ∧
  ∃ pm', Unbind (UID pod) pm = Ok pm' ∧
    pod_at ip pm' = Some (set_binding [] [] false pod) ∧
    ∀ rule host, IsRuleAllowed (pod_at ip pm') rule host = false.
Proof.
  intros Hr%reachable_wf Hpod. unfold pod_at, GetPodByIP in Hpod.
  apply bind_Some in Hpod as (l & Hl & Hh).
  destruct (wf_ip _ Hr _ _ Hl) as (pod' & Hh' & _ & _ & Hu).
  assert (pod' = pod) as -> by congruence.
  assert (Hat : ∀ i p b, pod_at ip (bind_at l i p b pm) = Some (set_binding i p b pod)).
  { intros i' p' b. unfold pod_at, GetPodByIP. cbn. rewrite Hl. cbn. by rewrite lookup_alter_eq, Hh. }
  unfold Bind, Unbind. rewrite Hu. split; [apply Hat|].
  eexists. split_and!; [done|apply Hat|]. intros rule host. rewrite Hat.
  by apply Unbound_denied.
Qed.

(** a pod nobody granted anything stays denied. Whatever sequence of
    operations runs, in whatever order, as long as none of them is a [Bind] of
    [uid] or a registration of it carrying a policy annotation or a binding,
    the pod registered as [uid] is unbound and every rule is refused to it. *)
Theorem ungranted_pod_denied `{Unicode} uid ops :
  Forall (no_grant uid) ops →
  let pm := foldl (λ pm o, run_op o pm) NewPodMap ops in
  ∀ l pod, byUID pm !! uid = Some l → heap pm !! l = Some pod →
  Bound pod = false ∧ ∀ rule host, IsRuleAllowed (Some pod) rule host = false.
Proof.
  intros Hall pm.
  assert (Hinv : wf pm ∧ unbound_in uid (abs pm)).
  { unfold pm. clear pm. induction ops as [|o ops IH] using rev_ind.
    { split; [apply wf_new|]. intros pod. by rewrite abs_pods. }
    rewrite foldl_app. cbn. apply Forall_app in Hall as [Hall Ho].
    apply Forall_cons in Ho as [Ho _]. destruct (IH Hall) as [Hw Hu].
    destruct (run_op_refines o _ Hw) as [Hw' ->]. split; [done|]. by apply r_op_unbound. }
  destruct Hinv as [_ Hu]. intros l pod Hl Hp.
  assert (Hb : Bound pod = false) by (apply Hu; rewrite abs_pods, Hl; done).
  split; [done|]. intros. by apply Unbound_denied.
Qed.

(** a policy written as a comma-separated list of clean tokens allows a
    bound pod exactly the rules and hosts it names, without regard to the case
    of the rule or host, or everything when it names [*]. *)
Theorem policy_allows_named `{Unicode} pod toks rule host :
  Policy pod = Join toks #"," → toks ≠ [] → forallb clean_token toks = true →
  IsRuleAllowed (Some pod) rule host = true ↔
  Bound pod = true ∧ (#"*" ∈ toks ∨ ToLower rule ∈ toks ∨ ToLower host ∈ toks).
Proof.
  intros Hp Hne Hc. rewrite IsRuleAllowed_tokens, Hp, policy_tokens_Join by done.
  split.
  - intros (Hb & _ & tok & Hin & [-> | [-> | ->]]); auto.
  - intros (Hb & Hin). split_and!; [done| |].
    + destruct toks as [|t toks]; [done|]. cbn in Hc. unfold clean_token in Hc.
      apply andb_prop in Hc as [Hc _]. bools. destruct t; [naive_solver|].
      by destruct toks.
    + destruct Hin as [?|[?|?]]; eauto 6.
Qed.

(** a policy with an empty token, for instance one ending in a comma,
    allows every rule that has no [metadata.name], whatever the host. *)
Theorem empty_token_allows_unnamed `{Unicode} pod host :
  Bound pod = true → Policy pod ≠ [] → [] ∈ policy_tokens (Policy pod) →
  IsRuleAllowed (Some pod) [] host = true.
Proof.
  intros Hb Hp Hin. apply IsRuleAllowed_tokens. split_and!; [done|done|].
  exists []. split; [done|]. right. left. done.
Qed.

(** a full synchronisation leaves exactly the pods of its list
    registered, and a pod that stays keeps its binding: after it, a UID is
    registered iff the list has it and it is not empty (or was registered
    before), and a UID registered before and still listed has the identity,
    policy and bound flag it had. *)
Theorem sync_registers_exactly pm l uid :
  pod_reachable pm →
  let pm' := SynchronizePods l pm in
  (is_Some (byUID pm' !! uid) ↔ uid ∈ UID <$> l ∧ (uid ≠ [] ∨ is_Some (byUID pm !! uid))) ∧
  ∀ old new, pods (abs pm) !! uid = Some old → pods (abs pm') !! uid = Some new →
    same_binding new old.
Proof.
  intros Hr pm'. split; [by apply sync_registers_aux|].
  apply reachable_wf in Hr. destruct (SynchronizePods_abs l pm Hr) as [Hw Ha].
  fold pm' in Ha. rewrite Ha. destruct (adds_registered l (abs pm) uid) as [_ H2].
  intros old new Ho [Hn _]%map_lookup_filter_Some. eauto.
Qed.

(** a full synchronisation loses the address of a new pod that reuses the
    address of a pod that has gone: the new pod is registered and lists the
    address, but the address resolves to nobody, so its traffic is refused. *)
Theorem sync_drops_reused_ip pm l u old new ip :
  pod_reachable pm →
  pods (abs pm) !! u = Some old → u ∉ UID <$> l → ip ∈ IPs old →
  new ∈ l → UID new ≠ [] → ip ∈ IPs new →
  is_Some (byUID (SynchronizePods l pm) !! UID new) ∧
  pod_at ip (SynchronizePods l pm) = None.
Proof.
  intros Hr Hold Hu Hip Hnew Hne _. split.
  { apply (sync_registers_aux pm l (UID new) Hr). split; [|by left].
    apply list_elem_of_fmap. eauto. }
  apply reachable_wf in Hr. destruct (SynchronizePods_abs l pm Hr) as [Hw Ha].
  rewrite <- abs_lookup, Ha by done. unfold r_lookup.
  replace (owner (r_sync l (abs pm)) !! ip) with (None : option gostring); [done|].
  symmetry. apply map_lookup_filter_None. right. intros x _ Hn. apply Hn.
  exists u, old. split; [|done]. by apply adds_keep.
Qed.

(** a registration takes effect at once and touches nothing else. After
    [AddOrUpdatePod] of a pod with a UID, each of its non-empty addresses
    resolves to the pod with the binding it is due (kept, from the annotation,
    or as sent); an address only its previous registration listed resolves to
    nobody; every other address resolves to the pod it resolved to before. *)
Theorem registration_resolves pm info ip :
  pod_reachable pm → UID info ≠ [] →
  let ex := pods (abs pm) !! UID info in
  (ip ∈ IPs info → ip ≠ [] → pod_at ip (AddOrUpdatePod info pm) = Some (rebind ex info)) ∧
  (ip ∉ IPs info → (∀ old, ex = Some old → ip ∈ IPs old →
     pod_at ip (AddOrUpdatePod info pm) = None)) ∧
  (ip ∉ IPs info → (∀ old, ex = Some old → ip ∉ IPs old) →
     pod_at ip (AddOrUpdatePod info pm) = pod_at ip pm).
Proof.
  intros Hr%reachable_wf Hu ex. split; [intros; by apply registered_at|].
  rewrite <- !abs_lookup, AddOrUpdatePod_abs by auto using AddOrUpdatePod_wf.
  unfold r_add, r_lookup. rewrite bool_decide_false by done. cbn. fold ex.
  rewrite lookup_insert_ips. split.
  - intros Hin old Hex Ho. rewrite decide_False by tauto. rewrite Hex.
    by rewrite lookup_delete_ips, decide_True by done.
  - intros Hin Hold. rewrite decide_False by tauto.
    assert (Hno : owner (abs pm) !! ip ≠ Some (UID info)).
    { rewrite abs_owner. intros (l & Hl & (pod & Hh & Hpu)%fmap_Some)%bind_Some.
      destruct (wf_ip _ Hr _ _ Hl) as (pod' & Hh' & Hin' & _ & Hb).
      assert (pod' = pod) as -> by congruence.
      apply (Hold pod); [|done]. unfold ex. by rewrite abs_pods, Hpu, Hb. }
    assert (Heq : match ex with Some ex => delete_ips (IPs info) (IPs ex) (owner (abs pm))
                  | None => owner (abs pm) end !! ip = owner (abs pm) !! ip).
    { destruct ex as [old|]; [|done]. rewrite lookup_delete_ips, decide_False; [done|].
      intros [? _]. by apply (Hold old). }
    rewrite Heq. destruct (owner (abs pm) !! ip) as [u|] eqn:Eo; [cbn|done].
    rewrite lookup_insert_ne; [done|]. congruence.
Qed.

(** The admin API fails closed and only moves the store through the
    operations: whatever the endpoint, the request and the decoders return, a
    reachable store stays reachable, and a request answered with an error
    status leaves the store as it was. *)
Theorem admin_api_fails_closed db du dp dps e r pm :
  pod_reachable pm →
  let '(resp, pm') := AdminHandler db du dp dps e r pm in
  pod_reachable pm' ∧ (∀ code, resp = ErrorStatus code → pm' = pm).
Proof.
  intros Hr. destruct e; cbn.
  - unfold bind_handler. destruct (db (a_body r)) as [[u i p]|]; cbn; case_bool_decide;
      split; try done; eauto with podmap.
  - unfold unbind_handler. 
    generalize (match du (a_body r) with Some u => u | None => a_query r #"podUID" end). intros uid.
    case_bool_decide; [by split|]. pose proof (reach_op (OpUnbind uid) pm Hr) as H'.
    cbn in H'. by destruct (Unbind uid pm).
  - unfold pods_handler. case_bool_decide; [by split|]. case_bool_decide.
    { destruct (dp (a_body r)) as [info|]; split; try done. eauto with podmap. }
    case_bool_decide; [|by split].
    destruct (dps (a_body r)) as [l|]; split; try done. eauto with podmap.
  - unfold pod_handler. destruct (_ && _); split; try done. eauto with podmap.
Qed.

(** ** Witnesses *)

Definition demo_pod (uid ip : gostring) : PodInfo :=
  mkPodInfo uid #"default" #"agent" [ip] ∅ ∅ [] [] false.
Definition demo_map : PodMap :=
  run_op (OpBind #"uid-a" #"alice" #"gemini") (run_op (OpAdd (demo_pod #"uid-a" #"10.0.0.7")) NewPodMap).

Lemma demo_reachable : pod_reachable demo_map.
Proof. repeat constructor. Qed.

Lemma pod_map_refines_registry_witness :
  abs (run_op (OpUnbind #"uid-a") demo_map) = r_op (OpUnbind #"uid-a") (abs demo_map) ∧
  wf (run_op (OpUnbind #"uid-a") demo_map) ∧
  ∀ ip, pod_at ip (run_op (OpUnbind #"uid-a") demo_map)
        = r_lookup ip (r_op (OpUnbind #"uid-a") (abs demo_map)).
Proof. apply pod_map_refines_registry. apply demo_reachable. Defined.

Lemma lookup_never_stale_witness :
  ∃ l, GetPodByIP #"10.0.0.7" demo_map = Some l ∧
  ∃ pod, heap demo_map !! l = Some pod ∧ #"10.0.0.7" ∈ IPs pod ∧ #"10.0.0.7" ≠ [] ∧
         byUID demo_map !! UID pod = Some l.
Proof.
  eexists. split; [vm_compute; reflexivity|].
  apply lookup_never_stale; [apply demo_reachable|vm_compute; reflexivity].
Defined.

Lemma binding_visible_by_ip_witness :
  let pod := set_binding #"alice" #"gemini" true (demo_pod #"uid-a" #"10.0.0.7") in
  pod_at #"10.0.0.7" (Bind (UID pod) #"bob" #"*" demo_map) = Some (set_binding #"bob" #"*" true pod) ∧
  ∃ pm', Unbind (UID pod) demo_map = Ok pm' ∧
    pod_at #"10.0.0.7" pm' = Some (set_binding [] [] false pod) ∧
    ∀ rule host, @IsRuleAllowed ascii_unicode (pod_at #"10.0.0.7" pm') rule host = false.
Proof.
  apply (@binding_visible_by_ip ascii_unicode); [apply demo_reachable|vm_compute; reflexivity].
Defined.

Lemma ungranted_pod_denied_witness :
  let ops := [OpAdd (demo_pod #"uid-a" #"10.0.0.7"); OpBind #"uid-b" #"bob" #"*";
              OpSync [demo_pod #"uid-a" #"10.0.0.8"]] in
  let pm := foldl (λ pm o, run_op o pm) NewPodMap ops in
  ∃ l pod, byUID pm !! #"uid-a" = Some l ∧ heap pm !! l = Some pod ∧
  Bound pod = false ∧ ∀ rule host, @IsRuleAllowed ascii_unicode (Some pod) rule host = false.
Proof.
  intros ops pm. eexists _, _.
  split; [vm_compute; reflexivity|]. split; [vm_compute; reflexivity|].
  eapply (@ungranted_pod_denied ascii_unicode #"uid-a" ops);
    [|vm_compute; reflexivity|vm_compute; reflexivity].
  repeat constructor; try discriminate; intros _; split; (reflexivity || left; reflexivity).
Defined.

Lemma policy_allows_named_witness :
  let pod := set_binding #"alice" #"gemini,api.github.com" true (demo_pod #"uid-a" #"10.0.0.7") in
  @IsRuleAllowed ascii_unicode (Some pod) #"github" #"API.GitHub.com" = true ↔
  Bound pod = true ∧ (#"*" ∈ [ #"gemini"; #"api.github.com"] ∨
    @ToLower ascii_unicode #"github" ∈ [ #"gemini"; #"api.github.com"] ∨
    @ToLower ascii_unicode #"API.GitHub.com" ∈ [ #"gemini"; #"api.github.com"]).
Proof.
  intros pod. apply (@policy_allows_named ascii_unicode); [reflexivity|discriminate|reflexivity].
Defined.

Lemma empty_token_allows_unnamed_witness :
  let pod := set_binding #"alice" #"gemini," true (demo_pod #"uid-a" #"10.0.0.7") in
  @IsRuleAllowed ascii_unicode (Some pod) [] #"internal.example" = true.
Proof.
  intros pod. apply (@empty_token_allows_unnamed ascii_unicode); [reflexivity|discriminate|].
  apply (bool_decide_unpack _). vm_compute. exact I.
Defined.

Lemma registration_resolves_witness :
  let info := demo_pod #"uid-a" #"10.0.0.9" in
  let ex := pods (abs demo_map) !! UID info in
  (#"10.0.0.7" ∈ IPs info → #"10.0.0.7" ≠ [] →
     pod_at #"10.0.0.7" (AddOrUpdatePod info demo_map) = Some (rebind ex info)) ∧
  (#"10.0.0.7" ∉ IPs info → (∀ old, ex = Some old → #"10.0.0.7" ∈ IPs old →
     pod_at #"10.0.0.7" (AddOrUpdatePod info demo_map) = None)) ∧
  (#"10.0.0.7" ∉ IPs info → (∀ old, ex = Some old → #"10.0.0.7" ∉ IPs old) →
     pod_at #"10.0.0.7" (AddOrUpdatePod info demo_map) = pod_at #"10.0.0.7" demo_map).
Proof. apply registration_resolves; [apply demo_reachable|discriminate]. Defined.

Lemma sync_registers_exactly_witness :
  let l := [demo_pod #"uid-a" #"10.0.0.7"] in
  (is_Some (byUID (SynchronizePods l demo_map) !! #"uid-a") ↔
     #"uid-a" ∈ UID <$> l ∧ (#"uid-a" ≠ [] ∨ is_Some (byUID demo_map !! #"uid-a"))) ∧
  ∀ old new, pods (abs demo_map) !! #"uid-a" = Some old →
    pods (abs (SynchronizePods l demo_map)) !! #"uid-a" = Some new → same_binding new old.
Proof. apply sync_registers_exactly. apply demo_reachable. Defined.

Lemma sync_drops_reused_ip_witness :
  let new := demo_pod #"uid-b" #"10.0.0.7" in
  is_Some (byUID (SynchronizePods [new] demo_map) !! UID new) ∧
  pod_at #"10.0.0.7" (SynchronizePods [new] demo_map) = None.
Proof.
  intros new.
  apply (sync_drops_reused_ip demo_map [new] #"uid-a"
    (set_binding #"alice" #"gemini" true (demo_pod #"uid-a" #"10.0.0.7")) new);
    [apply demo_reachable|vm_compute; reflexivity|..];
    try (apply (bool_decide_unpack _); vm_compute; exact I); set_solver.
Defined.

Lemma admin_api_fails_closed_witness :
  let r := mkAdminRequest #"POST" #"/bind" (λ _, []) [] in
  let '(resp, pm') := AdminHandler (λ _, None) (λ _, None) (λ _, None) (λ _, None) EpBind r demo_map in
  pod_reachable pm' ∧ (∀ code, resp = ErrorStatus code → pm' = demo_map).
Proof.
  exact (admin_api_fails_closed (λ _, None) (λ _, None) (λ _, None) (λ _, None) EpBind
    (mkAdminRequest #"POST" #"/bind" (λ _, []) []) demo_map demo_reachable).
Defined.
