(* ===== verification/Http.v ===== *)
(** * HTTP messages

    The parts of Go's [net/http] the portals use: the header map with its
    canonical keys, requests, responses and the response writer. *)

From S2P Require Import Prelude GoStrings GoNet.

(** ** Headers *)

Abbreviation Header := (gmap gostring (list gostring)).

(** RFC 7230 token bytes. *)
Definition token_byte (b : byte) : bool :=
  let z := b2z b in
  ((48 <=? z)%Z && (z <=? 57)%Z) || ((65 <=? z)%Z && (z <=? 90)%Z)
  || ((97 <=? z)%Z && (z <=? 122)%Z) || bool_decide (b ∈ #"!#$%&'*+-.^_`|~").

Fixpoint canon_case (upper : bool) (s : gostring) : gostring :=
  match s with
  | [] => []
  | c :: s =>
      let c := if upper then ascii_upper c else ascii_lower c in
      c :: canon_case (bool_decide (c = "-"%char)) s
  end.

(** [textproto.CanonicalMIMEHeaderKey] *)
Definition CanonicalKey (s : gostring) : gostring :=
  if forallb token_byte s then canon_case true s else s.

Definition values (k : gostring) (h : Header) : list gostring := default [] (h !! k).
Definition Get (k : gostring) (h : Header) : gostring := hd [] (values (CanonicalKey k) h).
Definition Set_ (k v : gostring) (h : Header) : Header := <[CanonicalKey k := [v]]> h.
Definition Add (k v : gostring) (h : Header) : Header :=
  <[CanonicalKey k := values (CanonicalKey k) h ++ [v]]> h.
Definition Del (k : gostring) (h : Header) : Header := delete (CanonicalKey k) h.

(** [for k, vv := range src { for _, v := range vv { dst.Add(k, v) } }] *)
Definition add_values (k : gostring) (vv : list gostring) (dst : Header) : Header :=
  foldl (λ dst v, Add k v dst) dst vv.
Definition add_all (src dst : Header) : Header :=
  foldl (λ dst e, add_values e.1 e.2 dst) dst (map_to_list src).

(** Every key is in canonical form, as the server and the transport make it. *)
Definition canonical (h : Header) : Prop := ∀ k vv, h !! k = Some vv → CanonicalKey k = k.

(** ** Messages *)

Record URL := mkURL {
  Scheme : gostring;
  URLHost : gostring;
  Path : gostring;
  RawQuery : gostring;
}.

Record Request := mkRequest {
  Method : gostring;
  ReqURL : URL;
  ReqHost : gostring;
  ReqHeader : Header;
  Body : bytes;
  RemoteAddr : gostring;
}.

Definition with_header (h : Header) (r : Request) : Request :=
  mkRequest (Method r) (ReqURL r) (ReqHost r) h (Body r) (RemoteAddr r).

(** A body is the chunks its reads return and whether the last read ends in
    an error other than [io.EOF]. *)
Record Response := mkResponse {
  StatusCode : Z;
  RespHeader : Header;
  Chunks : list bytes;
  BodyFails : bool;
  Trailer : Header;
}.

Definition resp_body (r : Response) : bytes := mjoin (Chunks r).

(** ** The response writer

    [w_sent] is the status and the header map at the first [WriteHeader]. *)
Record Writer := mkWriter {
  w_header : Header;
  w_sent : option (Z * Header);
  w_body : bytes;
}.

Definition new_writer : Writer := mkWriter ∅ None [].
Definition map_header (f : Header → Header) (w : Writer) : Writer :=
  mkWriter (f (w_header w)) (w_sent w) (w_body w).
Definition WriteHeader (code : Z) (w : Writer) : Writer :=
  match w_sent w with
  | Some _ => w
  | None => mkWriter (w_header w) (Some (code, w_header w)) (w_body w)
  end.
Definition Write (b : bytes) (w : Writer) : Writer :=
  let w := WriteHeader 200 w in mkWriter (w_header w) (w_sent w) (w_body w ++ b).

(** [http.Error] *)
Definition HttpError (msg : gostring) (code : Z) (w : Writer) : Writer :=
  let w := map_header (λ h, Set_ #"X-Content-Type-Options" #"nosniff"
                        (Set_ #"Content-Type" #"text/plain; charset=utf-8"
                          (Del #"Content-Length" h))) w in
  Write (msg ++ ["010"%char]) (WriteHeader code w).

(** ** Lemmas *)

Lemma canon_case_length u s : length (canon_case u s) = length s.
Proof. revert u. induction s; intros; cbn; auto. Qed.

Lemma token_byte_case b (u : bool) :
  token_byte b = true → token_byte (if u then ascii_upper b else ascii_lower b) = true.
Proof.
  intros H. pose proof (byte_ind_bool (λ b, implb (token_byte b)
    (token_byte (ascii_upper b) && token_byte (ascii_lower b))) eq_refl b) as HH.
  cbn in HH. rewrite H in HH. cbn in HH. apply andb_prop in HH as [? ?]. by destruct u.
Qed.

Lemma canon_case_token u s : forallb token_byte s = true → forallb token_byte (canon_case u s) = true.
Proof.
  revert u. induction s as [|c s IH]; intros u; cbn [forallb canon_case]; [done|].
  intros [Hc Hs]%andb_prop. by rewrite token_byte_case, IH.
Qed.

Lemma ascii_case_idem b (u : bool) :
  (if u then ascii_upper else ascii_lower) ((if u then ascii_upper else ascii_lower) b)
  = (if u then ascii_upper else ascii_lower) b.
Proof.
  pose proof (byte_ind_bool (λ b, bool_decide (ascii_upper (ascii_upper b) = ascii_upper b)
    && bool_decide (ascii_lower (ascii_lower b) = ascii_lower b)) eq_refl b) as HH.
  cbn beta in HH. apply andb_prop in HH as [H1 H2]. bools. by destruct u.
Qed.

Lemma canon_case_idem u s : canon_case u (canon_case u s) = canon_case u s.
Proof.
  revert u. induction s as [|c s IH]; intros u; cbn [canon_case]; [done|].
  pose proof (ascii_case_idem c u) as Hc.
  destruct u; cbn zeta in *; rewrite Hc; by rewrite IH.
Qed.

Lemma CanonicalKey_idem k : CanonicalKey (CanonicalKey k) = CanonicalKey k.
Proof.
  unfold CanonicalKey. destruct (forallb token_byte k) eqn:E; [|by rewrite E].
  by rewrite canon_case_token, canon_case_idem.
Qed.

Lemma values_insert (k : gostring) (vv : list gostring) (h : Header) (k' : gostring) :
  values k' (<[k := vv]> h) = if decide (k = k') then vv else values k' h.
Proof. unfold values. rewrite lookup_insert. by case_decide. Qed.

Lemma values_add_values (k : gostring) (vv : list gostring) (dst : Header) (k' : gostring) :
  values k' (add_values k vv dst)
  = values k' dst ++ if decide (CanonicalKey k = k') then vv else [].
Proof.
  revert dst. induction vv as [|v vv IH]; intros dst; cbn [add_values foldl].
  { by case_decide; rewrite app_nil_r. }
  fold (add_values k vv (Add k v dst)). rewrite IH. unfold Add.
  rewrite values_insert. case_decide as E; [subst|done]. by rewrite <- app_assoc.
Qed.

(** Appending a canonical header map appends, key by key, its values. *)
Lemma values_add_all (src dst : Header) (k : gostring) :
  canonical src → values k (add_all src dst) = values k dst ++ values k src.
Proof.
  intros Hc. unfold add_all.
  assert (Hl : ∀ l dst, NoDup l.*1 → (∀ e, e ∈ l → CanonicalKey e.1 = e.1) →
    values k (foldl (λ dst e, add_values e.1 e.2 dst) dst l)
    = values k dst ++ default [] ((list_to_map l : Header) !! k)).
  { clear. induction l as [|[k' vv] l IH]; intros dst Hnd Hall; cbn [foldl list_to_map foldr fst snd curry uncurry].
    { by rewrite lookup_empty, app_nil_r. }
    apply NoDup_cons in Hnd as [Hk Hnd].
    rewrite IH by (done || set_solver). rewrite values_add_values.
    pose proof (Hall (k', vv) ltac:(set_solver)) as Hk'. cbn in Hk'. rewrite Hk'.
    rewrite lookup_insert. case_decide; [subst|by rewrite app_nil_r].
    assert ((list_to_map l : Header) !! k = None) as -> by by apply not_elem_of_list_to_map.
    cbn. by rewrite app_nil_r. }
  rewrite Hl.
  - by rewrite list_to_map_to_list.
  - apply NoDup_fst_map_to_list.
  - intros [k' vv] Hin%elem_of_map_to_list. by apply (Hc _ _ Hin).
Qed.

Lemma canonical_Set k v h : canonical h → canonical (Set_ k v h).
Proof.
  intros Hc k' vv. unfold Set_. intros [[<- _]|[_ Hk]]%lookup_insert_Some; [apply CanonicalKey_idem|by eapply Hc].
Qed.
Lemma canonical_Del k h : canonical h → canonical (Del k h).
Proof. intros Hc k' vv. unfold Del. intros [_ Hk]%lookup_delete_Some. by eapply Hc. Qed.
Create HintDb http.
#[export] Hint Resolve canonical_Set canonical_Del : http.
