(* ===== verification/HTTPProxy.v ===== *)
(** * The credential-swapping proxy (pkg/proxy/proxy.go)

    [proxyRequest] builds the upstream request (target host, injected
    credential, hop-by-hop headers removed), sends it and relays the response;
    [getCert] caches one certificate per host under a read-write lock. The
    transport is a state-passing function, the certificate signer a parameter. *)

From S2P Require Import Prelude GoStrings GoNet Http.

(** ** Hop-by-hop headers *)

Definition hopByHopHeaders : list gostring :=
  [ #"Connection"; #"Keep-Alive"; #"Proxy-Authenticate"; #"Proxy-Authorization";
    #"Te"; #"Trailers"; #"Transfer-Encoding"; #"Upgrade"].

Definition splitAndTrim (s : gostring) : list gostring :=
  filter (λ t, t ≠ []) (TrimSpace <$> Split s #",").

Definition removeHopByHopHeaders (h : Header) : Header :=
  let c := Get #"Connection" h in
  let h := if bool_decide (c = []) then h
           else foldl (λ h f, Del f h) h (splitAndTrim c) in
  foldl (λ h f, Del f h) h hopByHopHeaders.

(** ** The proxy *)

Record HTTPProxy := mkHTTPProxy {
  TargetURL : URL;
  AuthToken : gostring;
  AuthHeader : gostring;
}.

(** The value the credential header gets. *)
Definition auth_value (p : HTTPProxy) : gostring :=
  if bool_decide (AuthHeader p = #"Authorization") then #"Bearer " ++ AuthToken p
  else AuthToken p.

Definition inject_auth (p : HTTPProxy) (h : Header) : Header :=
  if bool_decide (AuthToken p = []) then h else Set_ (AuthHeader p) (auth_value p) h.

(** The request [proxyRequest] hands to the transport. *)
Definition outgoing (p : HTTPProxy) (r : Request) : Request :=
  mkRequest (Method r)
    (mkURL (Scheme (TargetURL p)) (URLHost (TargetURL p)) (Path (ReqURL r)) (RawQuery (ReqURL r)))
    (URLHost (TargetURL p))
    (Del #"X-Forwarded-For" (removeHopByHopHeaders (inject_auth p (ReqHeader r))))
    (Body r) (RemoteAddr r).

(** Relaying the body: the loop stops at the first write that fails;
    [write_ok n] says whether the [n]-th write succeeds. The result says
    whether the loop ran to the end of the body. *)
Fixpoint relay_body (write_ok : nat → bool) (n : nat) (chunks : list bytes) (w : Writer)
    : bool * Writer :=
  match chunks with
  | [] => (true, w)
  | c :: chunks =>
      if bool_decide (c = []) then relay_body write_ok n chunks w
      else if write_ok n then relay_body write_ok (S n) chunks (Write c w)
      else (false, w)
  end.

Definition relay (write_ok : nat → bool) (resp : Response) (w : Writer) : Writer :=
  let w := map_header (add_all (removeHopByHopHeaders (RespHeader resp))) w in
  let keys := (map_to_list (Trailer resp)).*1 in
  let w := if bool_decide (keys = []) then w
           else map_header (Set_ #"Trailer" (Join keys #",")) w in
  let w := WriteHeader (StatusCode resp) w in
  let '(done, w) := relay_body write_ok 0 (Chunks resp) w in
  if done then map_header (add_all (Trailer resp)) w else w.

Section Proxy.
Context {W : Type} (RoundTrip : Request → W → option Response * W) (write_ok : nat → bool).

Definition proxyRequest (p : HTTPProxy) (r : Request) (w : Writer) (s : W) : Writer * W :=
  match RoundTrip (outgoing p r) s with
  | (None, s) => (WriteHeader 502 w, s)
  | (Some resp, s) => (relay write_ok resp w, s)
  end.

Definition ServeHTTP (p : HTTPProxy) (r : Request) (w : Writer) (s : W) : Writer * W :=
  if bool_decide (Method r = #"CONNECT")
  then (HttpError #"CONNECT not allowed" 405 w, s)
  else proxyRequest p r w s.
End Proxy.

(** ** The certificate cache

    Concurrent TLS handshakes run [getCert]: a look under the read lock, then,
    on a miss, a second look and the signature under the write lock. A step is
    what one handshake does while it holds a lock. *)
Section Certs.
Context {Cert : Type}.

Inductive phase :=
  | Start (host : gostring)
  | Missed (host : gostring)
  | Returned (host : gostring) (c : Cert)
  | SignFailed (host : gostring).

Record CertState := mkCertState {
  certs : gmap gostring Cert;
  threads : gmap nat phase;
  signed : list (gostring * Cert);   (** every certificate signed so far *)
}.

Definition set_phase (t : nat) (p : phase) (s : CertState) : CertState :=
  mkCertState (certs s) (<[t := p]> (threads s)) (signed s).

(** [p.certs[host] = cert] after [signCert] returned [cert]. *)
Definition store_cert (t : nat) (host : gostring) (c : Cert) (s : CertState) : CertState :=
  mkCertState (<[host := c]> (certs s)) (<[t := Returned host c]> (threads s))
              ((host, c) :: signed s).

Inductive cert_step : CertState → CertState → Prop :=
  | step_call t host s : threads s !! t = None →
      cert_step s (set_phase t (Start host) s)
  | step_read_hit t host c s : threads s !! t = Some (Start host) → certs s !! host = Some c →
      cert_step s (set_phase t (Returned host c) s)
  | step_read_miss t host s : threads s !! t = Some (Start host) → certs s !! host = None →
      cert_step s (set_phase t (Missed host) s)
  | step_lock_hit t host c s : threads s !! t = Some (Missed host) → certs s !! host = Some c →
      cert_step s (set_phase t (Returned host c) s)
  | step_sign t host c s : threads s !! t = Some (Missed host) → certs s !! host = None →
      cert_step s (store_cert t host c s)
  | step_sign_fails t host s : threads s !! t = Some (Missed host) → certs s !! host = None →
      cert_step s (set_phase t (SignFailed host) s).

Definition cert_init : CertState := mkCertState ∅ ∅ [].
Definition cert_reachable : CertState → Prop := rtc cert_step cert_init.

(** One handshake alone. *)
Definition getCert (signCert : gostring → option Cert) (host : gostring)
    (certs : gmap gostring Cert) : option Cert * gmap gostring Cert :=
  match certs !! host with
  | Some c => (Some c, certs)
  | None => match signCert host with
            | None => (None, certs)
            | Some c => (Some c, <[host := c]> certs)
            end
  end.

(** [GetCertificate] names the host of the handshake. *)
Definition cert_host (ServerName : gostring) : gostring :=
  HostWithoutPort (if bool_decide (ServerName = []) then #"localhost" else ServerName).

Definition GetCertificate (signCert : gostring → option Cert) (ServerName : gostring)
    (certs : gmap gostring Cert) : option Cert * gmap gostring Cert :=
  getCert signCert (cert_host ServerName) certs.
End Certs.
Arguments phase : clear implicits.
Arguments CertState : clear implicits.

(** ** Lemmas *)

Lemma lookup_dels (fs : list gostring) (h : Header) (k : gostring) :
  foldl (λ h f, Del f h) h fs !! k = if decide (k ∈ CanonicalKey <$> fs) then None else h !! k.
Proof.
  revert h. induction fs as [|f fs IH]; intros h; cbn [foldl fmap list_fmap].
  { rewrite decide_False by set_solver. done. }
  rewrite IH. unfold Del. destruct (decide (CanonicalKey f = k)) as [<-|Hne].
  - rewrite lookup_delete_eq. repeat case_decide; set_solver.
  - rewrite lookup_delete_ne by done. repeat case_decide; set_solver.
Qed.

(** The header names a [Connection] header asks to drop. *)
Definition connection_drops (h : Header) : list gostring :=
  CanonicalKey <$> splitAndTrim (Get #"Connection" h).

Lemma lookup_removeHopByHop (h : Header) (k : gostring) :
  removeHopByHopHeaders h !! k
  = if decide (k ∈ connection_drops h ++ hopByHopHeaders) then None else h !! k.
Proof.
  unfold removeHopByHopHeaders, connection_drops. rewrite lookup_dels.
  assert (CanonicalKey <$> hopByHopHeaders = hopByHopHeaders) as -> by reflexivity.
  case_bool_decide as E; [rewrite E|].
  - repeat case_decide; set_solver.
  - rewrite lookup_dels. repeat case_decide; set_solver.
Qed.

Lemma canonical_removeHopByHop h : canonical h → canonical (removeHopByHopHeaders h).
Proof.
  intros Hc k vv Hk. rewrite lookup_removeHopByHop in Hk. case_decide; [done|]. by eapply Hc.
Qed.
#[export] Hint Resolve canonical_removeHopByHop : http.

Lemma Get_Connection_inject p h :
  CanonicalKey (AuthHeader p) ≠ #"Connection" →
  Get #"Connection" (inject_auth p h) = Get #"Connection" h.
Proof.
  intros Hne. unfold inject_auth, Get, Set_. case_bool_decide; [done|].
  change (CanonicalKey #"Connection") with #"Connection".
  unfold values. by rewrite lookup_insert_ne.
Qed.

(** What is dropped from a request besides its hop-by-hop headers. *)
Definition dropped (h : Header) : list gostring :=
  connection_drops h ++ hopByHopHeaders ++ [ #"X-Forwarded-For"].

Lemma lookup_outgoing p r (k : gostring) :
  CanonicalKey (AuthHeader p) ≠ #"Connection" →
  ReqHeader (outgoing p r) !! k
  = if decide (k ∈ dropped (ReqHeader r)) then None
    else if decide (AuthToken p ≠ [] ∧ k = CanonicalKey (AuthHeader p)) then Some [auth_value p]
    else ReqHeader r !! k.
Proof.
  intros Hne. unfold outgoing, Del, dropped. cbn [ReqHeader].
  change (CanonicalKey #"X-Forwarded-For") with #"X-Forwarded-For".
  rewrite lookup_delete, lookup_removeHopByHop.
  assert (connection_drops (inject_auth p (ReqHeader r)) = connection_drops (ReqHeader r)) as ->
    by (unfold connection_drops; by rewrite Get_Connection_inject).
  set (drops := connection_drops (ReqHeader r)). rewrite app_assoc.
  destruct (decide (#"X-Forwarded-For" = k)) as [<-|Hx].
  { rewrite decide_True; [done|]. apply elem_of_app. right. by apply list_elem_of_singleton. }
  destruct (decide (k ∈ drops ++ hopByHopHeaders)) as [Hd|Hd].
  { rewrite decide_True; [done|]. apply elem_of_app. by left. }
  rewrite decide_False.
  2:{ intros [?|?%list_elem_of_singleton]%elem_of_app; by subst. }
  unfold inject_auth, Set_. case_bool_decide as E.
  - by rewrite decide_False by tauto.
  - case_decide as Hk; [destruct Hk as [_ ->]; apply lookup_insert_eq|].
    rewrite lookup_insert_ne; [done|]. intros <-. tauto.
Qed.

Lemma relay_body_spec write_ok n chunks w :
  (∀ i, write_ok i = true) → is_Some (w_sent w) →
  relay_body write_ok n chunks w
  = (true, mkWriter (w_header w) (w_sent w) (w_body w ++ mjoin chunks)).
Proof.
  intros Hok. revert n w. induction chunks as [|c chunks IH]; intros n w Hs; cbn.
  { rewrite app_nil_r. by destruct w. }
  case_bool_decide as E; [subst; by rewrite IH|].
  rewrite Hok, IH; unfold Write, WriteHeader; destruct Hs as [? Hs]; rewrite Hs; cbn.
  - by rewrite <- app_assoc, Hs.
  - eauto.
Qed.

Lemma values_removeHopByHop h (k : gostring) :
  values k (removeHopByHopHeaders h)
  = if decide (k ∈ connection_drops h ++ hopByHopHeaders) then [] else values k h.
Proof. unfold values. rewrite lookup_removeHopByHop. by case_decide. Qed.

Lemma values_Set k0 v h (k : gostring) :
  values k (Set_ k0 v h) = if decide (CanonicalKey k0 = k) then [v] else values k h.
Proof. apply values_insert. Qed.

(** An upstream that remembers what it is sent. *)
Definition recording (up : Request → option Response) (q : Request) (seen : list Request) :
    option Response * list Request := (up q, seen ++ [q]).

(** What the client of a proxied request gets, header line by header line. *)
Definition relayed_values (resp : Response) (k : gostring) : list gostring :=
  if bool_decide (Trailer resp ≠ ∅ ∧ k = #"Trailer")
  then [Join (map_to_list (Trailer resp)).*1 #","]
  else if decide (k ∈ connection_drops (RespHeader resp) ++ hopByHopHeaders) then []
  else values k (RespHeader resp).

Lemma map_keys_nil (h : Header) : (map_to_list h).*1 = [] ↔ h = ∅.
Proof.
  rewrite <- (map_to_list_empty_iff h). destruct (map_to_list h); [done|]. split; discriminate.
Qed.

Lemma relay_spec write_ok resp :
  (∀ i, write_ok i = true) → canonical (RespHeader resp) → canonical (Trailer resp) →
  ∃ sent, w_sent (relay write_ok resp new_writer) = Some (StatusCode resp, sent) ∧
    (∀ k, values k sent = relayed_values resp k) ∧
    (∀ k, values k (w_header (relay write_ok resp new_writer))
          = values k sent ++ values k (Trailer resp)) ∧
    w_body (relay write_ok resp new_writer) = resp_body resp.
Proof.
  intros Hok Hc Ht. unfold relay.
  set (w1 := map_header (add_all (removeHopByHopHeaders (RespHeader resp))) new_writer).
  set (w2 := if bool_decide _ then w1 else _).
  assert (H2 : w_sent w2 = None ∧ w_body w2 = [] ∧
               ∀ k, values k (w_header w2) = relayed_values resp k).
  { subst w2. unfold relayed_values. pose proof (map_keys_nil (Trailer resp)) as Hnil.
    assert (H1 : ∀ k, values k (w_header w1)
      = if decide (k ∈ connection_drops (RespHeader resp) ++ hopByHopHeaders) then []
        else values k (RespHeader resp)).
    { intros k. subst w1. cbn [map_header w_header new_writer].
      rewrite values_add_all by auto with http. by rewrite values_removeHopByHop. }
    case_bool_decide as E.
    - split_and!; [done..|]. intros k. rewrite H1, bool_decide_eq_false_2; [done|]. tauto.
    - split_and!; [done..|]. intros k. cbn [map_header w_header]. rewrite values_Set, H1.
      change (CanonicalKey #"Trailer") with #"Trailer".
      case_decide as Ek; [subst; by rewrite bool_decide_eq_true_2 by tauto|].
      rewrite bool_decide_eq_false_2; [done|]. intros [_ ->]. done. }
  destruct H2 as (Hs & Hb & Hv). exists (w_header w2).
  rewrite relay_body_spec.
  2: done.
  2:{ unfold WriteHeader. rewrite Hs. eauto. }
  unfold WriteHeader. rewrite Hs. cbn [map_header w_header w_sent w_body].
  split_and!; [done|apply Hv| |by rewrite Hb].
  intros k. by rewrite values_add_all.
Qed.

(** ** Properties of a proxied request *)

(** C18: Whatever a workload sends, the upstream gets at most one request, and none for CONNECT,
    which is answered 405. That request goes to the configured target over the configured scheme,
    with the workload's method, path, query and body; each header is the workload's, except that
    hop-by-hop headers, the ones its Connection header names and X-Forwarded-For are gone, and
    that the credential header carries the portal's credential and nothing of the workload's. *)
Theorem upstream_sees up write_ok p r w seen :
  CanonicalKey (AuthHeader p) ≠ #"Connection" → AuthToken p ≠ [] →
  if bool_decide (Method r = #"CONNECT")
  then ServeHTTP (recording up) write_ok p r w seen = (HttpError #"CONNECT not allowed" 405 w, seen)
  else ∃ q, (ServeHTTP (recording up) write_ok p r w seen).2 = seen ++ [q] ∧
       URLHost (ReqURL q) = URLHost (TargetURL p) ∧ ReqHost q = URLHost (TargetURL p) ∧
       Scheme (ReqURL q) = Scheme (TargetURL p) ∧ Method q = Method r ∧
       Path (ReqURL q) = Path (ReqURL r) ∧ RawQuery (ReqURL q) = RawQuery (ReqURL r) ∧
       Body q = Body r ∧
       ∀ k : gostring, ReqHeader q !! k =
         if decide (k ∈ dropped (ReqHeader r)) then None
         else if decide (k = CanonicalKey (AuthHeader p)) then Some [auth_value p]
         else ReqHeader r !! k.
Proof.
  intros Hne Ht. unfold ServeHTTP. case_bool_decide as Hm; [done|].
  exists (outgoing p r). split.
  - unfold proxyRequest, recording. by destruct (up (outgoing p r)).
  - repeat split. intros k. rewrite lookup_outgoing by done.
    repeat case_decide; tauto || done.
Qed.

(** A workload can strip the credential the portal injects: the injection comes before the
    hop-by-hop headers are removed, so a Connection header that names the credential header makes
    the portal send the request without any credential. *)
Theorem connection_header_strips_credential p r :
  CanonicalKey (AuthHeader p) ≠ #"Connection" →
  CanonicalKey (AuthHeader p) ∈ connection_drops (ReqHeader r) →
  ReqHeader (outgoing p r) !! CanonicalKey (AuthHeader p) = None.
Proof.
  intros Hne Hin. rewrite lookup_outgoing by done. rewrite decide_True; [done|].
  unfold dropped. apply elem_of_app. by left.
Qed.

(** A response is relayed faithfully: while the client accepts the writes, it gets the
    upstream's status, its headers line by line less the hop-by-hop ones, the concatenation of the
    chunks the upstream sent, and, after the body, the trailers. A transport error is a 502. *)
Theorem response_relayed {W} (RT : Request → W → option Response * W) write_ok p r s :
  (∀ i, write_ok i = true) → Method r ≠ #"CONNECT" →
  match RT (outgoing p r) s with
  | (None, s') => ServeHTTP RT write_ok p r new_writer s = (WriteHeader 502 new_writer, s')
  | (Some resp, s') => canonical (RespHeader resp) → canonical (Trailer resp) →
      ∃ w sent, ServeHTTP RT write_ok p r new_writer s = (w, s') ∧
        w_sent w = Some (StatusCode resp, sent) ∧
        (∀ k, values k sent = relayed_values resp k) ∧
        (∀ k, values k (w_header w) = values k sent ++ values k (Trailer resp)) ∧
        w_body w = resp_body resp
  end.
Proof.
  intros Hok Hm. unfold ServeHTTP, proxyRequest. rewrite bool_decide_eq_false_2 by done.
  destruct (RT (outgoing p r) s) as [[resp|] s']; [|done].
  intros Hc Ht. destruct (relay_spec write_ok resp Hok Hc Ht) as (sent & H1 & H2 & H3 & H4).
  eexists _, sent. split_and!; [reflexivity|done..].
Qed.

(** ** Properties of the certificate cache *)

Lemma NoDup_fst_cons {A B} (x : A * B) (l : list (A * B)) :
  x.1 ∉ l.*1 → NoDup l.*1 → NoDup (x :: l).*1.
Proof. intros. by apply NoDup_cons. Qed.

Record cert_inv {Cert} (s : CertState Cert) : Prop := {
  ci_signed : ∀ h c, (h, c) ∈ signed s ↔ certs s !! h = Some c;
  ci_once : NoDup (signed s).*1;
  ci_returned : ∀ t h c, threads s !! t = Some (Returned h c) → certs s !! h = Some c;
}.

Lemma cert_inv_set_phase {Cert} t (p : phase Cert) s :
  cert_inv s → (∀ h c, p = Returned h c → certs s !! h = Some c) → cert_inv (set_phase t p s).
Proof.
  intros [H1 H2 H3] Hp. split; cbn; [done..|].
  intros t' h c [[_ Hq]|[_ Hq]]%lookup_insert_Some; eauto.
Qed.

Lemma cert_inv_step {Cert} (s s' : CertState Cert) : cert_step s s' → cert_inv s → cert_inv s'.
Proof.
  intros Hst Hi. destruct Hst; try (apply cert_inv_set_phase; [done|]; intros; by simplify_eq).
  destruct Hi as [H1 H2 H3].
  assert (Hfresh : host ∉ (signed s).*1).
  { intros ([h c'] & -> & Hin)%list_elem_of_fmap. apply H1 in Hin. cbn in *. congruence. }
  split; cbn.
  - intros h c'. rewrite elem_of_cons, H1, lookup_insert_Some. split.
    + intros [[= -> ->]|Hin]; [by left|]. right. split; [congruence|done].
    + intros [[-> ->]|[_ Hin]]; auto.
  - by apply (NoDup_fst_cons (host, c)).
  - intros t' h c' [[_ [= -> ->]]|[_ Hin]]%lookup_insert_Some; [apply lookup_insert_eq|].
    apply H3 in Hin. rewrite lookup_insert_ne; [done|]. congruence.
Qed.

Lemma cert_reachable_inv {Cert} (s : CertState Cert) : cert_reachable s → cert_inv s.
Proof.
  intros Hr. assert (Hi : cert_inv (cert_init (Cert := Cert))).
  { split; cbn; [|constructor|done]. intros h c. rewrite lookup_empty. split; [by intros ?%elem_of_nil|done]. }
  revert Hi. induction Hr as [s|x y z Hxy Hyz IH]; intros Hi; [done|].
  apply IH. by eapply cert_inv_step.
Qed.

(** Under any interleaving of TLS handshakes, a host's certificate is signed at most once, and
    all the handshakes that get a certificate for a host get the same one, the one the cache holds. *)
Theorem one_certificate_per_host {Cert} (s : CertState Cert) :
  cert_reachable s →
  NoDup (signed s).*1 ∧
  (∀ t host c, threads s !! t = Some (Returned host c) →
     certs s !! host = Some c ∧ (host, c) ∈ signed s) ∧
  (∀ t t' host c c', threads s !! t = Some (Returned host c) →
     threads s !! t' = Some (Returned host c') → c = c').
Proof.
  intros [H1 H2 H3]%cert_reachable_inv. split_and!; [done| |].
  - intros t host c Hr. pose proof (H3 _ _ _ Hr). split; [done|]. by apply H1.
  - intros t t' host c c' Hr%H3 Hr'%H3. congruence.
Qed.

(** A handshake that runs alone takes the steps of the concurrent model: from any state where
    it has not begun, it ends with the certificate and the cache that [getCert] computes, or with
    the signer's error and the cache unchanged. *)
Theorem getCert_refines_steps {Cert} (signCert : gostring → option Cert) t host s :
  threads s !! t = None →
  ∃ s', rtc cert_step s s' ∧ certs s' = (getCert signCert host (certs s)).2 ∧
    threads s' = <[t := match (getCert signCert host (certs s)).1 with
                        | Some c => Returned host c | None => SignFailed host end]> (threads s).
Proof.
  intros Ht. unfold getCert. set (s1 := set_phase t (Start host) s).
  assert (H1 : cert_step s s1) by by constructor.
  assert (Hs1 : threads s1 !! t = Some (Start host)) by apply lookup_insert_eq.
  destruct (certs s !! host) as [c|] eqn:E.
  { exists (set_phase t (Returned host c) s1). split_and!; [|done|apply insert_insert_eq].
    eapply rtc_l; [exact H1|]. apply rtc_once. by apply step_read_hit. }
  set (s2 := set_phase t (Missed host) s1).
  assert (H2 : cert_step s1 s2) by by constructor.
  assert (Hs2 : threads s2 !! t = Some (Missed host)) by apply lookup_insert_eq.
  assert (Hpre : rtc cert_step s s2) by (eapply rtc_l; [exact H1|]; by apply rtc_once).
  destruct (signCert host) as [c|].
  - exists (store_cert t host c s2). split_and!; [|done|].
    + eapply rtc_r; [exact Hpre|]. by apply step_sign.
    + cbn. by rewrite !insert_insert_eq.
  - exists (set_phase t (SignFailed host) s2). split_and!; [|done|].
    + eapply rtc_r; [exact Hpre|]. by apply step_sign_fails.
    + cbn. by rewrite !insert_insert_eq.
Qed.

(** ** Witnesses *)

Definition demo_proxy : HTTPProxy :=
  mkHTTPProxy (mkURL #"https" #"api.example.com" [] []) #"portal-key" #"x-goog-api-key".
Definition demo_request (hs : list (gostring * list gostring)) : Request :=
  mkRequest #"POST" (mkURL [] #"portal.local" #"/v1/models" #"alt=sse") #"portal.local"
    (list_to_map hs) #"{}" #"10.0.0.7:4711".
Definition demo_response : Response :=
  mkResponse 200 {[ #"Content-Type" := [ #"text/plain"] ]} [ #"hel"; #"lo"] false ∅.

Lemma upstream_sees_witness :
  (ServeHTTP (recording (λ _, Some demo_response)) (λ _, true) demo_proxy
     (demo_request [(#"X-Goog-Api-Key", [ #"workload-key"])]) new_writer []).2
  = [outgoing demo_proxy (demo_request [(#"X-Goog-Api-Key", [ #"workload-key"])])] ∧
  ∃ q, (ServeHTTP (recording (λ _, Some demo_response)) (λ _, true) demo_proxy
     (demo_request [(#"X-Goog-Api-Key", [ #"workload-key"])]) new_writer []).2 = [q] ∧
    ReqHeader q !! #"X-Goog-Api-Key" = Some [ #"portal-key"].
Proof.
  split; [vm_compute; reflexivity|].
  pose proof (upstream_sees (λ _, Some demo_response) (λ _, true) demo_proxy
    (demo_request [(#"X-Goog-Api-Key", [ #"workload-key"])]) new_writer []
    ltac:(vm_compute; discriminate) ltac:(discriminate)) as H.
  change (bool_decide _) with false in H. cbn iota in H.
  destruct H as (q & Hq & _ & _ & _ & _ & _ & _ & _ & Hh).
  exists q. split; [exact Hq|]. rewrite Hh. vm_compute. reflexivity.
Defined.

Lemma connection_header_strips_credential_witness :
  ReqHeader (outgoing demo_proxy (demo_request [(#"Connection", [ #"keep-alive, X-Goog-Api-Key"])]))
    !! #"X-Goog-Api-Key" = None.
Proof.
  apply (connection_header_strips_credential demo_proxy
           (demo_request [(#"Connection", [ #"keep-alive, X-Goog-Api-Key"])])).
  - vm_compute. discriminate.
  - apply (bool_decide_unpack _). vm_compute. exact I.
Defined.

Lemma response_relayed_witness :
  ∃ w sent, ServeHTTP (recording (λ _, Some demo_response)) (λ _, true) demo_proxy
      (demo_request []) new_writer [] = (w, [outgoing demo_proxy (demo_request [])]) ∧
    w_sent w = Some (200%Z, sent) ∧ w_body w = #"hello".
Proof.
  pose proof (response_relayed (recording (λ _, Some demo_response)) (λ _, true) demo_proxy
    (demo_request []) [] (λ _, eq_refl) ltac:(discriminate)) as H. cbn [recording] in H.
  destruct H as (w & sent & Hw & Hs & _ & _ & Hb).
  - intros k vv Hk. cbn [RespHeader demo_response] in Hk.
    apply lookup_singleton_Some in Hk as [<- _]. reflexivity.
  - intros k vv Hk. done.
  - exists w, sent. split; [exact Hw|]. split; [exact Hs|]. rewrite Hb. reflexivity.
Defined.

Definition demo_certs : CertState nat :=
  set_phase 1 (Returned #"a" 7) (store_cert 0 #"a" 7
    (set_phase 0 (Missed #"a") (set_phase 1 (Missed #"a")
      (set_phase 1 (Start #"a") (set_phase 0 (Start #"a") cert_init))))).

Lemma one_certificate_per_host_witness :
  cert_reachable demo_certs ∧ NoDup (signed demo_certs).*1 ∧
  certs demo_certs !! #"a" = Some 7.
Proof.
  assert (Hr : cert_reachable demo_certs).
  { eapply rtc_l; [apply (step_call 0 #"a"); reflexivity|].
    eapply rtc_l; [apply (step_call 1 #"a"); reflexivity|].
    eapply rtc_l; [apply (step_read_miss 1 #"a"); reflexivity|].
    eapply rtc_l; [apply (step_read_miss 0 #"a"); reflexivity|].
    eapply rtc_l; [apply (step_sign 0 #"a" 7); reflexivity|].
    eapply rtc_l; [apply (step_lock_hit 1 #"a" 7); reflexivity|]. apply rtc_refl. }
  destruct (one_certificate_per_host demo_certs Hr) as (Hnd & Hret & _).
  split_and!; [exact Hr|exact Hnd|]. by apply (Hret 1).
Defined.

Lemma getCert_refines_steps_witness :
  ∃ s', rtc cert_step (cert_init (Cert := nat)) s' ∧ certs s' !! #"a" = Some 3.
Proof.
  destruct (getCert_refines_steps (λ _, Some 3) 0 #"a" cert_init eq_refl) as (s' & Hr & Hc & _).
  exists s'. split; [exact Hr|]. rewrite Hc. reflexivity.
Defined.
