(* ===== verification/Cache.v ===== *)
(** * The byte caches (pkg/cache/cache.go)

    [CacheOps]/[CacheLaws] is the interface the clients of [cache.Cache] rely
    on; [InMemoryCache] and [DiskCache] are its implementations. Every method
    runs under the cache's lock, so a run is a sequence of whole calls, with
    the janitors' ticks and the disk cache's removal goroutines in between.
    Times and durations are nanoseconds. *)

From Stdlib Require Export Sorted.
From S2P Require Import Prelude GoStrings.

(** ** The interface *)

Class CacheOps (C : Type) := {
  cache_get : Z → gostring → C → option bytes * C;
  cache_set : Z → gostring → bytes → Z → C → C;
  cache_delete : Z → gostring → C → C;
}.

(** [holds c k v]: as far as overwriting goes, a [Get] of [k] may return [v].
    Two keys share a slot when the implementation cannot tell them apart. A
    [Delete] promises nothing but to add no value: on a disk it can fail, and
    reports nothing. *)
Class CacheLaws (C : Type) `{CacheOps C} := {
  same_slot : gostring → gostring → Prop;
  holds : C → gostring → bytes → Prop;
  same_slot_refl k : same_slot k k;
  get_holds now k c v : (cache_get now k c).1 = Some v → holds c k v;
  holds_get now k c k' v : holds (cache_get now k c).2 k' v → holds c k' v;
  holds_set now k v ttl c k' v' :
    holds (cache_set now k v ttl c) k' v' →
    (same_slot k' k ∧ v' = v) ∨ holds c k' v';
  holds_delete now k c k' v : holds (cache_delete now k c) k' v → holds c k' v;
}.

(** The calls of a run and the background events between them. *)
Inductive cache_op :=
  | OpGet (key : gostring)
  | OpSet (key : gostring) (value : bytes) (ttl : Z)
  | OpDelete (key : gostring)
  | OpTick.     (** a tick of the janitor *)

(** ** InMemoryCache *)
Module InMemoryCache.

Record cacheItem := mkItem { value : bytes; expiration : Z }.
Record t := mk { items : gmap gostring cacheItem; cleanupInterval : Z }.

Definition minute : Z := 60 * 10 ^ 9.

Definition NewInMemoryCache (cleanupInterval : Z) : t :=
  mk ∅ (if (cleanupInterval <=? 0)%Z then minute else cleanupInterval).

Definition Get (now : Z) (key : gostring) (c : t) : option bytes :=
  match items c !! key with
  | None => None
  | Some item => if (expiration item <? now)%Z then None else Some (value item)
  end.

Definition Set_ (now : Z) (key : gostring) (v : bytes) (ttl : Z) (c : t) : t :=
  mk (<[key := mkItem v (now + ttl)]> (items c)) (cleanupInterval c).

Definition Delete (key : gostring) (c : t) : t :=
  mk (delete key (items c)) (cleanupInterval c).

(** One tick of the janitor. *)
Definition janitor (now : Z) (c : t) : t :=
  mk (filter (λ e, ¬ (expiration e.2 < now)%Z) (items c)) (cleanupInterval c).

#[global] Instance ops : CacheOps t := {
  cache_get now k c := (Get now k c, c);
  cache_set := Set_;
  cache_delete now k c := Delete k c;
}.

Definition step (now : Z) (o : cache_op) (c : t) : list (option bytes) * t :=
  match o with
  | OpGet k => ([Get now k c], c)
  | OpSet k v ttl => ([], Set_ now k v ttl c)
  | OpDelete k => ([], Delete k c)
  | OpTick => ([], janitor now c)
  end.

(** The results of the gets of a run. *)
Fixpoint run (os : list (Z * cache_op)) (c : t) : list (option bytes) :=
  match os with
  | [] => []
  | (now, o) :: os => let '(r, c) := step now o c in r ++ run os c
  end.
End InMemoryCache.

(** *** What a cache promises: the history specification

    A get returns the value last set, if it was not deleted since and its
    time to live is not over. Histories are newest first. *)
Fixpoint spec_get (now : Z) (k : gostring) (hist : list (Z * cache_op)) : option bytes :=
  match hist with
  | [] => None
  | (t, OpSet k' v ttl) :: hist =>
      if decide (k' = k) then (if (t + ttl <? now)%Z then None else Some v)
      else spec_get now k hist
  | (_, OpDelete k') :: hist => if decide (k' = k) then None else spec_get now k hist
  | _ :: hist => spec_get now k hist
  end.

Fixpoint spec_run (hist os : list (Z * cache_op)) : list (option bytes) :=
  match os with
  | [] => []
  | (now, o) :: os =>
      match o with OpGet k => [spec_get now k hist] | _ => [] end ++ spec_run ((now, o) :: hist) os
  end.

(** *** Lemmas *)
Module InMemoryFacts.
Import InMemoryCache.

Lemma Get_janitor now t k c : (t ≤ now)%Z → Get now k (janitor t c) = Get now k c.
Proof.
  intros Hle. unfold Get, janitor. cbn [items].
  destruct (items c !! k) as [it|] eqn:E.
  - destruct (decide (expiration it < t)%Z) as [Hx|Hx].
    + assert (filter (λ e : gostring * cacheItem, ¬ (expiration e.2 < t)%Z) (items c) !! k = None) as ->.
      { apply map_lookup_filter_None. right. intros x. rewrite E. intros [= <-]. cbn. tauto. }
      by rewrite (proj2 (Z.ltb_lt _ _)) by lia.
    + assert (filter (λ e : gostring * cacheItem, ¬ (expiration e.2 < t)%Z) (items c) !! k = Some it) as ->
        by (by apply map_lookup_filter_Some).
      done.
  - assert (filter (λ e : gostring * cacheItem, ¬ (expiration e.2 < t)%Z) (items c) !! k = None) as ->
      by (apply map_lookup_filter_None; by left).
    done.
Qed.

Lemma Get_Set now t (k k' : gostring) v ttl c :
  Get now k (Set_ t k' v ttl c)
  = if decide (k' = k) then (if (t + ttl <? now)%Z then None else Some v) else Get now k c.
Proof. unfold Get, Set_. cbn [items]. rewrite lookup_insert. by case_decide. Qed.

Lemma Get_Delete now (k k' : gostring) c :
  Get now k (Delete k' c) = if decide (k' = k) then None else Get now k c.
Proof. unfold Get, Delete. cbn [items]. rewrite lookup_delete. by case_decide. Qed.

(** The cache agrees with the history from time [t0] on. *)
Definition agrees (t0 : Z) (hist : list (Z * cache_op)) (c : t) : Prop :=
  ∀ now k, (t0 ≤ now)%Z → Get now k c = spec_get now k hist.

Lemma agrees_step t0 now o hist c :
  (t0 ≤ now)%Z → agrees t0 hist c → agrees now ((now, o) :: hist) (step now o c).2.
Proof.
  intros Hle Ha now' k Hle'. destruct o; cbn [step snd spec_get].
  - apply Ha. lia.
  - rewrite Get_Set. case_decide; [done|]. apply Ha. lia.
  - rewrite Get_Delete. case_decide; [done|]. apply Ha. lia.
  - rewrite Get_janitor by done. apply Ha. lia.
Qed.

Lemma run_agrees t0 os hist c :
  agrees t0 hist c → Sorted Z.le (t0 :: os.*1) → run os c = spec_run hist os.
Proof.
  revert t0 hist c. induction os as [|[now o] os IH]; intros t0 hist c Ha Hs; [done|].
  cbn [fmap list_fmap fst] in Hs. apply Sorted_inv in Hs as [Hs Hhd].
  assert (Hle : (t0 ≤ now)%Z) by by inversion Hhd.
  pose proof (agrees_step t0 now o hist c Hle Ha) as Hst.
  cbn [run spec_run]. destruct (step now o c) as [r c'] eqn:E. cbn [snd] in Hst.
  rewrite (IH now ((now, o) :: hist) c') by done. f_equal.
  destruct o; injection E as <- _; [|done..]. by rewrite Ha.
Qed.

#[global, refine] Instance laws : CacheLaws t := {|
  same_slot := eq;
  holds c k v := value <$> items c !! k = Some v;
  same_slot_refl := @eq_refl _;
|}.
Proof.
  - intros now k c v. cbn. unfold Get. destruct (items c !! k); [|done].
    destruct (_ <? _)%Z; [done|]. by intros [= <-].
  - done.
  - intros now k v ttl c k' v'. cbn. rewrite lookup_insert. case_decide; [|by right].
    intros [= <-]. by left.
  - intros now k c k' v. cbn. rewrite lookup_delete. by case_decide.
Defined.
End InMemoryFacts.

(** ** DiskCache

    [sha256] is the standard library's digest. The directory is the map from
    the paths of its files to their contents and modification times; what a
    call does while it holds the lock is one step. A [disk_io] says which of
    the file operations of a call succeed: they are reported to nobody but the
    log, except that a [Get] whose file cannot be examined, opened or read
    misses. A temporary file of a [Put] that failed has no [.cache] name, so
    no call ever looks at it and it is not in the map. An expired entry is
    removed by a goroutine of its own, which does not take the lock:
    [removals] are the paths such goroutines are about to remove. *)
Module DiskCache.

Record disk_io := mkIO {
  io_stat : bool;                   (** os.Stat *)
  io_touch : bool;                  (** os.Chtimes of the file that is read *)
  io_read : bool;                   (** os.Open and io.ReadAll *)
  io_store : bool;                  (** a Put up to and including os.Rename *)
  io_list : bool;                   (** os.ReadDir *)
  io_info : gostring → bool;        (** entry.Info *)
  io_remove : gostring → bool;      (** os.Remove *)
}.

(** Everything succeeds. *)
Definition no_fault : disk_io := mkIO true true true true true (λ _, true) (λ _, true).

Section Disk.
Context (sha256 : bytes → bytes).

Record t := mk {
  dir : gostring;
  defaultTTL : Z;
  cleanupInterval : Z;
  files : gmap gostring (bytes * Z);
  removals : list gostring;
}.

Definition with_files (f : gmap gostring (bytes * Z)) (c : t) : t :=
  mk (dir c) (defaultTTL c) (cleanupInterval c) f (removals c).
Definition with_removals (r : list gostring) (c : t) : t :=
  mk (dir c) (defaultTTL c) (cleanupInterval c) (files c) r.

(** The directory may hold files already: the cache survives its process. *)
Definition NewDiskCache (dir : gostring) (defaultTTL cleanupInterval : Z)
    (files : gmap gostring (bytes * Z)) : t :=
  mk dir defaultTTL
    (if (cleanupInterval <=? 0)%Z then 10 * InMemoryCache.minute else cleanupInterval)%Z files [].

(** [filepath.Join] of a clean directory. *)
Definition keyPath (d key : gostring) : gostring :=
  d ++ #"/" ++ EncodeToString (sha256 key) ++ #".cache".

(** [Open], and the [Get] that reads what it opened. *)
Definition Get (io : disk_io) (now : Z) (key : gostring) (c : t) : option bytes * t :=
  let p := keyPath (dir c) key in
  match files c !! p with
  | None => (None, c)
  | Some (v, mtime) =>
      if negb (io_stat io) then (None, c)
      else if (0 <? defaultTTL c)%Z && (defaultTTL c <? now - mtime)%Z
      then (None, with_removals (p :: removals c) c)
      else (if io_read io then Some v else None,
            if io_touch io then with_files (<[p := (v, now)]> (files c)) c else c)
  end.

Definition Put (io : disk_io) (now : Z) (key : gostring) (v : bytes) (c : t) : t :=
  if io_store io then with_files (<[keyPath (dir c) key := (v, now)]> (files c)) c else c.

Definition Set_ (io : disk_io) (now : Z) (key : gostring) (v : bytes) (ttl : Z) (c : t) : t :=
  let c := if (0 <? ttl)%Z && (defaultTTL c <=? 0)%Z
           then mk (dir c) ttl (cleanupInterval c) (files c) (removals c) else c in
  Put io now key v c.

(** A file that cannot be removed stays: the failure is only logged. *)
Definition Delete (io : disk_io) (key : gostring) (c : t) : t :=
  let p := keyPath (dir c) key in
  if io_remove io p then with_files (delete p (files c)) c else c.

(** A tick of the janitor removes a file it finds expired, if it can. *)
Definition removes (io : disk_io) (now : Z) (c : t) (e : gostring * (bytes * Z)) : bool :=
  HasSuffix e.1 #".cache" && io_info io e.1 && (defaultTTL c <? now - e.2.2)%Z && io_remove io e.1.

Definition janitor (io : disk_io) (now : Z) (c : t) : t :=
  if (0 <? defaultTTL c)%Z && io_list io
  then with_files (filter (λ e, removes io now c e = false) (files c)) c
  else c.

(** One removal goroutine runs. *)
Definition run_removal (io : disk_io) (i : nat) (c : t) : t :=
  match removals c !! i with
  | None => c
  | Some p =>
      let c := with_removals (delete i (removals c)) c in
      if io_remove io p then with_files (delete p (files c)) c else c
  end.

Inductive event :=
  | Call (o : cache_op)
  | RemovalRuns (i : nat).

Definition step (io : disk_io) (now : Z) (e : event) (c : t) : list (option bytes) * t :=
  match e with
  | Call (OpGet k) => let '(r, c) := Get io now k c in ([r], c)
  | Call (OpSet k v ttl) => ([], Set_ io now k v ttl c)
  | Call (OpDelete k) => ([], Delete io k c)
  | Call OpTick => ([], janitor io now c)
  | RemovalRuns i => ([], run_removal io i c)
  end.

(** What happens at a time, and which file operations succeed in it. *)
Definition moment : Type := Z * disk_io * event.

(** The gets of a run, each with the history it was made in. *)
Fixpoint run (hist es : list moment) (c : t)
    : list (list moment * gostring * option bytes) :=
  match es with
  | [] => []
  | (now, io, e) :: es =>
      let '(r, c) := step io now e c in
      match e with
      | Call (OpGet k) => (λ x, (hist, k, x)) <$> r
      | _ => []
      end ++ run ((now, io, e) :: hist) es c
  end.

(** What was last stored for the key: the newest set that succeeded, unless a
    delete that succeeded came after it, and otherwise what the directory had
    to begin with. Keys with the same digest share a file. *)
Fixpoint last_stored (d : gostring) (first : gmap gostring (bytes * Z)) (k : gostring)
    (hist : list moment) : option bytes :=
  match hist with
  | [] => fst <$> first !! keyPath d k
  | (_, io, Call (OpSet k' v _)) :: hist =>
      if io_store io && bool_decide (sha256 k' = sha256 k) then Some v
      else last_stored d first k hist
  | (_, io, Call (OpDelete k')) :: hist =>
      if io_remove io (keyPath d k') && bool_decide (sha256 k' = sha256 k) then None
      else last_stored d first k hist
  | _ :: hist => last_stored d first k hist
  end.

(** As an implementation of the interface, with the faults of every instant. *)
#[global] Instance ops (io : Z → disk_io) : CacheOps t := {
  cache_get now := Get (io now) now;
  cache_set now := Set_ (io now) now;
  cache_delete now := Delete (io now);
}.

(** *** Lemmas *)

Lemma keyPath_eq d k k' : keyPath d k = keyPath d k' ↔ sha256 k = sha256 k'.
Proof.
  unfold keyPath. split; [|by intros ->].
  intros H. do 2 apply app_inv_head in H. apply app_inv_tail in H. by apply (inj EncodeToString).
Qed.

(** A [Get] changes no content, only the time of the file it reads. *)
Lemma Get_files io now k c p v m :
  files (Get io now k c).2 !! p = Some (v, m) → ∃ m', files c !! p = Some (v, m').
Proof.
  unfold Get. destruct (files c !! keyPath _ _) as [[v0 m0]|] eqn:E; [|eauto].
  destruct (negb _); [eauto|]. destruct (_ && _); [eauto|]. destruct (io_touch io); [|eauto].
  cbn. rewrite lookup_insert. case_decide as Ep; [|eauto]. intros [= -> ->]. subst p. eauto.
Qed.

Lemma Get_value io now k c v :
  (Get io now k c).1 = Some v → ∃ m, files c !! keyPath (dir c) k = Some (v, m).
Proof.
  unfold Get. destruct (files c !! keyPath _ _) as [[v0 m0]|]; [|done].
  destruct (negb _); [done|]. destruct (_ && _); [done|]. destruct (io_read io); [|done].
  intros [= ->]. eauto.
Qed.

Lemma step_dir io now e c : dir (step io now e c).2 = dir c.
Proof.
  destruct e as [[k|k v ttl|k|]|i]; cbn [step].
  - assert (dir (Get io now k c).2 = dir c) as <- by (unfold Get; by repeat case_match).
    by destruct (Get io now k c).
  - cbn. unfold Set_, Put. by repeat case_match.
  - cbn. unfold Delete. by case_match.
  - cbn. unfold janitor. by case_match.
  - cbn. unfold run_removal. by repeat case_match.
Qed.

(** Every file holds what was last stored for the keys that share it. *)
Definition sound (d : gostring) (first : gmap gostring (bytes * Z)) (hist : list moment) (c : t)
    : Prop :=
  dir c = d ∧
  ∀ k v mtime, files c !! keyPath d k = Some (v, mtime) → last_stored d first k hist = Some v.

(** The files after a step: nothing but a set that succeeds adds a content. *)
Lemma step_files io now e c p v m :
  files (step io now e c).2 !! p = Some (v, m) →
  (∃ m', files c !! p = Some (v, m') ∧
     match e with
     | Call (OpDelete k) => io_remove io (keyPath (dir c) k) = true → p ≠ keyPath (dir c) k
     | Call (OpSet k _ _) => io_store io = true → p ≠ keyPath (dir c) k
     | _ => True
     end) ∨
  (∃ k ttl, e = Call (OpSet k v ttl) ∧ io_store io = true ∧ p = keyPath (dir c) k).
Proof.
  destruct e as [[k|k w ttl|k|]|i]; cbn [step].
  - pose proof (Get_files io now k c p v m) as Hg.
    destruct (Get io now k c) as [r c']. cbn [snd] in Hg |- *. intros [m' H]%Hg. left. by exists m'.
  - cbn [snd]. unfold Set_. set (c1 := if _ && _ then _ else c).
    assert (dir c1 = dir c ∧ files c1 = files c) as [Hd Hf] by (subst c1; by case_match).
    clearbody c1. unfold Put. destruct (io_store io) eqn:Eo; rewrite ?Hf; [|left; by exists m].
    cbn. rewrite lookup_insert, ?Hf, Hd. case_decide as Ep.
    + intros [= <- <-]. right. by exists k, ttl.
    + intros H. left. exists m. split; [done|]. intros _ E. by apply Ep.
  - cbn [snd]. unfold Delete. destruct (io_remove io _) eqn:Er; [|left; by exists m].
    cbn. intros [Hp H]%lookup_delete_Some. left. exists m. split; [done|]. intros _ E. by apply Hp.
  - cbn [snd]. unfold janitor. destruct (_ && _); [|left; by exists m].
    cbn. intros [H _]%map_lookup_filter_Some. left. by exists m.
  - cbn [snd]. unfold run_removal. destruct (removals c !! i); [|left; by exists m].
    destruct (io_remove io _); cbn; [|left; by exists m].
    intros [_ H]%lookup_delete_Some. left. by exists m.
Qed.

Lemma sound_step d first now io e hist c :
  sound d first hist c → sound d first ((now, io, e) :: hist) (step io now e c).2.
Proof.
  intros [Hd Hs]. split; [by rewrite step_dir|]. intros k v m Hk. subst d.
  apply step_files in Hk as [(m' & Hk & He)|(k' & ttl & -> & Eo & Hp)].
  - apply Hs in Hk. cbn. destruct e as [[|k' w ttl|k'|]|]; try done.
    all: destruct (_ && bool_decide _) eqn:Eb; [|done].
    all: apply andb_true_iff in Eb as [Eb E%bool_decide_eq_true].
    all: destruct (He Eb); by apply keyPath_eq.
  - cbn. rewrite Eo, bool_decide_eq_true_2; [done|]. by apply keyPath_eq in Hp.
Qed.

Lemma run_sound d first es hist c h k v :
  sound d first hist c → (h, k, Some v) ∈ run hist es c → last_stored d first k h = Some v.
Proof.
  revert hist c. induction es as [|[[now io] e] es IH]; intros hist c Hs; cbn [run].
  { by intros ?%elem_of_nil. }
  pose proof (sound_step d first now io e hist c Hs) as Hst.
  destruct (step io now e c) as [r c'] eqn:E. cbn [snd] in Hst.
  intros [Hin|Hin]%elem_of_app; [|by eapply IH].
  destruct e as [[k'| | | ]|]; try by apply elem_of_nil in Hin.
  cbn [step] in E. destruct (Get io now k' c) as [x c1] eqn:Eg. injection E as <- _.
  cbn in Hin. apply list_elem_of_singleton in Hin as [= -> -> <-].
  destruct Hs as [<- Hs]. destruct (Get_value io now k' c v) as [m Hm]; [by rewrite Eg|].
  by apply Hs in Hm.
Qed.

#[global, refine] Instance laws (io : Z → disk_io) : @CacheLaws t (ops io) := {|
  same_slot k k' := sha256 k = sha256 k';
  holds c k v := ∃ mtime, files c !! keyPath (dir c) k = Some (v, mtime);
  same_slot_refl k := eq_refl;
|}.
Proof.
  - intros now k c v. apply Get_value.
  - intros now k c k' v. cbn [cache_get ops]. intros [m Hk].
    pose proof (step_dir (io now) now (Call (OpGet k)) c) as Hd. cbn [step] in Hd.
    destruct (Get (io now) now k c) as [r c'] eqn:E. cbn [snd] in Hd, Hk. rewrite Hd in Hk.
    apply (Get_files (io now) now k c _ _ m). by rewrite E.
  - intros now k v ttl c k' v'. cbn [cache_set ops]. intros [m Hk].
    pose proof (step_dir (io now) now (Call (OpSet k v ttl)) c) as Hd. cbn [step snd] in Hd.
    rewrite Hd in Hk.
    destruct (step_files (io now) now (Call (OpSet k v ttl)) c _ _ _ Hk)
      as [(m' & Hm & _)|(k2 & ttl2 & [= <- <- _] & _ & Hp)]; [right; by exists m'|].
    left. split; [by apply (keyPath_eq (dir c))|done].
  - intros now k c k' v. cbn [cache_delete ops]. unfold Delete. case_match; [|done].
    cbn [dir files with_files]. intros [m [_ Hk]%lookup_delete_Some]. by exists m.
Defined.
End Disk.
End DiskCache.

(** ** Properties *)

(** C34: The in-memory cache is the history specification: over any run of calls at non-decreasing
    times, with janitor ticks anywhere between them, every Get returns the value last set for its
    key, if it was not deleted since and its time to live is not over; the janitor is invisible. *)
Theorem in_memory_cache_refines_history (cleanupInterval : Z) (os : list (Z * cache_op)) :
  Sorted Z.le os.*1 →
  InMemoryCache.run os (InMemoryCache.NewInMemoryCache cleanupInterval) = spec_run [] os.
Proof.
  intros Hs. destruct os as [|[t0 o] os]; [done|].
  apply (InMemoryFacts.run_agrees t0).
  - intros now k _. done.
  - constructor; [done|]. constructor. cbn. lia.
Qed.

(** C35: The disk cache never serves anything but the newest value stored: from whatever files the
    directory has, in any run, with the janitor and the unlocked removal goroutines interleaved and
    any file operation failing (the removal of a Delete, of the janitor or of a goroutine included),
    what a Get returns is what the last successful Set of a key with the same digest stored, or the
    directory had to begin with, with no successful Delete of such a key since. *)
Theorem disk_cache_sound (sha256 : bytes → bytes) (dir : gostring) (ttl interval : Z)
    (first : gmap gostring (bytes * Z)) (es : list DiskCache.moment) h k v :
  (h, k, Some v) ∈ DiskCache.run sha256 [] es (DiskCache.NewDiskCache dir ttl interval first) →
  DiskCache.last_stored sha256 dir first k h = Some v.
Proof.
  apply (DiskCache.run_sound sha256 dir). split; [done|].
  intros k0 v0 m0 Hk. cbn in Hk |- *. by rewrite Hk.
Qed.

(** A Delete whose file cannot be removed reports nothing, and the entry is still served. *)
Theorem failed_delete_keeps_entry (sha256 : bytes → bytes) (c : DiskCache.t) io now k v mtime :
  DiskCache.files c !! DiskCache.keyPath sha256 (DiskCache.dir c) k = Some (v, mtime) →
  (now - mtime ≤ DiskCache.defaultTTL c)%Z →
  DiskCache.io_remove io (DiskCache.keyPath sha256 (DiskCache.dir c) k) = false →
  (DiskCache.Get sha256 DiskCache.no_fault now k (DiskCache.Delete sha256 io k c)).1 = Some v.
Proof.
  intros Hf Ht Hr. unfold DiskCache.Delete, DiskCache.Get. rewrite Hr, Hf. cbn.
  by rewrite (proj2 (Z.ltb_ge _ (now - mtime))), andb_false_r.
Qed.

(** The removal of an expired file can destroy a fresh one: a Get that finds the entry expired
    leaves its removal to a goroutine that takes no lock, and when a Set comes in between, the value
    just stored is removed, and the next Get misses. *)
Theorem late_removal_drops_fresh_entry (sha256 : bytes → bytes) (c : DiskCache.t) now k v old mtime ttl :
  let io := DiskCache.no_fault in
  (0 < DiskCache.defaultTTL c < now - mtime)%Z →
  DiskCache.files c !! DiskCache.keyPath sha256 (DiskCache.dir c) k = Some (old, mtime) →
  let c1 := (DiskCache.Get sha256 io now k c).2 in
  let c2 := DiskCache.Set_ sha256 io now k v ttl c1 in
  (DiskCache.Get sha256 io now k c2).1 = Some v ∧
  (DiskCache.Get sha256 io now k (DiskCache.run_removal io 0 c2)).1 = None.
Proof.
  intros io Ht Hf c1 c2.
  assert (Hc1 : c1 = DiskCache.with_removals (DiskCache.keyPath sha256 (DiskCache.dir c) k
                       :: DiskCache.removals c) c).
  { subst c1. unfold DiskCache.Get. rewrite Hf. cbn.
    rewrite (proj2 (Z.ltb_lt _ _)), (proj2 (Z.ltb_lt _ _)) by lia. done. }
  subst c2. rewrite Hc1. unfold DiskCache.Set_. cbn.
  rewrite (proj2 (Z.leb_gt (DiskCache.defaultTTL c) 0)), andb_false_r by lia. cbn.
  unfold DiskCache.Get, DiskCache.Put, DiskCache.run_removal. cbn.
  rewrite lookup_insert_eq, lookup_delete_eq.
  rewrite (proj2 (Z.ltb_ge _ (now - now))), andb_false_r by lia. done.
Qed.

(** The time to live given to a Set is not what bounds the life of a disk entry: once the cache
    has a default, an entry is served after its own time to live is over, as long as it was read
    within the default. *)
Theorem disk_ttl_ignored (sha256 : bytes → bytes) (c : DiskCache.t) now k v ttl later :
  let io := DiskCache.no_fault in
  (0 < ttl < later)%Z → (later ≤ DiskCache.defaultTTL c)%Z →
  (DiskCache.Get sha256 io (now + later) k (DiskCache.Set_ sha256 io now k v ttl c)).1 = Some v.
Proof.
  intros io H1 H2. unfold DiskCache.Set_.
  rewrite (proj2 (Z.leb_gt (DiskCache.defaultTTL c) 0)), andb_false_r by lia.
  unfold DiskCache.Get, DiskCache.Put. cbn. rewrite lookup_insert_eq. cbn.
  rewrite (proj2 (Z.ltb_ge _ (now + later - now))), andb_false_r by lia. done.
Qed.

(** ** Witnesses *)

Lemma in_memory_cache_refines_history_witness :
  InMemoryCache.run [(0, OpSet #"k" #"v" 5); (3, OpTick); (4, OpGet #"k"); (6, OpTick); (7, OpGet #"k")]%Z
    (InMemoryCache.NewInMemoryCache 0) = [Some #"v"; None].
Proof.
  rewrite (in_memory_cache_refines_history 0); [reflexivity|].
  repeat constructor; cbn; lia.
Defined.

(** A file from an earlier process, a delete that fails, a set, a set that fails. *)
Definition demo_files : gmap gostring (bytes * Z) :=
  {[ DiskCache.keyPath (λ s, s) #"/c" #"k" := (#"old", 0%Z) ]}.

Definition broken : DiskCache.disk_io :=
  DiskCache.mkIO true false true false true (λ _, true) (λ _, false).

Definition demo_disk_run : list DiskCache.moment :=
  [(0%Z, broken, DiskCache.Call (OpDelete #"k"));
   (1%Z, DiskCache.no_fault, DiskCache.Call (OpGet #"k"));
   (2%Z, DiskCache.no_fault, DiskCache.Call (OpSet #"k" #"v1" 0));
   (3%Z, broken, DiskCache.Call (OpSet #"k" #"v2" 0));
   (4%Z, broken, DiskCache.Call (OpGet #"k"))].

Lemma disk_cache_sound_witness :
  DiskCache.last_stored (λ s, s) #"/c" demo_files #"k" (reverse (take 1 demo_disk_run)) = Some #"old"
  ∧ DiskCache.last_stored (λ s, s) #"/c" demo_files #"k" (reverse (take 4 demo_disk_run)) = Some #"v1".
Proof.
  assert (E : DiskCache.run (λ s, s) [] demo_disk_run (DiskCache.NewDiskCache #"/c" 100 0 demo_files)
              = [(reverse (take 1 demo_disk_run), #"k", Some #"old");
                 (reverse (take 4 demo_disk_run), #"k", Some #"v1")]) by (vm_compute; reflexivity).
  split.
  - apply (disk_cache_sound (λ s, s) #"/c" 100 0 demo_files demo_disk_run). rewrite E.
    apply list_elem_of_here.
  - apply (disk_cache_sound (λ s, s) #"/c" 100 0 demo_files demo_disk_run). rewrite E.
    apply list_elem_of_further, list_elem_of_here.
Defined.

Definition demo_disk : DiskCache.t := DiskCache.mk #"/c" 10 60 demo_files [].

Lemma failed_delete_keeps_entry_witness :
  (DiskCache.Get (λ s, s) DiskCache.no_fault 5 #"k"
     (DiskCache.Delete (λ s, s) broken #"k" demo_disk)).1 = Some #"old".
Proof.
  apply (failed_delete_keeps_entry (λ s, s) demo_disk broken 5 #"k" #"old" 0).
  - apply lookup_singleton_eq.
  - cbn. lia.
  - reflexivity.
Defined.

Lemma late_removal_drops_fresh_entry_witness :
  (DiskCache.Get (λ s, s) DiskCache.no_fault 20 #"k" (DiskCache.run_removal DiskCache.no_fault 0
     (DiskCache.Set_ (λ s, s) DiskCache.no_fault 20 #"k" #"new" 10
        (DiskCache.Get (λ s, s) DiskCache.no_fault 20 #"k" demo_disk).2))).1 = None.
Proof.
  apply (late_removal_drops_fresh_entry (λ s, s) demo_disk 20 #"k" #"new" #"old" 0 10).
  - cbn. lia.
  - apply lookup_singleton_eq.
Defined.

Lemma disk_ttl_ignored_witness :
  (DiskCache.Get (λ s, s) DiskCache.no_fault (0 + 7) #"k"
     (DiskCache.Set_ (λ s, s) DiskCache.no_fault 0 #"k" #"new" 5 demo_disk)).1 = Some #"new".
Proof.
  apply (disk_ttl_ignored (λ s, s) demo_disk 0 #"k" #"new" 5 7); cbn; lia.
Defined.
