(* ===== verification/CachingTransport.v ===== *)
(** * The response cache (pkg/proxy/transport.go)

    [RoundTrip] answers GET requests from a byte cache, keyed by the URL, and
    stores what the upstream answers. It is proved against the cache
    interface; the gob codec is a parameter with its round-trip law. *)

From S2P Require Import Prelude GoStrings Http Cache.

Record CachedResponse := mkCachedResponse {
  cr_StatusCode : Z;
  cr_Header : Header;
  cr_Body : bytes;
}.

(** [req.URL.String()]: [Path] is the path as it is on the wire. *)
Definition URL_String (u : URL) : gostring :=
  (if bool_decide (Scheme u = []) then [] else Scheme u ++ #":") ++
  (if bool_decide (Scheme u = [] ∧ URLHost u = []) || bool_decide (URLHost u = [] ∧ Path u = [])
   then [] else #"//" ++ URLHost u) ++
  (if bool_decide (Path u ≠ [] ∧ URLHost u ≠ []) && negb (HasPrefix (Path u) #"/")
   then #"/" else []) ++ Path u ++
  (if bool_decide (RawQuery u = []) then [] else #"?" ++ RawQuery u).

Section Transport.
Context {C W : Type} `{CacheOps C}
        (encode : CachedResponse → option bytes) (decode : bytes → option CachedResponse)
        (Upstream : Request → W → option Response * W).

Record CachingTransport := mkCachingTransport { DefaultTTL : Z }.

(** The response a hit builds. *)
Definition from_cache (cr : CachedResponse) : Response :=
  mkResponse (cr_StatusCode cr) (cr_Header cr) [cr_Body cr] false ∅.

Definition to_cache (resp : Response) : CachedResponse :=
  mkCachedResponse (StatusCode resp) (RespHeader resp) (resp_body resp).

(** The response a miss returns, its body read and wrapped again. *)
Definition rewrapped (resp : Response) : Response :=
  mkResponse (StatusCode resp) (RespHeader resp) [resp_body resp] false (Trailer resp).

(** The part of [RoundTrip] after a lookup that gave nothing usable. When the
    body cannot be read to its end the error is returned, and the response
    with it is not looked at by the caller. *)
Definition fetch_and_store (ct : CachingTransport) (now : Z) (req : Request) (c : C) (s : W)
    : option Response * (C * W) :=
  match Upstream req s with
  | (None, s) => (None, (c, s))
  | (Some resp, s) =>
      if BodyFails resp then (None, (c, s)) else
      let c := match encode (to_cache resp) with
               | Some b => cache_set now (URL_String (ReqURL req)) b (DefaultTTL ct) c
               | None => c
               end in
      (Some (rewrapped resp), (c, s))
  end.

(** [now] is the time of the lookup and [now'] that of the store. *)
Definition RoundTrip (ct : CachingTransport) (now now' : Z) (req : Request) (st : C * W)
    : option Response * (C * W) :=
  let '(c, s) := st in
  if negb (bool_decide (Method req = #"GET")) then
    let '(r, s) := Upstream req s in (r, (c, s))
  else
    match cache_get now (URL_String (ReqURL req)) c with
    | (Some val, c) =>
        match decode val with
        | Some cr => (Some (from_cache cr), (c, s))
        | None => fetch_and_store ct now' req c s
        end
    | (None, c) => fetch_and_store ct now' req c s
    end.
End Transport.

(** ** Runs

    An upstream whose answers are given, and that logs what it answered. *)
Definition logging (answers : nat → Request → option Response) (q : Request)
    (log : list (Request * option Response)) : option Response * list (Request * option Response) :=
  let r := answers (length log) q in (r, log ++ [(q, r)]).

Section Runs.
Context {C : Type} `{CacheLaws C}
        (encode : CachedResponse → option bytes) (decode : bytes → option CachedResponse)
        (decode_encode : ∀ cr b, encode cr = Some b → decode b = Some cr)
        (answers : nat → Request → option Response) (ct : CachingTransport).

Abbreviation log := (list (Request * option Response)).

(** Serve the requests one after the other; each comes with its two times. *)
Fixpoint serve_all (reqs : list (Z * Z * Request)) (st : C * log)
    : list (Request * option Response) * (C * log) :=
  match reqs with
  | [] => ([], st)
  | (now, now', q) :: reqs =>
      let '(r, st) := RoundTrip encode decode (logging answers) ct now now' q st in
      let '(rs, st) := serve_all reqs st in ((q, r) :: rs, st)
  end.

(** A GET the upstream answered, for a URL that shares the slot of [key]. *)
Definition answered (l : log) (key : gostring) (resp : Response) : Prop :=
  ∃ q, (q, Some resp) ∈ l ∧ Method q = #"GET" ∧ BodyFails resp = false ∧
       same_slot key (URL_String (ReqURL q)).

Definition backed (st : C * log) : Prop :=
  ∀ k v, holds st.1 k v → ∃ resp, encode (to_cache resp) = Some v ∧ answered st.2 k resp.

(** What a client may get for a request: an answer of the upstream to this
    very request, or one it gave to a GET of the same slot. *)
Definition justified (l : log) (q : Request) (r : option Response) : Prop :=
  match r with
  | None => ∃ r, (q, r) ∈ l
  | Some resp =>
      (q, Some resp) ∈ l ∨
      (Method q = #"GET" ∧ ∃ resp0, answered l (URL_String (ReqURL q)) resp0 ∧
         StatusCode resp = StatusCode resp0 ∧ RespHeader resp = RespHeader resp0 ∧
         resp_body resp = resp_body resp0)
  end.

Lemma answered_mono l l' k resp : l ⊆ l' → answered l k resp → answered l' k resp.
Proof. intros Hs (q & Hq & ?). exists q. split; [by apply Hs|done]. Qed.

Lemma justified_mono l l' q r : l ⊆ l' → justified l q r → justified l' q r.
Proof.
  intros Hs. destruct r as [resp|]; cbn.
  - intros [Hin|[Hm (r0 & Ha & Hr)]]; [left; by apply Hs|]. right. split; [done|].
    exists r0. split; [by eapply answered_mono|done].
  - intros [r Hr]. exists r. by apply Hs.
Qed.

Lemma fetch_and_store_ok now q c l r st' :
  Method q = #"GET" → backed (c, l) →
  fetch_and_store encode (logging answers) ct now q c l = (r, st') →
  l ⊆ st'.2 ∧ backed st' ∧ justified st'.2 q r.
Proof.
  intros Hm Hb E. unfold fetch_and_store, logging in E.
  set (a := answers (length l) q) in *.
  assert (Hsub : l ⊆ l ++ [(q, a)]) by (intros x Hx; apply elem_of_app; by left).
  assert (Hb' : backed (c, l ++ [(q, a)])).
  { intros k v Hk. destruct (Hb k v Hk) as (resp & He & Ha). exists resp. split; [done|].
    by eapply answered_mono. }
  assert (Hin : (q, a) ∈ l ++ [(q, a)]) by (apply elem_of_app; right; by apply list_elem_of_singleton).
  destruct a as [resp|]; [|injection E as <- <-; split_and!; [done..|by exists None]].
  destruct (BodyFails resp) eqn:Ef.
  { injection E as <- <-. split_and!; [done..|by eexists]. }
  injection E as <- <-. split_and!; [done| |].
  - destruct (encode (to_cache resp)) as [b|] eqn:Ee; [|done].
    intros k v [[Hk ->]|Hk]%holds_set; [|by apply Hb'].
    exists resp. split; [done|]. by exists q.
  - cbn. right. split; [done|]. exists resp. split_and!; [|done..|apply app_nil_r].
    exists q. split_and!; [done..|apply same_slot_refl].
Qed.

Lemma RoundTrip_ok now now' q c l r st' :
  backed (c, l) →
  RoundTrip encode decode (logging answers) ct now now' q (c, l) = (r, st') →
  l ⊆ st'.2 ∧ backed st' ∧ justified st'.2 q r.
Proof using decode_encode.
  intros Hb. cbn [RoundTrip]. case_bool_decide as Hm; cbn [negb].
  - destruct (cache_get now _ c) as [x c1] eqn:Eg.
    assert (Hb1 : backed (c1, l)).
    { intros k v Hk. apply Hb. cbn in *. eapply holds_get. rewrite Eg. exact Hk. }
    destruct x as [v|]; [|by apply fetch_and_store_ok].
    assert (Hv : holds c (URL_String (ReqURL q)) v) by (eapply get_holds; by rewrite Eg).
    destruct (Hb _ _ Hv) as (resp0 & He & Ha). rewrite (decode_encode _ _ He).
    intros [= <- <-]. split_and!; [done..|]. cbn. right. split; [done|].
    exists resp0. split_and!; [done..|apply app_nil_r].
  - destruct (logging answers q l) as [r0 l0] eqn:El. intros [= <- <-].
    unfold logging in El. injection El as <- <-.
    assert (Hsub : l ⊆ l ++ [(q, answers (length l) q)]) by (intros x Hx; apply elem_of_app; by left).
    assert (Hin : (q, answers (length l) q) ∈ l ++ [(q, answers (length l) q)])
      by (apply elem_of_app; right; by apply list_elem_of_singleton).
    split_and!; [done| |].
    + intros k v Hk. destruct (Hb k v Hk) as (resp & He & Ha). exists resp. split; [done|].
      by eapply answered_mono.
    + cbn. destruct (answers (length l) q); cbn; [by left|by eexists].
Qed.

Lemma serve_all_ok reqs c l rs st' :
  backed (c, l) → serve_all reqs (c, l) = (rs, st') →
  l ⊆ st'.2 ∧ ∀ q r, (q, r) ∈ rs → justified st'.2 q r.
Proof using decode_encode.
  revert c l rs st'. induction reqs as [|[[now now'] q] reqs IH]; intros c l rs st' Hb; cbn [serve_all].
  { intros [= <- <-]. split; [done|]. by intros ?? ?%elem_of_nil. }
  destruct (RoundTrip _ _ _ _ _ _ _ _) as [r [c1 l1]] eqn:Er.
  destruct (RoundTrip_ok _ _ _ _ _ _ _ Hb Er) as (Hs & Hb1 & Hj). cbn [snd] in *.
  destruct (serve_all reqs _) as [rs1 st1] eqn:Es. intros [= <- <-].
  destruct (IH _ _ _ _ Hb1 Es) as [Hs1 Hall]. split; [by etrans|].
  intros q' r' [[= -> ->]|Hin]%elem_of_cons; [|by apply Hall].
  by eapply justified_mono.
Qed.
End Runs.

(** ** Concurrent round trips

    The requests of a proxy run next to each other; what they share is the
    cache, whose operations hold its lock, and the upstream. [trip_step] is
    [RoundTrip] between two accesses to these, [flight_step] interleaves any
    number of requests with what the cache drops in the background. *)

Inductive trip :=
  | Looking
  | Asking
  | Filling (resp : Response)
  | Replied (r : option Response).

Section Trip.
Context {C W : Type} `{CacheOps C}
        (encode : CachedResponse → option bytes) (decode : bytes → option CachedResponse)
        (Upstream : Request → W → option Response * W) (ct : CachingTransport).

Definition trip_step (now : Z) (req : Request) (c : trip) (st : C * W) : option (trip * (C * W)) :=
  let '(cache, s) := st in
  match c with
  | Looking =>
      Some (if negb (bool_decide (Method req = #"GET")) then (Asking, st) else
            let '(v, cache) := cache_get now (URL_String (ReqURL req)) cache in
            (match v ≫= decode with Some cr => Replied (Some (from_cache cr)) | None => Asking end, (cache, s)))
  | Asking =>
      Some match Upstream req s with
      | (None, s) => (Replied None, (cache, s))
      | (Some resp, s) =>
          (if negb (bool_decide (Method req = #"GET")) then Replied (Some resp)
           else if BodyFails resp then Replied None else Filling resp, (cache, s))
      end
  | Filling resp =>
      Some (Replied (Some (rewrapped resp)),
            (match encode (to_cache resp) with
             | Some b => cache_set now (URL_String (ReqURL req)) b (DefaultTTL ct) cache
             | None => cache
             end, s))
  | Replied _ => None
  end.

(** Three steps without interruption are [RoundTrip]. *)
Lemma trip_alone now now' req st :
  ∃ c1 st1 c2 st2, trip_step now req Looking st = Some (c1, st1) ∧
    (c1 = Replied (RoundTrip encode decode Upstream ct now now' req st).1 ∧
       st1 = (RoundTrip encode decode Upstream ct now now' req st).2 ∨
     trip_step now req c1 st1 = Some (c2, st2) ∧
       (c2 = Replied (RoundTrip encode decode Upstream ct now now' req st).1 ∧
          st2 = (RoundTrip encode decode Upstream ct now now' req st).2 ∨
        trip_step now' req c2 st2 = Some (Replied (RoundTrip encode decode Upstream ct now now' req st).1,
          (RoundTrip encode decode Upstream ct now now' req st).2))).
Proof.
  destruct st as [c s]. unfold RoundTrip, fetch_and_store. cbn [trip_step].
  case_bool_decide as Hm; cbn [negb].
  - destruct (cache_get now _ c) as [v c'].
    assert (Ha : ∃ c2 st2, trip_step now req Asking (c', s) = Some (c2, st2) ∧
      (c2 = Replied (fetch_and_store encode Upstream ct now' req c' s).1 ∧
         st2 = (fetch_and_store encode Upstream ct now' req c' s).2 ∨
       trip_step now' req c2 st2 = Some (Replied (fetch_and_store encode Upstream ct now' req c' s).1,
          (fetch_and_store encode Upstream ct now' req c' s).2))).
    { cbn [trip_step]. rewrite bool_decide_eq_true_2 by done. unfold fetch_and_store.
      destruct (Upstream req s) as [[resp|] s']; [|by eexists _, _; split; [|left]].
      cbn [negb]. destruct (BodyFails resp) eqn:Ef; eexists _, _; (split; [done|]); [by left|by right]. }
    destruct Ha as (c2 & st2 & Ha & Hr).
    destruct v as [v|]; cbn [mbind option_bind]; [destruct (decode v) as [cr|]|];
      eexists _, _, c2, st2; (split; [done|]); [by left|by right..].
  - destruct (Upstream req s) as [r s'] eqn:Eu. exists Asking, (c, s), (Replied r), (c, s'). split; [done|]. right.
    split; [|by left]. cbn [trip_step]. rewrite Eu, bool_decide_eq_false_2 by done. by destruct r.
Qed.
End Trip.

Section Flights.
Context {C : Type} `{CacheLaws C}
        (encode : CachedResponse → option bytes) (decode : bytes → option CachedResponse)
        (decode_encode : ∀ cr b, encode cr = Some b → decode b = Some cr)
        (answers : nat → Request → option Response) (ct : CachingTransport).

Abbreviation log := (list (Request * option Response)).
Abbreviation step := (trip_step encode decode (logging answers) ct).
Abbreviation flights := ((C * log) * list (Request * trip))%type.

Inductive flight_step : flights → flights → Prop :=
  | flight_starts q st ths : flight_step (st, ths) (st, ths ++ [(q, Looking)])
  | flight_moves i now q c c' st st' ths :
      ths !! i = Some (q, c) → step now q c st = Some (c', st') →
      flight_step (st, ths) (st', <[i := (q, c')]> ths)
  | flight_drops c c' l ths :
      (∀ k v, holds c' k v → holds c k v) → flight_step ((c, l), ths) ((c', l), ths).

Definition trip_ok (l : log) (q : Request) (c : trip) : Prop :=
  match c with
  | Looking | Asking => True
  | Filling resp => Method q = #"GET" ∧ (q, Some resp) ∈ l ∧ BodyFails resp = false
  | Replied r => justified l q r
  end.

Definition flights_ok (x : flights) : Prop :=
  backed encode x.1 ∧ Forall (λ th, trip_ok x.1.2 th.1 th.2) x.2.

Lemma trip_ok_mono l l' q c : l ⊆ l' → trip_ok l q c → trip_ok l' q c.
Proof.
  intros Hs. destruct c; cbn; try done; [|by apply justified_mono].
  intros (? & ? & ?). split_and!; [done|by apply Hs|done].
Qed.

Lemma trip_step_ok now q c st x :
  backed encode st → trip_ok st.2 q c → step now q c st = Some x →
  st.2 ⊆ x.2.2 ∧ backed encode x.2 ∧ trip_ok x.2.2 q x.1.
Proof using decode_encode.
  destruct st as [cache l]. intros Hb Hc Hx. destruct c as [| |resp|r]; cbn [trip_step] in Hx; [..|done];
    injection Hx as <-.
  - case_bool_decide as Hm; [|done]. cbn [negb]. destruct (cache_get now _ cache) as [v cache'] eqn:Eg.
    assert (Hb1 : backed encode (cache', l)).
    { intros k v' Hk. apply Hb. cbn in *. eapply holds_get. rewrite Eg. exact Hk. }
    split_and!; [done..|]. destruct v as [v|]; [|done]. cbn [mbind option_bind fst snd].
    assert (Hv : holds cache (URL_String (ReqURL q)) v) by (eapply get_holds; by rewrite Eg).
    destruct (Hb _ _ Hv) as (resp0 & He & Ha). rewrite (decode_encode _ _ He).
    cbn. right. split; [done|]. exists resp0. split_and!; [done..|apply app_nil_r].
  - unfold logging. set (a := answers (length l) q). set (l' := l ++ [(q, a)]).
    assert (Hs : l ⊆ l') by (intros y Hy; apply elem_of_app; by left).
    assert (Hin : (q, a) ∈ l') by (apply elem_of_app; right; by apply list_elem_of_singleton).
    assert (Hb' : backed encode (cache, l')).
    { intros k v Hk. destruct (Hb k v Hk) as (r & He & Ha). exists r. split; [done|]. by eapply answered_mono. }
    destruct a as [resp|]; cbn [fst snd]; (split_and!; [done..|]); [|by exists None].
    case_bool_decide; cbn [negb]; [|by left]. destruct (BodyFails resp) eqn:Ef; [by eexists|done].
  - destruct Hc as (Hm & Hin & Hf).
    assert (Ha : answered l (URL_String (ReqURL q)) resp) by (exists q; split_and!; [done..|apply same_slot_refl]).
    split_and!; [done| |].
    + destruct (encode (to_cache resp)) as [b|] eqn:Ee; [|done].
      intros k v [[Hk ->]|Hk]%holds_set; [|by apply Hb]. exists resp. split; [done|]. by exists q.
    + cbn. right. split; [done|]. exists resp. split_and!; [done..|apply app_nil_r].
Qed.

Lemma flight_step_ok x y : flights_ok x → flight_step x y → flights_ok y.
Proof using decode_encode.
  intros [Hb Hf] Hs. destruct Hs as [q st ths|i now q c c' st st' ths Hth Hst|c c' l ths Hh]; cbn [fst snd] in *.
  - split; [done|]. by apply Forall_app_2; [|apply Forall_singleton].
  - assert (Hc : trip_ok st.2 q c) by exact (Forall_lookup_1 _ _ _ _ Hf Hth).
    destruct (trip_step_ok now q c st (c', st') Hb Hc Hst) as (Hl & Hb' & Hc'). split; [done|].
    apply Forall_insert; [|done]. eapply Forall_impl; [exact Hf|]. intros th. by apply trip_ok_mono.
  - split; [|done]. intros k v Hk%Hh. by apply Hb.
Qed.

Lemma flights_reachable_ok c0 x :
  (∀ k v, ¬ holds c0 k v) → rtc flight_step ((c0, []), []) x → flights_ok x.
Proof using decode_encode.
  intros Hempty Hr. assert (Hstart : flights_ok ((c0, []), [])) by (split; [by intros k v Hk%Hempty|done]).
  revert Hstart. induction Hr as [x|x y z Hxy _ IH]; [done|]. intros Hx. apply IH. by eapply flight_step_ok.
Qed.
End Flights.

(** A GET that is stored answers the later ones of its URL while it lives. *)
Lemma hit_after_store encode decode
    (decode_encode : ∀ cr b, encode cr = Some b → decode b = Some cr)
    {W} (Upstream : Request → W → option Response * W) ct ct' (c : InMemoryCache.t) now later later'
    q q' resp b s s' :
  Method q = #"GET" → Method q' = #"GET" → URL_String (ReqURL q') = URL_String (ReqURL q) →
  (cache_get now (URL_String (ReqURL q)) c).1 = None →
  Upstream q s = (Some resp, s') → BodyFails resp = false → encode (to_cache resp) = Some b →
  (later ≤ now + DefaultTTL ct)%Z →
  let st := (RoundTrip encode decode Upstream ct now now q (c, s)).2 in
  RoundTrip encode decode Upstream ct' later later' q' st
  = (Some (from_cache (to_cache resp)), st) ∧ st.2 = s'.
Proof.
  intros Hm Hm' Hu Hmiss Hup Hf He Hle st. cbn in Hmiss.
  assert (st = (InMemoryCache.Set_ now (URL_String (ReqURL q)) b (DefaultTTL ct) c, s')) as ->.
  { subst st. unfold RoundTrip. rewrite Hm. cbn. rewrite Hmiss.
    unfold fetch_and_store. by rewrite Hup, Hf, He. }
  split; [|done]. unfold RoundTrip. rewrite Hm', Hu. cbn.
  rewrite InMemoryFacts.Get_Set, decide_True by done.
  rewrite (proj2 (Z.ltb_ge _ _)) by lia. by rewrite (decode_encode _ _ He).
Qed.

(** ** Properties *)

(** Over any cache that keeps its interface, whatever sequence of requests is served, at any
    times, each response is one the upstream gave: to this very request, or, for a GET, the same
    status, headers and whole body that it gave to a GET whose URL has the same cache slot; a
    response whose body could not be read to the end is never served from the cache. *)
Theorem cached_responses_come_from_upstream {C} `{CacheLaws C} encode decode
    (decode_encode : ∀ cr b, encode cr = Some b → decode b = Some cr)
    answers ct (reqs : list (Z * Z * Request)) (c0 : C) :
  (∀ k v, ¬ holds c0 k v) →
  let '(rs, (_, log)) := serve_all encode decode answers ct reqs (c0, []) in
  ∀ q r, (q, r) ∈ rs → justified log q r.
Proof.
  intros Hempty. destruct (serve_all _ _ _ _ _ _) as [rs [c log]] eqn:E.
  eapply serve_all_ok in E; [by apply E|done|].
  intros k v Hk. by apply Hempty in Hk.
Qed.

(** C36: The same with any number of requests at once: however their steps interleave and
    whatever the cache drops meanwhile, each response a request has got is one the upstream gave,
    to this very request or to a GET of the same cache slot, with its whole body. *)
Theorem concurrent_responses_come_from_upstream {C} `{CacheLaws C} encode decode
    (decode_encode : ∀ cr b, encode cr = Some b → decode b = Some cr)
    answers ct (c0 : C) st ths q r :
  (∀ k v, ¬ holds c0 k v) → rtc (flight_step encode decode answers ct) ((c0, []), []) (st, ths) →
  (q, Replied r) ∈ ths → justified st.2 q r.
Proof.
  intros Hempty Hr Hin. eapply flights_reachable_ok in Hr as [_ Hf]; [|done..].
  exact (proj1 (Forall_forall _ _) Hf (q, Replied r) Hin).
Qed.

(** A cached answer ignores the request's headers: after a GET was answered and stored, a GET of
    the same URL within the time to live gets the stored status, headers and body whatever headers
    it carries (Range, Accept or the identity attribution), and the upstream is not asked. *)
Theorem cache_ignores_request_headers encode decode
    (decode_encode : ∀ cr b, encode cr = Some b → decode b = Some cr)
    {W} (Upstream : Request → W → option Response * W) ct (c : InMemoryCache.t) now later
    q q' resp b s s' :
  Method q = #"GET" → Method q' = #"GET" → URL_String (ReqURL q') = URL_String (ReqURL q) →
  (cache_get now (URL_String (ReqURL q)) c).1 = None →
  Upstream q s = (Some resp, s') → BodyFails resp = false → encode (to_cache resp) = Some b →
  (later ≤ now + DefaultTTL ct)%Z →
  let st := (RoundTrip encode decode Upstream ct now now q (c, s)).2 in
  RoundTrip encode decode Upstream ct later later q' st
  = (Some (from_cache (to_cache resp)), st) ∧ st.2 = s'.
Proof.
  by apply hit_after_store.
Qed.

(** ** Witnesses *)

(** A codec for the witnesses: it stores the body of a header-less 200. *)
Definition demo_encode (cr : CachedResponse) : option bytes :=
  if bool_decide (cr_StatusCode cr = 200%Z ∧ cr_Header cr = ∅) then Some (cr_Body cr) else None.
Definition demo_decode (b : bytes) : option CachedResponse := Some (mkCachedResponse 200 ∅ b).

Lemma demo_codec cr b : demo_encode cr = Some b → demo_decode b = Some cr.
Proof.
  unfold demo_encode, demo_decode. case_bool_decide as E; [|done]. intros [= <-].
  destruct cr, E; cbn in *; by subst.
Qed.

Definition demo_get (range : gostring) : Request :=
  mkRequest #"GET" (mkURL #"https" #"api.example.com" #"/file" []) #"api.example.com"
    {[ #"Range" := [range] ]} [] #"10.0.0.7:4711".
Definition demo_answer (body : bytes) : Response := mkResponse 200 ∅ [body] false ∅.
Definition demo_answers (n : nat) (q : Request) : option Response :=
  Some (demo_answer (match n with O => #"first" | _ => #"second" end)).

Lemma cached_responses_come_from_upstream_witness :
  let '(rs, (_, log)) :=
    serve_all demo_encode demo_decode demo_answers (mkCachingTransport 10)
      [(0, 0, demo_get #"bytes=0-4"); (5, 5, demo_get #"bytes=0-4"); (20, 20, demo_get #"bytes=0-4")]%Z
      (InMemoryCache.NewInMemoryCache 0, []) in
  ∀ q r, (q, r) ∈ rs → justified log q r.
Proof.
  apply (cached_responses_come_from_upstream demo_encode demo_decode demo_codec demo_answers).
  intros k v H. cbn in H. rewrite lookup_empty in H. discriminate.
Defined.

Lemma cache_ignores_request_headers_witness :
  (RoundTrip demo_encode demo_decode (logging demo_answers) (mkCachingTransport 10) 7 7
     (demo_get #"bytes=5-9")
     (RoundTrip demo_encode demo_decode (logging demo_answers) (mkCachingTransport 10) 0 0
        (demo_get #"bytes=0-4") (InMemoryCache.NewInMemoryCache 0, [])).2).1
  = Some (demo_answer #"first").
Proof.
  pose proof (cache_ignores_request_headers demo_encode demo_decode demo_codec
    (logging demo_answers) (mkCachingTransport 10) (InMemoryCache.NewInMemoryCache 0) 0 7
    (demo_get #"bytes=0-4") (demo_get #"bytes=5-9") (demo_answer #"first") #"first" []
    [(demo_get #"bytes=0-4", Some (demo_answer #"first"))]
    eq_refl eq_refl eq_refl eq_refl eq_refl eq_refl eq_refl ltac:(cbn; lia)) as [H _].
  rewrite H. reflexivity.
Defined.

(** Two requests for the file look into the cache before either has asked the
    upstream, so that both ask. *)
Definition demo_pair : list (Request * trip) :=
  [(demo_get #"bytes=0-4", Replied (Some (demo_answer #"first")));
   (demo_get #"bytes=5-9", Replied (Some (demo_answer #"second")))].

Lemma demo_pair_reached :
  ∃ c, rtc (flight_step demo_encode demo_decode demo_answers (mkCachingTransport 10))
    ((InMemoryCache.NewInMemoryCache 0, []), [])
    ((c, [(demo_get #"bytes=0-4", Some (demo_answer #"first")); (demo_get #"bytes=5-9", Some (demo_answer #"second"))]),
     demo_pair).
Proof.
  eexists. eapply rtc_l; [apply (flight_starts _ _ _ _ (demo_get #"bytes=0-4"))|].
  eapply rtc_l; [apply (flight_starts _ _ _ _ (demo_get #"bytes=5-9"))|].
  do 3 (eapply rtc_l; [eapply (flight_moves _ _ _ _ 0 0 (demo_get #"bytes=0-4")); reflexivity|];
        eapply rtc_l; [eapply (flight_moves _ _ _ _ 1 0 (demo_get #"bytes=5-9")); reflexivity|]).
  apply rtc_refl.
Qed.

Lemma concurrent_responses_come_from_upstream_witness :
  justified [(demo_get #"bytes=0-4", Some (demo_answer #"first")); (demo_get #"bytes=5-9", Some (demo_answer #"second"))]
    (demo_get #"bytes=5-9") (Some (demo_answer #"second")).
Proof.
  destruct demo_pair_reached as [c Hr].
  refine (concurrent_responses_come_from_upstream demo_encode demo_decode demo_codec demo_answers (mkCachingTransport 10)
    (InMemoryCache.NewInMemoryCache 0) (c, _) demo_pair (demo_get #"bytes=5-9") (Some (demo_answer #"second")) _ Hr _).
  - intros k v H. cbn in H. rewrite lookup_empty in H. discriminate.
  - right. left.
Defined.
