(* ===== verification/RuleRouter.v ===== *)
(** * The rule router (pkg/portals/rules.go)

    [loadRules] turns the YAML rules into a routing table; [ServeHTTP] and
    [GetCertificate] choose the route of a host, ask the pod map whether the
    caller may use it, and hand over to the rule's proxy; [MatchHost] tells the
    DNS server which hosts the portal serves.

    Where the source ranges over the routing table and stops at the first
    match, the order of the iteration is an argument: any permutation of the
    table's entries. *)

From S2P Require Import Prelude GoStrings GoNet PodMap Http Cache CachingTransport HTTPProxy.

(** ** Rules *)

Record RuleSpec := mkRuleSpec {
  spec_Host : gostring;
  spec_RewriteURL : gostring;
  spec_AuthToken : gostring;
  spec_AuthHeader : gostring;
  spec_CacheTTL : gostring;
  spec_AttributionHeaders : bool;
}.

Record PortalRule := mkPortalRule {
  APIVersion : gostring;
  Kind : gostring;
  Metadata_Name : gostring;
  Spec : RuleSpec;
}.

(** A proxy's transport: the default one, a caching one with its TTL, or one
    that logs what goes through it (set up by the portals' binaries). *)
Inductive transport := DefaultTransport | Caching (ttl : Z) | Logged (underlying : transport).

Record Rule := mkRule {
  Proxy : HTTPProxy;
  Transport : transport;
  Name : gostring;
  AttributionHeaders : bool;
}.

Record RuleRouter := mkRuleRouter {
  routes : gmap gostring Rule;
  fallback : option (HTTPProxy * transport);
  rulesDir : gostring;
  has_cache : bool;                 (** [rr.cache != nil] *)
  podMap : option PodMap;
}.

Definition NewRuleRouter (rulesDir : gostring) (fallback : option (HTTPProxy * transport))
    (has_cache : bool) : RuleRouter :=
  mkRuleRouter ∅ fallback rulesDir has_cache None.

Definition SetPodMap (pm : option PodMap) (rr : RuleRouter) : RuleRouter :=
  mkRuleRouter (routes rr) (fallback rr) (rulesDir rr) (has_cache rr) pm.

(** ** Loading *)

(** What [filepath.WalkDir] yields, in its order; a file comes with what
    [os.ReadFile] returns for it. *)
Inductive walk_entry :=
  | WalkError
  | WalkDir
  | WalkFile (path : gostring) (data : option bytes).
#[global] Instance walk_entry_eq_dec : EqDecision walk_entry.
Proof. solve_decision. Defined.

(** [filepath.Ext]: from the last dot of the last element of the path. *)
Definition Ext (path : gostring) : gostring :=
  match LastIndexByte path "." with
  | None => []
  | Some i => if existsb (λ c, bool_decide (c = "/"%char)) (drop i path) then [] else drop i path
  end.

Section Load.
Context `{Unicode}.
(** The YAML parser, and of the standard library [url.Parse] and
    [time.ParseDuration]: the value, or [None] where they return an error.
    [ca_ok] says for each rule whether [NewHTTPProxy] can load the CA files when
    it is called for it. *)
Context (unmarshal : bytes → option PortalRule)
        (url_Parse : gostring → option URL)
        (ParseDuration : gostring → option Z)
        (ca_ok : PortalRule → bool).

Inductive rule_err :=
  | ErrReadFile (path : gostring)
  | ErrYAML (path : gostring)
  | ErrRewriteURL (url name : gostring)
  | ErrNewProxy (name : gostring)
  | ErrCacheTTL (ttl name : gostring).

(** What one YAML document of a file comes to: nothing, an error, or a route. *)
Inductive doc_result :=
  | DocSkip
  | DocErr (e : rule_err)
  | DocRule (host : gostring) (r : Rule).

Definition rewrite_url (spec : RuleSpec) : gostring :=
  let u := if bool_decide (spec_RewriteURL spec = []) then spec_Host spec else spec_RewriteURL spec in
  if negb (Contains u #"://") then #"https://" ++ u else u.

Definition load_doc (path part : gostring) : doc_result :=
  let trimmed := TrimSpace part in
  if bool_decide (trimmed = []) then DocSkip else
  match unmarshal trimmed with
  | None => DocErr (ErrYAML path)
  | Some rule =>
      let spec := Spec rule in
      if negb (bool_decide (Kind rule = #"PortalRule")) then DocSkip else
      if bool_decide (spec_Host spec = []) then DocSkip else
      match url_Parse (rewrite_url spec) with
      | None => DocErr (ErrRewriteURL (rewrite_url spec) (Metadata_Name rule))
      | Some u =>
          let authHeader := if bool_decide (spec_AuthHeader spec = []) then #"Authorization"
                            else spec_AuthHeader spec in
          if negb (ca_ok rule) then DocErr (ErrNewProxy (Metadata_Name rule)) else
          let p := mkHTTPProxy u (spec_AuthToken spec) authHeader in
          match (if bool_decide (spec_CacheTTL spec = []) then Some 0%Z
                 else ParseDuration (spec_CacheTTL spec)) with
          | None => DocErr (ErrCacheTTL (spec_CacheTTL spec) (Metadata_Name rule))
          | Some ttl =>
              DocRule (ToLower (spec_Host spec))
                (mkRule p (if (0 <? ttl)%Z then Caching ttl else DefaultTransport)
                   (Metadata_Name rule) (spec_AttributionHeaders spec))
          end
      end
  end.

(** The state of the walk: the new table, the errors, and whether a cache exists. *)
Record load_state := mkLoad {
  newRoutes : gmap gostring Rule;
  errs : list rule_err;
  cache_made : bool;
}.

Definition apply_doc (st : load_state) (d : doc_result) : load_state :=
  match d with
  | DocSkip => st
  | DocErr e => mkLoad (newRoutes st) (errs st ++ [e]) (cache_made st)
  | DocRule host r =>
      mkLoad (<[host := r]> (newRoutes st)) (errs st)
        (match Transport r with Caching _ => true | _ => cache_made st end)
  end.

Definition is_yaml (path : gostring) : bool :=
  bool_decide (ToLower (Ext path) = #".yaml") || bool_decide (ToLower (Ext path) = #".yml").

(** The documents of one entry of the walk. *)
Definition entry_docs (e : walk_entry) : list doc_result :=
  match e with
  | WalkFile path data =>
      if is_yaml path then
        match data with
        | None => [DocErr (ErrReadFile path)]
        | Some data => load_doc path <$> Split data #"---"
        end
      else []
  | _ => []
  end.

(** The walk stops at the first entry it cannot reach; [true] when it reached
    its end. *)
Fixpoint walk_rules (es : list walk_entry) (st : load_state) : bool * load_state :=
  match es with
  | [] => (true, st)
  | WalkError :: _ => (false, st)
  | e :: es => walk_rules es (foldl apply_doc st (entry_docs e))
  end.

Inductive load_err := ErrWalk | ErrRules (errs : list rule_err).

Definition loadRules (es : list walk_entry) (rr : RuleRouter) : option load_err * RuleRouter :=
  if bool_decide (rulesDir rr = []) then (None, rr) else
  let '(walked, st) := walk_rules es (mkLoad ∅ [] (has_cache rr)) in
  let keep := mkRuleRouter (routes rr) (fallback rr) (rulesDir rr) (cache_made st) (podMap rr) in
  if negb walked then (Some ErrWalk, keep)
  else match errs st with
       | _ :: _ => (Some (ErrRules (errs st)), keep)
       | [] => (None, mkRuleRouter (newRoutes st) (fallback rr) (rulesDir rr) (cache_made st) (podMap rr))
       end.
End Load.

(** ** Routing *)

Section Route.
Context `{Unicode}.

Definition prefix_match (host : gostring) (e : gostring * Rule) : bool :=
  HasPrefix host (e.1 ++ #".").

(** The exact route, or the first prefix match of the iteration. *)
Definition find_route (order : list (gostring * Rule)) (host : gostring)
    (routes : gmap gostring Rule) : option Rule :=
  match routes !! host with
  | Some r => Some r
  | None => snd <$> head (filter (λ e, prefix_match host e = true) order)
  end.

Definition MatchHost (host : gostring) (rr : RuleRouter) : bool :=
  let host := TrimSuffix (ToLower (HostWithoutPort host)) #"." in
  bool_decide (is_Some (routes rr !! host))
  || existsb (prefix_match host) (map_to_list (routes rr))
  || match fallback rr with
     | None => false
     | Some (p, _) =>
         let targetHost := ToLower (HostWithoutPort (URLHost (TargetURL p))) in
         negb (bool_decide (targetHost = []))
         && (bool_decide (targetHost = host) || HasPrefix host (targetHost ++ #"."))
     end.

Definition request_host (r : Request) : gostring :=
  ToLower (HostWithoutPort (if bool_decide (ReqHost r = []) then URLHost (ReqURL r) else ReqHost r)).

Inductive denial := CallerUnknown | PodUnbound | PolicyDenied | HostDenied.

Inductive verdict :=
  | Denied (d : denial)
  | ToRule (r : Rule) (pod : option PodInfo)
  | ToFallback (p : HTTPProxy) (t : transport).

(** The guards of [ServeHTTP], in its order. *)
Definition route_request (order : list (gostring * Rule)) (rr : RuleRouter) (r : Request) : verdict :=
  let host := request_host r in
  let rule := find_route order host (routes rr) in
  let permit pod :=
    let allowed name := match podMap rr with
                        | None => true
                        | Some _ => IsRuleAllowed pod name host
                        end in
    match rule with
    | Some rule => if allowed (Name rule) then ToRule rule pod else Denied PolicyDenied
    | None =>
        match fallback rr with
        | Some (p, t) => if allowed #"fallback" then ToFallback p t else Denied PolicyDenied
        | None => Denied HostDenied
        end
    end in
  match podMap rr with
  | None => permit None
  | Some pm =>
      match pod_at (HostWithoutPort (RemoteAddr r)) pm with
      | None => Denied CallerUnknown
      | Some pod => if negb (Bound pod) then Denied PodUnbound else permit (Some pod)
      end
  end.

Definition denial_message (d : denial) : gostring :=
  match d with
  | CallerUnknown => #"Access Denied: caller not recognized as an opted-in pod"
  | PodUnbound => #"Access Denied: pod is unbound"
  | PolicyDenied => #"Access Denied: host not allowed by pod policy"
  | HostDenied => #"Access Denied: host not allowed by portal rules"
  end.

Definition caller (pod : PodInfo) : gostring := Namespace pod ++ #"/" ++ PodMap.Name pod.

(** The attribution headers a rule may opt in to. *)
Definition attribute (rule : Rule) (pod : option PodInfo) (h : Header) : Header :=
  match pod with
  | None => h
  | Some pod =>
      if AttributionHeaders rule then
        let h := Set_ #"X-Forwarded-Client-Pod" (caller pod) h in
        if bool_decide (Identity pod = []) then h
        else Set_ #"X-Consumer-Identity" (Identity pod) h
      else h
  end.

Context {W : Type} (RoundTrip : transport → Request → W → option Response * W)
        (write_ok : nat → bool).

Definition ServeHTTP (order : list (gostring * Rule)) (rr : RuleRouter) (r : Request)
    (w : Writer) (s : W) : Writer * W :=
  match route_request order rr r with
  | Denied d => (HttpError (denial_message d) 403 w, s)
  | ToRule rule pod =>
      HTTPProxy.ServeHTTP (RoundTrip (Transport rule)) write_ok (Proxy rule)
        (with_header (attribute rule pod (ReqHeader r)) r) w s
  | ToFallback p t => HTTPProxy.ServeHTTP (RoundTrip t) write_ok p r w s
  end.

(** The TLS side: which proxy signs the certificate of a handshake.
    [remote] is the peer's address, if the connection has one. *)
Inductive cert_err := CertUnknownCaller | CertUnbound | CertPolicy | CertNoRule.

Definition sni_host (ServerName : gostring) : gostring :=
  ToLower (HostWithoutPort (if bool_decide (ServerName = []) then #"localhost" else ServerName)).

Definition GetCertificate (order : list (gostring * Rule)) (rr : RuleRouter)
    (ServerName : gostring) (remote : option gostring) : outcome cert_err HTTPProxy :=
  let host := sni_host ServerName in
  let rule := find_route order host (routes rr) in
  let sign := match rule with
              | Some rule => Ok (Proxy rule)
              | None => match fallback rr with
                        | Some (p, _) => Ok p
                        | None => Err CertNoRule
                        end
              end in
  match podMap rr with
  | None => sign
  | Some pm =>
      match pod_at (from_option HostWithoutPort [] remote) pm with
      | None => Err CertUnknownCaller
      | Some pod =>
          if negb (Bound pod) then Err CertUnbound else
          let ruleName := from_option Name [] rule in
          if IsRuleAllowed (Some pod) ruleName host then sign else Err CertPolicy
      end
  end.
End Route.

(** The transports of a portal: the default one, and the caching ones, which
    all share the router's one cache ([NewCachingTransport(rr.cache, ...)]). *)
Section Transports.
Context {W : Type} (encode : CachedResponse → option bytes) (decode : bytes → option CachedResponse)
        (Upstream : Request → W → option Response * W) (now : Z).

(** What logging does around a transport. *)
Context (logged : (Request → InMemoryCache.t * W → option Response * (InMemoryCache.t * W)) →
                  Request → InMemoryCache.t * W → option Response * (InMemoryCache.t * W)).

Fixpoint portal_RoundTrip (t : transport) (q : Request) (st : InMemoryCache.t * W)
    : option Response * (InMemoryCache.t * W) :=
  match t with
  | DefaultTransport => let '(c, s) := st in let '(r, s) := Upstream q s in (r, (c, s))
  | Caching ttl => RoundTrip encode decode Upstream (mkCachingTransport ttl) now now q st
  | Logged t => logged (portal_RoundTrip t) q st
  end.
End Transports.

(** ** Lemmas *)

Lemma find_route_cases `{Unicode} order host routes :
  (∃ r, routes !! host = Some r ∧ find_route order host routes = Some r) ∨
  (routes !! host = None ∧
   find_route order host routes = snd <$> head (filter (λ e, prefix_match host e = true) order)).
Proof. unfold find_route. destruct (routes !! host) as [r|]; [left|right]; eauto. Qed.

(** A host has a route when it is in the table or extends an entry of it. *)
Lemma find_route_is_Some order host routes :
  order ≡ₚ map_to_list routes →
  is_Some (find_route order host routes) ↔
  is_Some (routes !! host) ∨ ∃ e, e ∈ map_to_list routes ∧ prefix_match host e = true.
Proof.
  intros Ho. unfold find_route. destruct (routes !! host) as [r|] eqn:E; [naive_solver|].
  rewrite fmap_is_Some. transitivity (∃ e, e ∈ filter (λ e, prefix_match host e = true) order).
  - destruct (filter _ order) as [|e l]; cbn.
    + split; [by intros []|by intros (? & ?%elem_of_nil)].
    + split; [|by eexists]. intros _. exists e. by left.
  - split.
    + intros (e & [Hp Hin]%list_elem_of_filter). right. exists e. by rewrite <- Ho.
    + intros [[]|(e & Hin & Hp)]; [done|]. exists e. apply list_elem_of_filter. by rewrite Ho.
Qed.

Lemma find_route_unique order order' host routes :
  order ≡ₚ map_to_list routes → order' ≡ₚ map_to_list routes →
  (∀ e e', e ∈ map_to_list routes → e' ∈ map_to_list routes →
     prefix_match host e = true → prefix_match host e' = true → e = e') →
  find_route order host routes = find_route order' host routes.
Proof.
  intros Ho Ho' Hu. unfold find_route. destruct (routes !! host); [done|]. f_equal.
  assert (Hin : ∀ l e, l ≡ₚ map_to_list routes → e ∈ filter (λ e, prefix_match host e = true) l ↔
    prefix_match host e = true ∧ e ∈ map_to_list routes).
  { intros l e Hl. rewrite list_elem_of_filter. by rewrite Hl. }
  pose proof (λ e, Hin order e Ho) as H1. pose proof (λ e, Hin order' e Ho') as H2.
  destruct (filter _ order) as [|e l], (filter _ order') as [|e' l']; cbn.
  - done.
  - by destruct (proj1 (elem_of_nil e') (proj2 (H1 e') (proj1 (H2 e') ltac:(by left)))).
  - by destruct (proj1 (elem_of_nil e) (proj2 (H2 e) (proj1 (H1 e) ltac:(by left)))).
  - f_equal. destruct (proj1 (H1 e) ltac:(by left)), (proj1 (H2 e') ltac:(by left)). by apply Hu.
Qed.

Lemma existsb_elem {A} (f : A → bool) l : existsb f l = true ↔ ∃ x, x ∈ l ∧ f x = true.
Proof.
  rewrite existsb_exists. split; intros (x & H & Hf); exists x; (split; [|done]);
    by apply list_elem_of_In.
Qed.

Lemma bool_eq_iff (a b : bool) : (a = true ↔ b = true) → a = b.
Proof. destruct a, b; naive_solver. Qed.

(** Extending [k] is the same for a name with and without its final dot. *)
Lemma prefix_match_dot (x k : gostring) :
  HasPrefix (x ++ #".") (k ++ #".") = true ↔ k = x ∨ HasPrefix x (k ++ #".") = true.
Proof.
  rewrite !HasPrefix_spec. split.
  - intros [t E]. destruct t as [|c t _] using rev_ind.
    + left. rewrite app_nil_r in E. by apply app_inv_tail in E.
    + right. rewrite app_assoc in E. apply app_inj_tail in E as [-> _]. by exists t.
  - intros [-> | [t ->]]; [by exists []; rewrite app_nil_r|].
    exists (t ++ #"."). by rewrite app_assoc.
Qed.

(** ** Specifications *)

(** A caller may use the route of a host: the pod at its address is bound and
    its policy allows the rule or, without a route, the fallback. *)
Definition authorized `{Unicode} (order : list (gostring * Rule)) (rr : RuleRouter) (pm : PodMap)
    (r : Request) : Prop :=
  ∃ pod, pod_at (HostWithoutPort (RemoteAddr r)) pm = Some pod ∧ Bound pod = true ∧
    match find_route order (request_host r) (routes rr) with
    | Some rule => IsRuleAllowed (Some pod) (Name rule) (request_host r) = true
    | None => is_Some (fallback rr) ∧ IsRuleAllowed (Some pod) #"fallback" (request_host r) = true
    end.

(** The table a sequence of documents defines: for each host the last rule. *)
Definition last_rule (host : gostring) (docs : list doc_result) : option Rule :=
  last (omap (λ d, match d with
                   | DocRule h r => if decide (h = host) then Some r else None
                   | _ => None
                   end) docs).

Definition doc_failed (d : doc_result) : Prop := match d with DocErr _ => True | _ => False end.

Lemma last_rule_snoc h docs d :
  last_rule h (docs ++ [d])
  = match d with DocRule h' r => if decide (h' = h) then Some r else last_rule h docs
               | _ => last_rule h docs end.
Proof.
  unfold last_rule. rewrite omap_app. destruct d as [| |h' r]; cbn; rewrite ?app_nil_r; [done..|].
  case_decide; cbn; [by rewrite last_snoc|by rewrite app_nil_r].
Qed.

(** The walk applies the documents of its entries, one after the other. *)
Lemma walk_rules_spec `{Unicode} um up pd ca es st :
  WalkError ∉ es →
  walk_rules um up pd ca es st = (true, foldl apply_doc st (es ≫= entry_docs um up pd ca)).
Proof.
  revert st. induction es as [|e es IH]; intros st Hno; cbn [walk_rules mbind list_bind]; [done|].
  apply not_elem_of_cons in Hno as [He Hno]. rewrite foldl_app.
  destruct e; [done|by rewrite IH..].
Qed.

Lemma walk_rules_error `{Unicode} um up pd ca es st :
  WalkError ∈ es → (walk_rules um up pd ca es st).1 = false.
Proof.
  revert st. induction es as [|e es IH]; intros st; [by intros ?%elem_of_nil|].
  intros [<-|Hin]%elem_of_cons; [done|]. destruct e; cbn; auto.
Qed.

Lemma apply_docs_spec docs st :
  (∀ h, newRoutes (foldl apply_doc st docs) !! h
        = match last_rule h docs with Some r => Some r | None => newRoutes st !! h end) ∧
  (errs (foldl apply_doc st docs) = [] ↔ errs st = [] ∧ Forall (λ d, ¬ doc_failed d) docs).
Proof.
  induction docs as [|d docs [IHr IHe]] using rev_ind; cbn [foldl].
  { split; [done|]. split; [|tauto]. intros ?. split; [done|constructor]. }
  rewrite foldl_app, Forall_app, Forall_singleton. cbn [foldl].
  set (st' := foldl apply_doc st docs) in *. split.
  - intros h. rewrite last_rule_snoc. destruct d as [| |h' r]; [apply IHr..|].
    cbn [apply_doc newRoutes]. rewrite lookup_insert. destruct (decide (h' = h)); [done|apply IHr].
  - destruct d as [| |h' r]; cbn [apply_doc errs doc_failed]; [tauto| |tauto].
    split; [|tauto]. by intros [_ ?]%app_nil.
Qed.

(** What [ServeHTTP] and [GetCertificate] decide once the caller is known. *)
Lemma route_request_authorized `{Unicode} order rr pm r :
  podMap rr = Some pm →
  authorized order rr pm r ↔ ∀ d, route_request order rr r ≠ Denied d.
Proof.
  intros Hpm. unfold authorized, route_request. rewrite Hpm.
  assert (Hd : ∀ x, (∀ d, Denied x ≠ Denied d) ↔ False).
  { intros x. split; [|done]. intros Hx. by apply (Hx x). }
  destruct (pod_at _ pm) as [pod|]; [|rewrite Hd; naive_solver].
  destruct (Bound pod) eqn:Eb; cbn [negb].
  2:{ rewrite Hd. split; [|done]. intros (? & [= <-] & ? & _). congruence. }
  transitivity (match find_route order (request_host r) (routes rr) with
    | Some rule => IsRuleAllowed (Some pod) (Name rule) (request_host r) = true
    | None => is_Some (fallback rr) ∧ IsRuleAllowed (Some pod) #"fallback" (request_host r) = true
    end).
  { split; [by intros (? & [= <-] & _ & ?)|eauto]. }
  destruct (find_route _ _ _) as [rule|].
  - destruct (IsRuleAllowed _ _ _); [done|]. by rewrite Hd.
  - destruct (fallback rr) as [[p t]|]; [|rewrite Hd; by split; [intros [[? ?] _]|]].
    destruct (IsRuleAllowed _ _ _); [by eauto|]. rewrite Hd. naive_solver.
Qed.

(** ** Properties: access control *)

(** C3: With a pod map, the portal proxies nothing for anyone but an authorised caller: unless a
    bound pod is registered at the client's address and its policy allows the matched rule (or, for
    a host without a rule, the configured fallback), the answer is a 403 and no upstream is
    contacted, whichever order the routing table is ranged over. *)
Theorem router_access_control `{Unicode} {W} (RT : transport → Request → W → option Response * W)
    write_ok order rr pm r w s :
  podMap rr = Some pm →
  (authorized order rr pm r ↔ ∀ d, route_request order rr r ≠ Denied d) ∧
  (¬ authorized order rr pm r →
   ∃ d, ServeHTTP RT write_ok order rr r w s = (HttpError (denial_message d) 403 w, s)).
Proof.
  intros Hpm. pose proof (route_request_authorized order rr pm r Hpm) as Ha.
  split; [done|]. rewrite Ha. intros Hno. unfold ServeHTTP.
  destruct (route_request order rr r) as [d| |]; [by exists d|by destruct Hno..].
Qed.

(** Routing does not depend on Go's random map iteration when at most one entry of the table
    matches the host as a prefix: the same response, and the same upstream exchange, for every two
    orders. *)
Theorem routing_order_independent `{Unicode} {W} (RT : transport → Request → W → option Response * W)
    write_ok order order' rr r w s :
  order ≡ₚ map_to_list (routes rr) → order' ≡ₚ map_to_list (routes rr) →
  (∀ e e', e ∈ map_to_list (routes rr) → e' ∈ map_to_list (routes rr) →
     prefix_match (request_host r) e = true → prefix_match (request_host r) e' = true → e = e') →
  ServeHTTP RT write_ok order rr r w s = ServeHTTP RT write_ok order' rr r w s.
Proof.
  intros Ho Ho' Hu. unfold ServeHTTP, route_request.
  by rewrite (find_route_unique order order').
Qed.

(** When two rules match a host as a prefix and none matches it exactly, either one may serve
    it: for each of them there is an iteration order in which it is the one chosen, so which rule's
    credential and policy apply is left to chance. *)
Theorem overlapping_rules_race (host : gostring) (rs : gmap gostring Rule) k r :
  rs !! host = None → rs !! k = Some r → HasPrefix host (k ++ #".") = true →
  ∃ order, order ≡ₚ map_to_list rs ∧ find_route order host rs = Some r.
Proof.
  intros Hx Hk Hp. apply elem_of_map_to_list, list_elem_of_split in Hk as (l1 & l2 & E).
  exists ((k, r) :: l1 ++ l2). split.
  - rewrite E. by rewrite Permutation_middle.
  - unfold find_route. rewrite Hx. by rewrite filter_cons_True.
Qed.

(** The DNS server advertises a host exactly when the router has a route for it, for names
    written with or without the final dot, as long as no rule's host itself ends in a dot. *)
Theorem match_host_iff_routed `{Unicode} order rr (host : gostring) :
  order ≡ₚ map_to_list (routes rr) → fallback rr = None →
  (∀ k r, routes rr !! k = Some r → HasSuffix k #"." = false) →
  MatchHost host rr
  = bool_decide (is_Some (find_route order (ToLower (HostWithoutPort host)) (routes rr))).
Proof.
  intros Ho Hf Hdot. apply bool_eq_iff. unfold MatchHost. rewrite Hf, orb_false_r.
  set (h := ToLower (HostWithoutPort host)).
  rewrite orb_true_iff, !bool_decide_eq_true, existsb_elem, find_route_is_Some by done.
  destruct (HasSuffix h #".") eqn:E; [|by rewrite TrimSuffix_none].
  apply HasSuffix_spec in E as [x ->]. rewrite TrimSuffix_app.
  assert (Hno : ¬ is_Some (routes rr !! (x ++ #"."))).
  { intros [r Hr]. apply Hdot in Hr. rewrite (proj2 (HasSuffix_spec _ _)) in Hr; [done|by exists x]. }
  unfold prefix_match. split.
  - intros [[r Hr]|([k r] & Hin & Hp)]; right.
    + exists (x, r). split; [by apply elem_of_map_to_list|]. apply prefix_match_dot. by left.
    + exists (k, r). split; [done|]. apply prefix_match_dot. by right.
  - intros [?|([k r] & Hin & Hp)]; [done|].
    cbn [fst] in Hp. apply prefix_match_dot in Hp as [-> | Hp]; [left|right; by exists (k, r)].
    apply elem_of_map_to_list in Hin. by exists r.
Qed.

(** The fallback's own name: the host of its target, or a name that starts with it. *)
Definition fallback_names `{Unicode} (rr : RuleRouter) (host : gostring) : Prop :=
  ∃ p t, fallback rr = Some (p, t) ∧
    let target := ToLower (HostWithoutPort (URLHost (TargetURL p))) in
    target ≠ [] ∧ (host = target ∨ ∃ rest, host = target ++ #"." ++ rest).

(** With a fallback or without, for names without the final dot. *)
Lemma match_host_spec `{Unicode} order rr (host : gostring) :
  let h := ToLower (HostWithoutPort host) in
  order ≡ₚ map_to_list (routes rr) → HasSuffix h #"." = false →
  MatchHost host rr = true ↔ is_Some (find_route order h (routes rr)) ∨ fallback_names rr h.
Proof.
  intros h Ho Hdot. unfold MatchHost. fold h. rewrite TrimSuffix_none by done.
  rewrite orb_true_iff, (orb_true_iff (bool_decide _)), bool_decide_eq_true, existsb_elem, find_route_is_Some by done.
  assert (Hf : match fallback rr with
     | None => false
     | Some (p, _) =>
         let targetHost := ToLower (HostWithoutPort (URLHost (TargetURL p))) in
         negb (bool_decide (targetHost = []))
         && (bool_decide (targetHost = h) || HasPrefix h (targetHost ++ #"."))
     end = true ↔ fallback_names rr h); [|by rewrite Hf].
  unfold fallback_names. destruct (fallback rr) as [[p t]|]; cbn zeta; [|by split; [|intros (? & ? & ? & _)]].
  rewrite andb_true_iff, negb_true_iff, bool_decide_eq_false, orb_true_iff, bool_decide_eq_true, HasPrefix_spec.
  split.
  - intros [Hne Hm]. exists p, t. split_and!; [done..|]. destruct Hm as [<-|[rest E]]; [by left|right].
    exists rest. by rewrite E, <- app_assoc.
  - intros (p' & t' & [= <- <-] & Hne & Hm). split; [done|]. destruct Hm as [->|[rest ->]]; [by left|right].
    exists rest. by rewrite <- app_assoc.
Qed.

(** ** Properties: rules, certificates, attribution *)

(** C40: Reloading is all or nothing. If the directory can be walked and no document of it fails,
    the new table gives each host the last rule written for it, in walk order; otherwise an error is
    returned and the old table keeps serving. The fallback and the pod map are never touched. *)
Theorem load_rules_all_or_nothing `{Unicode} unmarshal url_Parse ParseDuration ca_ok es rr :
  rulesDir rr ≠ [] →
  let docs := es ≫= entry_docs unmarshal url_Parse ParseDuration ca_ok in
  let '(err, rr') := loadRules unmarshal url_Parse ParseDuration ca_ok es rr in
  (err = None ↔ WalkError ∉ es ∧ Forall (λ d, ¬ doc_failed d) docs) ∧
  (err = None → ∀ h, routes rr' !! h = last_rule h docs) ∧
  (err ≠ None → routes rr' = routes rr) ∧
  fallback rr' = fallback rr ∧ podMap rr' = podMap rr.
Proof.
  intros Hdir docs. unfold loadRules. rewrite bool_decide_eq_false_2 by done.
  destruct (decide (WalkError ∈ es)) as [Hin|Hno].
  { pose proof (walk_rules_error unmarshal url_Parse ParseDuration ca_ok es
                  (mkLoad ∅ [] (has_cache rr)) Hin) as Hw.
    destruct (walk_rules _ _ _ _ _ _) as [walked st]. cbn in Hw. subst walked. cbn. naive_solver. }
  rewrite walk_rules_spec by done. fold docs.
  destruct (apply_docs_spec docs (mkLoad ∅ [] (has_cache rr))) as [Hr He].
  set (st := foldl apply_doc _ docs) in *. cbn [negb]. cbn [errs] in He.
  destruct (errs st) as [|e l].
  - split_and!; [|..|done|done]; [tauto| |done].
    intros _ h. cbn [routes]. rewrite Hr. cbn [newRoutes]. rewrite lookup_empty.
    by destruct (last_rule h docs).
  - split_and!; [|done..]. split; [done|]. intros [_ Hf].
    discriminate (proj2 He (conj eq_refl Hf)).
Qed.

(** TLS and HTTP agree on a host with a rule: for one caller and one host, the handshake is
    given a certificate exactly when the request would be proxied by the rule, and the certificate
    comes from that rule's proxy. *)
Theorem tls_agrees_with_http `{Unicode} order rr r ServerName remote rule :
  find_route order (request_host r) (routes rr) = Some rule →
  sni_host ServerName = request_host r →
  from_option HostWithoutPort [] remote = HostWithoutPort (RemoteAddr r) →
  ((∃ p, GetCertificate order rr ServerName remote = Ok p) ↔
   (∃ pod, route_request order rr r = ToRule rule pod)) ∧
  ∀ p, GetCertificate order rr ServerName remote = Ok p → p = Proxy rule.
Proof.
  intros Hr Hh Ha. unfold GetCertificate, route_request. rewrite Hh, Ha, Hr. cbn [from_option].
  destruct (podMap rr) as [pm|]; [|split; [split; eauto|by intros p [= ->]]].
  destruct (pod_at _ pm) as [pod|]; [|split; [split; by intros [? ?]|done]].
  destruct (negb (Bound pod)); [split; [split; by intros [? ?]|done]|].
  destruct (IsRuleAllowed _ _ _); split; try done; [split; eauto|by intros p [= ->]|].
  split; by intros [? ?].
Qed.

(** For a host that only the fallback serves, TLS and HTTP do not agree: the request asks the
    policy for "fallback", the handshake asks it for the empty rule name, so a pod whose policy is
    "fallback" has its requests proxied but is refused every certificate. *)
Theorem fallback_policy_denied_over_tls `{Unicode} order rr pm pod p t r ServerName remote :
  podMap rr = Some pm → fallback rr = Some (p, t) →
  pod_at (HostWithoutPort (RemoteAddr r)) pm = Some pod →
  Bound pod = true → Policy pod = #"fallback" →
  find_route order (request_host r) (routes rr) = None →
  sni_host ServerName = request_host r → ToLower (request_host r) ≠ #"fallback" →
  from_option HostWithoutPort [] remote = HostWithoutPort (RemoteAddr r) →
  route_request order rr r = ToFallback p t ∧
  GetCertificate order rr ServerName remote = Err CertPolicy.
Proof.
  intros Hpm Hf Hpod Hb Hpol Hr Hh Hne Ha. unfold route_request, GetCertificate.
  rewrite Hh, Ha, Hpm, Hpod, Hb, Hr, Hf. cbn [negb from_option].
  unfold IsRuleAllowed. rewrite Hb, Hpol. split; [done|].
  change (Split #"fallback" #",") with [ #"fallback"]. cbn [negb orb existsb].
  change (TrimSpace (ToLower #"fallback")) with #"fallback".
  change (ToLower []) with (@nil byte).
  rewrite (bool_decide_eq_false_2 (#"fallback" = ToLower _)) by congruence. done.
Qed.

(** The header line [k] that the upstream sees when the portal attributes a
    request, for a header that is neither the credential's nor dropped. *)
Lemma attributed_lookup p rule pod r (k : gostring) :
  CanonicalKey (AuthHeader p) ≠ #"Connection" → CanonicalKey (AuthHeader p) ≠ k →
  k ∉ dropped (attribute rule pod (ReqHeader r)) →
  ReqHeader (outgoing p (with_header (attribute rule pod (ReqHeader r)) r)) !! k
  = attribute rule pod (ReqHeader r) !! k.
Proof.
  intros H1 H2 Hd. rewrite lookup_outgoing by done. cbn [with_header ReqHeader].
  rewrite decide_False by done. rewrite decide_False; [done|]. intros [_ ->]. done.
Qed.

Lemma attribute_lookup rule pod h (k : gostring) :
  attribute rule (Some pod) h !! k
  = if AttributionHeaders rule && bool_decide (k = #"X-Forwarded-Client-Pod") then Some [caller pod]
    else if AttributionHeaders rule && bool_decide (k = #"X-Consumer-Identity" ∧ Identity pod ≠ [])
    then Some [Identity pod] else h !! k.
Proof.
  unfold attribute. destruct (AttributionHeaders rule); cbn [andb]; [|done].
  unfold Set_. change (CanonicalKey #"X-Forwarded-Client-Pod") with #"X-Forwarded-Client-Pod".
  change (CanonicalKey #"X-Consumer-Identity") with #"X-Consumer-Identity".
  destruct (decide (k = #"X-Forwarded-Client-Pod")) as [-> |N1].
  { rewrite (bool_decide_eq_true_2 (#"X-Forwarded-Client-Pod" = _)) by done.
    case_bool_decide; [by rewrite lookup_insert_eq|].
    rewrite lookup_insert_ne by done. by rewrite lookup_insert_eq. }
  rewrite (bool_decide_eq_false_2 (k = _)) by done.
  destruct (decide (Identity pod = [])) as [E|N].
  - rewrite bool_decide_eq_true_2, bool_decide_eq_false_2 by tauto. by rewrite lookup_insert_ne.
  - rewrite bool_decide_eq_false_2 by done.
    destruct (decide (k = #"X-Consumer-Identity")) as [-> |N2].
    + rewrite bool_decide_eq_true_2 by done. by rewrite lookup_insert_eq.
    + rewrite bool_decide_eq_false_2 by tauto. by rewrite !lookup_insert_ne.
Qed.

Lemma Get_Connection_attribute rule pod h :
  Get #"Connection" (attribute rule pod h) = Get #"Connection" h.
Proof.
  destruct pod as [pod|]; [|done]. unfold Get, values.
  by rewrite attribute_lookup, !bool_decide_eq_false_2, !andb_false_r by (by intros [=] || by intros [[=] _]).
Qed.

(** What the upstream sees of the caller's identity. Where the rule opts in, the pod header is
    the registered namespace and name and nothing the workload wrote. The identity header is the
    registered identity only when that is not empty; with an empty identity, and for every rule that
    does not opt in, both headers reach the upstream as the workload wrote them. *)
Theorem upstream_attribution p rule pod r :
  CanonicalKey (AuthHeader p) ∉ [ #"Connection"; #"X-Forwarded-Client-Pod"; #"X-Consumer-Identity"] →
  #"X-Forwarded-Client-Pod" ∉ connection_drops (ReqHeader r) →
  #"X-Consumer-Identity" ∉ connection_drops (ReqHeader r) →
  let q := outgoing p (with_header (attribute rule (Some pod) (ReqHeader r)) r) in
  ReqHeader q !! #"X-Forwarded-Client-Pod"
  = (if AttributionHeaders rule then Some [caller pod]
     else ReqHeader r !! #"X-Forwarded-Client-Pod") ∧
  ReqHeader q !! #"X-Consumer-Identity"
  = (if AttributionHeaders rule && bool_decide (Identity pod ≠ []) then Some [Identity pod]
     else ReqHeader r !! #"X-Consumer-Identity").
Proof.
  intros Ha Hd1 Hd2 q. apply not_elem_of_cons in Ha as [Hc Ha].
  apply not_elem_of_cons in Ha as [H1 Ha]. apply not_elem_of_cons in Ha as [H2 _].
  assert (Hdrop : ∀ k, k ∉ connection_drops (ReqHeader r) →
    k ∉ hopByHopHeaders ++ [ #"X-Forwarded-For"] → k ∉ dropped (attribute rule (Some pod) (ReqHeader r))).
  { intros k Hk Hk'. unfold dropped, connection_drops. rewrite Get_Connection_attribute.
    by intros [?|?]%elem_of_app. }
  subst q. split.
  - rewrite attributed_lookup, attribute_lookup; [|done..|apply Hdrop; [done|by apply (bool_decide_unpack _)]].
    rewrite bool_decide_eq_true_2 by done. by destruct (AttributionHeaders rule).
  - rewrite attributed_lookup, attribute_lookup; [|done..|apply Hdrop; [done|by apply (bool_decide_unpack _)]].
    rewrite (bool_decide_eq_false_2 (#"X-Consumer-Identity" = _)), andb_false_r by done.
    destruct (AttributionHeaders rule); cbn [andb]; [|done].
    repeat case_bool_decide; tauto || done.
Qed.

(** ** Property: the shared response cache *)

(** The caching rules of a portal share one cache whose key is only the URL: once a GET through
    one rule is stored, a GET of the same path and query through any other caching rule with the same
    target gets the stored response, fetched with the first rule's credential, and the upstream is
    never asked with its own. *)
Theorem cache_shared_across_rules encode decode
    (decode_encode : ∀ cr b, encode cr = Some b → decode b = Some cr)
    {W} (Upstream : Request → W → option Response * W) logged write_ok p1 p2 r1 r2 ttl1 ttl2
    (c : InMemoryCache.t) s s' resp b now later w1 w2 :
  TargetURL p1 = TargetURL p2 → Method r1 = #"GET" → Method r2 = #"GET" →
  Path (ReqURL r1) = Path (ReqURL r2) → RawQuery (ReqURL r1) = RawQuery (ReqURL r2) →
  (cache_get now (URL_String (ReqURL (outgoing p1 r1))) c).1 = None →
  Upstream (outgoing p1 r1) s = (Some resp, s') → BodyFails resp = false →
  encode (to_cache resp) = Some b → (later ≤ now + ttl1)%Z →
  let st := (HTTPProxy.ServeHTTP (portal_RoundTrip encode decode Upstream now logged (Caching ttl1))
               write_ok p1 r1 w1 (c, s)).2 in
  HTTPProxy.ServeHTTP (portal_RoundTrip encode decode Upstream later logged (Caching ttl2))
    write_ok p2 r2 w2 st
  = (relay write_ok (from_cache (to_cache resp)) w2, st) ∧ st.2 = s'.
Proof.
  intros Ht Hm1 Hm2 Hp Hq Hmiss Hup Hf He Hle st.
  destruct (hit_after_store encode decode decode_encode Upstream (mkCachingTransport ttl1)
    (mkCachingTransport ttl2) c now later later (outgoing p1 r1) (outgoing p2 r2) resp b s s')
    as [H1 H2]; try done; [unfold outgoing; cbn; by rewrite Ht, Hp, Hq|].
  assert (st = (RoundTrip encode decode Upstream (mkCachingTransport ttl1) now now
                  (outgoing p1 r1) (c, s)).2) as ->.
  { subst st. unfold ServeHTTP, HTTPProxy.ServeHTTP, proxyRequest. cbn [portal_RoundTrip].
    rewrite bool_decide_eq_false_2 by (rewrite Hm1; discriminate).
    clear H1 H2. by destruct (RoundTrip _ _ _ _ _ _ _ _) as [[resp'|] st']. }
  split; [|done]. unfold HTTPProxy.ServeHTTP, proxyRequest. cbn [portal_RoundTrip].
  rewrite bool_decide_eq_false_2 by (rewrite Hm2; discriminate). by rewrite H1.
Qed.

(** ** Witnesses *)

Definition demo_rule (host name token : gostring) (attr : bool) : Rule :=
  mkRule (mkHTTPProxy (mkURL #"https" host [] []) token #"Authorization") DefaultTransport name attr.
Definition demo_routes : gmap gostring Rule :=
  {[ #"api.example.com" := demo_rule #"api.example.com" #"api" #"t1" true ]}.
Definition demo_fallback : HTTPProxy * transport :=
  (mkHTTPProxy (mkURL #"https" #"fallback.example" [] []) #"t0" #"Authorization", DefaultTransport).
Definition demo_pod (policy identity : gostring) : PodInfo :=
  mkPodInfo #"uid-1" #"default" #"worker" [ #"10.0.0.7"] ∅ ∅ identity policy true.
Definition demo_podmap (policy : gostring) : PodMap := AddOrUpdatePod (demo_pod policy []) NewPodMap.
Definition demo_router (fb : bool) (policy : gostring) : RuleRouter :=
  mkRuleRouter demo_routes (if fb then Some demo_fallback else None) #"/rules" false
    (Some (demo_podmap policy)).
Definition demo_req (host addr : gostring) : Request :=
  mkRequest #"GET" (mkURL [] [] #"/v1" []) host ∅ [] addr.

Lemma router_access_control_witness :
  ∃ d, @ServeHTTP ascii_unicode (list Request) (λ _, recording (λ _, None)) (λ _, true) []
         (demo_router true #"other") (demo_req #"api.example.com" #"10.0.0.7:99") new_writer []
       = (HttpError (denial_message d) 403 new_writer, []).
Proof.
  destruct (@router_access_control ascii_unicode (list Request) (λ _, recording (λ _, None))
    (λ _, true) [] (demo_router true #"other") (demo_podmap #"other")
    (demo_req #"api.example.com" #"10.0.0.7:99") new_writer [] eq_refl) as [Hiff Hden].
  apply Hden. intros Ha. apply Hiff with (d := PolicyDenied) in Ha. apply Ha.
  vm_compute. reflexivity.
Defined.

Lemma routing_order_independent_witness :
  @ServeHTTP ascii_unicode (list Request) (λ _, recording (λ _, None)) (λ _, true)
    (map_to_list demo_routes) (demo_router true #"*")
    (demo_req #"api.example.com.svc" #"10.0.0.7:99") new_writer []
  = @ServeHTTP ascii_unicode (list Request) (λ _, recording (λ _, None)) (λ _, true)
    (reverse (map_to_list demo_routes)) (demo_router true #"*")
    (demo_req #"api.example.com.svc" #"10.0.0.7:99") new_writer [].
Proof.
  apply (@routing_order_independent ascii_unicode (list Request)).
  - reflexivity.
  - apply reverse_Permutation.
  - cbn [routes demo_router]. unfold demo_routes. rewrite map_to_list_singleton.
    intros e e' He He' _ _. apply list_elem_of_singleton in He, He'. congruence.
Defined.

Definition overlapping_routes : gmap gostring Rule :=
  {[ #"api" := demo_rule #"a" #"a" #"t1" false; #"api.example" := demo_rule #"b" #"b" #"t2" false ]}.

Lemma overlapping_rules_race_witness :
  (∃ order, order ≡ₚ map_to_list overlapping_routes ∧
     find_route order #"api.example.com" overlapping_routes = Some (demo_rule #"a" #"a" #"t1" false)) ∧
  (∃ order, order ≡ₚ map_to_list overlapping_routes ∧
     find_route order #"api.example.com" overlapping_routes = Some (demo_rule #"b" #"b" #"t2" false)).
Proof.
  split.
  - apply (overlapping_rules_race #"api.example.com" overlapping_routes #"api"); reflexivity.
  - apply (overlapping_rules_race #"api.example.com" overlapping_routes #"api.example"); reflexivity.
Defined.

Lemma match_host_iff_routed_witness :
  @MatchHost ascii_unicode #"API.example.com." (demo_router false #"*") = true.
Proof.
  rewrite (@match_host_iff_routed ascii_unicode (map_to_list demo_routes)).
  - vm_compute. reflexivity.
  - reflexivity.
  - reflexivity.
  - intros k r Hk. cbn [routes demo_router] in Hk. unfold demo_routes in Hk.
    apply lookup_singleton_Some in Hk as [<- _]. reflexivity.
Defined.

(** A YAML reader for the witnesses: a document that is one word is a rule for
    that host, any other is not well formed. *)
Definition demo_unmarshal (b : bytes) : option PortalRule :=
  if Contains b #":" then None
  else Some (mkPortalRule #"v1" #"PortalRule" b (mkRuleSpec b [] #"tok" [] [] false)).
Definition demo_parse (s : gostring) : option URL := Some (mkURL #"https" (TrimPrefix s #"https://") [] []).
Definition demo_load (text : bytes) : option load_err * RuleRouter :=
  @loadRules ascii_unicode demo_unmarshal demo_parse (λ _, None) (λ _, true)
    [WalkFile #"/rules/a.yaml" (Some text); WalkFile #"/rules/b.txt" (Some #"host.b")]
    (demo_router false #"*").

Lemma load_rules_all_or_nothing_witness :
  (∃ rule, routes (demo_load #"a.example --- B.example").2 !! #"b.example" = Some rule) ∧
  routes (demo_load #"a.example --- x: y").2 = demo_routes.
Proof.
  split.
  - pose proof (@load_rules_all_or_nothing ascii_unicode demo_unmarshal demo_parse (λ _, None) (λ _, true)
      [WalkFile #"/rules/a.yaml" (Some #"a.example --- B.example"); WalkFile #"/rules/b.txt" (Some #"host.b")]
      (demo_router false #"*") ltac:(discriminate)) as H. cbn zeta in H.
    unfold demo_load. destruct (loadRules _ _ _ _ _ _) as [err rr'] eqn:E.
    destruct H as (_ & Hr & _). cbn [snd]. rewrite Hr.
    + eexists. vm_compute. reflexivity.
    + apply (f_equal fst) in E. cbn [fst] in E. rewrite <- E. vm_compute. reflexivity.
  - pose proof (@load_rules_all_or_nothing ascii_unicode demo_unmarshal demo_parse (λ _, None) (λ _, true)
      [WalkFile #"/rules/a.yaml" (Some #"a.example --- x: y"); WalkFile #"/rules/b.txt" (Some #"host.b")]
      (demo_router false #"*") ltac:(discriminate)) as H. cbn zeta in H.
    unfold demo_load. destruct (loadRules _ _ _ _ _ _) as [err rr'] eqn:E.
    destruct H as (_ & _ & Hr & _). cbn [snd]. apply Hr.
    apply (f_equal fst) in E. cbn [fst] in E. rewrite <- E. vm_compute. discriminate.
Defined.

Lemma tls_agrees_with_http_witness :
  ∃ p, @GetCertificate ascii_unicode [] (demo_router false #"api") #"api.example.com"
         (Some #"10.0.0.7:99") = Ok p.
Proof.
  apply (@tls_agrees_with_http ascii_unicode [] (demo_router false #"api")
    (demo_req #"api.example.com" #"10.0.0.7:4") #"api.example.com" (Some #"10.0.0.7:99")
    (demo_rule #"api.example.com" #"api" #"t1" true)).
  - vm_compute. reflexivity.
  - vm_compute. reflexivity.
  - vm_compute. reflexivity.
  - eexists. vm_compute. reflexivity.
Defined.

Lemma fallback_policy_denied_over_tls_witness :
  @GetCertificate ascii_unicode [] (demo_router true #"fallback") #"other.example"
    (Some #"10.0.0.7:99") = Err CertPolicy.
Proof.
  apply (@fallback_policy_denied_over_tls ascii_unicode [] (demo_router true #"fallback")
    (demo_podmap #"fallback") (demo_pod #"fallback" []) demo_fallback.1 DefaultTransport
    (demo_req #"other.example" #"10.0.0.7:4")); vm_compute; (reflexivity || discriminate).
Defined.

Definition forging_request : Request :=
  with_header {[ #"X-Consumer-Identity" := [ #"admin"] ]} (demo_req #"api.example.com" #"10.0.0.7:4").

Lemma upstream_attribution_witness :
  ReqHeader (outgoing (Proxy (demo_rule #"api.example.com" #"api" #"t1" true))
    (with_header (attribute (demo_rule #"api.example.com" #"api" #"t1" true) (Some (demo_pod #"*" []))
       (ReqHeader forging_request)) forging_request)) !! #"X-Consumer-Identity" = Some [ #"admin"].
Proof.
  apply (upstream_attribution (Proxy (demo_rule #"api.example.com" #"api" #"t1" true))
    (demo_rule #"api.example.com" #"api" #"t1" true) (demo_pod #"*" []) forging_request);
    apply (bool_decide_unpack _); vm_compute; exact I.
Defined.

Definition caching_get (token : gostring) : HTTPProxy :=
  mkHTTPProxy (mkURL #"https" #"api.example.com" [] []) token #"Authorization".

Lemma cache_shared_across_rules_witness :
  let up := logging demo_answers in
  let st := (HTTPProxy.ServeHTTP (portal_RoundTrip demo_encode demo_decode up 0 (λ RT, RT) (Caching 10))
               (λ _, true) (caching_get #"token-a") (demo_req #"a.local" #"10.0.0.7:4") new_writer
               (InMemoryCache.NewInMemoryCache 0, [])).2 in
  (HTTPProxy.ServeHTTP (portal_RoundTrip demo_encode demo_decode up 5 (λ RT, RT) (Caching 10))
     (λ _, true) (caching_get #"token-b") (demo_req #"b.local" #"10.0.0.8:4") new_writer st).1
  = relay (λ _, true) (demo_answer #"first") new_writer.
Proof.
  intros up st.
  pose proof (cache_shared_across_rules demo_encode demo_decode demo_codec up (λ RT, RT) (λ _, true)
    (caching_get #"token-a") (caching_get #"token-b") (demo_req #"a.local" #"10.0.0.7:4")
    (demo_req #"b.local" #"10.0.0.8:4") 10 10 (InMemoryCache.NewInMemoryCache 0) []
    [(outgoing (caching_get #"token-a") (demo_req #"a.local" #"10.0.0.7:4"), Some (demo_answer #"first"))]
    (demo_answer #"first") #"first" 0 5 new_writer new_writer eq_refl eq_refl eq_refl eq_refl eq_refl
    eq_refl eq_refl eq_refl eq_refl ltac:(cbn; lia)) as [H _].
  exact (f_equal fst H).
Defined.
