(* ===== verification/Concurrent.v ===== *)
(** * Requests while the control plane changes (pkg/portals)

    The net/http server runs every request in its own goroutine, next to the
    admin API's handlers and the goroutine that reloads the rules.
    [RuleRouter.ServeHTTP] holds [rr.mu] only for the route and [PodMap.mu]
    only for [byIP[ip]]: what it then reads through the pointer it got, it
    reads without a lock, one field at a time, while [Bind] and [Unbind] store
    the three fields one after the other.

    [req_step] is the request's code between two accesses to shared memory;
    [env] is what the other goroutines do between two of its steps; [run]
    interleaves them and keeps the states the request has lived through, so
    that a theorem can speak of the instants of a request. A field's store and
    a field's load are one step each, and the three stores of a binding may
    take effect in any order (the reader takes no lock, so the memory model
    does not order them); a torn read of a string header is not modelled. *)

From S2P Require Import Prelude GoStrings GoNet Http HTTPProxy PodMap PodMapSpec RuleRouter.

(** ** The shared memory *)

Inductive field := FIdentity | FPolicy | FBound.
#[global] Instance field_eq_dec : EqDecision field.
Proof. solve_decision. Defined.

(** A [Bind] or [Unbind] that holds the write lock: the struct, the values it
    stores, and the fields it has still to store. *)
Record pending := mkPending {
  p_at : loc;
  p_identity : gostring;
  p_policy : gostring;
  p_bound : bool;
  p_left : list field;
}.

Record shared := mkShared {
  router : RuleRouter;
  writer : option pending;
}.

Definition set_field (w : pending) (f : field) (pod : PodInfo) : PodInfo :=
  match f with
  | FIdentity => set_binding (p_identity w) (Policy pod) (Bound pod) pod
  | FPolicy => set_binding (Identity pod) (p_policy w) (Bound pod) pod
  | FBound => set_binding (Identity pod) (Policy pod) (p_bound w) pod
  end.

(** One store through the pointer. *)
Definition store (w : pending) (f : field) (pm : PodMap) : PodMap :=
  mkPodMap (alter (set_field w f) (p_at w) (heap pm)) (byUID pm) (byIP pm).

Definition all_fields : list field := [FIdentity; FPolicy; FBound].

(** The locked part of [Bind] up to its assignment: the registered struct, or
    a new one that is put in [byUID]. *)
Definition bind_target (uid : gostring) (pm : PodMap) : loc * PodMap :=
  match byUID pm !! uid with
  | Some l => (l, pm)
  | None =>
      let '(l, pm) := alloc (empty_pod uid) pm in
      (l, mkPodMap (heap pm) (<[uid := l]> (byUID pm)) (byIP pm))
  end.

Definition with_podmap (pm : PodMap) (s : shared) : shared :=
  mkShared (SetPodMap (Some pm) (router s)) (writer s).
Definition with_writer (w : option pending) (s : shared) : shared := mkShared (router s) w.

(** The operations whose writes no unlocked reader can see before they are
    published: a registration fills in a struct nobody else has yet. *)
Definition no_binding (o : pod_op) : Prop :=
  match o with OpAdd _ | OpRemove _ | OpSync _ => True | _ => False end.

Section Concurrent.
Context `{Unicode}.
Context (unmarshal : bytes → option PortalRule)
        (url_Parse : gostring → option URL)
        (ParseDuration : gostring → option Z)
        (ca_ok : PortalRule → bool).

(** ** The other goroutines *)

Inductive env : shared → shared → Prop :=
  | env_op o pm s :
      no_binding o → podMap (router s) = Some pm → writer s = None →
      env s (with_podmap (run_op o pm) s)
  | env_bind uid i p pm s :
      podMap (router s) = Some pm → writer s = None →
      env s (with_writer (Some (mkPending (bind_target uid pm).1 i p true all_fields))
               (with_podmap (bind_target uid pm).2 s))
  | env_unbind uid l pm s :
      podMap (router s) = Some pm → writer s = None → byUID pm !! uid = Some l →
      env s (with_writer (Some (mkPending l [] [] false all_fields)) s)
  | env_store w f pm s :
      podMap (router s) = Some pm → writer s = Some w → f ∈ p_left w →
      env s (mkShared (SetPodMap (Some (store w f pm)) (router s))
               (Some (mkPending (p_at w) (p_identity w) (p_policy w) (p_bound w)
                        (filter (λ g, g ≠ f) (p_left w)))))
  | env_unlock w s :
      writer s = Some w → p_left w = [] → env s (with_writer None s)
  | env_reload es s :
      env s (mkShared (loadRules unmarshal url_Parse ParseDuration ca_ok es (router s)).2 (writer s)).

(** ** One request *)

(** What a request comes to: the verdict of [route_request] with the headers
    the rule's proxy is given. *)
Inductive result :=
  | RDenied (d : denial)
  | RRule (rule : Rule) (h : Header)
  | RFallback (p : HTTPProxy) (t : transport).

Definition result_of (r : Request) (v : verdict) : result :=
  match v with
  | Denied d => RDenied d
  | ToRule rule pod => RRule rule (attribute rule pod (ReqHeader r))
  | ToFallback p t => RFallback p t
  end.

(** Where the request is between two accesses to shared memory. [rule] is the
    route it found, [l] the pod's struct, [who] the caller's name. *)
Inductive pc :=
  | Routing
  | Resolving (rule : option Rule)
  | CheckingBound (rule : option Rule) (l : loc)
  | AllowBound (rule : option Rule) (l : loc) (who : gostring)
  | AllowPolicy (rule : option Rule) (l : loc) (who : gostring)
  | AllowTokens (rule : option Rule) (l : loc) (who : gostring)
  | TestIdentity (rule : Rule) (l : loc) (h : Header)
  | SendIdentity (rule : Rule) (l : loc) (h : Header)
  | Done (v : result).

(** The policy's tokens name the rule, the host or everything. *)
Definition tokens_allow (policy ruleName host : gostring) : bool :=
  existsb (λ tok,
    let tok := TrimSpace (ToLower tok) in
    bool_decide (tok = #"*") || bool_decide (tok = ToLower ruleName)
    || bool_decide (tok = ToLower host)) (Split policy #",").

Definition rule_name (rule : option Rule) : gostring := from_option Name #"fallback" rule.

(** After the policy allowed it: the rule's proxy or the fallback. *)
Definition forward (fb : option (HTTPProxy * transport)) (r : Request) (rule : option Rule)
    (l : loc) (who : gostring) : pc :=
  match rule with
  | Some rule =>
      if AttributionHeaders rule
      then TestIdentity rule l (Set_ #"X-Forwarded-Client-Pod" who (ReqHeader r))
      else Done (RRule rule (ReqHeader r))
  | None => match fb with
            | Some (p, t) => Done (RFallback p t)
            | None => Done (RDenied HostDenied)
            end
  end.

(** [GetPodByIP] waits for a writer; a read through a pointer does not. [None]
    is a request that waits or has ended. *)
Definition req_step (order : list (gostring * Rule)) (r : Request) (s : shared) (c : pc) : option pc :=
  let rr := router s in
  let read l := podMap rr ≫= λ pm, heap pm !! l in
  match c with
  | Routing =>
      let rule := find_route order (request_host r) (routes rr) in
      match podMap rr with
      | Some _ => Some (Resolving rule)
      | None => Some (Done match rule, fallback rr with
                           | Some rule, _ => RRule rule (ReqHeader r)
                           | None, Some (p, t) => RFallback p t
                           | None, None => RDenied HostDenied
                           end)
      end
  | Resolving rule =>
      match podMap rr, writer s with
      | Some pm, None =>
          match GetPodByIP (HostWithoutPort (RemoteAddr r)) pm with
          | None => Some (Done (RDenied CallerUnknown))
          | Some l => Some (CheckingBound rule l)
          end
      | _, _ => None
      end
  | CheckingBound rule l =>
      pod ← read l;
      if negb (Bound pod) then Some (Done (RDenied PodUnbound))
      else match rule, fallback rr with
           | None, None => Some (Done (RDenied HostDenied))
           | _, _ => Some (AllowBound rule l (caller pod))
           end
  | AllowBound rule l who =>
      pod ← read l;
      if negb (Bound pod) then Some (Done (RDenied PolicyDenied))
      else Some (AllowPolicy rule l who)
  | AllowPolicy rule l who =>
      pod ← read l;
      if bool_decide (Policy pod = []) then Some (Done (RDenied PolicyDenied))
      else Some (AllowTokens rule l who)
  | AllowTokens rule l who =>
      pod ← read l;
      if tokens_allow (Policy pod) (rule_name rule) (request_host r)
      then Some (forward (fallback rr) r rule l who)
      else Some (Done (RDenied PolicyDenied))
  | TestIdentity rule l h =>
      pod ← read l;
      if bool_decide (Identity pod = []) then Some (Done (RRule rule h))
      else Some (SendIdentity rule l h)
  | SendIdentity rule l h =>
      pod ← read l;
      Some (Done (RRule rule (Set_ #"X-Consumer-Identity" (Identity pod) h)))
  | Done _ => None
  end.

(** ** Runs

    [run r h c]: a request that began when the shared memory was the first
    state of [h] is at [c], and [h] are the states since, the last one the
    present. *)
Inductive run (r : Request) : list shared → pc → Prop :=
  | run_start s : run r [s] Routing
  | run_env h s s' c : run r (h ++ [s]) c → env s s' → run r (h ++ [s; s']) c
  | run_req h s c c' order :
      run r (h ++ [s]) c → order ≡ₚ map_to_list (routes (router s)) →
      req_step order r s c = Some c' → run r (h ++ [s]) c'.

(** The states the other goroutines can lead to from a portal that starts. *)
Inductive shared_reachable : shared → Prop :=
  | shared_init rr pm : podMap rr = Some pm → pod_reachable pm → shared_reachable (mkShared rr None)
  | shared_step s s' : shared_reachable s → env s s' → shared_reachable s'.
End Concurrent.

(** ** What a state promises

    [settled]: the pod map once the binding in progress has been stored. *)
Definition settle_pod (w : pending) (pod : PodInfo) : PodInfo :=
  set_binding (if decide (FIdentity ∈ p_left w) then p_identity w else Identity pod)
              (if decide (FPolicy ∈ p_left w) then p_policy w else Policy pod)
              (if decide (FBound ∈ p_left w) then p_bound w else Bound pod) pod.

Definition settle (w : option pending) (pm : PodMap) : PodMap :=
  match w with
  | None => pm
  | Some w => mkPodMap (alter (settle_pod w) (p_at w) (heap pm)) (byUID pm) (byIP pm)
  end.

Definition settled (s : shared) : option PodMap := settle (writer s) <$> podMap (router s).

(** Things that happened one after the other, possibly at the same instant. *)
Inductive in_order : list (shared → Prop) → list shared → Prop :=
  | in_order_nil h : in_order [] h
  | in_order_here (P : shared → Prop) ps s h : P s → in_order ps (s :: h) → in_order (P :: ps) (s :: h)
  | in_order_later ps s h : in_order ps h → in_order ps (s :: h).

Lemma in_order_app ps h h' : in_order ps h → in_order ps (h ++ h').
Proof. induction 1; cbn; by constructor. Qed.

Lemma in_order_snoc ps h s (P : shared → Prop) :
  in_order ps (h ++ [s]) → P s → in_order (ps ++ [P]) (h ++ [s]).
Proof.
  intros Ho HP. remember (h ++ [s]) as h' eqn:E. revert h E.
  induction Ho as [h'|Q ps x h' HQ Ho IH|ps x h' Ho IH]; intros h E; cbn.
  - subst h'. clear -HP. induction h as [|x h IH]; cbn.
    + apply in_order_here; [done|constructor].
    + by apply in_order_later.
  - apply in_order_here; [done|]. by apply (IH h).
  - destruct h as [|y h]; cbn in E.
    + injection E as -> ->. inversion Ho; subst. apply in_order_here; [done|constructor].
    + injection E as -> ->. apply in_order_later. by apply (IH h).
Qed.

(** ** Lemmas on the pod map's steps *)

Lemma alloc_heap info pm l pod :
  heap pm !! l = Some pod → heap (alloc info pm).2 !! l = Some pod.
Proof.
  intros Hl. cbn. rewrite lookup_insert_ne; [done|]. intros <-.
  pose proof (alloc_fresh info pm). cbn in *. congruence.
Qed.

(** A registration, a removal and a synchronisation write to no struct that is
    already there. *)
Lemma AddOrUpdatePod_heap info pm l pod :
  heap pm !! l = Some pod → heap (AddOrUpdatePod info pm) !! l = Some pod.
Proof.
  intros Hl. pose proof (alloc_fresh info pm) as Hf. cbn in Hf.
  unfold AddOrUpdatePod, alloc, addOrUpdateLocked. cbn. rewrite lookup_insert_eq. cbn.
  assert (fresh (dom (heap pm)) ≠ l) by congruence.
  case_bool_decide; cbn; by rewrite ?lookup_insert_ne.
Qed.

Lemma remove_loc_heap uid l pm : heap (remove_loc uid l pm) = heap pm.
Proof. unfold remove_loc. by destruct (heap pm !! l). Qed.

Lemma sweep_heap active order pm : heap (sweep active order pm) = heap pm.
Proof.
  revert pm. unfold sweep. induction order as [|e order IH]; intros pm; [done|]. cbn.
  rewrite IH. destruct (mem e.1 active); [done|apply remove_loc_heap].
Qed.

Lemma no_binding_heap o pm l pod :
  no_binding o → heap pm !! l = Some pod → heap (run_op o pm) !! l = Some pod.
Proof.
  destruct o as [info|uid|ps| |]; intros [] Hl; cbn [run_op].
  - by apply AddOrUpdatePod_heap.
  - unfold RemovePod. destruct (byUID pm !! uid); [by rewrite remove_loc_heap|done].
  - unfold SynchronizePods. rewrite sweep_heap. revert pm Hl.
    induction ps as [|info ps IH]; intros pm Hl; [done|]. cbn. by apply IH, AddOrUpdatePod_heap.
Qed.

Lemma bind_target_heap uid pm l pod :
  heap pm !! l = Some pod → heap (bind_target uid pm).2 !! l = Some pod.
Proof.
  intros Hl. unfold bind_target. destruct (byUID pm !! uid); [done|].
  exact (alloc_heap (empty_pod uid) pm l pod Hl).
Qed.

(** [Bind] and [Unbind] are the stores of a settled writer. *)
Lemma settle_all l i p b pm :
  settle (Some (mkPending l i p b all_fields)) pm = bind_at l i p b pm.
Proof. unfold settle, bind_at. f_equal. Qed.

Lemma bind_target_settle uid i p pm :
  settle (Some (mkPending (bind_target uid pm).1 i p true all_fields)) (bind_target uid pm).2
  = Bind uid i p pm.
Proof.
  rewrite settle_all. unfold bind_target, Bind. by destruct (byUID pm !! uid).
Qed.

Lemma settle_store w f pm :
  f ∈ p_left w →
  settle (Some (mkPending (p_at w) (p_identity w) (p_policy w) (p_bound w)
                  (filter (λ g, g ≠ f) (p_left w)))) (store w f pm)
  = settle (Some w) pm.
Proof.
  intros Hf. unfold settle, store. cbn. f_equal. apply map_eq. intros k.
  destruct (decide (p_at w = k)) as [<-|Hk]; [|by rewrite !lookup_alter_ne].
  rewrite !lookup_alter_eq. destruct (heap pm !! p_at w) as [pod|]; [|done].
  cbn. f_equal. unfold settle_pod.
  destruct f; cbn; unfold set_binding; f_equal; repeat case_decide;
    rewrite ?list_elem_of_filter in *; naive_solver.
Qed.

Lemma settle_nil w pm : p_left w = [] → settle (Some w) pm = pm.
Proof.
  intros E. destruct pm as [hp u i]. unfold settle. cbn. f_equal. apply map_eq. intros k.
  rewrite lookup_alter. case_decide as Ek; [|done]. subst k.
  destruct (hp !! p_at w) as [pod|]; [|done]. cbn. f_equal. unfold settle_pod. rewrite E.
  by destruct pod.
Qed.

(** A binding does not matter to the indexes. *)
Lemma wf_settle w pm : wf (settle w pm) → wf pm.
Proof.
  destruct w as [w|]; [|done]. intros Hwf. split.
  - intros uid l E. destruct (wf_uid _ Hwf uid l E) as (pod & Hl & Hu). cbn in Hl.
    rewrite lookup_alter in Hl. case_decide; [subst|by eauto].
    apply fmap_Some in Hl as (pod' & -> & ->). by exists pod'.
  - intros ip l E. destruct (wf_ip _ Hwf ip l E) as (pod & Hl & Hin & Hne & Hu). cbn in Hl, Hu.
    rewrite lookup_alter in Hl. case_decide; [subst|by eauto 6].
    apply fmap_Some in Hl as (pod' & Hl & ->). by exists pod'.
Qed.

Section Steps.
Context `{Unicode}.
Context (unmarshal : bytes → option PortalRule)
        (url_Parse : gostring → option URL)
        (ParseDuration : gostring → option Z)
        (ca_ok : PortalRule → bool).
Notation env := (env unmarshal url_Parse ParseDuration ca_ok).
Notation run := (run unmarshal url_Parse ParseDuration ca_ok).
Notation shared_reachable := (shared_reachable unmarshal url_Parse ParseDuration ca_ok).
Notation loadRules := (loadRules unmarshal url_Parse ParseDuration ca_ok).

Lemma loadRules_keeps es rr :
  podMap (loadRules es rr).2 = podMap rr ∧ fallback (loadRules es rr).2 = fallback rr.
Proof.
  unfold RuleRouter.loadRules. destruct (bool_decide _); [done|].
  destruct (walk_rules _ _ _ _ _ _) as [walked st]. destruct (negb walked); [done|].
  by destruct (errs st).
Qed.

(** What any step of the others does to the pod map. *)
Lemma env_settled s s' :
  env s s' → settled s' = settled s ∨ ∃ o pm, settled s = Some pm ∧ settled s' = Some (run_op o pm).
Proof.
  unfold settled. destruct 1 as [o pm s Ho Hp Hw|uid i p pm s Hp Hw|uid l pm s Hp Hw Hu
    |w f pm s Hp Hw Hf|w s Hw Hl|es s]; cbn.
  - right. exists o, pm. by rewrite Hp, Hw.
  - right. exists (OpBind uid i p), pm. rewrite Hp, Hw.
    split; [done|]. exact (f_equal Some (bind_target_settle uid i p pm)).
  - right. exists (OpUnbind uid), pm. rewrite Hp, Hw. split; [done|].
    cbn [run_op]. unfold Unbind. rewrite Hu. exact (f_equal Some (settle_all l [] [] false pm)).
  - left. rewrite Hp, Hw. exact (f_equal Some (settle_store w f pm Hf)).
  - left. rewrite Hw. destruct (podMap (router s)) as [pm|]; [|done].
    exact (f_equal Some (eq_sym (settle_nil w pm Hl))).
  - left. by rewrite (proj1 (loadRules_keeps es (router s))).
Qed.

Lemma reachable_settled s :
  shared_reachable s → ∃ pm, podMap (router s) = Some pm ∧ pod_reachable (settle (writer s) pm).
Proof.
  induction 1 as [rr pm Hp Hr|s s' _ IH Hs]; [by exists pm|].
  destruct IH as (pm & Hp & Hr). assert (Hset : settled s = Some (settle (writer s) pm)).
  { unfold settled. by rewrite Hp. }
  destruct (env_settled _ _ Hs) as [E|(o & pm' & E1 & E2)]; unfold settled in *.
  - rewrite Hset in E. apply fmap_Some in E as (pm' & Hp' & E). exists pm'. by rewrite <- E.
  - rewrite Hset in E1. injection E1 as <-. apply fmap_Some in E2 as (pm' & Hp' & E).
    exists pm'. rewrite <- E. split; [done|by constructor].
Qed.

Lemma reachable_podMap s : shared_reachable s → ∃ pm, podMap (router s) = Some pm ∧ wf pm.
Proof.
  intros (pm & Hp & Hr)%reachable_settled. exists pm. split; [done|].
  by eapply wf_settle, reachable_wf.
Qed.

Lemma env_fallback s s' : env s s' → fallback (router s') = fallback (router s).
Proof. destruct 1; try done. cbn. apply loadRules_keeps. Qed.

(** The structs outlive every step, and only their writer changes one. *)
Lemma env_heap s s' pm pm' l pod :
  env s s' → podMap (router s) = Some pm → podMap (router s') = Some pm' →
  heap pm !! l = Some pod →
  ∃ pod', heap pm' !! l = Some pod' ∧
    ((∀ w, writer s = Some w → p_at w ≠ l) → pod' = pod).
Proof.
  intros Hs Hp Hp' Hl. destruct Hs as [o pm0 s Ho E Hw|uid i p pm0 s E Hw|uid l0 pm0 s E Hw Hu
    |w f pm0 s E Hw Hf|w s Hw Hl0|es s]; cbn in Hp'.
  - injection Hp' as <-. rewrite E in Hp. injection Hp as ->.
    exists pod. split; [by apply no_binding_heap|done].
  - injection Hp' as <-. rewrite E in Hp. injection Hp as ->.
    exists pod. split; [by apply bind_target_heap|done].
  - rewrite Hp in Hp'. injection Hp' as <-. by exists pod.
  - injection Hp' as <-. rewrite E in Hp. injection Hp as ->. unfold store. cbn.
    destruct (decide (p_at w = l)) as [<-|Hne].
    + rewrite lookup_alter_eq, Hl. eexists. split; [done|]. intros Hn. by destruct (Hn w Hw).
    + rewrite lookup_alter_ne by done. by exists pod.
  - rewrite Hp in Hp'. injection Hp' as <-. by exists pod.
  - rewrite (proj1 (loadRules_keeps es (router s))), Hp in Hp'. injection Hp' as <-. by exists pod.
Qed.

(** ** Lemmas on runs *)

Lemma run_last r h c : run r h c → ∃ h' s, h = h' ++ [s].
Proof.
  destruct 1 as [s|h s s' c _ _|h s c c' order _ _ _]; [by exists [], s| |by exists h, s].
  exists (h ++ [s]), s'. by rewrite <- app_assoc.
Qed.

Lemma run_env_last r h s s' c : run r h c → last h = Some s → env s s' → run r (h ++ [s']) c.
Proof.
  intros Hr Hl Hs. destruct (run_last _ _ _ Hr) as (h' & s0 & ->).
  rewrite last_snoc in Hl. injection Hl as ->. rewrite <- app_assoc. by apply run_env.
Qed.

Lemma run_req_last r h s c c' order :
  run r h c → last h = Some s → order ≡ₚ map_to_list (routes (router s)) →
  req_step order r s c = Some c' → run r h c'.
Proof.
  intros Hr Hl Ho Hs. destruct (run_last _ _ _ Hr) as (h' & s0 & ->).
  rewrite last_snoc in Hl. injection Hl as ->. by eapply run_req.
Qed.

(** The other goroutines may take any number of steps meanwhile. *)
Lemma run_envs r h s s' c :
  run r h c → last h = Some s → rtc env s s' →
  ∃ h', run r (h ++ h') c ∧ last (h ++ h') = Some s'.
Proof.
  intros Hr Hl Hs. revert h Hr Hl. induction Hs as [s|s s1 s' H1 _ IH]; intros h Hr Hl.
  - exists []. by rewrite app_nil_r.
  - destruct (IH (h ++ [s1])) as (h' & Hr' & Hl').
    + by eapply run_env_last.
    + apply last_snoc.
    + exists (s1 :: h'). by rewrite <- app_assoc in Hr', Hl'.
Qed.

Lemma run_reachable r h c s0 :
  run r h c → head h = Some s0 → shared_reachable s0 → Forall shared_reachable h.
Proof.
  intros Hr Hh H0. induction Hr as [s|h s s' c Hr IH Hs|h s c c' order Hr IH _ _].
  - injection Hh as ->. by constructor.
  - replace (h ++ [s; s']) with ((h ++ [s]) ++ [s']) in * by (by rewrite <- app_assoc).
    assert (Hh' : head (h ++ [s]) = Some s0) by (by destruct h).
    apply Forall_app_2; [by apply IH|]. constructor; [|done].
    apply IH in Hh'. apply Forall_app in Hh' as [_ Hs0]. apply Forall_cons in Hs0 as [Hs0 _].
    by eapply shared_step.
  - by apply IH.
Qed.
(** Induction over a run, with what reachability gives at every state. *)
Lemma run_reach_ind r s0 (P : list shared → pc → Prop) :
  shared_reachable s0 → P [s0] Routing →
  (∀ h s s' c, shared_reachable s → env s s' → P (h ++ [s]) c → P ((h ++ [s]) ++ [s']) c) →
  (∀ h s c c' order, shared_reachable s → order ≡ₚ map_to_list (routes (router s)) →
     req_step order r s c = Some c' → P (h ++ [s]) c → P (h ++ [s]) c') →
  ∀ h c, run r h c → head h = Some s0 → P h c.
Proof.
  intros H0 Hstart Henv Hreq h c Hr Hh.
  induction Hr as [s|h s s' c Hr IH Hs|h s c c' order Hr IH Ho Hs].
  - by injection Hh as ->.
  - replace (h ++ [s; s']) with ((h ++ [s]) ++ [s']) in * by (by rewrite <- app_assoc).
    assert (Hh' : head (h ++ [s]) = Some s0) by (by destruct h).
    pose proof (run_reachable _ _ _ _ Hr Hh' H0) as [_ [Hrs _]%Forall_cons]%Forall_app.
    apply Henv; [done..|by apply IH].
  - pose proof (run_reachable _ _ _ _ Hr Hh H0) as [_ [Hrs _]%Forall_cons]%Forall_app.
    eapply Hreq; [done..|by apply IH].
Qed.

(** ** What a request has seen *)

Definition Routed (r : Request) (rule : option Rule) (s : shared) : Prop :=
  ∃ order, order ≡ₚ map_to_list (routes (router s)) ∧
    find_route order (request_host r) (routes (router s)) = rule.

(** The pod registered for the request's address, no writer holding the lock. *)
Definition Registered (r : Request) (l : loc) (s : shared) : Prop :=
  writer s = None ∧ ∃ pm, podMap (router s) = Some pm ∧
    GetPodByIP (HostWithoutPort (RemoteAddr r)) pm = Some l.

Definition Reads (l : loc) (P : PodInfo → Prop) (s : shared) : Prop :=
  ∃ pm pod, podMap (router s) = Some pm ∧ heap pm !! l = Some pod ∧ P pod.

(** The instants of a request the router lets through. *)
Definition grant (r : Request) (rule : option Rule) (l : loc) (who : gostring) : list (shared → Prop) :=
  [ Routed r rule; Registered r l;
    Reads l (λ pod, Bound pod = true ∧ caller pod = who);
    Reads l (λ pod, Bound pod = true);
    Reads l (λ pod, Policy pod ≠ []);
    Reads l (λ pod, tokens_allow (Policy pod) (rule_name rule) (request_host r) = true) ].

Definition pod_header (who : gostring) (r : Request) : Header :=
  Set_ #"X-Forwarded-Client-Pod" who (ReqHeader r).

(** The instants after the permission at which the identity is read. *)
Definition sent (r : Request) (rule : Rule) (l : loc) (who : gostring) (h : Header)
    : list (shared → Prop) :=
  if AttributionHeaders rule then
    [ Reads l (λ pod, (Identity pod = [] ∧ h = pod_header who r) ∨
        h = Set_ #"X-Consumer-Identity" (Identity pod) (pod_header who r)) ]
  else [λ _, h = ReqHeader r].

Definition justified (r : Request) (h : list shared) (c : pc) : Prop :=
  match c with
  | Routing => True
  | Resolving rule => in_order [Routed r rule] h
  | CheckingBound rule l => in_order [Routed r rule; Registered r l] h
  | AllowBound rule l who => in_order (take 3 (grant r rule l who)) h
  | AllowPolicy rule l who => in_order (take 4 (grant r rule l who)) h
  | AllowTokens rule l who => in_order (take 5 (grant r rule l who)) h
  | TestIdentity rule l hd | SendIdentity rule l hd =>
      AttributionHeaders rule = true ∧
      ∃ who, hd = pod_header who r ∧ in_order (grant r (Some rule) l who) h
  | Done (RRule rule hd) => ∃ l who, in_order (grant r (Some rule) l who ++ sent r rule l who hd) h
  | Done (RFallback p t) =>
      ∃ l who, in_order (grant r None l who ++ [λ s, fallback (router s) = Some (p, t)]) h
  | Done (RDenied _) => True
  end.

Lemma justified_app r h h' c : justified r h c → justified r (h ++ h') c.
Proof.
  destruct c as [| | | | | | | |[]]; cbn; try done; try apply in_order_app.
  - intros (? & who & ? & ?). split; [done|]. exists who. split; [done|by apply in_order_app].
  - intros (? & who & ? & ?). split; [done|]. exists who. split; [done|by apply in_order_app].
  - intros (l & who & ?). exists l, who. by apply in_order_app.
  - intros (l & who & ?). exists l, who. by apply in_order_app.
Qed.

(** A step of the request records what it has just seen. *)
Lemma req_step_justified order r h s c c' pm :
  podMap (router s) = Some pm → order ≡ₚ map_to_list (routes (router s)) →
  req_step order r s c = Some c' → justified r (h ++ [s]) c → justified r (h ++ [s]) c'.
Proof.
  intros Hp Ho Hs Hj.
  assert (HR : ∀ l pod (P : PodInfo → Prop), heap pm !! l = Some pod → P pod → Reads l P s).
  { intros l pod P Hl HP. by exists pm, pod. }
  destruct c as [|rule|rule l|rule l who|rule l who|rule l who|rule l hd|rule l hd|v];
    unfold req_step in Hs; rewrite ?Hp in Hs; cbn [mbind option_bind] in Hs.
  - injection Hs as <-. apply (in_order_snoc []); [constructor|]. by exists order.
  - destruct (writer s) eqn:Hw; [done|]. destruct (GetPodByIP _ pm) as [l|] eqn:El; injection Hs as <-; [|done].
    apply (in_order_snoc [_]); [done|]. split; [done|by exists pm].
  - apply bind_Some in Hs as (pod & Hl & Hs). destruct (Bound pod) eqn:Hb; cbn in Hs; [|by injection Hs as <-].
    assert (Hc : in_order (take 3 (grant r rule l (caller pod))) (h ++ [s])).
    { apply (in_order_snoc [_; _]); [done|]. by eapply HR. }
    destruct rule, (fallback (router s)); injection Hs as <-; done.
  - apply bind_Some in Hs as (pod & Hl & Hs). destruct (Bound pod) eqn:Hb; injection Hs as <-; [|done].
    apply (in_order_snoc [_; _; _]); [done|]. by eapply HR.
  - apply bind_Some in Hs as (pod & Hl & Hs). case_bool_decide as Hb; injection Hs as <-; [done|].
    apply (in_order_snoc [_; _; _; _]); [done|]. by eapply HR.
  - apply bind_Some in Hs as (pod & Hl & Hs).
    destruct (tokens_allow _ _ _) eqn:Ht; injection Hs as <-; [|done].
    assert (Hg : in_order (grant r rule l who) (h ++ [s])).
    { apply (in_order_snoc [_; _; _; _; _]); [done|]. by eapply HR. }
    destruct rule as [rule|]; cbn [forward].
    + destruct (AttributionHeaders rule) eqn:Ha; cbn [justified]; [by eauto|].
      exists l, who. unfold sent. rewrite Ha. by apply in_order_snoc.
    + destruct (fallback (router s)) as [[p t]|] eqn:Ef; [|done].
      exists l, who. by apply in_order_snoc.
  - apply bind_Some in Hs as (pod & Hl & Hs). destruct Hj as (Ha & who & -> & Hg).
    case_bool_decide as Hi; injection Hs as <-; cbn [justified]; [|by eauto].
    exists l, who. unfold sent. rewrite Ha. apply in_order_snoc; [done|]. eapply HR; [done|]. by left.
  - apply bind_Some in Hs as (pod & Hl & Hs). destruct Hj as (Ha & who & -> & Hg).
    injection Hs as <-. exists l, who. unfold sent. rewrite Ha.
    apply in_order_snoc; [done|]. eapply HR; [done|]. by right.
  - done.
Qed.

Lemma run_justified r h c s0 : run r h c → head h = Some s0 → shared_reachable s0 → justified r h c.
Proof.
  intros Hr Hh H0. revert h c Hr Hh. apply run_reach_ind; [done..| |].
  - intros h s s' c _ _ Hj. by apply justified_app.
  - intros h s c c' order (pm & Hp & _)%reachable_podMap Ho Hs. by eapply req_step_justified.
Qed.
Lemma in_order_prefix ps ps' h : in_order (ps ++ ps') h → in_order ps h.
Proof.
  remember (ps ++ ps') as qs eqn:E. intros Ho. revert ps E.
  induction Ho as [h|P qs s h HP Ho IH|qs s h Ho IH]; intros ps E.
  - destruct ps; [constructor|done].
  - destruct ps as [|Q ps]; [constructor|]. injection E as -> ->.
    apply in_order_here; [done|by apply IH].
  - apply in_order_later. by apply IH.
Qed.

(** Two of the things in a sequence that happened. *)
Lemma in_order_two (P Q : shared → Prop) ps1 ps2 ps3 h :
  in_order (ps1 ++ P :: ps2 ++ Q :: ps3) h → ∃ s s', s ∈ h ∧ s' ∈ h ∧ P s ∧ Q s'.
Proof.
  assert (Hex : ∀ (R : shared → Prop) ps h, in_order ps h → R ∈ ps → ∃ s, s ∈ h ∧ R s).
  { clear. intros R ps h Ho. induction Ho as [h|P ps s h HP Ho IH|ps s h Ho IH]; intros HR.
    - by apply elem_of_nil in HR.
    - apply elem_of_cons in HR as [->|HR]; [|by apply IH]. exists s. split; [by left|done].
    - destruct (IH HR) as (x & Hx & ?). exists x. split; [by right|done]. }
  intros Ho. destruct (Hex P _ h Ho) as (s & ? & ?); [set_solver|].
  destruct (Hex Q _ h Ho) as (s' & ? & ?); [set_solver|]. by exists s, s'.
Qed.

(** ** A request whose pod nobody binds meanwhile *)

(** The rest of a request that reads one and the same [pod]. *)
Definition finish (fb : option (HTTPProxy * transport)) (r : Request) (pod : PodInfo) (c : pc) : result :=
  let send rule h := RRule rule (Set_ #"X-Consumer-Identity" (Identity pod) h) in
  let test rule h := if bool_decide (Identity pod = []) then RRule rule h else send rule h in
  let tokens rule l who :=
    if tokens_allow (Policy pod) (rule_name rule) (request_host r) then
      match forward fb r rule l who with
      | Done v => v
      | TestIdentity rule _ h => test rule h
      | _ => RDenied HostDenied
      end
    else RDenied PolicyDenied in
  let policy rule l who := if bool_decide (Policy pod = []) then RDenied PolicyDenied else tokens rule l who in
  let bound rule l who := if negb (Bound pod) then RDenied PolicyDenied else policy rule l who in
  match c with
  | Routing | Resolving _ => RDenied CallerUnknown
  | CheckingBound rule l =>
      if negb (Bound pod) then RDenied PodUnbound
      else match rule, fb with
           | None, None => RDenied HostDenied
           | _, _ => bound rule l (caller pod)
           end
  | AllowBound rule l who => bound rule l who
  | AllowPolicy rule l who => policy rule l who
  | AllowTokens rule l who => tokens rule l who
  | TestIdentity rule l h => test rule h
  | SendIdentity rule l h => send rule h
  | Done v => v
  end.

(** The struct a request holds a pointer to. *)
Definition pointer (c : pc) : option loc :=
  match c with
  | Routing | Resolving _ | Done _ => None
  | CheckingBound _ l | AllowBound _ l _ | AllowPolicy _ l _ | AllowTokens _ l _
  | TestIdentity _ l _ | SendIdentity _ l _ => Some l
  end.

Lemma req_step_finish order r s c c' l pm pod :
  req_step order r s c = Some c' → pointer c = Some l →
  podMap (router s) = Some pm → heap pm !! l = Some pod →
  finish (fallback (router s)) r pod c' = finish (fallback (router s)) r pod c ∧
  (pointer c' = Some l ∨ ∃ v, c' = Done v).
Proof.
  intros Hs Hc Hp Hl.
  destruct c; cbn in Hc; try done; injection Hc as ->; unfold req_step in Hs;
    rewrite Hp in Hs; cbn [mbind option_bind] in Hs; rewrite Hl in Hs; cbn [mbind option_bind] in Hs;
    unfold finish.
  - destruct (Bound pod) eqn:Hb; cbn [negb] in *; [|injection Hs as <-; eauto].
    destruct rule, (fallback (router s)); injection Hs as <-; cbn; rewrite ?Hb; eauto.
  - destruct (Bound pod) eqn:Hb; cbn [negb] in *; injection Hs as <-; eauto.
  - case_bool_decide; injection Hs as <-; eauto.
  - destruct (tokens_allow _ _ _); injection Hs as <-; [|by eauto].
    unfold forward. destruct rule as [rule|]; [destruct (AttributionHeaders rule)|
      destruct (fallback (router s)) as [[]|]]; cbn; eauto.
  - case_bool_decide; injection Hs as <-; cbn; eauto.
  - injection Hs as <-. eauto.
Qed.

Lemma IsRuleAllowed_tokens_allow pod ruleName host :
  IsRuleAllowed (Some pod) ruleName host
  = Bound pod && negb (bool_decide (Policy pod = [])) && tokens_allow (Policy pod) ruleName host.
Proof.
  unfold IsRuleAllowed. fold (tokens_allow (Policy pod) ruleName host).
  by destruct (Bound pod), (bool_decide (Policy pod = [])).
Qed.

(** What follows the pointer's lookup is what [route_request] does with the pod. *)
Lemma finish_route order rr r pm l pod :
  podMap rr = Some pm → GetPodByIP (HostWithoutPort (RemoteAddr r)) pm = Some l →
  heap pm !! l = Some pod →
  finish (fallback rr) r pod (CheckingBound (find_route order (request_host r) (routes rr)) l)
  = result_of r (route_request order rr r).
Proof.
  intros Hp Hg Hl. unfold route_request. rewrite Hp. unfold pod_at. rewrite Hg.
  cbn [mbind option_bind]. rewrite Hl. cbn [mbind option_bind].
  unfold finish. destruct (Bound pod) eqn:Hb; [|done]. cbn [negb].
  rewrite !IsRuleAllowed_tokens_allow, Hb. cbn [andb].
  destruct (find_route _ _ _) as [rule|]; cbn [rule_name from_option].
  - rewrite IsRuleAllowed_tokens_allow, Hb. cbn [andb].
    case_bool_decide; cbn [negb andb]; [done|]. destruct (tokens_allow _ _ _); [|done].
    cbn [forward result_of attribute]. destruct (AttributionHeaders rule); [|done].
    by case_bool_decide.
  - destruct (fallback rr) as [[p t]|]; [|done].
    case_bool_decide; cbn [negb andb]; [done|]. by destruct (tokens_allow _ _ _).
Qed.

(** No [Bind] or [Unbind] of a pod the caller's address resolves to overlaps. *)
Definition undisturbed (r : Request) (h : list shared) : Prop :=
  ∀ s s' w pm, s ∈ h → s' ∈ h → writer s = Some w → podMap (router s') = Some pm →
    GetPodByIP (HostWithoutPort (RemoteAddr r)) pm ≠ Some (p_at w).

Lemma undisturbed_app r h h' : undisturbed r (h ++ h') → undisturbed r h.
Proof.
  intros Hu s s' w pm Hs Hs'. apply Hu; apply elem_of_app; by left.
Qed.

(** The sequential router at the table of one instant and the pods of a later one. *)
Definition sequential (r : Request) (s1 s2 : shared) (v : result) : Prop :=
  ∃ order, order ≡ₚ map_to_list (routes (router s1)) ∧
    v = result_of r (route_request order (SetPodMap (podMap (router s2)) (router s1)) r).

(** The route was found at [s1]; the pod was found at [s2] and its struct has
    not changed since. *)
Record held (r : Request) (h : list shared) (c : pc) (s1 s2 s : shared) (l : loc)
    (pm2 pm : PodMap) (pod : PodInfo) : Prop := {
  held_order : in_order [eq s1; eq s2] h;
  held_last : last h = Some s;
  held_pointer : pointer c = Some l;
  held_map2 : podMap (router s2) = Some pm2;
  held_lookup : GetPodByIP (HostWithoutPort (RemoteAddr r)) pm2 = Some l;
  held_map : podMap (router s) = Some pm;
  held_pod : heap pm !! l = Some pod;
  held_seq : sequential r s1 s2 (finish (fallback (router s)) r pod c);
}.

Definition tracks (r : Request) (h : list shared) (c : pc) : Prop :=
  match c with
  | Routing => True
  | Resolving rule => ∃ s1 s, in_order [eq s1] h ∧ last h = Some s ∧
      fallback (router s) = fallback (router s1) ∧ Routed r rule s1
  | Done v => ∃ s1 s2, in_order [eq s1; eq s2] h ∧ sequential r s1 s2 v
  | _ => ∃ s1 s2 s l pm2 pm pod, held r h c s1 s2 s l pm2 pm pod
  end.

Lemma tracks_held r h c l :
  pointer c = Some l → tracks r h c = (∃ s1 s2 s l pm2 pm pod, held r h c s1 s2 s l pm2 pm pod).
Proof. by destruct c. Qed.

Lemma in_order_elem ps h s : in_order ps h → eq s ∈ ps → s ∈ h.
Proof.
  intros Ho. revert s. induction Ho as [h|P ps x h HP Ho IH|ps x h Ho IH]; intros s Hs.
  - by apply elem_of_nil in Hs.
  - apply elem_of_cons in Hs as [<- |Hs]; [subst; by left|by apply IH].
  - right. by apply IH.
Qed.

Lemma tracks_env r h s s' c :
  shared_reachable s → env s s' → undisturbed r ((h ++ [s]) ++ [s']) →
  tracks r (h ++ [s]) c → tracks r ((h ++ [s]) ++ [s']) c.
Proof.
  intros Hr Hs Hu Ht. destruct (pointer c) as [l|] eqn:Hc.
  - rewrite (tracks_held _ _ _ _ Hc). rewrite (tracks_held _ _ _ _ Hc) in Ht.
    destruct Ht as (s1 & s2 & x & l' & pm2 & pm & pod & [Ho Hl Hpt Hp2 Hg Hp Hpod Hseq]).
    rewrite last_snoc in Hl. injection Hl as <-.
    destruct (reachable_podMap s' (shared_step _ _ _ _ _ _ Hr Hs)) as (pm' & Hp' & _).
    destruct (env_heap _ _ _ _ _ _ Hs Hp Hp' Hpod) as (pod' & Hl' & Heq).
    assert (pod' = pod) as ->.
    { apply Heq. intros w Hw Hat. apply (Hu s s2 w pm2); [..|done|done|by rewrite Hat].
      - apply elem_of_app. left. apply elem_of_app. right. by left.
      - apply elem_of_app. left. apply (in_order_elem _ _ _ Ho). right. by left. }
    exists s1, s2, s', l', pm2, pm', pod. split; try done.
    + by apply in_order_app.
    + by rewrite last_snoc.
    + by rewrite (env_fallback _ _ Hs).
  - destruct c; cbn in Hc; try done; cbn in *.
    + destruct Ht as (s1 & x & Ho & Hl & Hf & Hrt). rewrite last_snoc in Hl. injection Hl as <-.
      exists s1, s'. rewrite last_snoc. split_and!; [by apply in_order_app|done| |done].
      by rewrite (env_fallback _ _ Hs).
    + destruct Ht as (s1 & s2 & Ho & Hseq). exists s1, s2. split; [by apply in_order_app|done].
Qed.

Lemma tracks_req r h s c c' order :
  shared_reachable s → order ≡ₚ map_to_list (routes (router s)) →
  req_step order r s c = Some c' → tracks r (h ++ [s]) c → tracks r (h ++ [s]) c'.
Proof.
  intros (pm & Hp & Hwf)%reachable_podMap Hord Hs Ht.
  assert (Hlast : last (h ++ [s]) = Some s) by apply last_snoc.
  destruct (pointer c) as [l|] eqn:Hc.
  - rewrite (tracks_held _ _ _ _ Hc) in Ht.
    destruct Ht as (s1 & s2 & x & l' & pm2 & pm' & pod & [Ho Hl Hpt Hp2 Hg Hp' Hpod Hseq]).
    rewrite Hlast in Hl. injection Hl as <-.
    destruct (req_step_finish _ _ _ _ _ _ _ _ Hs Hpt Hp' Hpod) as [Hf [Hc'|[v ->]]].
    + rewrite (tracks_held _ _ _ _ Hc'). exists s1, s2, s, l', pm2, pm', pod.
      split; try done. by rewrite Hf.
    + exists s1, s2. split; [done|]. by rewrite <- Hf in Hseq.
  - destruct c; cbn in Hc; try done; unfold req_step in Hs; rewrite Hp in Hs.
    + injection Hs as <-. exists s, s. split_and!; try done; [|by exists order].
      by apply (in_order_snoc []); [constructor|].
    + destruct Ht as (s1 & x & Ho & Hl & Hf & (order1 & Ho1 & <-)).
      rewrite Hlast in Hl. injection Hl as <-. destruct (writer s); [done|].
      pose proof (in_order_snoc _ _ _ _ Ho eq_refl : in_order [eq s1; eq s] _) as Ho2.
      destruct (GetPodByIP _ pm) as [l|] eqn:El; injection Hs as <-; cbn [tracks].
      * destruct (wf_ip _ Hwf _ _ El) as (pod & Hl & _).
        exists s1, s, s, l, pm, pm, pod. split; try done.
        exists order1. split; [done|]. rewrite Hf, <- (finish_route order1 _ r pm l pod); done.
      * exists s1, s. split; [done|]. exists order1. split; [done|].
        unfold route_request. cbn [SetPodMap podMap]. rewrite Hp. unfold pod_at. by rewrite El.
Qed.

Lemma run_tracks r h c s0 :
  run r h c → head h = Some s0 → shared_reachable s0 → undisturbed r h → tracks r h c.
Proof.
  intros Hr Hh H0. revert h c Hr Hh.
  apply (run_reach_ind r s0 (λ h c, undisturbed r h → tracks r h c)); [done..| |].
  - intros h s s' c Hrs Hs IH Hu. apply tracks_env; [done..|]. eapply IH, undisturbed_app, Hu.
  - intros h s c c' order Hrs Ho Hs IH Hu. eapply tracks_req; [done..|]. by apply IH.
Qed.

(** ** A request always gets on *)

Definition steps_left (c : pc) : nat :=
  match c with
  | Routing => 8 | Resolving _ => 7 | CheckingBound _ _ => 6 | AllowBound _ _ _ => 5
  | AllowPolicy _ _ _ => 4 | AllowTokens _ _ _ => 3 | TestIdentity _ _ _ => 2
  | SendIdentity _ _ _ => 1 | Done _ => 0
  end.

Lemma req_step_steps order r s c c' : req_step order r s c = Some c' → steps_left c' < steps_left c.
Proof.
  destruct c; unfold req_step; cbn [steps_left]; intros Hs;
    repeat (match type of Hs with
            | (_ ≫= _) = Some _ => apply bind_Some in Hs as (? & _ & Hs)
            | context [match ?x with _ => _ end] => destruct x
            end); try done;
    injection Hs as <-; cbn; try lia.
  unfold forward. destruct rule; [case_match|repeat case_match]; cbn; lia.
Qed.

(** The pointer a request holds is to a struct. *)
Definition points (h : list shared) (c : pc) : Prop :=
  ∀ l s pm, pointer c = Some l → last h = Some s → podMap (router s) = Some pm → is_Some (heap pm !! l).

Lemma run_points r h c s0 : run r h c → head h = Some s0 → shared_reachable s0 → points h c.
Proof.
  intros Hr Hh H0. revert h c Hr Hh. apply (run_reach_ind r s0 points); [done..| |].
  - intros h s s' c (pm & Hp & _)%reachable_podMap Hs IH l x pm' Hc Hl Hp'.
    rewrite last_snoc in Hl. injection Hl as <-.
    destruct (IH l s pm Hc (last_snoc _ _) Hp) as [pod Hl].
    destruct (env_heap _ _ _ _ _ _ Hs Hp Hp' Hl) as (pod' & ? & _). by exists pod'.
  - intros h s c c' order (pm & Hp & Hwf)%reachable_podMap Ho Hs IH l x pm' Hc Hl Hp'.
    rewrite last_snoc in Hl. injection Hl as <-. rewrite Hp in Hp'. injection Hp' as <-.
    destruct (pointer c) as [l0|] eqn:Hc0.
    + destruct (IH l0 s pm Hc0 (last_snoc _ _) Hp) as [pod Hl].
      destruct (req_step_finish _ _ _ _ _ _ _ _ Hs Hc0 Hp Hl) as [_ [Hc'|[v ->]]]; [|done].
      assert (l = l0) as -> by congruence. by exists pod.
    + destruct c; cbn in Hc0; try done; unfold req_step in Hs; rewrite Hp in Hs.
      * by injection Hs as <-.
      * destruct (writer s); [done|]. destruct (GetPodByIP _ pm) eqn:El; injection Hs as <-; [|done].
        injection Hc as <-. destruct (wf_ip _ Hwf _ _ El) as (pod & ? & _). by exists pod.
Qed.
Lemma req_step_progress order r h s c pm :
  points h c → last h = Some s → podMap (router s) = Some pm →
  pointer c ≠ None ∨ writer s = None →
  (∃ v, c = Done v) ∨ is_Some (req_step order r s c).
Proof.
  intros Hpt Hl Hp Hw. destruct (pointer c) as [l|] eqn:Hc.
  - right. destruct (Hpt l s pm Hc Hl Hp) as [pod Hpod].
    destruct c; cbn in Hc; try done; injection Hc as ->; unfold req_step; rewrite Hp;
      cbn [mbind option_bind]; rewrite Hpod; cbn [mbind option_bind]; repeat case_match; done.
  - destruct Hw as [|Hw]; [done|]. destruct c; cbn in Hc; try done; unfold req_step; rewrite ?Hp, ?Hw.
    + by right.
    + right. by destruct (GetPodByIP _ _).
    + left. eauto.
Qed.

(** With the writer out of the way the request runs to its end. *)
Lemma run_to_end n r h c s0 s :
  run r h c → head h = Some s0 → shared_reachable s0 → last h = Some s →
  pointer c ≠ None ∨ writer s = None → steps_left c ≤ n → ∃ v, run r h (Done v).
Proof.
  revert c. induction n as [|n IH]; intros c Hr Hh H0 Hl Hw Hn.
  { destruct c; cbn in Hn; try lia. eauto. }
  assert (∃ pm, podMap (router s) = Some pm ∧ wf pm) as (pm & Hp & _).
  { destruct (run_last _ _ _ Hr) as (h' & x & ->). rewrite last_snoc in Hl. injection Hl as ->.
    pose proof (run_reachable _ _ _ _ Hr Hh H0) as [_ [Hrs _]%Forall_cons]%Forall_app.
    by apply reachable_podMap. }
  pose proof (run_points _ _ _ _ Hr Hh H0) as Hpt.
  destruct (req_step_progress (map_to_list (routes (router s))) r h s c pm Hpt Hl Hp Hw)
    as [[v ->]|[c' Hs]]; [eauto|].
  assert (Hr' : run r h c') by (by eapply run_req_last).
  assert ((∃ v, c' = Done v) ∨ pointer c' ≠ None ∨ writer s = None) as [[v ->]|Hw']; [|by eauto|].
  { destruct Hw as [Hc|]; [|by auto]. destruct (pointer c) as [l|] eqn:Hc'; [|done].
    destruct (Hpt l s pm Hc' Hl Hp) as [pod Hpod].
    destruct (req_step_finish _ _ _ _ _ _ _ _ Hs Hc' Hp Hpod) as [_ [Hc2|]]; [|by auto].
    right. left. by rewrite Hc2. }
  apply (IH c'); try done. apply req_step_steps in Hs. lia.
Qed.

(** A writer stores what it has left and unlocks: the binding is then the one
    the atomic operation makes. *)
Lemma writer_finishes s pm :
  podMap (router s) = Some pm →
  ∃ n s', nsteps env n s s' ∧ n ≤ from_option (λ w, S (length (p_left w))) 0 (writer s) ∧
    writer s' = None ∧ router s' = SetPodMap (Some (settle (writer s) pm)) (router s).
Proof.
  intros Hp. destruct (writer s) as [w|] eqn:Hw; cbn [from_option].
  2:{ exists 0, s. split_and!; [constructor|lia|done|]. cbn. destruct s as [[]]; cbn in *. by subst. }
  remember (length (p_left w)) as k eqn:Hk.
  assert (Hle : length (p_left w) ≤ k) by lia. clear Hk. revert s w pm Hp Hw Hle.
  induction k as [|k IH]; intros s w pm Hp Hw Hle.
  all: destruct (p_left w) as [|f fs] eqn:Hf.
  1,3: exists 1, (with_writer None s); split_and!; [|lia|done|];
    [by eapply nsteps_once, env_unlock|]; rewrite settle_nil by done;
    destruct s as [[]]; cbn in *; by subst.
  - cbn in Hle. lia.
  - assert (Hin : f ∈ p_left w) by (rewrite Hf; by left).
    pose proof (env_store unmarshal url_Parse ParseDuration ca_ok w f pm s Hp Hw Hin) as Hs.
    match type of Hs with _ _ ?s1 =>
      destruct (IH s1 _ (store w f pm) eq_refl eq_refl) as (n & s' & Hn & Hnk & Hw' & Hr')
    end.
    { cbn. rewrite Hf, filter_cons_False by (intros Hne; by apply Hne). cbn in Hle.
      pose proof (length_filter (λ g, g ≠ f) fs). lia. }
    exists (S n), s'. split_and!; [by econstructor|lia|done|].
    rewrite Hr'. rewrite (settle_store w f pm Hin). done.
Qed.

(** A whole [Bind] of the admin API, from a state where nobody writes. *)
Lemma bind_runs uid i p s pm :
  podMap (router s) = Some pm → writer s = None →
  ∃ s', rtc env s s' ∧ writer s' = None ∧
    router s' = SetPodMap (Some (Bind uid i p pm)) (router s).
Proof.
  intros Hp Hw. pose proof (env_bind unmarshal url_Parse ParseDuration ca_ok uid i p pm s Hp Hw) as Hs.
  edestruct (writer_finishes _ _ (eq_refl : podMap (router (with_writer (Some (mkPending
    (bind_target uid pm).1 i p true all_fields)) (with_podmap (bind_target uid pm).2 s))) = Some _))
    as (n & s' & Hn & _ & Hw' & Hr').
  exists s'. split_and!; [|done|].
  - eapply rtc_l; [done|]. apply rtc_nsteps. by exists n.
  - rewrite Hr'. cbn [writer with_writer]. by rewrite bind_target_settle.
Qed.
Lemma run_nsteps n r h s s' c :
  run r h c → last h = Some s → nsteps env n s s' →
  ∃ h', length h' = n ∧ run r (h ++ h') c ∧ last (h ++ h') = Some s'.
Proof.
  intros Hr Hl Hs. revert h Hr Hl. induction Hs as [s|n s s1 s' H1 _ IH]; intros h Hr Hl.
  - exists []. by rewrite app_nil_r.
  - destruct (IH (h ++ [s1])) as (h' & Hn & Hr' & Hl').
    + by eapply run_env_last.
    + apply last_snoc.
    + exists (s1 :: h'). rewrite <- app_assoc in Hr', Hl'. cbn. by rewrite Hn.
Qed.

(** The request's own steps up to the pod's identity, from a state where
    nothing else happens. *)
Lemma run_to_identity r s rule pm l pod :
  podMap (router s) = Some pm → writer s = None →
  routes (router s) !! request_host r = Some rule → AttributionHeaders rule = true →
  GetPodByIP (HostWithoutPort (RemoteAddr r)) pm = Some l → heap pm !! l = Some pod →
  IsRuleAllowed (Some pod) (Name rule) (request_host r) = true →
  run r [s] (TestIdentity rule l (pod_header (caller pod) r)).
Proof.
  intros Hp Hw Hrt Ha Hg Hl Hal. rewrite IsRuleAllowed_tokens_allow in Hal.
  apply andb_prop in Hal as [[Hb Hpol]%andb_prop Htok]. apply negb_true_iff in Hpol.
  set (order := map_to_list (routes (router s))).
  assert (Hstep : ∀ c c', run r [s] c → req_step order r s c = Some c' → run r [s] c').
  { intros c c' Hr Hs. by eapply run_req_last. }
  assert (R1 : run r [s] (Resolving (Some rule))).
  { eapply Hstep; [constructor|]. unfold req_step. rewrite Hp. unfold find_route. by rewrite Hrt. }
  assert (R2 : run r [s] (CheckingBound (Some rule) l)).
  { eapply Hstep; [done|]. unfold req_step. by rewrite Hp, Hw, Hg. }
  assert (R3 : run r [s] (AllowBound (Some rule) l (caller pod))).
  { eapply Hstep; [done|]. unfold req_step. rewrite Hp. cbn [mbind option_bind]. rewrite Hl.
    cbn [mbind option_bind]. by rewrite Hb. }
  assert (R4 : run r [s] (AllowPolicy (Some rule) l (caller pod))).
  { eapply Hstep; [done|]. unfold req_step. rewrite Hp. cbn [mbind option_bind]. rewrite Hl.
    cbn [mbind option_bind]. by rewrite Hb. }
  assert (R5 : run r [s] (AllowTokens (Some rule) l (caller pod))).
  { eapply Hstep; [done|]. unfold req_step. rewrite Hp. cbn [mbind option_bind]. rewrite Hl.
    cbn [mbind option_bind]. by rewrite Hpol. }
  eapply Hstep; [done|]. unfold req_step. rewrite Hp. cbn [mbind option_bind]. rewrite Hl.
  cbn [mbind option_bind rule_name from_option]. rewrite Htok. cbn [forward]. by rewrite Ha.
Qed.

(** The request alone, at most [n] of its steps. *)
Fixpoint alone (n : nat) (r : Request) (s : shared) (c : pc) : pc :=
  match n with
  | 0 => c
  | S n => match req_step (map_to_list (routes (router s))) r s c with
           | Some c' => alone n r s c'
           | None => c
           end
  end.

Lemma run_alone n r h s c : run r h c → last h = Some s → run r h (alone n r s c).
Proof.
  revert c. induction n as [|n IH]; intros c Hr Hl; [done|]. cbn [alone].
  destruct (req_step _ r s c) as [c'|] eqn:E; [|done]. apply IH; [|done].
  by eapply run_req_last.
Qed.

(** ** Properties *)

(** C9: The pod map under concurrency is linearizable: whatever the goroutines
    interleave and in whichever order the stores of a binding land, the map with
    the binding in progress stored is one the sequential operations reach, a step
    either leaves it or performs exactly one operation on it, and with no writer
    it is the map itself. *)
Theorem control_plane_linearizable s s' :
  shared_reachable s → env s s' →
  ∃ pm pm', settled s = Some pm ∧ settled s' = Some pm' ∧ pod_reachable pm ∧
    (pm' = pm ∨ ∃ o, pm' = run_op o pm) ∧
    (writer s' = None → podMap (router s') = Some pm').
Proof.
  intros Hr Hs. destruct (reachable_settled s Hr) as (pm & Hp & Hreach).
  destruct (reachable_settled s' (shared_step _ _ _ _ _ _ Hr Hs)) as (pm' & Hp' & _).
  exists (settle (writer s) pm), (settle (writer s') pm').
  assert (E : settled s = Some (settle (writer s) pm)) by (unfold settled; by rewrite Hp).
  assert (E' : settled s' = Some (settle (writer s') pm')) by (unfold settled; by rewrite Hp').
  split_and!; try done.
  - destruct (env_settled _ _ Hs) as [Eq|(o & pm0 & Eq & Eq')].
    + left. rewrite E, E' in Eq. by injection Eq.
    + right. exists o. rewrite E in Eq. rewrite E' in Eq'. congruence.
  - intros Hw. by rewrite Hw.
Qed.

(** C4: A request the router forwards while bindings, registrations and rules
    change was granted access in its own time: one after the other there were an
    instant at which the table gave the rule, one at which the pod was registered
    for the caller's address, one at which that pod was bound, and one at which
    its policy allowed the rule or the host; an identity sent upstream was read
    from that same pod afterwards. *)
Theorem forwarded_requests_were_granted r h v s0 :
  run r h (Done v) → head h = Some s0 → shared_reachable s0 →
  match v with
  | RDenied _ => True
  | RRule rule hd => ∃ l who, in_order (grant r (Some rule) l who ++ sent r rule l who hd) h
  | RFallback p t =>
      ∃ l who, in_order (grant r None l who ++ [λ s, fallback (router s) = Some (p, t)]) h
  end.
Proof. intros Hr Hh H0. exact (run_justified r h (Done v) s0 Hr Hh H0). Qed.

(** A revoked pod gets nothing through: when every pod the caller's address
    resolves to during the request is unbound all along, the request is denied. *)
Theorem revocation_effective r h v s0 :
  run r h (Done v) → head h = Some s0 → shared_reachable s0 →
  (∀ s s' l, s ∈ h → s' ∈ h → Registered r l s → ¬ Reads l (λ pod, Bound pod = true) s') →
  ∃ d, v = RDenied d.
Proof.
  intros Hr Hh H0 Hun. pose proof (run_justified r h (Done v) s0 Hr Hh H0) as Hj.
  assert (Hbad : ∀ rule l who ps, ¬ in_order (grant r rule l who ++ ps) h).
  { intros rule l who ps Ho. destruct (in_order_two (Registered r l) (Reads l (λ pod, Bound pod = true))
      [Routed r rule] [Reads l (λ pod, Bound pod = true ∧ caller pod = who)] _ h Ho)
      as (s & s' & ? & ? & ? & ?). by apply (Hun s s' l). }
  destruct v as [d|rule hd|p t]; [by exists d|..]; destruct Hj as (l & who & Ho);
    by apply Hbad in Ho.
Qed.

(** C8: Requests linearize against registrations, removals, synchronisations,
    reloads and the bindings of other pods: a request during which nobody binds or
    unbinds a pod at its own address ends as the sequential router does with the
    table of one instant of the request and the pods of a later one. *)
Theorem undisturbed_request_is_sequential r h v s0 :
  run r h (Done v) → head h = Some s0 → shared_reachable s0 → undisturbed r h →
  ∃ s1 s2, in_order [eq s1; eq s2] h ∧ sequential r s1 s2 v.
Proof. intros Hr Hh H0 Hu. exact (run_tracks r h (Done v) s0 Hr Hh H0 Hu). Qed.

(** No request waits for ever: from any point of any interleaving it ends as
    soon as the writer that holds the pod map's lock, if any, has stored what it
    has left and unlocked, with at most eight steps of its own; once it has its
    pod it waits for nobody. *)
Theorem requests_never_deadlock r h c s0 s :
  run r h c → head h = Some s0 → shared_reachable s0 → last h = Some s →
  (∃ h' v, run r (h ++ h') (Done v) ∧
     length h' ≤ from_option (λ w, S (length (p_left w))) 0 (writer s)) ∧
  (pointer c ≠ None → ∃ v, run r h (Done v)) ∧
  (∀ order c', req_step order r s c = Some c' → steps_left c' < steps_left c ≤ 8).
Proof.
  intros Hr Hh H0 Hl. split_and!.
  - destruct (run_last _ _ _ Hr) as (h0 & x & ->). rewrite last_snoc in Hl. injection Hl as ->.
    pose proof (run_reachable _ _ _ _ Hr Hh H0) as [_ [Hrs _]%Forall_cons]%Forall_app.
    destruct (reachable_podMap s Hrs) as (pm & Hp & _).
    destruct (writer_finishes s pm Hp) as (n & s' & Hn & Hle & Hw' & _).
    destruct (run_nsteps n r (h0 ++ [s]) s s' c Hr (last_snoc _ _) Hn) as (h' & Hlen & Hr' & Hl').
    assert (Hh' : head ((h0 ++ [s]) ++ h') = Some s0) by (by destruct h0).
    destruct (run_to_end (steps_left c) r _ c s0 s' Hr' Hh' H0 Hl' (or_intror Hw') (le_n _)) as [v Hv].
    exists h', v. split; [done|]. by rewrite Hlen.
  - intros Hc. by apply (run_to_end (steps_left c) r h c s0 s Hr Hh H0 Hl (or_introl Hc)).
  - intros order c' Hs. split; [by eapply req_step_steps|]. destruct c; cbn; lia.
Qed.

(** What the lock does not give: a [Bind] that runs between the policy check and
    the header sends a request on in the name of the new identity with the
    permission of the old policy. The old binding's request would carry the old
    identity, and under the new binding the router denies it. *)
Theorem rebind_splits_request r s rule pm l pod uid i p :
  podMap (router s) = Some pm → writer s = None →
  routes (router s) !! request_host r = Some rule → AttributionHeaders rule = true →
  GetPodByIP (HostWithoutPort (RemoteAddr r)) pm = Some l → heap pm !! l = Some pod →
  byUID pm !! uid = Some l →
  IsRuleAllowed (Some pod) (Name rule) (request_host r) = true →
  Identity pod ≠ [] → i ≠ [] → Identity pod ≠ i →
  IsRuleAllowed (Some (set_binding i p true pod)) (Name rule) (request_host r) = false →
  let sent_as := attribute rule (Some (set_binding i p true pod)) (ReqHeader r) in
  ∃ h s', run r h (Done (RRule rule sent_as)) ∧ head h = Some s ∧ last h = Some s' ∧
    sent_as !! #"X-Consumer-Identity" = Some [i] ∧
    (∀ order, result_of r (route_request order (router s) r)
              = RRule rule (attribute rule (Some pod) (ReqHeader r))) ∧
    attribute rule (Some pod) (ReqHeader r) !! #"X-Consumer-Identity" = Some [Identity pod] ∧
    router s' = SetPodMap (Some (Bind uid i p pm)) (router s) ∧
    (∀ order, route_request order (router s') r = Denied PolicyDenied).
Proof.
  intros Hp Hw Hrt Ha Hg Hl Hu Hal Hid Hi Hne Hno sent_as.
  pose proof (run_to_identity r s rule pm l pod Hp Hw Hrt Ha Hg Hl Hal) as Hr.
  destruct (bind_runs uid i p s pm Hp Hw) as (s' & Hs & Hw' & Hrt').
  destruct (run_envs _ _ _ _ _ Hr eq_refl Hs) as (h' & Hr' & Hl').
  assert (HB : heap (Bind uid i p pm) !! l = Some (set_binding i p true pod)).
  { unfold Bind. rewrite Hu. cbn. by rewrite lookup_alter_eq, Hl. }
  assert (HG : GetPodByIP (HostWithoutPort (RemoteAddr r)) (Bind uid i p pm) = Some l).
  { unfold Bind. by rewrite Hu. }
  assert (R1 : run r ([s] ++ h') (SendIdentity rule l (pod_header (caller pod) r))).
  { eapply run_req_last; [done..|]. unfold req_step. rewrite Hrt'. cbn [SetPodMap podMap mbind option_bind].
    rewrite HB. cbn [mbind option_bind]. by rewrite bool_decide_eq_false_2. }
  exists ([s] ++ h'), s'. split_and!; try done.
  - eapply run_req_last; [done..|]. unfold req_step. rewrite Hrt'. cbn [SetPodMap podMap mbind option_bind].
    rewrite HB. cbn [mbind option_bind]. unfold sent_as, attribute. rewrite Ha.
    by rewrite bool_decide_eq_false_2.
  - unfold sent_as. rewrite attribute_lookup, Ha. cbn [andb].
    rewrite bool_decide_eq_false_2 by done. by rewrite bool_decide_eq_true_2.
  - intros order. unfold route_request. rewrite Hp. unfold pod_at, find_route. rewrite Hg, Hrt.
    cbn [mbind option_bind]. rewrite Hl. cbn [mbind option_bind]. rewrite Hal.
    rewrite IsRuleAllowed_tokens_allow in Hal. apply andb_prop in Hal as [[-> _]%andb_prop _]. done.
  - rewrite attribute_lookup, Ha. cbn [andb].
    rewrite bool_decide_eq_false_2 by done. by rewrite bool_decide_eq_true_2.
  - intros order. rewrite Hrt'. unfold route_request. cbn [SetPodMap podMap routes].
    unfold pod_at, find_route. rewrite HG, Hrt. cbn [mbind option_bind]. rewrite HB.
    cbn [mbind option_bind]. by rewrite Hno.
Qed.
End Steps.

(** ** Witnesses *)

Definition demo_state (policy identity : gostring) : shared :=
  mkShared (SetPodMap (Some (AddOrUpdatePod (demo_pod policy identity) NewPodMap)) (demo_router false #"*"))
    None.
Definition demo_call : Request := demo_req #"api.example.com" #"10.0.0.7:99".

Notation demo_run := (@run ascii_unicode demo_unmarshal demo_parse (λ _, None) (λ _, true) demo_call).
Notation demo_env := (@env ascii_unicode demo_unmarshal demo_parse (λ _, None) (λ _, true)).
Notation demo_reach := (@shared_reachable ascii_unicode demo_unmarshal demo_parse (λ _, None) (λ _, true)).
Notation demo_alone n := (@alone ascii_unicode n demo_call).

Lemma demo_state_reachable policy identity : demo_reach (demo_state policy identity).
Proof. eapply shared_init; [done|]. apply (reach_op (OpAdd (demo_pod policy identity))), reach_new. Qed.

(** The pod goes away while its request is on the way. *)
Definition demo_gone (s : shared) : shared :=
  with_podmap (run_op (OpRemove #"uid-1") (default NewPodMap (podMap (router s)))) s.

Definition demo_result : pc :=
  let s := demo_state #"api" #"alice" in demo_alone 3 (demo_gone s) (demo_alone 5 s Routing).

Definition result_identity (v : pc) : option (list gostring) :=
  match v with Done (RRule _ h) => h !! #"X-Consumer-Identity" | _ => None end.

Example demo_result_is : result_identity demo_result = Some [ #"alice"].
Proof. vm_compute. reflexivity. Qed.

Lemma demo_run_gone : demo_run [demo_state #"api" #"alice"; demo_gone (demo_state #"api" #"alice")] demo_result.
Proof.
  apply run_alone; [|done].
  apply (run_env_last _ _ _ _ _ [demo_state #"api" #"alice"] (demo_state #"api" #"alice")); [|done|].
  - apply run_alone; [constructor|done].
  - by apply env_op.
Qed.

Definition demo_verdict : result :=
  match demo_result with Done v => v | _ => RDenied HostDenied end.

Lemma demo_run_done :
  demo_run [demo_state #"api" #"alice"; demo_gone (demo_state #"api" #"alice")] (Done demo_verdict).
Proof. apply demo_run_gone. Qed.

(** A [Bind] that has taken the lock and stored nothing yet. *)
Definition demo_binding : shared :=
  let s := demo_state #"api" #"alice" in
  let pm := default NewPodMap (podMap (router s)) in
  with_writer (Some (mkPending (bind_target #"uid-1" pm).1 #"bob" #"other" true all_fields))
    (with_podmap (bind_target #"uid-1" pm).2 s).

Lemma demo_binding_step : demo_env (demo_state #"api" #"alice") demo_binding.
Proof. by apply env_bind. Qed.

Lemma control_plane_linearizable_witness :
  ∃ pm, settled demo_binding = Some pm ∧ pod_reachable pm.
Proof.
  destruct (@control_plane_linearizable ascii_unicode demo_unmarshal demo_parse (λ _, None) (λ _, true)
    (demo_state #"api" #"alice") demo_binding (demo_state_reachable _ _) demo_binding_step)
    as (pm & pm' & _ & E & Hr & [-> |[o ->]] & _).
  - by exists pm.
  - eexists. split; [exact E|]. by constructor.
Defined.

Lemma forwarded_requests_were_granted_witness :
  ∃ rule l who,
    in_order (@grant ascii_unicode demo_call (Some rule) l who)
      [demo_state #"api" #"alice"; demo_gone (demo_state #"api" #"alice")].
Proof.
  pose proof (@forwarded_requests_were_granted ascii_unicode demo_unmarshal demo_parse (λ _, None) (λ _, true)
    demo_call _ demo_verdict _ demo_run_done eq_refl (demo_state_reachable _ _)) as Hv.
  destruct demo_verdict as [d|rule hd|p t] eqn:E.
  - exfalso. revert E. vm_compute. discriminate.
  - destruct Hv as (l & who & Ho). exists rule, l, who. by apply in_order_prefix in Ho.
  - exfalso. revert E. vm_compute. discriminate.
Defined.

(** The pod's binding has been revoked. *)
Definition demo_revoked : shared :=
  mkShared (SetPodMap (Some (run_op (OpUnbind #"uid-1") (AddOrUpdatePod (demo_pod #"*" #"alice") NewPodMap)))
              (demo_router false #"*")) None.

Lemma demo_revoked_reachable : demo_reach demo_revoked.
Proof.
  eapply shared_init; [done|]. apply reach_op, (reach_op (OpAdd (demo_pod #"*" #"alice"))), reach_new.
Qed.

Lemma demo_revoked_run : demo_run [demo_revoked] (Done (RDenied PodUnbound)).
Proof.
  change (Done (RDenied PodUnbound)) with (demo_alone 3 demo_revoked Routing).
  apply run_alone; [constructor|done].
Qed.

Lemma revocation_effective_witness : ∃ d, RDenied PodUnbound = RDenied d.
Proof.
  apply (@revocation_effective ascii_unicode demo_unmarshal demo_parse (λ _, None) (λ _, true) demo_call
    [demo_revoked] _ demo_revoked demo_revoked_run eq_refl demo_revoked_reachable).
  intros s s' l ->%list_elem_of_singleton ->%list_elem_of_singleton.
  intros (_ & pm & Hp & Hl) (pm' & pod & Hp' & Hl' & Hb).
  rewrite Hp in Hp'. injection Hp' as <-. injection Hp as <-. injection Hl as <-.
  injection Hl' as <-. discriminate.
Defined.

Lemma undisturbed_request_is_sequential_witness :
  ∃ s1 s2, in_order [eq s1; eq s2]
    [demo_state #"api" #"alice"; demo_gone (demo_state #"api" #"alice")] ∧
    @sequential ascii_unicode demo_call s1 s2 demo_verdict.
Proof.
  apply (@undisturbed_request_is_sequential ascii_unicode demo_unmarshal demo_parse (λ _, None) (λ _, true)
    demo_call _ demo_verdict _ demo_run_done eq_refl (demo_state_reachable _ _)).
  intros s s' w pm Hs _ Hw _ _. apply elem_of_cons in Hs as [-> | ->%list_elem_of_singleton]; done.
Defined.

Lemma demo_run_waiting :
  demo_run [demo_state #"api" #"alice"; demo_binding]
    (Resolving (Some (demo_rule #"api.example.com" #"api" #"t1" true))).
Proof.
  apply (run_env_last _ _ _ _ _ [demo_state #"api" #"alice"] (demo_state #"api" #"alice"));
    [|done|apply demo_binding_step].
  change (Resolving _) with (demo_alone 1 (demo_state #"api" #"alice") Routing).
  apply run_alone; [constructor|done].
Qed.

(** The request waits for the writer: four more steps of it at most. *)
Lemma requests_never_deadlock_witness :
  ∃ h' v, demo_run ([demo_state #"api" #"alice"; demo_binding] ++ h') (Done v) ∧ length h' ≤ 4.
Proof.
  apply (@requests_never_deadlock ascii_unicode demo_unmarshal demo_parse (λ _, None) (λ _, true) demo_call
    _ _ _ demo_binding demo_run_waiting eq_refl (demo_state_reachable _ _) eq_refl).
Defined.

Lemma rebind_splits_request_witness :
  ∃ h rule hd, demo_run h (Done (RRule rule hd)) ∧ hd !! #"X-Consumer-Identity" = Some [ #"bob"].
Proof.
  destruct (@rebind_splits_request ascii_unicode demo_unmarshal demo_parse (λ _, None) (λ _, true) demo_call
    (demo_state #"api" #"alice") (demo_rule #"api.example.com" #"api" #"t1" true)
    (default NewPodMap (podMap (router (demo_state #"api" #"alice")))) 1%positive
    (demo_pod #"api" #"alice") #"uid-1" #"bob" #"other") as (h & s' & Hr & _ & _ & Hid & _);
    [vm_compute; reflexivity..|discriminate|discriminate|discriminate|vm_compute; reflexivity|].
  exists h, (demo_rule #"api.example.com" #"api" #"t1" true). eexists. split; [exact Hr|exact Hid].
Defined.
