(* ===== verification/PktLine.v ===== *)
(** * Git pkt-lines and fetch requests (pkg/gitproxy/protocol.go)

    The framing of the smart HTTP protocol, the strict parser of fetch
    requests, the builder of the request sent upstream, and the classifier of
    Git requests. *)

From S2P Require Import Prelude GoStrings.

(** ** Framing (with the writers of packfile.go) *)

Definition pkt_line (s : gostring) : bytes := fmt_04x (Z.of_nat (length s) + 4) ++ s.
Definition flush_pkt : bytes := #"0000".
Definition delim_pkt : bytes := #"0001".

(** The loop of [parsePktLines] on what is left of the data, [data[pos:]]. *)
Fixpoint pkt_loop (fuel : nat) (data : bytes) : list gostring :=
  match fuel with
  | O => []
  | S fuel =>
      if length data <? 4 then [] else
      match ParseInt16_32 (take 4 data) with
      | None => []
      | Some n =>
          if ((n =? 0) || (n =? 1) || (n =? 2))%Z then pkt_loop fuel (drop 4 data)
          else if ((n <? 4) || (Z.of_nat (length data) <? n))%Z then []
          else slice 4 (Z.to_nat n) data :: pkt_loop fuel (drop (Z.to_nat n) data)
      end
  end.

(** Every turn consumes four bytes or more, so the length is enough fuel. *)
Definition parsePktLines (data : bytes) : list gostring := pkt_loop (length data) data.

(** ** Fetch requests *)

Record FetchRequest := mkFetchRequest {
  Wants : list gostring;
  Haves : list gostring;
  IsV2 : bool;
  Done : bool;
}.

Inductive fetch_err :=
  | EmptyRequest
  | InvalidWant (line : gostring)
  | InvalidHave (line : gostring)
  | UnknownCapability (cap : gostring)
  | UnknownLine (line : gostring)
  | NoWants.

Definition isHexOID (s : gostring) : bool :=
  if negb (length s =? 40) && negb (length s =? 64) then false else forallb is_hex s.

Definition isRecognizedCapability (cap : gostring) : bool :=
  mem cap [ #"multi_ack"; #"multi_ack_detailed"; #"no-done"; #"side-band"; #"side-band-64k";
            #"thin-pack"; #"ofs-delta"; #"no-progress"; #"include-tag"]
  || existsb (HasPrefix cap) [ #"agent="; #"object-format="; #"session-id="; #"symref=";
                               #"clnt-os="; #"clnt-version="].

Definition isRecognizedV2Argument (arg : gostring) : bool :=
  mem arg [ #"thin-pack"; #"no-progress"; #"include-tag"; #"ofs-delta"; #"sideband-all";
            #"wait-for-done"]
  || existsb (HasPrefix arg) [ #"agent="; #"object-format="; #"session-id="].

(** [wantSet] and [haveSet] hold what [req.Wants] and [req.Haves] hold. *)
Definition add_once (oid : gostring) (l : list gostring) : list gostring :=
  if mem oid l then l else l ++ [oid].

Definition fetch_line (req : FetchRequest) (line : gostring) : outcome fetch_err FetchRequest :=
  let trimmed := TrimSpace line in
  if bool_decide (trimmed = []) then Ok req
  else if bool_decide (trimmed = #"command=fetch") then
    Ok (mkFetchRequest (Wants req) (Haves req) true (Done req))
  else if HasPrefix trimmed #"want " then
    match Fields (drop 5 trimmed) with
    | oid :: caps =>
        if negb (isHexOID oid) then Err (InvalidWant line) else
        match filter (λ c, isRecognizedCapability c = false) caps with
        | cap :: _ => Err (UnknownCapability cap)
        | [] => Ok (mkFetchRequest (add_once oid (Wants req)) (Haves req) (IsV2 req) (Done req))
        end
    | [] => Err (InvalidWant line)
    end
  else if HasPrefix trimmed #"have " then
    match Fields (drop 5 trimmed) with
    | oid :: _ =>
        if negb (isHexOID oid) then Err (InvalidHave line)
        else Ok (mkFetchRequest (Wants req) (add_once oid (Haves req)) (IsV2 req) (Done req))
    | [] => Err (InvalidHave line)
    end
  else if bool_decide (trimmed = #"done") then
    Ok (mkFetchRequest (Wants req) (Haves req) (IsV2 req) true)
  else if isRecognizedV2Argument trimmed then Ok req
  else Err (UnknownLine line).

Fixpoint fetch_lines (req : FetchRequest) (lines : list gostring) : outcome fetch_err FetchRequest :=
  match lines with
  | [] => Ok req
  | line :: lines => req ← fetch_line req line; fetch_lines req lines
  end.

Definition ParseFetchRequest (body : bytes) : outcome fetch_err FetchRequest :=
  let lines := parsePktLines body in
  if bool_decide (lines = []) then Err EmptyRequest else
  req ← fetch_lines (mkFetchRequest [] [] false false) lines;
  if bool_decide (Wants req = []) then Err NoWants else Ok req.

(** ** The request sent upstream *)

Definition nl : gostring := ["010"%char].

Definition BuildUpstreamFetchRequest (wants haves : list gostring) (isV2 : bool) : bytes :=
  if isV2 then
    pkt_line (#"command=fetch" ++ nl) ++ pkt_line (#"agent=gitproxy" ++ nl) ++ delim_pkt
    ++ pkt_line (#"thin-pack" ++ nl) ++ pkt_line (#"ofs-delta" ++ nl)
    ++ concat ((λ want, pkt_line (#"want " ++ want ++ nl)) <$> wants)
    ++ concat ((λ have, pkt_line (#"have " ++ have ++ nl)) <$> haves)
    ++ pkt_line (#"done" ++ nl) ++ flush_pkt
  else
    concat (imap (λ i want,
      if i =? 0 then pkt_line (#"want " ++ want ++ #" multi_ack_detailed side-band-64k ofs-delta" ++ nl)
      else pkt_line (#"want " ++ want ++ nl)) wants)
    ++ flush_pkt
    ++ concat ((λ have, pkt_line (#"have " ++ have ++ nl)) <$> haves)
    ++ pkt_line (#"done" ++ nl).

(** ** Classification *)

Inductive RequestType :=
  | RequestTypeOther
  | RequestTypeRefs
  | RequestTypeUploadPackFetch
  | RequestTypeUploadPackLsRefs
  | RequestTypeObject
  | RequestTypeReceivePack.
#[global] Instance RequestType_eq_dec : EqDecision RequestType.
Proof. solve_decision. Defined.

Fixpoint ls_refs_loop (lines : list gostring) : bool :=
  match lines with
  | [] => false
  | line :: lines =>
      let trimmed := TrimSpace line in
      if bool_decide (trimmed = #"command=ls-refs") then true
      else if HasPrefix trimmed #"command=" then false
      else ls_refs_loop lines
  end.
Definition HasLsRefsCommand (body : bytes) : bool := ls_refs_loop (parsePktLines body).

Definition HasFetchCommand (body : bytes) : bool :=
  existsb (λ line, bool_decide (TrimSpace line = #"command=fetch")
                   || HasPrefix (TrimSpace line) #"want ") (parsePktLines body)
  || Contains body #"command=fetch" || Contains body #"want ".

(** The regular expressions, all anchored at the end of the path only: some
    suffix of the path has the form. *)
Fixpoint suffixes (s : gostring) : list gostring :=
  s :: match s with [] => [] | _ :: s => suffixes s end.

Definition looseObject_at (s : gostring) : bool :=
  HasPrefix s #"/objects/" &&
  let r := drop 9 s in
  (length (take 2 r) =? 2) && forallb is_hex (take 2 r) && HasPrefix (drop 2 r) #"/" &&
  let r := drop 3 r in (38 <=? length r) && (length r <=? 62) && forallb is_hex r.
Definition packfile_at (s : gostring) : bool :=
  HasPrefix s #"/objects/pack/pack-" &&
  let r := drop 19 s in
  existsb (λ ext, HasSuffix r ext && forallb is_hex (TrimSuffix r ext)
                  && negb (bool_decide (TrimSuffix r ext = []))) [ #".pack"; #".idx"].
Definition lfsObject_at (s : gostring) : bool :=
  HasPrefix s #"/info/lfs/objects/" &&
  let r := drop 18 s in (length r =? 64) && forallb is_hex r.

(** [service] is [r.URL.Query().Get("service")]. *)
Definition ClassifyGitRequest (method urlPath service : gostring) (body : bytes) : RequestType :=
  let path := TrimRightByte urlPath "/" in
  if HasSuffix path #"/git-receive-pack"
     || (HasSuffix path #"/info/refs" && bool_decide (service = #"git-receive-pack"))
  then RequestTypeReceivePack
  else if HasSuffix path #"/info/refs" || HasSuffix path #"/HEAD" then RequestTypeRefs
  else if HasSuffix path #"/git-upload-pack" then
    if bool_decide (method = #"POST") then
      if HasLsRefsCommand body then RequestTypeUploadPackLsRefs
      else if HasFetchCommand body then RequestTypeUploadPackFetch
      else RequestTypeOther
    else RequestTypeOther
  else if bool_decide (method = #"GET") then
    if existsb (λ s, looseObject_at s || packfile_at s || lfsObject_at s) (suffixes path)
    then RequestTypeObject else RequestTypeOther
  else RequestTypeOther.

Definition IsCacheable (rt : RequestType) : bool :=
  match rt with
  | RequestTypeUploadPackFetch | RequestTypeObject => true
  | _ => false
  end.

(** ** Lemmas: framing *)

Lemma pkt_loop_fuel f g data :
  length data ≤ f → length data ≤ g → pkt_loop f data = pkt_loop g data.
Proof.
  revert g data. induction f as [|f IH]; intros g data Hf Hg.
  { destruct data; [|cbn in Hf; lia]. by destruct g. }
  destruct g as [|g]; [destruct data; [done|cbn in Hg; lia]|]. cbn [pkt_loop].
  destruct (length data <? 4) eqn:E; [done|]. bools.
  destruct (ParseInt16_32 _) as [n|]; [|done].
  destruct ((n =? 0) || (n =? 1) || (n =? 2))%Z eqn:E0; [apply IH; rewrite length_drop; lia|].
  destruct ((n <? 4) || (Z.of_nat (length data) <? n))%Z eqn:E1; [done|]. bools.
  f_equal. apply IH; rewrite length_drop; lia.
Qed.

Lemma parsePktLines_eq data :
  parsePktLines data =
  if length data <? 4 then [] else
  match ParseInt16_32 (take 4 data) with
  | None => []
  | Some n =>
      if ((n =? 0) || (n =? 1) || (n =? 2))%Z then parsePktLines (drop 4 data)
      else if ((n <? 4) || (Z.of_nat (length data) <? n))%Z then []
      else slice 4 (Z.to_nat n) data :: parsePktLines (drop (Z.to_nat n) data)
  end.
Proof.
  unfold parsePktLines at 1. rewrite (pkt_loop_fuel _ (S (length data))) by lia.
  cbn [pkt_loop]. destruct (length data <? 4) eqn:E; [done|]. bools.
  destruct (ParseInt16_32 _) as [n|]; [|done]. unfold parsePktLines.
  destruct ((n =? 0) || (n =? 1) || (n =? 2))%Z eqn:E0; [apply pkt_loop_fuel; rewrite length_drop; lia|].
  destruct ((n <? 4) || (Z.of_nat (length data) <? n))%Z eqn:E1; [done|]. bools.
  f_equal. apply pkt_loop_fuel; rewrite length_drop; lia.
Qed.

Lemma parsePktLines_line s rest :
  (Z.of_nat (length s) + 4 < 65536)%Z → parsePktLines (pkt_line s ++ rest) = s :: parsePktLines rest.
Proof.
  intros Hs. set (n := (Z.of_nat (length s) + 4)%Z). unfold pkt_line. fold n.
  pose proof (fmt_04x_length n ltac:(lia)) as Hl.
  rewrite parsePktLines_eq, <- app_assoc, !length_app, Hl.
  rewrite (proj2 (Nat.ltb_ge _ _)) by lia.
  rewrite take_app_length' by done. rewrite ParseInt_fmt_04x by lia.
  replace ((n =? 0) || (n =? 1) || (n =? 2))%Z with false by (symmetry; bools; lia).
  replace ((n <? 4) || (Z.of_nat (4 + (length s + length rest)) <? n))%Z with false
    by (symmetry; bools; lia).
  replace (Z.to_nat n) with (4 + length s) by lia. f_equal.
  - apply slice_app_mid; lia.
  - f_equal. rewrite app_assoc. apply drop_app_length'. rewrite length_app. lia.
Qed.

Lemma parsePktLines_flush rest : parsePktLines (flush_pkt ++ rest) = parsePktLines rest.
Proof. by rewrite parsePktLines_eq. Qed.
Lemma parsePktLines_delim rest : parsePktLines (delim_pkt ++ rest) = parsePktLines rest.
Proof. by rewrite parsePktLines_eq. Qed.

Lemma parsePktLines_concat {A} (f : A → gostring) (l : list A) rest :
  Forall (λ x, Z.of_nat (length (f x)) + 4 < 65536)%Z l →
  parsePktLines (concat ((λ x, pkt_line (f x)) <$> l) ++ rest) = (f <$> l) ++ parsePktLines rest.
Proof.
  induction 1 as [|x l Hx _ IH]; [done|]. cbn [fmap list_fmap concat app].
  rewrite <- app_assoc, parsePktLines_line by done. by rewrite IH.
Qed.

(** ** Lemmas: fetch requests *)

(** What one line asks for, without the parser's state. *)
Inductive line_kind :=
  | Want (oid : gostring)
  | Have (oid : gostring)
  | CommandFetch
  | DoneLine
  | Neutral                 (** blank lines and recognised arguments *)
  | Rejected.
#[global] Instance line_kind_eq_dec : EqDecision line_kind.
Proof. solve_decision. Defined.

Definition kind_of (line : gostring) : line_kind :=
  let t := TrimSpace line in
  if bool_decide (t = []) then Neutral
  else if bool_decide (t = #"command=fetch") then CommandFetch
  else if HasPrefix t #"want " then
    match Fields (drop 5 t) with
    | oid :: caps => if isHexOID oid && forallb isRecognizedCapability caps then Want oid else Rejected
    | [] => Rejected
    end
  else if HasPrefix t #"have " then
    match Fields (drop 5 t) with
    | oid :: _ => if isHexOID oid then Have oid else Rejected
    | [] => Rejected
    end
  else if bool_decide (t = #"done") then DoneLine
  else if isRecognizedV2Argument t then Neutral
  else Rejected.

Definition wanted (lines : list gostring) : list gostring :=
  omap (λ l, match kind_of l with Want oid => Some oid | _ => None end) lines.
Definition had (lines : list gostring) : list gostring :=
  omap (λ l, match kind_of l with Have oid => Some oid | _ => None end) lines.
Definition says (k : line_kind) (lines : list gostring) : Prop := ∃ l, l ∈ lines ∧ kind_of l = k.
Definition accepted (lines : list gostring) : Prop := Forall (λ l, kind_of l ≠ Rejected) lines.
#[global] Instance accepted_dec lines : Decision (accepted lines).
Proof. unfold accepted. apply _. Defined.

(** The effect of a line on the parser's state. *)
Definition apply_kind (req : FetchRequest) (k : line_kind) : FetchRequest :=
  match k with
  | Want oid => mkFetchRequest (add_once oid (Wants req)) (Haves req) (IsV2 req) (Done req)
  | Have oid => mkFetchRequest (Wants req) (add_once oid (Haves req)) (IsV2 req) (Done req)
  | CommandFetch => mkFetchRequest (Wants req) (Haves req) true (Done req)
  | DoneLine => mkFetchRequest (Wants req) (Haves req) (IsV2 req) true
  | Neutral | Rejected => req
  end.

Lemma filter_recognized caps :
  forallb isRecognizedCapability caps
  = bool_decide (filter (λ c, isRecognizedCapability c = false) caps = []).
Proof.
  induction caps as [|c caps IH]; [done|]. cbn [forallb]. rewrite IH.
  destruct (isRecognizedCapability c) eqn:E; cbn [andb].
  - by rewrite filter_cons_False by congruence.
  - by rewrite filter_cons_True.
Qed.

Lemma fetch_line_kind req line :
  match kind_of line with
  | Rejected => ∃ e, fetch_line req line = Err e
  | k => fetch_line req line = Ok (apply_kind req k)
  end.
Proof.
  unfold fetch_line, kind_of. set (t := TrimSpace line).
  case_bool_decide; [by destruct req|]. case_bool_decide; [done|].
  destruct (HasPrefix t #"want ").
  { destruct (Fields _) as [|oid caps]; [eauto|]. rewrite filter_recognized.
    destruct (isHexOID oid); cbn [negb andb]; [|eauto].
    destruct (filter _ caps); cbn; eauto. }
  destruct (HasPrefix t #"have ").
  { destruct (Fields _) as [|oid caps]; [eauto|]. destruct (isHexOID oid); cbn; eauto. }
  case_bool_decide; [done|]. destruct (isRecognizedV2Argument t); cbn; [by destruct req|eauto].
Qed.

Lemma fetch_lines_ok req lines :
  accepted lines → fetch_lines req lines = Ok (foldl apply_kind req (kind_of <$> lines)).
Proof.
  intros Ha. revert req. induction Ha as [|line lines Hl _ IH]; intros req; [done|].
  cbn [fetch_lines fmap list_fmap foldl]. pose proof (fetch_line_kind req line) as Hk.
  destruct (kind_of line); rewrite ?Hk; cbn; done.
Qed.

Lemma fetch_lines_err req lines :
  ¬ accepted lines → ∃ e, fetch_lines req lines = Err e.
Proof.
  revert req. induction lines as [|line lines IH]; intros req Hna.
  { destruct Hna. constructor. }
  cbn [fetch_lines]. pose proof (fetch_line_kind req line) as Hk.
  destruct (kind_of line) eqn:E; [..|destruct Hk as [e He]; rewrite He; by exists e];
    rewrite Hk; cbn; apply IH; intros Ha; apply Hna; constructor; (done || congruence).
Qed.

Lemma foldl_add_once l acc : foldl (λ a x, add_once x a) acc l = acc ++ dedup_from acc l.
Proof.
  revert acc. induction l as [|x l IH]; intros acc; cbn [foldl dedup_from].
  { by rewrite app_nil_r. }
  rewrite IH. unfold add_once. destruct (mem x acc); [done|].
  rewrite <- app_assoc. cbn [app]. do 2 f_equal. apply dedup_from_snoc.
Qed.

(** The state the accepted lines lead to. *)
Lemma apply_kinds_state lines req :
  let req' := foldl apply_kind req (kind_of <$> lines) in
  Wants req' = foldl (λ a x, add_once x a) (Wants req) (wanted lines) ∧
  Haves req' = foldl (λ a x, add_once x a) (Haves req) (had lines) ∧
  (IsV2 req' = true ↔ IsV2 req = true ∨ says CommandFetch lines) ∧
  (Done req' = true ↔ Done req = true ∨ says DoneLine lines).
Proof.
  revert req. induction lines as [|l lines IH]; intros req; cbn [fmap list_fmap foldl].
  { split_and!; [done..| |]; (split; [by left|]); intros [?|(? & ?%elem_of_nil & _)]; done. }
  destruct (IH (apply_kind req (kind_of l))) as (H1 & H2 & H3 & H4). cbn zeta.
  assert (Hs : ∀ k, says k (l :: lines) ↔ kind_of l = k ∨ says k lines).
  { intros k. unfold says. split.
    - intros (x & [-> | Hx]%elem_of_cons & Hk); [by left|right; by exists x].
    - intros [Hk|(x & Hx & Hk)]; [exists l|exists x]; (split; [|done]); rewrite elem_of_cons; auto. }
  rewrite H1, H2, H3, H4, !Hs.
  unfold wanted, had. cbn [omap list_omap]. destruct (kind_of l); cbn; naive_solver.
Qed.

Lemma isHexOID_kind line oid : kind_of line = Want oid ∨ kind_of line = Have oid → isHexOID oid = true.
Proof.
  unfold kind_of. intros [H|H]; repeat case_test_in H; simplify_eq; bools; tauto || done.
Qed.

Lemma wanted_nil lines : wanted lines = [] ↔ dedup_from [] (wanted lines) = [].
Proof.
  split; [by intros ->|]. destruct (wanted lines) as [|x l] eqn:E; [done|].
  cbn [dedup_from]. by rewrite (proj2 (mem_false x [])) by by intros ?%elem_of_nil.
Qed.

(** What the accepted lines name are object identifiers. *)
Lemma ParseFetchRequest_hex body req :
  ParseFetchRequest body = Ok req →
  Wants req ≠ [] ∧ Forall (λ oid, isHexOID oid = true) (Wants req ++ Haves req).
Proof.
  unfold ParseFetchRequest. case_bool_decide; [done|].
  assert (Hl : ∀ lines r r', fetch_lines r lines = Ok r' →
    Forall (λ oid, isHexOID oid = true) (Wants r ++ Haves r) →
    Forall (λ oid, isHexOID oid = true) (Wants r' ++ Haves r')).
  { induction lines as [|line lines IH]; intros r r'; cbn [fetch_lines]; [by intros [= <-]|].
    intros (r1 & H1 & H2)%outcome_bind_ok Hr. apply (IH r1); [done|].
    pose proof (fetch_line_kind r line) as Hk. pose proof (isHexOID_kind line) as Hx.
    assert (Ha : ∀ oid l, isHexOID oid = true → Forall (λ oid, isHexOID oid = true) l →
      Forall (λ oid, isHexOID oid = true) (add_once oid l)).
    { intros oid l ? ?. unfold add_once. destruct (mem oid l); [done|]. apply Forall_app. by repeat constructor. }
    rewrite Forall_app in Hr |- *. destruct Hr as [Hw Hh].
    destruct (kind_of line) eqn:Ek; try (rewrite Hk in H1; injection H1 as <-; cbn [apply_kind Wants Haves]).
    - split; [apply Ha; [by apply Hx; left|done]|done].
    - split; [done|apply Ha; [by apply Hx; right|done]].
    - done.
    - done.
    - done.
    - destruct Hk as [e He]. congruence. }
  intros (r & H1 & H2)%outcome_bind_ok. case_bool_decide; [done|]. injection H2 as <-.
  split; [done|]. eapply Hl; [exact H1|]. constructor.
Qed.

(** ** Properties *)

(** C37: The fetch parser is strict: it accepts exactly the bodies whose every pkt-line is a
    recognised one and that want something; then it returns each wanted and each had object once,
    in order of first mention, and whether the body has command=fetch and done lines. *)
Theorem parse_fetch_request_strict (body : bytes) :
  let lines := parsePktLines body in
  ((∃ req, ParseFetchRequest body = Ok req) ↔ accepted lines ∧ wanted lines ≠ []) ∧
  ∀ req, ParseFetchRequest body = Ok req →
    Wants req = dedup_from [] (wanted lines) ∧ Haves req = dedup_from [] (had lines) ∧
    (IsV2 req = true ↔ says CommandFetch lines) ∧ (Done req = true ↔ says DoneLine lines) ∧
    Forall (λ oid, isHexOID oid = true) (Wants req ++ Haves req).
Proof.
  intros lines. unfold ParseFetchRequest. fold lines.
  destruct (decide (lines = [])) as [El|Hl].
  { rewrite bool_decide_eq_true_2 by done. rewrite El. split; [|done].
    split; [by intros [? ?]|by intros [_ []]]. }
  rewrite bool_decide_eq_false_2 by done.
  destruct (decide (accepted lines)) as [Ha|Hna].
  2:{ destruct (fetch_lines_err (mkFetchRequest [] [] false false) lines Hna) as [e ->]. cbn.
      split; [|done]. split; [by intros [? ?]|by intros [? _]]. }
  rewrite fetch_lines_ok by done. cbn [mbind outcome_bind].
  destruct (apply_kinds_state lines (mkFetchRequest [] [] false false)) as (Hw & Hh & Hv & Hd).
  set (req' := foldl _ _ _) in *. cbn [Wants Haves IsV2 Done] in *.
  rewrite foldl_add_once in Hw, Hh. cbn [app] in Hw, Hh.
  rewrite wanted_nil, <- Hw.
  case_bool_decide as Ew; (split; [|intros req [= <-]]).
  - split; [by intros [? ?]|by intros [_ []]].
  - split; [done|by eexists].
  - split_and!; [done..| | |].
    + rewrite Hv. naive_solver.
    + rewrite Hd. naive_solver.
    + rewrite Hw, Hh. apply Forall_forall. intros oid [Hin|Hin]%elem_of_app;
        apply elem_of_dedup_from in Hin as [Hin _]; apply list_elem_of_omap in Hin as (l & _ & Hk);
        apply (isHexOID_kind l); destruct (kind_of l); simplify_eq; auto.
Qed.

Lemma isHexOID_graphic oid : isHexOID oid = true →
  oid ≠ [] ∧ forallb graphic oid = true ∧ length oid ≤ 64.
Proof.
  unfold isHexOID. destruct (_ && _) eqn:E; [done|]. intros Hh.
  assert (Hl : length oid = 40 ∨ length oid = 64).
  { apply andb_false_iff in E as [E|E]; apply negb_false_iff, Nat.eqb_eq in E; auto. }
  split_and!; [by intros ->; cbn in Hl; lia| |lia].
  apply forallb_forall. intros b Hb. apply is_hex_graphic.
  by apply (proj1 (forallb_forall _ _) Hh).
Qed.

Lemma trim_oid_line (c : byte) (p oid : gostring) :
  graphic c = true → oid ≠ [] → forallb graphic oid = true →
  TrimSpace ((c :: p) ++ oid ++ nl) = (c :: p) ++ oid.
Proof.
  intros Hc Hne Hg. destruct oid as [|z oid _] using rev_ind; [done|].
  rewrite forallb_app in Hg. apply andb_prop in Hg as [_ Hz]. cbn in Hz. rewrite andb_true_r in Hz.
  change ((c :: p) ++ (oid ++ [z]) ++ nl) with (c :: (p ++ (oid ++ [z]) ++ nl)).
  replace (p ++ (oid ++ [z]) ++ nl) with ((p ++ oid) ++ [z; "010"%char])
    by (unfold nl; by rewrite <- !app_assoc).
  rewrite TrimSpace_graphic_nl by done. cbn [app]. by rewrite app_assoc.
Qed.

Lemma kind_want oid : isHexOID oid = true → kind_of (#"want " ++ oid ++ nl) = Want oid.
Proof.
  intros Ho. destruct (isHexOID_graphic oid Ho) as (Hne & Hg & _). unfold kind_of.
  change #"want " with ("w"%char :: #"ant "). rewrite trim_oid_line by done.
  change (("w"%char :: #"ant ") ++ oid) with (#"want " ++ oid).
  rewrite !bool_decide_eq_false_2 by done.
  rewrite HasPrefix_app. change (drop 5 (#"want " ++ oid)) with oid.
  by rewrite Fields_word, Ho.
Qed.

Lemma kind_have oid : isHexOID oid = true → kind_of (#"have " ++ oid ++ nl) = Have oid.
Proof.
  intros Ho. destruct (isHexOID_graphic oid Ho) as (Hne & Hg & _). unfold kind_of.
  change #"have " with ("h"%char :: #"ave "). rewrite trim_oid_line by done.
  change (("h"%char :: #"ave ") ++ oid) with (#"have " ++ oid).
  rewrite (bool_decide_eq_false_2 (_ = [])), (bool_decide_eq_false_2 (_ = #"command=fetch")) by done.
  change (HasPrefix (#"have " ++ oid) #"want ") with false. cbn iota.
  rewrite HasPrefix_app. change (drop 5 (#"have " ++ oid)) with oid.
  by rewrite Fields_word, Ho.
Qed.

(** The capabilities the first want line of a v0 request carries. *)
Definition v0_caps : gostring := #" multi_ack_detailed side-band-64k ofs-delta".

Lemma kind_want_caps oid : isHexOID oid = true → kind_of (#"want " ++ oid ++ v0_caps ++ nl) = Want oid.
Proof.
  intros Ho. destruct (isHexOID_graphic oid Ho) as (Hne & Hg & _). unfold kind_of.
  assert (TrimSpace (#"want " ++ oid ++ v0_caps ++ nl) = #"want " ++ oid ++ v0_caps) as ->.
  { change v0_caps with (#" multi_ack_detailed side-band-64k " ++ #"ofs-delta").
    change #"want " with ("w"%char :: #"ant ").
    replace (("w"%char :: #"ant ") ++ oid ++ (#" multi_ack_detailed side-band-64k " ++ #"ofs-delta") ++ nl)
      with (("w"%char :: (#"ant " ++ oid ++ #" multi_ack_detailed side-band-64k ")) ++ #"ofs-delta" ++ nl)
      by (cbn [app]; by rewrite <- !app_assoc).
    rewrite trim_oid_line by done. cbn [app]. by rewrite <- !app_assoc. }
  rewrite !bool_decide_eq_false_2 by done.
  rewrite HasPrefix_app. change (drop 5 (#"want " ++ ?x)) with x.
  change v0_caps with (" "%char :: #"multi_ack_detailed side-band-64k ofs-delta").
  rewrite Fields_word_space by done. by rewrite Ho.
Qed.

(** The lines of the request that [BuildUpstreamFetchRequest] writes. *)
Definition built_lines (wants haves : list gostring) (isV2 : bool) : list gostring :=
  (if isV2 then [ #"command=fetch" ++ nl; #"agent=gitproxy" ++ nl; #"thin-pack" ++ nl; #"ofs-delta" ++ nl]
   else []) ++
  (match wants with
   | [] => []
   | w :: ws => (if isV2 then #"want " ++ w ++ nl else #"want " ++ w ++ v0_caps ++ nl)
                :: ((λ w, #"want " ++ w ++ nl) <$> ws)
   end) ++ ((λ h, #"have " ++ h ++ nl) <$> haves) ++ [ #"done" ++ nl].

Lemma oid_line_short (p oid : gostring) :
  length p = 5 → isHexOID oid = true → (Z.of_nat (length (p ++ oid ++ nl)) + 4 < 65536)%Z.
Proof.
  intros Hp Ho. destruct (isHexOID_graphic oid Ho) as (_ & _ & Hl).
  rewrite !length_app, Hp. cbn. lia.
Qed.

Lemma oid_lines_short (p : gostring) oids :
  length p = 5 → Forall (λ o, isHexOID o = true) oids →
  Forall (λ o, Z.of_nat (length (p ++ o ++ nl)) + 4 < 65536)%Z oids.
Proof. intros Hp Ho. eapply Forall_impl; [exact Ho|]. intros o. by apply oid_line_short. Qed.

Lemma Build_lines wants haves isV2 :
  Forall (λ o, isHexOID o = true) wants → Forall (λ o, isHexOID o = true) haves →
  parsePktLines (BuildUpstreamFetchRequest wants haves isV2) = built_lines wants haves isV2.
Proof.
  intros Hw Hh. unfold BuildUpstreamFetchRequest, built_lines.
  assert (Hhave : ∀ rest, parsePktLines (concat ((λ h, pkt_line (#"have " ++ h ++ nl)) <$> haves) ++ rest)
    = ((λ h, #"have " ++ h ++ nl) <$> haves) ++ parsePktLines rest)
    by (intros; by apply parsePktLines_concat, oid_lines_short).
  assert (Hwant : ∀ ws rest, Forall (λ o, isHexOID o = true) ws →
    parsePktLines (concat ((λ h, pkt_line (#"want " ++ h ++ nl)) <$> ws) ++ rest)
    = ((λ h, #"want " ++ h ++ nl) <$> ws) ++ parsePktLines rest)
    by (intros; by apply parsePktLines_concat, oid_lines_short).
  destruct isV2.
  - repeat (rewrite <- ?app_assoc; (rewrite (parsePktLines_line (_ ++ nl)) by (cbn; lia))
            || rewrite parsePktLines_delim).
    rewrite Hwant, Hhave by done.
    rewrite parsePktLines_line by (cbn; lia). by destruct wants.
  - destruct wants as [|w ws].
    { cbn [imap concat app]. rewrite parsePktLines_flush, Hhave.
      rewrite <- (app_nil_r (pkt_line _)), parsePktLines_line by (cbn; lia). done. }
    apply Forall_cons in Hw as [Hw Hws]. cbn [imap concat Nat.eqb].
    rewrite <- app_assoc, parsePktLines_line.
    2:{ destruct (isHexOID_graphic w Hw) as (_ & _ & Hl). rewrite !length_app. cbn. lia. }
    assert (imap ((λ i want, if i =? 0
              then pkt_line (#"want " ++ want ++ #" multi_ack_detailed side-band-64k ofs-delta" ++ nl)
              else pkt_line (#"want " ++ want ++ nl)) ∘ S) ws
            = (λ h, pkt_line (#"want " ++ h ++ nl)) <$> ws) as ->
      by (rewrite <- (imap_const (λ h, pkt_line (#"want " ++ h ++ nl)) ws); by apply imap_ext).
    rewrite Hwant, parsePktLines_flush, Hhave by done.
    rewrite <- (app_nil_r (pkt_line _)), parsePktLines_line by (cbn; lia). done.
Qed.

Lemma fixed_line_kinds :
  kind_of (#"command=fetch" ++ nl) = CommandFetch ∧ kind_of (#"agent=gitproxy" ++ nl) = Neutral ∧
  kind_of (#"thin-pack" ++ nl) = Neutral ∧ kind_of (#"ofs-delta" ++ nl) = Neutral ∧
  kind_of (#"done" ++ nl) = DoneLine.
Proof. split_and!; vm_compute; reflexivity. Qed.

(** The kinds of the lines that are built. *)
Lemma built_kinds wants haves isV2 :
  Forall (λ o, isHexOID o = true) wants → Forall (λ o, isHexOID o = true) haves →
  kind_of <$> built_lines wants haves isV2
  = (if isV2 then [CommandFetch; Neutral; Neutral; Neutral] else [])
    ++ (Want <$> wants) ++ (Have <$> haves) ++ [DoneLine].
Proof.
  intros Hw Hh. destruct fixed_line_kinds as (F1 & F2 & F3 & F4 & F5).
  assert (Hm : ∀ (p : gostring) (K : gostring → line_kind) oids,
    (∀ o, isHexOID o = true → kind_of (p ++ o ++ nl) = K o) → Forall (λ o, isHexOID o = true) oids →
    kind_of <$> ((λ o, p ++ o ++ nl) <$> oids) = K <$> oids).
  { intros p K oids HK. induction 1 as [|o oids Ho _ IH]; [done|].
    cbn [fmap list_fmap] in *. by rewrite HK, IH. }
  unfold built_lines. rewrite !fmap_app. apply (f_equal2 app).
  { destruct isV2; [|done]. cbn [fmap list_fmap]. by rewrite F1, F2, F3, F4. }
  apply (f_equal2 app); [|apply (f_equal2 app)].
  - destruct Hw as [|w ws Hw Hws]; [done|]. cbn [fmap list_fmap]. apply (f_equal2 cons).
    + destruct isV2; [by apply kind_want|by apply kind_want_caps].
    + apply (Hm #"want "); [apply kind_want|done].
  - apply (Hm #"have "); [apply kind_have|done].
  - cbn [fmap list_fmap]. by rewrite F5.
Qed.


Lemma foldl_wants ws req :
  foldl apply_kind req (Want <$> ws)
  = mkFetchRequest (foldl (λ a x, add_once x a) (Wants req) ws) (Haves req) (IsV2 req) (Done req).
Proof. revert req. induction ws as [|w ws IH]; intros req; cbn; [by destruct req|]. by rewrite IH. Qed.
Lemma foldl_haves hs req :
  foldl apply_kind req (Have <$> hs)
  = mkFetchRequest (Wants req) (foldl (λ a x, add_once x a) (Haves req) hs) (IsV2 req) (Done req).
Proof. revert req. induction hs as [|h hs IH]; intros req; cbn; [by destruct req|]. by rewrite IH. Qed.

(** What the proxy asks of the upstream is what its own strict parser reads back, in protocol
    v2 and in v0: the wanted and the had objects, each once and in order, the protocol version, and
    done. *)
Theorem fetch_request_roundtrip (wants haves : list gostring) (isV2 : bool) :
  wants ≠ [] → Forall (λ o, isHexOID o = true) wants → Forall (λ o, isHexOID o = true) haves →
  ParseFetchRequest (BuildUpstreamFetchRequest wants haves isV2)
  = Ok (mkFetchRequest (dedup_from [] wants) (dedup_from [] haves) isV2 true).
Proof.
  intros Hne Hw Hh. unfold ParseFetchRequest. rewrite Build_lines by done.
  pose proof (built_kinds wants haves isV2 Hw Hh) as Hk.
  rewrite bool_decide_eq_false_2.
  2:{ intros E. rewrite E in Hk. destruct isV2; [done|]. by destruct wants. }
  rewrite fetch_lines_ok.
  2:{ unfold accepted. apply Forall_forall. intros l Hl Hr.
      assert (Hin : Rejected ∈ kind_of <$> built_lines wants haves isV2)
        by (rewrite <- Hr; by apply list_elem_of_fmap_2).
      rewrite Hk, !elem_of_app, !list_elem_of_fmap in Hin.
      destruct Hin as [Hin|[(? & ? & _)|[(? & ? & _)|?%list_elem_of_singleton]]]; [|done..].
      by destruct isV2; repeat (apply elem_of_cons in Hin as [?|Hin]; [done|]); apply elem_of_nil in Hin. }
  cbn [mbind outcome_bind]. rewrite Hk.
  replace (foldl apply_kind _ _) with (mkFetchRequest (dedup_from [] wants) (dedup_from [] haves) isV2 true).
  { rewrite bool_decide_eq_false_2; [done|]. cbn [Wants]. destruct wants as [|w ws]; [done|].
    cbn [dedup_from]. by rewrite (proj2 (mem_false w [])) by by intros ?%elem_of_nil. }
  rewrite !foldl_app. destruct isV2; cbn [foldl apply_kind Wants Haves IsV2 Done];
    rewrite foldl_wants, foldl_haves; cbn; by rewrite !foldl_add_once.
Qed.

(** ** Witnesses *)

Definition demo_oid (c : byte) : gostring := replicate 40 c.

Lemma parse_fetch_request_strict_witness :
  ∃ req, ParseFetchRequest (pkt_line (#"want " ++ demo_oid "a" ++ nl) ++ flush_pkt) = Ok req ∧
         Wants req = [demo_oid "a"].
Proof.
  destruct (parse_fetch_request_strict (pkt_line (#"want " ++ demo_oid "a" ++ nl) ++ flush_pkt))
    as [Hiff Hreq].
  destruct (proj2 Hiff) as [req Hr].
  - split; [apply (bool_decide_unpack _); vm_compute; exact I|vm_compute; discriminate].
  - exists req. split; [exact Hr|]. destruct (Hreq req Hr) as [Hw _]. rewrite Hw.
    vm_compute. reflexivity.
Defined.

Lemma fetch_request_roundtrip_witness :
  ParseFetchRequest (BuildUpstreamFetchRequest [demo_oid "a"; demo_oid "b"; demo_oid "a"] [demo_oid "c"] false)
  = Ok (mkFetchRequest [demo_oid "a"; demo_oid "b"] [demo_oid "c"] false true).
Proof.
  rewrite fetch_request_roundtrip.
  - vm_compute. reflexivity.
  - discriminate.
  - repeat constructor.
  - repeat constructor.
Defined.
