(* ===== verification/Delta.v ===== *)
(** * Pack deltas (pkg/gitproxy/packfile.go: applyDelta, readLEB128)

    The instructions of a delta copy ranges of the base object or insert
    literal bytes. Sizes are variable-length integers in a [uint64], the
    offsets and lengths of copies are [uint32], and their sum wraps. *)

From S2P Require Import Prelude GoStrings.

(** The largest allocation [make] accepts (runtime maxAlloc, linux/amd64). *)
Definition maxAlloc : Z := 2 ^ 48.

(** ** Variable-length integers *)

Fixpoint leb_loop (val shift : Z) (i : nat) (data : bytes) : option (Z * nat) :=
  match data with
  | [] => None
  | b :: data =>
      let val := Z.lor val (u64 (Z.shiftl (Z.land (b2z b) 127) shift)) in
      if (Z.land (b2z b) 128 =? 0)%Z then Some (val, S i)
      else if (64 <=? shift + 7)%Z then None
      else leb_loop val (shift + 7) (S i) data
  end.

(** The value and the number of bytes read; [None] for [0, 0]. *)
Definition readLEB128 (data : bytes) : option (Z * nat) := leb_loop 0 0 0 data.

(** ** Applying a delta *)

Inductive delta_err :=
  | EmptyDelta
  | InvalidSrcSize
  | BaseSizeMismatch
  | InvalidTargetSize
  | UnexpectedEnd
  | CopyOutOfBounds
  | InsertOutOfBounds
  | InvalidOpcode
  | TargetSizeMismatch.

(** [if (cmd & bit) != 0 { ...; acc |= uint32(delta[0]) << shift; delta = delta[1:] }] *)
Definition copy_arg (cmd bit shift : Z) (acc : Z) (delta : bytes) : outcome delta_err (Z * bytes) :=
  if (Z.land cmd bit =? 0)%Z then Ok (acc, delta)
  else match delta with
       | [] => Err UnexpectedEnd
       | b :: delta => Ok (Z.lor acc (Z.shiftl (b2z b) shift), delta)
       end.

(** The arguments of a copy command. *)
Definition copy_args (cmd : Z) (delta : bytes) : outcome delta_err (Z * Z * bytes) :=
  '(offset, delta) ← copy_arg cmd 1 0 0 delta;
  '(offset, delta) ← copy_arg cmd 2 8 offset delta;
  '(offset, delta) ← copy_arg cmd 4 16 offset delta;
  '(offset, delta) ← copy_arg cmd 8 24 offset delta;
  '(length, delta) ← copy_arg cmd 16 0 0 delta;
  '(length, delta) ← copy_arg cmd 32 8 length delta;
  '(length, delta) ← copy_arg cmd 64 16 length delta;
  Ok (offset, if (length =? 0)%Z then 65536%Z else length, delta).

(** One command, on the part of the target that is written, [target[:targetPos]]:
    the bytes it appends and the rest of the delta. *)
Definition delta_step (base : bytes) (targetSize : Z) (out delta : bytes)
    : outcome delta_err (bytes * bytes) :=
  match delta with
  | [] => Ok (out, [])
  | c :: delta =>
      let cmd := b2z c in
      if negb (Z.land cmd 128 =? 0)%Z then
        '(offset, len, delta) ← copy_args cmd delta;
        let stop := u32 (offset + len) in
        if ((Z.of_nat (length base) <? stop) || (targetSize <? Z.of_nat (length out) + len))%Z
        then Err CopyOutOfBounds
        else if (stop <? offset)%Z then Panic SliceBounds
        else Ok (out ++ slice (Z.to_nat offset) (Z.to_nat stop) base, delta)
      else if (0 <? cmd)%Z then
        if ((Z.of_nat (length delta) <? cmd) || (targetSize <? Z.of_nat (length out) + cmd))%Z
        then Err InsertOutOfBounds
        else Ok (out ++ take (Z.to_nat cmd) delta, drop (Z.to_nat cmd) delta)
      else Err InvalidOpcode
  end.

(** [for len(delta) > 0]: every turn consumes a byte or more, so the length of
    the delta is enough fuel. *)
Fixpoint delta_loop (fuel : nat) (base : bytes) (targetSize : Z) (out delta : bytes)
    : outcome delta_err bytes :=
  match delta, fuel with
  | [], _ | _, O => Ok out
  | _, S fuel =>
      '(out, delta) ← delta_step base targetSize out delta;
      delta_loop fuel base targetSize out delta
  end.

Definition applyDelta (base delta : bytes) : outcome delta_err bytes :=
  if bool_decide (delta = []) then Err EmptyDelta else
  match readLEB128 delta with
  | None => Err InvalidSrcSize
  | Some (srcSize, n) =>
      let delta := drop n delta in
      if negb (int64 srcSize =? Z.of_nat (length base))%Z then Err BaseSizeMismatch else
      match readLEB128 delta with
      | None => Err InvalidTargetSize
      | Some (targetSize, n) =>
          let delta := drop n delta in
          if (maxAlloc <? targetSize)%Z then Panic MakeSliceLen else
          out ← delta_loop (length delta) base targetSize [] delta;
          if negb (Z.of_nat (length out) =? targetSize)%Z then Err TargetSizeMismatch
          else Ok out
      end
  end.

(** ** Reference semantics: instructions *)

Inductive instr :=
  | Copy (offset len : Z)
  | Insert (data : bytes).

(** What an instruction appends. *)
Definition denote1 (base : bytes) (i : instr) : bytes :=
  match i with
  | Copy offset len => slice (Z.to_nat offset) (Z.to_nat (offset + len)) base
  | Insert data => data
  end.
Definition denote (base : bytes) (prog : list instr) : bytes := concat (denote1 base <$> prog).

(** A copy stays inside the base and within the 32 bits of an offset and the
    24 bits of a length; an insert has one to 127 bytes. *)
Definition in_bounds (base : bytes) (i : instr) : Prop :=
  match i with
  | Copy offset len =>
      (0 ≤ offset)%Z ∧ (0 < len < 2 ^ 24)%Z ∧ (offset + len < 2 ^ 32)%Z ∧
      (offset + len ≤ Z.of_nat (length base))%Z
  | Insert data => 0 < length data < 128
  end.

(** *** The bytes of an instruction, by Git's pack format

    An insert is its length and its bytes. A copy is a command byte that says
    which of the four offset bytes and three length bytes follow, lowest first;
    a byte that is left out is zero, and a length of zero stands for 65536. *)
Definition arg_value (a : option byte) : Z := from_option b2z 0%Z a.
Definition arg_flag (a : option byte) (bit : Z) : Z := match a with Some _ => bit | None => 0%Z end.

Inductive written : instr → bytes → Prop :=
  | written_insert data : 0 < length data < 128 → written (Insert data) (z2b (Z.of_nat (length data)) :: data)
  | written_copy a0 a1 a2 a3 l0 l1 l2 :
      let offset := (arg_value a0 + 256 * arg_value a1 + 256 ^ 2 * arg_value a2 + 256 ^ 3 * arg_value a3)%Z in
      let len := (arg_value l0 + 256 * arg_value l1 + 256 ^ 2 * arg_value l2)%Z in
      written (Copy offset (if (len =? 0)%Z then 65536 else len))
        (z2b (128 + arg_flag a0 1 + arg_flag a1 2 + arg_flag a2 4 + arg_flag a3 8
              + arg_flag l0 16 + arg_flag l1 32 + arg_flag l2 64)
         :: omap id [a0; a1; a2; a3; l0; l1; l2]).

(** The body of a delta: the bytes of its instructions, one after the other. *)
Definition written_as (prog : list instr) (body : bytes) : Prop :=
  ∃ chunks, Forall2 written prog chunks ∧ body = concat chunks.

(** *** Encoding: as Git writes it, zero argument bytes are left out. *)
Fixpoint leb (fuel : nat) (n : Z) : bytes :=
  match fuel with
  | O => []
  | S fuel =>
      if (n <? 128)%Z then [z2b n] else z2b (128 + n `mod` 128) :: leb fuel (n `div` 128)
  end.
Definition encode_size (n : Z) : bytes := leb 10 n.

Definition arg_byte (n shift : Z) : Z := (n `div` 2 ^ shift `mod` 256)%Z.
Definition present (b : Z) : bytes := if (b =? 0)%Z then [] else [z2b b].
Definition flag (b bit : Z) : Z := if (b =? 0)%Z then 0%Z else bit.

Definition encode1 (i : instr) : bytes :=
  match i with
  | Insert data => z2b (Z.of_nat (length data)) :: data
  | Copy offset len =>
      let o k := arg_byte offset k in let l k := arg_byte len k in
      z2b (128 + flag (o 0) 1 + flag (o 8) 2 + flag (o 16) 4 + flag (o 24) 8
           + flag (l 0) 16 + flag (l 8) 32 + flag (l 16) 64)%Z
      :: present (o 0%Z) ++ present (o 8%Z) ++ present (o 16%Z) ++ present (o 24%Z)
         ++ present (l 0%Z) ++ present (l 8%Z) ++ present (l 16%Z)
  end.

Definition encode_delta (base : bytes) (prog : list instr) : bytes :=
  encode_size (Z.of_nat (length base)) ++ encode_size (Z.of_nat (length (denote base prog)))
  ++ concat (encode1 <$> prog).

(** ** Lemmas: sizes *)

Lemma leb_loop_leb f n val shift i rest :
  (0 ≤ val < 2 ^ shift)%Z → (0 ≤ shift)%Z → (0 ≤ n)%Z → (n * 2 ^ shift < 2 ^ 64)%Z →
  (n < 128 ^ Z.of_nat f)%Z → 0 < f →
  leb_loop val shift i (leb f n ++ rest) = Some ((val + n * 2 ^ shift)%Z, i + length (leb f n)).
Proof.
  revert n val shift i. induction f as [|f IH]; intros n val shift i Hv Hs Hn Hb Hf Hpos; [lia|].
  assert (H2 : (0 < 2 ^ shift)%Z) by (apply Z.pow_pos_nonneg; lia).
  assert (Hstep : ∀ m, (0 ≤ m)%Z → (m * 2 ^ shift < 2 ^ 64)%Z →
    Z.lor val (u64 (Z.shiftl m shift)) = (val + m * 2 ^ shift)%Z).
  { intros m Hm Hmb. rewrite u64_small.
    - by apply lor_shiftl_add.
    - rewrite Z.shiftl_mul_pow2 by done. nia. }
  cbn [leb]. destruct (n <? 128)%Z eqn:E; bools; cbn [app leb_loop].
  - rewrite b2z_z2b_small by lia. destruct (seven_bits n ltac:(lia)) as (-> & _ & -> & _).
    rewrite Hstep by lia. cbn. f_equal. f_equal. lia.
  - set (m := (n `mod` 128)%Z). assert (Hm : (0 ≤ m < 128)%Z) by (apply Z.mod_pos_bound; lia).
    pose proof (Z.div_mod n 128 ltac:(lia)) as Hdm. fold m in Hdm.
    set (q := (n `div` 128)%Z) in *. assert (Hq : (1 ≤ q)%Z) by lia.
    rewrite b2z_z2b_small by lia. destruct (seven_bits m Hm) as (_ & -> & _ & -> & _).
    rewrite Hstep by nia.
    assert (Hs7 : (2 ^ (shift + 7) = 128 * 2 ^ shift)%Z) by (rewrite Z.pow_add_r by lia; lia).
    destruct (64 <=? shift + 7)%Z eqn:E1; bools.
    { assert (2 ^ 64 ≤ 2 ^ (shift + 7))%Z by (apply Z.pow_le_mono_r; lia). nia. }
    rewrite IH; [|nia|lia|lia|nia| |].
    + cbn [length]. f_equal. f_equal; [nia|lia].
    + rewrite Nat2Z.inj_succ, Z.pow_succ_r in Hf by lia. nia.
    + destruct f; [|lia]. cbn in Hf. lia.
Qed.

Lemma readLEB128_encode n rest : (0 ≤ n < 2 ^ 64)%Z →
  readLEB128 (encode_size n ++ rest) = Some (n, length (encode_size n)).
Proof.
  intros Hn. unfold readLEB128, encode_size. rewrite leb_loop_leb; [|lia..].
  f_equal. f_equal. lia.
Qed.

Lemma encode_size_nonempty n : encode_size n ≠ [].
Proof. unfold encode_size. cbn [leb]. by destruct (n <? 128)%Z. Qed.

(** ** Lemmas: copy commands *)

Lemma copy_arg_present cmd bit shift acc b rest :
  (0 ≤ b < 256)%Z → Z.land cmd bit = flag b bit → bit ≠ 0%Z →
  copy_arg cmd bit shift acc (present b ++ rest) = Ok (Z.lor acc (Z.shiftl b shift), rest).
Proof.
  intros Hb Hl Hbit. unfold copy_arg, present. rewrite Hl. unfold flag.
  destruct (b =? 0)%Z eqn:E; bools.
  - subst. cbn. by rewrite Z.shiftl_0_l, Z.lor_0_r.
  - destruct (bit =? 0)%Z eqn:E0; bools; [done|]. cbn [app]. by rewrite b2z_z2b_small.
Qed.

Lemma arg_byte_range n k : (0 ≤ arg_byte n k < 256)%Z.
Proof. apply Z.mod_pos_bound. lia. Qed.

(** The command byte has the flags of the bytes that are present. *)
Lemma cmd_flags b0 b1 b2 b3 b4 b5 b6 :
  let cmd := (128 + flag b0 1 + flag b1 2 + flag b2 4 + flag b3 8
              + flag b4 16 + flag b5 32 + flag b6 64)%Z in
  (0 ≤ cmd < 256)%Z ∧ (Z.land cmd 128 =? 0)%Z = false ∧
  Z.land cmd 1 = flag b0 1 ∧ Z.land cmd 2 = flag b1 2 ∧ Z.land cmd 4 = flag b2 4 ∧
  Z.land cmd 8 = flag b3 8 ∧ Z.land cmd 16 = flag b4 16 ∧ Z.land cmd 32 = flag b5 32 ∧
  Z.land cmd 64 = flag b6 64.
Proof.
  unfold flag.
  destruct (b0 =? 0)%Z, (b1 =? 0)%Z, (b2 =? 0)%Z, (b3 =? 0)%Z, (b4 =? 0)%Z, (b5 =? 0)%Z, (b6 =? 0)%Z;
    vm_compute; repeat split; discriminate.
Qed.

(** The bytes of a number, put together again. *)
Lemma arg_bytes n :
  arg_byte n 0 = (n `mod` 256)%Z ∧ arg_byte n 8 = (n `div` 256 `mod` 256)%Z ∧
  arg_byte n 16 = (n `div` 256 `div` 256 `mod` 256)%Z ∧
  arg_byte n 24 = (n `div` 256 `div` 256 `div` 256 `mod` 256)%Z.
Proof. unfold arg_byte. rewrite Z.div_1_r, !Z.div_div by lia. done. Qed.

Lemma lor_byte_next acc b q k : (0 ≤ k)%Z → (0 ≤ acc < 2 ^ k)%Z → (0 ≤ b < 256)%Z →
  Z.lor acc (Z.shiftl b k) = (acc + b * 2 ^ k)%Z ∧ (0 ≤ acc + b * 2 ^ k < 2 ^ (k + 8))%Z ∧
  (acc + (b + 256 * q) * 2 ^ k = acc + b * 2 ^ k + q * 2 ^ (k + 8))%Z.
Proof.
  intros Hk Ha Hb. rewrite lor_shiftl_add by done. rewrite Z.pow_add_r by lia.
  pose proof (Z.pow_pos_nonneg 2 k). change (2 ^ 8)%Z with 256%Z. split_and!; [done|nia..].
Qed.

(** Taking in the lowest byte of [n] at position [k]. *)
Lemma lor_byte_step acc n k : (0 ≤ k)%Z → (0 ≤ acc < 2 ^ k)%Z →
  (0 ≤ Z.lor acc (Z.shiftl (n `mod` 256) k) < 2 ^ (k + 8))%Z ∧
  (Z.lor acc (Z.shiftl (n `mod` 256) k) + n `div` 256 * 2 ^ (k + 8) = acc + n * 2 ^ k)%Z.
Proof.
  intros Hk Ha. pose proof (Z.mod_pos_bound n 256 ltac:(lia)) as Hm.
  destruct (lor_byte_next acc (n `mod` 256) (n `div` 256) k Hk Ha Hm) as (-> & Hr & Hq).
  split; [done|]. rewrite <- Hq. f_equal. f_equal. pose proof (Z.div_mod n 256). lia.
Qed.

Lemma lor_bytes4 n : (0 ≤ n < 2 ^ 32)%Z →
  Z.lor (Z.lor (Z.lor (Z.lor 0 (Z.shiftl (arg_byte n 0) 0)) (Z.shiftl (arg_byte n 8) 8))
    (Z.shiftl (arg_byte n 16) 16)) (Z.shiftl (arg_byte n 24) 24) = n.
Proof.
  intros Hn. destruct (arg_bytes n) as (-> & -> & -> & ->).
  destruct (lor_byte_step 0 n 0) as [R1 E1]; [lia..|].
  destruct (lor_byte_step _ (n `div` 256) 8 ltac:(lia) R1) as [R2 E2].
  destruct (lor_byte_step _ (n `div` 256 `div` 256) 16 ltac:(lia) R2) as [R3 E3].
  destruct (lor_byte_step _ (n `div` 256 `div` 256 `div` 256) 24 ltac:(lia) R3) as [R4 E4].
  assert (n `div` 256 `div` 256 `div` 256 `div` 256 = 0)%Z as Hz
    by (rewrite !Z.div_div by lia; apply Z.div_small; lia).
  cbn [Z.add] in *. rewrite Hz in E4. lia.
Qed.

Lemma lor_bytes3 n : (0 ≤ n < 2 ^ 24)%Z →
  Z.lor (Z.lor (Z.lor 0 (Z.shiftl (arg_byte n 0) 0)) (Z.shiftl (arg_byte n 8) 8))
    (Z.shiftl (arg_byte n 16) 16) = n.
Proof.
  intros Hn. rewrite <- (lor_bytes4 n) at 4 by lia. destruct (arg_bytes n) as (_ & _ & _ & ->).
  rewrite !Z.div_div, (Z.div_small n) by lia. by rewrite Z.mod_0_l, Z.shiftl_0_l, Z.lor_0_r by lia.
Qed.

Lemma delta_step_encode1 base targetSize out i rest :
  in_bounds base i →
  (Z.of_nat (length out) + Z.of_nat (length (denote1 base i)) ≤ targetSize)%Z →
  delta_step base targetSize out (encode1 i ++ rest) = Ok (out ++ denote1 base i, rest).
Proof.
  destruct i as [offset len|data]; intros Hb Ht.
  - destruct Hb as (Ho & Hl & H32 & Hbase). cbn [encode1].
    destruct (cmd_flags (arg_byte offset 0) (arg_byte offset 8) (arg_byte offset 16)
      (arg_byte offset 24) (arg_byte len 0) (arg_byte len 8) (arg_byte len 16))
      as (Hr & Hc & H0 & H1 & H2 & H3 & H4 & H5 & H6).
    set (cmd := (128 + _ + _ + _ + _ + _ + _ + _)%Z) in *. cbn zeta beta. fold cmd.
    unfold delta_step. cbn [app]. rewrite b2z_z2b_small, Hc by done. cbn [negb].
    unfold copy_args. rewrite <- !app_assoc.
    do 7 (rewrite copy_arg_present by (apply arg_byte_range || done); cbn [mbind outcome_bind]).
    rewrite lor_bytes4, lor_bytes3 by lia.
    destruct (len =? 0)%Z eqn:E0; bools; [lia|].
    rewrite u32_small by lia.
    assert (Hlen : Z.of_nat (length (slice (Z.to_nat offset) (Z.to_nat (offset + len)) base)) = len)
      by (rewrite length_slice; lia).
    cbn [denote1] in *.
    replace ((Z.of_nat (length base) <? offset + len) || (targetSize <? Z.of_nat (length out) + len))%Z
      with false by (symmetry; bools; lia).
    by replace (offset + len <? offset)%Z with false by (symmetry; bools; lia).
  - cbn [in_bounds denote1 encode1] in *. unfold delta_step. cbn [app].
    rewrite b2z_z2b_small by lia.
    destruct (seven_bits (Z.of_nat (length data)) ltac:(lia)) as (_ & _ & -> & _).
    cbn [negb Z.eqb].
    replace (0 <? Z.of_nat (length data))%Z with true by (symmetry; bools; lia).
    replace ((Z.of_nat (length (data ++ rest)) <? Z.of_nat (length data))
      || (targetSize <? Z.of_nat (length out) + Z.of_nat (length data)))%Z with false
      by (symmetry; rewrite length_app; bools; lia).
    by rewrite Nat2Z.id, take_app_length, drop_app_length.
Qed.

Lemma encode1_nonempty i : 0 < length (encode1 i).
Proof. destruct i; cbn [encode1 length]; lia. Qed.

(** ** Lemmas: the loop *)

Lemma copy_arg_ok cmd bit k acc delta acc' rest :
  copy_arg cmd bit k acc delta = Ok (acc', rest) → (0 ≤ k)%Z → (0 ≤ acc < 2 ^ k)%Z →
  length rest ≤ length delta ∧ (0 ≤ acc' < 2 ^ (k + 8))%Z.
Proof.
  intros H Hk Ha. assert (Hpow : (2 ^ k ≤ 2 ^ (k + 8))%Z) by (apply Z.pow_le_mono_r; lia).
  unfold copy_arg in H. destruct (Z.land cmd bit =? 0)%Z; [simplify_eq; lia|].
  destruct delta as [|b delta]; [done|]. simplify_eq. split; [cbn; lia|].
  pose proof (b2z_range b) as Hb. by destruct (lor_byte_next acc (b2z b) 0 k Hk Ha Hb) as (-> & ? & _).
Qed.

(** Every copy has an offset of 32 bits and a positive length of 24 bits. *)
Lemma copy_args_ok cmd delta offset len rest :
  copy_args cmd delta = Ok (offset, len, rest) →
  length rest ≤ length delta ∧ (0 ≤ offset < 2 ^ 32)%Z ∧ (0 < len < 2 ^ 24)%Z.
Proof.
  unfold copy_args. intros H.
  do 7 (apply outcome_bind_ok in H as ([? ?] & Ha & H); apply copy_arg_ok in Ha as [? ?]; [|lia..]).
  change (24 + 8)%Z with 32%Z in *. change (16 + 8)%Z with 24%Z in *.
  injection H as <- Hlen <-. split; [lia|]. split; [lia|].
  destruct (_ =? 0)%Z eqn:E in Hlen; bools; subst len; lia.
Qed.

Lemma delta_step_consumes base ts out c delta out' rest :
  delta_step base ts out (c :: delta) = Ok (out', rest) → length rest ≤ length delta.
Proof.
  unfold delta_step. intros H. case_test_in H.
  - apply outcome_bind_ok in H as ([[o l] d] & Ha & H). apply copy_args_ok in Ha as [Hd _].
    repeat case_test_in H; simplify_eq. done.
  - repeat case_test_in H; simplify_eq. rewrite length_drop. lia.
Qed.

Lemma delta_loop_eq f base ts out c delta : length delta ≤ f →
  delta_loop (S f) base ts out (c :: delta)
  = '(out, delta) ← delta_step base ts out (c :: delta); delta_loop (length delta) base ts out delta.
Proof.
  assert (Hfuel : ∀ f g out delta, length delta ≤ f → length delta ≤ g →
    delta_loop f base ts out delta = delta_loop g base ts out delta).
  { clear. induction f as [|f IH]; intros g out delta Hf Hg.
    { destruct delta; [by destruct g|cbn in Hf; lia]. }
    destruct delta as [|c delta]; [by destruct g|]. destruct g as [|g]; [cbn in Hg; lia|].
    cbn [delta_loop]. destruct (delta_step base ts out (c :: delta)) as [[out' rest]|e|p] eqn:E;
      cbn; [|done..]. apply delta_step_consumes in E. cbn in Hf, Hg. apply IH; lia. }
  intros Hf. cbn [delta_loop]. destruct (delta_step base ts out (c :: delta)) as [[out' rest]|e|p] eqn:E;
    cbn; [|done..]. apply delta_step_consumes in E. apply Hfuel; lia.
Qed.

Lemma delta_loop_encode base ts prog out :
  Forall (in_bounds base) prog → Z.of_nat (length (out ++ denote base prog)) = ts →
  delta_loop (length (concat (encode1 <$> prog))) base ts out (concat (encode1 <$> prog))
  = Ok (out ++ denote base prog).
Proof.
  intros Hp. revert out. induction Hp as [|i prog Hi _ IH]; intros out Hlen.
  { cbn. by rewrite app_nil_r. }
  unfold denote in *. cbn [fmap list_fmap concat] in *.
  set (rest := concat (encode1 <$> prog)) in *.
  assert (Hc : ∃ c t, encode1 i = c :: t).
  { destruct (encode1 i) eqn:E; [|eauto]. pose proof (encode1_nonempty i) as Hne. rewrite E in Hne.
    cbn in Hne. lia. }
  destruct Hc as (c & t & Hc).
  pose proof (delta_step_encode1 base ts out i rest Hi) as Hst.
  rewrite Hc in *. cbn [app length]. rewrite delta_loop_eq by done.
  cbn [app] in Hst. rewrite Hst.
  2:{ rewrite !length_app in Hlen. lia. }
  cbn [mbind outcome_bind]. rewrite app_assoc in Hlen. rewrite IH by done. by rewrite <- app_assoc.
Qed.

(** *** The loop against the pack format *)

Lemma copy_arg_read cmd bit k acc delta acc' rest :
  copy_arg cmd bit k acc delta = Ok (acc', rest) →
  ∃ a, delta = omap id [a] ++ rest ∧ acc' = Z.lor acc (Z.shiftl (arg_value a) k) ∧
    (Z.land cmd bit =? 0)%Z = match a with Some _ => false | None => true end.
Proof.
  unfold copy_arg. destruct (Z.land cmd bit =? 0)%Z.
  - intros [= <- <-]. exists None. cbn. by rewrite Z.shiftl_0_l, Z.lor_0_r.
  - destruct delta as [|b delta]; [done|]. intros [= <- <-]. by exists (Some b).
Qed.

Lemma copy_arg_written cmd bit k acc a rest :
  (Z.land cmd bit =? 0)%Z = match a with Some _ => false | None => true end →
  copy_arg cmd bit k acc (omap id [a] ++ rest) = Ok (Z.lor acc (Z.shiftl (arg_value a) k), rest).
Proof.
  unfold copy_arg. intros ->. destruct a as [b|]; [done|]. cbn. by rewrite Z.shiftl_0_l, Z.lor_0_r.
Qed.

Lemma arg_value_range a : (0 ≤ arg_value a < 256)%Z.
Proof. destruct a as [b|]; cbn; [apply b2z_range|lia]. Qed.

(** The argument bytes put together. *)
Lemma lor_args4 a0 a1 a2 a3 :
  Z.lor (Z.lor (Z.lor (Z.lor 0 (Z.shiftl (arg_value a0) 0)) (Z.shiftl (arg_value a1) 8))
    (Z.shiftl (arg_value a2) 16)) (Z.shiftl (arg_value a3) 24)
  = (arg_value a0 + 256 * arg_value a1 + 256 ^ 2 * arg_value a2 + 256 ^ 3 * arg_value a3)%Z.
Proof.
  pose proof (arg_value_range a0) as H0. pose proof (arg_value_range a1) as H1.
  pose proof (arg_value_range a2) as H2. pose proof (arg_value_range a3) as H3.
  destruct (lor_byte_next 0 (arg_value a0) 0 0 ltac:(lia) ltac:(lia) H0) as (-> & R0 & _).
  destruct (lor_byte_next _ (arg_value a1) 0 8 ltac:(lia) R0 H1) as (-> & R1 & _).
  destruct (lor_byte_next _ (arg_value a2) 0 16 ltac:(lia) R1 H2) as (-> & R2 & _).
  destruct (lor_byte_next _ (arg_value a3) 0 24 ltac:(lia) R2 H3) as (-> & _ & _). lia.
Qed.

Lemma lor_args3 a0 a1 a2 :
  Z.lor (Z.lor (Z.lor 0 (Z.shiftl (arg_value a0) 0)) (Z.shiftl (arg_value a1) 8)) (Z.shiftl (arg_value a2) 16)
  = (arg_value a0 + 256 * arg_value a1 + 256 ^ 2 * arg_value a2)%Z.
Proof. pose proof (lor_args4 a0 a1 a2 None) as H. cbn [arg_value from_option] in H. rewrite Z.lor_0_r in H. lia. Qed.

(** The bits of a copy's command byte. *)
Definition bit_of (cmd bit : Z) : Z := if (Z.land cmd bit =? 0)%Z then 0%Z else bit.
Lemma cmd_bits c : (Z.land (b2z c) 128 =? 0)%Z = false →
  c = z2b (128 + bit_of (b2z c) 1 + bit_of (b2z c) 2 + bit_of (b2z c) 4 + bit_of (b2z c) 8
           + bit_of (b2z c) 16 + bit_of (b2z c) 32 + bit_of (b2z c) 64).
Proof.
  intros Hc. pose proof (byte_ind_bool (λ c, (Z.land (b2z c) 128 =? 0)%Z || bool_decide (c = z2b (128
    + bit_of (b2z c) 1 + bit_of (b2z c) 2 + bit_of (b2z c) 4 + bit_of (b2z c) 8
    + bit_of (b2z c) 16 + bit_of (b2z c) 32 + bit_of (b2z c) 64))) eq_refl c) as H. cbn beta in H.
  rewrite Hc in H. by apply bool_decide_eq_true in H.
Qed.

Lemma written_cmd (a0 a1 a2 a3 l0 l1 l2 : option byte) :
  let cmd := b2z (z2b (128 + arg_flag a0 1 + arg_flag a1 2 + arg_flag a2 4 + arg_flag a3 8
                       + arg_flag l0 16 + arg_flag l1 32 + arg_flag l2 64)) in
  let absent (a : option byte) := match a with Some _ => false | None => true end in
  (Z.land cmd 128 =? 0)%Z = false ∧
  (Z.land cmd 1 =? 0)%Z = absent a0 ∧ (Z.land cmd 2 =? 0)%Z = absent a1 ∧ (Z.land cmd 4 =? 0)%Z = absent a2 ∧
  (Z.land cmd 8 =? 0)%Z = absent a3 ∧ (Z.land cmd 16 =? 0)%Z = absent l0 ∧ (Z.land cmd 32 =? 0)%Z = absent l1 ∧
  (Z.land cmd 64 =? 0)%Z = absent l2.
Proof. destruct a0, a1, a2, a3, l0, l1, l2; vm_compute; repeat split. Qed.

(** The arguments that are read are those a copy was written with. *)
Lemma copy_args_read c delta offset len rest :
  (Z.land (b2z c) 128 =? 0)%Z = false → copy_args (b2z c) delta = Ok (offset, len, rest) →
  ∃ bs, written (Copy offset len) (c :: bs) ∧ delta = bs ++ rest.
Proof.
  intros Hc H. unfold copy_args in H.
  do 7 (let a := fresh "a" in let Hd := fresh "Hd" in let Hb := fresh "Hb" in
    apply outcome_bind_ok in H as ([? ?] & (a & Hd & -> & Hb)%copy_arg_read & H)).
  injection H as <- <- <-. rewrite lor_args4, lor_args3. eexists. split; [|subst; rewrite !app_assoc; reflexivity].
  rewrite (cmd_bits c Hc) at 1. unfold bit_of. rewrite Hb, Hb0, Hb1, Hb2, Hb3, Hb4, Hb5.
  pose proof (written_copy a a0 a1 a2 a3 a4 a5) as Hw. cbv zeta in Hw.
  replace (match a with Some _ => false | None => true end) with (bool_decide (a = None)) by by destruct a.
  destruct a, a0, a1, a2, a3, a4, a5; exact Hw.
Qed.

Lemma copy_args_written offset len c bs rest :
  written (Copy offset len) (c :: bs) →
  (Z.land (b2z c) 128 =? 0)%Z = false ∧ copy_args (b2z c) (bs ++ rest) = Ok (offset, len, rest).
Proof.
  inversion 1 as [|a0 a1 a2 a3 l0 l1 l2 o l E1 E2]; subst.
  destruct (written_cmd a0 a1 a2 a3 l0 l1 l2) as (H7 & H0 & H1 & H2 & H3 & H4 & H5 & H6).
  split; [exact H7|]. set (cmd := b2z _) in *. clearbody cmd. unfold copy_args.
  match goal with |- context [?bs ++ rest] => replace bs with (omap id [a0] ++ omap id [a1] ++ omap id [a2]
    ++ omap id [a3] ++ omap id [l0] ++ omap id [l1] ++ omap id [l2]) by (rewrite <- !omap_app; reflexivity) end.
  rewrite <- !app_assoc.
  do 7 (rewrite copy_arg_written by done; cbn [mbind outcome_bind]). by rewrite lor_args4, lor_args3.
Qed.

(** One turn of the loop reads the bytes of one instruction, which is in bounds,
    and appends what it stands for. *)
Lemma delta_step_sound base ts out c delta out' rest :
  delta_step base ts out (c :: delta) = Ok (out', rest) →
  ∃ i bs, written i bs ∧ c :: delta = bs ++ rest ∧ in_bounds base i ∧ out' = out ++ denote1 base i ∧
    (Z.of_nat (length out') ≤ ts)%Z.
Proof.
  unfold delta_step. intros H. destruct (Z.land (b2z c) 128 =? 0)%Z eqn:Hc; cbn [negb] in H.
  2:{ apply outcome_bind_ok in H as ([[o l] d] & Ha & H).
    pose proof (copy_args_ok _ _ _ _ _ Ha) as (_ & Ho & Hl).
    destruct (copy_args_read _ _ _ _ _ Hc Ha) as (bs & Hw & Hbs).
    destruct (_ || _) eqn:E1 in H; [done|]. destruct (_ <? _)%Z eqn:E2 in H; [done|]. bools.
    injection H as <- <-.
    assert (Hu : u32 (o + l) = (o + l)%Z).
    { destruct (decide (o + l < 2 ^ 32)%Z) as [Hlt|Hge]; [apply u32_small; lia|exfalso].
      assert (u32 (o + l) = o + l - 2 ^ 32)%Z as E; [|lia].
      unfold u32. symmetry. apply (Z.mod_unique _ _ 1); lia. }
    rewrite Hu in *. pose proof (u32_range (o + l)) as Hr. rewrite Hu in Hr.
    exists (Copy o l), (c :: bs). rewrite Hbs. split_and!; [done..|cbn; lia|done|].
    rewrite length_app, length_slice by lia. lia. }
  destruct (0 <? b2z c)%Z eqn:E0; [|done]. destruct (_ || _) eqn:E1 in H; [done|]. bools.
  injection H as <- <-.
  assert (Hlt : (b2z c < 128)%Z).
  { pose proof (byte_ind_bool (λ b, implb (Z.land (b2z b) 128 =? 0)%Z (b2z b <? 128)%Z) eq_refl c) as HH.
    cbn beta in HH. rewrite Hc in HH. cbn in HH. bools. lia. }
  assert (Hn : length (take (Z.to_nat (b2z c)) delta) = Z.to_nat (b2z c)) by (rewrite length_take; lia).
  exists (Insert (take (Z.to_nat (b2z c)) delta)), (c :: take (Z.to_nat (b2z c)) delta). split_and!.
  - pose proof (written_insert (take (Z.to_nat (b2z c)) delta)) as Hw.
    rewrite Hn, Z2Nat.id, z2b_b2z in Hw by lia. apply Hw. lia.
  - cbn [app]. by rewrite take_drop.
  - cbn [in_bounds]. rewrite Hn. lia.
  - done.
  - rewrite length_app, Hn. lia.
Qed.

Lemma delta_step_written base ts out i bs rest :
  written i bs → in_bounds base i → (Z.of_nat (length out) + Z.of_nat (length (denote1 base i)) ≤ ts)%Z →
  delta_step base ts out (bs ++ rest) = Ok (out ++ denote1 base i, rest).
Proof.
  intros Hw Hb Ht. destruct i as [offset len|data].
  - destruct Hb as (Ho & Hl & H32 & Hbase).
    assert (∃ c bs', bs = c :: bs') as (c & bs' & ->) by (inversion Hw; eauto).
    destruct (copy_args_written _ _ _ _ rest Hw) as [Hc Ha]. unfold delta_step. cbn [app].
    rewrite Hc, Ha. cbn [negb mbind outcome_bind]. rewrite u32_small by lia. cbn [denote1] in *.
    rewrite length_slice in Ht by lia.
    replace ((Z.of_nat (length base) <? offset + len) || (ts <? Z.of_nat (length out) + len))%Z
      with false by (symmetry; bools; lia).
    by replace (offset + len <? offset)%Z with false by (symmetry; bools; lia).
  - inversion Hw; subst. by apply (delta_step_encode1 base ts out (Insert data) rest).
Qed.

(** The loop: exactly the programs in bounds that the bytes are written from. *)
Lemma delta_loop_sound base ts f out delta t :
  length delta ≤ f → delta_loop f base ts out delta = Ok t →
  ∃ prog, written_as prog delta ∧ Forall (in_bounds base) prog ∧ t = out ++ denote base prog.
Proof.
  assert (Hnil : ∀ out, ∃ prog, written_as prog [] ∧ Forall (in_bounds base) prog ∧ out = out ++ denote base prog).
  { intros o. exists []. split; [exists []; by split|]. split; [constructor|]. by rewrite app_nil_r. }
  revert out delta. induction f as [|f IH]; intros out delta Hf H.
  { destruct delta; [|cbn in Hf; lia]. cbn in H. injection H as <-. apply Hnil. }
  destruct delta as [|c delta]; [cbn in H; injection H as <-; apply Hnil|].
  cbn [delta_loop] in H. apply outcome_bind_ok in H as ([out' rest] & Hst & H).
  pose proof (delta_step_consumes _ _ _ _ _ _ _ Hst) as Hc.
  destruct (delta_step_sound _ _ _ _ _ _ _ Hst) as (i & bs & Hw & -> & Hi & -> & _).
  assert (Hr : length rest ≤ f) by (cbn in Hf; lia).
  destruct (IH _ _ Hr H) as (prog & (chunks & Hch & ->) & Hp & ->).
  exists (i :: prog). split; [exists (bs :: chunks); by split; [constructor|]|].
  split; [by constructor|]. unfold denote. cbn. by rewrite app_assoc.
Qed.

Lemma delta_loop_written base ts prog chunks out :
  Forall2 written prog chunks → Forall (in_bounds base) prog →
  Z.of_nat (length (out ++ denote base prog)) = ts →
  delta_loop (length (concat chunks)) base ts out (concat chunks) = Ok (out ++ denote base prog).
Proof.
  intros Hch. revert out. induction Hch as [|i bs prog chunks Hw Hch IH]; intros out Hp Hlen.
  { cbn. by rewrite app_nil_r. }
  apply Forall_cons in Hp as [Hi Hp]. unfold denote in *. cbn [fmap list_fmap concat] in *.
  assert (∃ c bs', bs = c :: bs') as (c & bs' & ->) by (inversion Hw; eauto).
  pose proof (delta_step_written base ts out i (c :: bs') (concat chunks) Hw Hi) as Hst.
  cbn [app length]. rewrite delta_loop_eq by done. cbn [app] in Hst. rewrite Hst.
  2:{ rewrite !length_app in Hlen. lia. }
  cbn [mbind outcome_bind]. rewrite app_assoc in Hlen. rewrite IH by done. by rewrite <- app_assoc.
Qed.

(** ** Properties *)

(** A delta written in Git's format is applied right: for any instructions that stay within the
    base (and offsets and lengths that fit their fields), encoding them and applying the result to
    the base gives exactly what the instructions denote. *)
Theorem delta_roundtrip (base : bytes) (prog : list instr) :
  Forall (in_bounds base) prog →
  (Z.of_nat (length base) < 2 ^ 63)%Z → (Z.of_nat (length (denote base prog)) ≤ maxAlloc)%Z →
  applyDelta base (encode_delta base prog) = Ok (denote base prog).
Proof.
  intros Hp Hb Ht. assert (maxAlloc < 2 ^ 64)%Z as Hmax by reflexivity.
  unfold applyDelta. rewrite bool_decide_eq_false_2.
  2:{ unfold encode_delta. intros [E _]%app_nil. by apply encode_size_nonempty in E. }
  unfold encode_delta. rewrite readLEB128_encode, drop_app_length by lia.
  rewrite int64_small, Z.eqb_refl by lia. cbn [negb].
  rewrite readLEB128_encode, drop_app_length by lia.
  destruct (maxAlloc <? _)%Z eqn:E; bools; [lia|].
  rewrite delta_loop_encode by done. cbn [mbind outcome_bind app]. by rewrite Z.eqb_refl.
Qed.

(** C33: applyDelta decides Git's delta format and computes its meaning: a delta is accepted, with the
    result [target], exactly when it is the size of the base and the size of the target, both in
    range, followed by the bytes of instructions that each stay inside the base (copies) or are
    literals of the delta (inserts), and [target], of the size announced, is what these instructions
    denote. So a copy from elsewhere, a literal that is not in the delta, a result of another length
    or a delta cut short are never accepted. *)
Theorem delta_result_in_bounds (base delta target : bytes) :
  applyDelta base delta = Ok target ↔
  ∃ srcSize n m prog,
    readLEB128 delta = Some (srcSize, n) ∧ int64 srcSize = Z.of_nat (length base) ∧
    readLEB128 (drop n delta) = Some (Z.of_nat (length target), m) ∧ (Z.of_nat (length target) ≤ maxAlloc)%Z ∧
    written_as prog (drop m (drop n delta)) ∧ Forall (in_bounds base) prog ∧ target = denote base prog.
Proof.
  unfold applyDelta. split.
  - intros H. case_bool_decide; [done|].
    destruct (readLEB128 delta) as [[src n]|] eqn:E1; [|done].
    destruct (_ =? _)%Z eqn:Es in H; [|done]. cbn [negb] in H.
    destruct (readLEB128 (drop n delta)) as [[ts m]|] eqn:E2; [|done].
    destruct (_ <? _)%Z eqn:Em in H; [done|].
    apply outcome_bind_ok in H as (out & Hl & H).
    destruct (_ =? _)%Z eqn:Et in H; [|done]. cbn [negb] in H. injection H as ->. bools.
    apply delta_loop_sound in Hl as (prog & Hw & Hp & Ht); [|done].
    exists src, n, m, prog. split_and!; [done|done|congruence|lia|done..].
  - intros (src & n & m & prog & E1 & Es & E2 & Hm & (chunks & Hch & Hb) & Hp & Ht).
    rewrite bool_decide_eq_false_2 by (by intros ->). rewrite E1, Es, Z.eqb_refl. cbn [negb]. rewrite E2.
    rewrite (proj2 (Z.ltb_ge _ _)) by done. rewrite Hb, (delta_loop_written base _ prog chunks []) by (rewrite <- ?Ht; done).
    cbn [mbind outcome_bind app]. by rewrite <- Ht, Z.eqb_refl.
Qed.

(** A copy whose offset and length overflow 32 bits gets past the bounds check, because the sum
    is formed in a uint32, and the slice expression panics: against every base there is a delta that
    makes the parser panic instead of returning an error. *)
Theorem delta_copy_overflow_panics (base : bytes) :
  (Z.of_nat (length base) < 2 ^ 63)%Z →
  applyDelta base (encode_size (Z.of_nat (length base)) ++ encode_size 1
                   ++ (z2b <$> [159; 255; 255; 255; 255; 1]%Z)) = Panic SliceBounds.
Proof.
  intros Hb. unfold applyDelta. rewrite bool_decide_eq_false_2.
  2:{ intros [E _]%app_nil. by apply encode_size_nonempty in E. }
  rewrite readLEB128_encode, drop_app_length by lia.
  rewrite int64_small, Z.eqb_refl by lia. cbn [negb].
  rewrite readLEB128_encode, drop_app_length by lia.
  change (maxAlloc <? 1)%Z with false. cbn iota.
  set (d := z2b <$> _). assert (delta_step base 1 [] d = Panic SliceBounds) as Hst.
  { subst d. unfold delta_step. cbn [fmap list_fmap].
    change (negb (Z.land (b2z (z2b 159)) 128 =? 0)%Z) with true. cbn iota.
    change (copy_args _ _) with (Ok (E := delta_err) (4294967295%Z, 1%Z, @nil byte)).
    cbn [mbind outcome_bind]. change (u32 (4294967295 + 1)) with 0%Z.
    by replace (Z.of_nat (length base) <? 0)%Z with false by (symmetry; bools; lia). }
  assert (delta_loop (length d) base 1 [] d = Panic SliceBounds) as ->; [|done].
  change (length d) with 6. subst d. cbn [delta_loop fmap list_fmap] in *. by rewrite Hst.
Qed.

(** ** Witnesses *)

Definition demo_base : bytes := #"the quick brown fox".
Definition demo_prog : list instr := [Copy 4 5; Insert #" red "; Copy 16 3].

Lemma delta_roundtrip_witness :
  applyDelta demo_base (encode_delta demo_base demo_prog) = Ok #"quick red fox".
Proof.
  rewrite delta_roundtrip.
  - reflexivity.
  - repeat constructor; cbn; lia.
  - cbn. lia.
  - vm_compute. discriminate.
Defined.

(** The bytes of a delta against the nineteen bytes of [demo_base]: sizes 19 and
    6, a copy of three bytes at 4 (the command 0x91), an insert of three. *)
Lemma delta_result_in_bounds_witness :
  applyDelta demo_base (z2b <$> [19; 6; 145; 4; 3; 3; 33; 33; 33]%Z) = Ok #"qui!!!".
Proof.
  apply delta_result_in_bounds. exists 19%Z, 1, 1, [Copy 4 3; Insert #"!!!"]. split_and!.
  - vm_compute. reflexivity.
  - vm_compute. reflexivity.
  - vm_compute. reflexivity.
  - vm_compute. discriminate.
  - exists [z2b <$> [145; 4; 3]%Z; z2b <$> [3; 33; 33; 33]%Z]. split; [|vm_compute; reflexivity].
    apply Forall2_cons. split; [exact (written_copy (Some (z2b 4)) None None None (Some (z2b 3)) None None)|].
    apply Forall2_cons. split; [|by apply Forall2_nil].
    apply (written_insert #"!!!"). cbn. lia.
  - repeat constructor; cbn; lia.
  - vm_compute. reflexivity.
Defined.

Lemma delta_copy_overflow_panics_witness :
  applyDelta #"abc" (z2b <$> [3; 1; 159; 255; 255; 255; 255; 1]%Z) = Panic SliceBounds.
Proof. apply (delta_copy_overflow_panics #"abc"). cbn. lia. Defined.
