(* ===== verification/Packfile.v ===== *)
(** * Git objects and packfiles (pkg/gitproxy/packfile.go)

    Object identifiers, the metadata of commits and trees, the parser that
    splits a packfile into entries and resolves deltas, the builder, and the
    side-band framing. SHA-1 and zlib are parameters. *)

From S2P Require Import Prelude GoStrings PktLine Delta.

(** ** Objects *)

Definition ObjCommit : Z := 1.
Definition ObjTree : Z := 2.
Definition ObjBlob : Z := 3.
Definition ObjTag : Z := 4.
Definition ObjOfsDelta : Z := 6.
Definition ObjRefDelta : Z := 7.

Record RawObject := mkRawObject {
  Type_ : Z;
  Data : bytes;
  OID : gostring;
}.

Definition TypeToString (t : Z) : gostring :=
  if (t =? ObjCommit)%Z then #"commit"
  else if (t =? ObjTree)%Z then #"tree"
  else if (t =? ObjBlob)%Z then #"blob"
  else if (t =? ObjTag)%Z then #"tag"
  else #"unknown".

Definition StringToType (s : gostring) : Z :=
  if bool_decide (s = #"commit") then ObjCommit
  else if bool_decide (s = #"tree") then ObjTree
  else if bool_decide (s = #"blob") then ObjBlob
  else if bool_decide (s = #"tag") then ObjTag
  else 0.

Record CommitInfo := mkCommitInfo {
  ci_OID : gostring;
  Tree : gostring;
  Parents : list gostring;
  Author : gostring;
  Message : gostring;
}.

Definition commit_line (info : CommitInfo) (line : gostring) : CommitInfo :=
  if HasPrefix line #"tree " then
    mkCommitInfo (ci_OID info) (TrimSpace (TrimPrefix line #"tree ")) (Parents info) (Author info)
      (Message info)
  else if HasPrefix line #"parent " then
    let parent := TrimSpace (TrimPrefix line #"parent ") in
    if bool_decide (parent = []) then info
    else mkCommitInfo (ci_OID info) (Tree info) (Parents info ++ [parent]) (Author info) (Message info)
  else if HasPrefix line #"author " then
    mkCommitInfo (ci_OID info) (Tree info) (Parents info) (TrimSpace (TrimPrefix line #"author "))
      (Message info)
  else info.

Definition ParseCommitObject (oid : gostring) (data : bytes) : CommitInfo :=
  let parts := SplitN2 data (nl ++ nl) in
  let headerLines := Split (hd [] parts) nl in
  let info := mkCommitInfo oid [] [] [] (match parts with [_; m] => m | _ => [] end) in
  foldl commit_line info headerLines.

(** The loop of [ParseTreeEntries] on [data[pos:]]; an entry is at least 21
    bytes, so the length is enough fuel. It never returns an error. *)
Fixpoint tree_loop (fuel : nat) (data : bytes) : list gostring :=
  match fuel with
  | O => []
  | S fuel =>
      match IndexByte data "000" with
      | None => []
      | Some nullIdx =>
          let rest := drop (S nullIdx) data in
          if length rest <? 20 then []
          else EncodeToString (take 20 rest) :: tree_loop fuel (drop 20 rest)
      end
  end.
Definition ParseTreeEntries (data : bytes) : list gostring := tree_loop (length data) data.

(** ** Parsing *)

Definition be32 (z : Z) : bytes :=
  [z2b (z `div` 2 ^ 24); z2b (z `div` 2 ^ 16); z2b (z `div` 2 ^ 8); z2b z].
Definition uint32_be (data : bytes) : Z := foldl (λ acc b, acc * 256 + b2z b)%Z 0%Z data.

Definition byte_at (data : bytes) (pos : nat) : Z := b2z (nth pos data "000"%char).

Record rawPackEntry := mkEntry {
  objType : Z;
  uncompressedSz : Z;
  offset : Z;
  baseOffset : Z;
  baseOID : gostring;
  decompressed : bytes;
}.

Inductive pack_err :=
  | PackTooShort
  | BadSignature
  | BadVersion (version : Z)
  | UnexpectedPackEnd (i : nat)
  | TruncatedHeader (offset : nat)
  | TruncatedOfs (offset : nat)
  | TruncatedRef (offset : nat)
  | BadZlib (offset : nat)
  | BadDelta (offset : Z) (e : delta_err)
  | UnresolvedDeltas.

(** The size in an entry's header, from its second byte on. [room] is the
    number of bytes before the trailer, [len(data) - 20 - pos]. *)
Fixpoint read_size (room : nat) (data : bytes) (off pos : nat) (shift size b : Z)
    : outcome pack_err (Z * nat) :=
  if (Z.land b 128 =? 0)%Z then Ok (size, pos)
  else match room with
       | O => Err (TruncatedHeader off)
       | S room =>
           let b := byte_at data pos in
           read_size room data off (S pos) (shift + 7)
             (Z.lor size (u64 (Z.shiftl (Z.land b 127) shift))) b
       end.

(** The distance to the base of an OBJ_OFS_DELTA, from its second byte on. *)
Fixpoint read_ofs (room : nat) (data : bytes) (off pos : nat) (ofs b : Z)
    : outcome pack_err (Z * nat) :=
  if (Z.land b 128 =? 0)%Z then Ok (ofs, pos)
  else match room with
       | O => Err (TruncatedOfs off)
       | S room =>
           let b := byte_at data pos in
           read_ofs room data off (S pos)
             (Z.lor (u64 (Z.shiftl (u64 (ofs + 1)) 7)) (Z.land b 127)) b
       end.

Section Pack.
Context (sha1 : bytes → bytes).
(** [zlib.NewWriter]: the compressed stream of some data. [zlib.NewReader] on
    the bytes from the current position: whether the stream's header is good.
    Then [io.ReadFull] of so many bytes and [Close]: the data and how many
    bytes of the input were consumed. *)
Context (deflate : bytes → bytes) (zlib_open : bytes → bool)
        (zlib_read : bytes → Z → option (bytes * nat)).

Definition ComputeOID (objType : Z) (data : bytes) : gostring :=
  let header := TypeToString objType ++ #" " ++ fmt_d (Z.of_nat (length data)) ++ ["000"%char] in
  EncodeToString (sha1 (header ++ data)).

(** The base reference of a delta entry: distance, name, and the position after it. *)
Definition read_base (data : bytes) (entryOffset pos : nat) (ty : Z)
    : outcome pack_err (Z * gostring * nat) :=
  let limit := length data - 20 in
  if (ty =? ObjOfsDelta)%Z then
    if limit <=? pos then Err (TruncatedOfs entryOffset) else
    let b := byte_at data pos in
    '(ofs, pos) ← read_ofs (limit - S pos) data entryOffset (S pos) (Z.land b 127) b;
    Ok (int64 (Z.of_nat entryOffset - int64 ofs), [], pos)
  else if (ty =? ObjRefDelta)%Z then
    if limit <? pos + 20 then Err (TruncatedRef entryOffset)
    else Ok (0%Z, EncodeToString (slice pos (pos + 20) data), pos + 20)
  else Ok (0%Z, [], pos).

(** One entry at [pos]: the entry and the position after it. *)
Definition read_entry (data : bytes) (i pos : nat) : outcome pack_err (rawPackEntry * nat) :=
  let limit := length data - 20 in
  if limit <=? pos then Err (UnexpectedPackEnd i) else
  let b := byte_at data pos in
  let ty := Z.land (Z.shiftr b 4) 7 in
  '(size, pos1) ← read_size (limit - S pos) data pos (S pos) 4 (Z.land b 15) b;
  '(bofs, boid, pos2) ← read_base data pos pos1 ty;
  if negb (zlib_open (drop pos2 data)) then Err (BadZlib pos) else
  if (maxAlloc <? size)%Z then Panic MakeSliceLen else
  match zlib_read (drop pos2 data) size with
  | None => Err (BadZlib pos)
  | Some (d, n) => Ok (mkEntry ty size (Z.of_nat pos) bofs boid d, pos2 + n)
  end.

Fixpoint read_entries (data : bytes) (count i pos : nat) : outcome pack_err (list rawPackEntry) :=
  match count with
  | O => Ok []
  | S count =>
      '(e, pos) ← read_entry data i pos;
      es ← read_entries data count (S i) pos;
      Ok (e :: es)
  end.

(** ** Resolving deltas *)

Record resolved := mkResolved {
  byOID : gmap gostring RawObject;
  byOffset : gmap Z RawObject;
}.

Definition resolve_as (e : rawPackEntry) (ty : Z) (data : bytes) (st : resolved) : resolved :=
  let oid := ComputeOID ty data in
  let obj := mkRawObject ty data oid in
  mkResolved (<[oid := obj]> (byOID st)) (<[offset e := obj]> (byOffset st)).

Definition is_delta (e : rawPackEntry) : bool :=
  (objType e =? ObjOfsDelta)%Z || (objType e =? ObjRefDelta)%Z.

(** The first pass: objects that are whole. *)
Definition register_whole (st : resolved) (e : rawPackEntry) : resolved :=
  if is_delta e then st else resolve_as e (objType e) (decompressed e) st.

Section Resolve.
Context (baseLookup : gostring → option RawObject).

Definition find_base (e : rawPackEntry) (st : resolved) : option RawObject :=
  if (objType e =? ObjOfsDelta)%Z then byOffset st !! baseOffset e
  else match byOID st !! baseOID e with
       | Some o => Some o
       | None => baseLookup (baseOID e)
       end.

(** One entry of a pass; the flag is the pass's [progress]. *)
Definition resolve_entry (e : rawPackEntry) (acc : bool * resolved) : outcome pack_err (bool * resolved) :=
  let '(progress, st) := acc in
  if negb (is_delta e) then Ok acc else
  match byOffset st !! offset e with
  | Some _ => Ok acc
  | None =>
      match find_base e st with
      | None => Ok acc
      | Some base =>
          applied ← outcome_map_err (BadDelta (offset e)) (applyDelta (Data base) (decompressed e));
          Ok (true, resolve_as e (Type_ base) applied st)
      end
  end.

Fixpoint resolve_pass (es : list rawPackEntry) (acc : bool * resolved)
    : outcome pack_err (bool * resolved) :=
  match es with
  | [] => Ok acc
  | e :: es => acc ← resolve_entry e acc; resolve_pass es acc
  end.

Fixpoint resolve_passes (maxPasses : nat) (es : list rawPackEntry) (st : resolved)
    : outcome pack_err resolved :=
  match maxPasses with
  | O => Ok st
  | S maxPasses =>
      '(progress, st) ← resolve_pass es (false, st);
      if (size (byOffset st) =? length es) || negb progress then Ok st
      else resolve_passes maxPasses es st
  end.

Definition ParsePackfileWithBase (data : bytes) : outcome pack_err (list RawObject) :=
  if length data <? 32 then Err PackTooShort
  else if negb (bool_decide (take 4 data = #"PACK")) then Err BadSignature else
  let version := uint32_be (slice 4 8 data) in
  if negb (version =? 2)%Z && negb (version =? 3)%Z then Err (BadVersion version) else
  let numObjects := uint32_be (slice 8 12 data) in
  entries ← read_entries data (Z.to_nat numObjects) 0 12;
  st ← resolve_passes 50 entries (foldl register_whole (mkResolved ∅ ∅) entries);
  if size (byOffset st) <? length entries then Err UnresolvedDeltas
  else Ok (omap (λ e, byOffset st !! offset e) entries).
End Resolve.

Definition ParsePackfile (data : bytes) : outcome pack_err (list RawObject) :=
  ParsePackfileWithBase (λ _, None) data.

(** ** Building *)

(** The size bytes after the first, of what is left of the size; seven bits
    each, so ten of them hold 64 bits. *)
Fixpoint more_size (fuel : nat) (size : Z) : bytes :=
  match fuel with
  | O => []
  | S fuel =>
      if (size =? 0)%Z then [] else
      let b := Z.land size 127 in
      let size := Z.shiftr size 7 in
      z2b (if (size =? 0)%Z then b else Z.lor b 128) :: more_size fuel size
  end.

Definition object_header (obj : RawObject) : bytes :=
  let size := Z.of_nat (length (Data obj)) in
  let b := Z.lor (u8 (Z.shiftl (Type_ obj) 4)) (Z.land size 15) in
  let size := Z.shiftr size 4 in
  z2b (if (size =? 0)%Z then b else Z.lor b 128) :: more_size 10 size.

Definition BuildPackfile (objects : list RawObject) : bytes :=
  let body := #"PACK" ++ be32 2 ++ be32 (Z.of_nat (length objects))
              ++ concat ((λ obj, object_header obj ++ deflate (Data obj)) <$> objects) in
  body ++ sha1 body.
End Pack.

(** ** Side-band framing *)

(** The loop of [ExtractPackfileFromResponse] on [respBody[pos:]]: the pack
    data of the packets so far is [packBuf]. *)
Fixpoint extract_loop (fuel : nat) (respBody packBuf : bytes) : bytes :=
  match fuel with
  | O => packBuf
  | S fuel =>
      if length respBody <? 4 then packBuf else
      match DecodeString (take 4 respBody) with
      | Some [h; l] =>
          let pktLen := Z.to_nat (b2z h * 256 + b2z l) in
          if (pktLen =? 0) || (pktLen =? 1) || (pktLen =? 2)
          then extract_loop fuel (drop 4 respBody) packBuf
          else if (pktLen <? 4) || (length respBody <? pktLen) then packBuf
          else
            let packBuf := match slice 4 pktLen respBody with
                           | band :: data => if (b2z band =? 1)%Z then packBuf ++ data else packBuf
                           | [] => packBuf
                           end in
            extract_loop fuel (drop pktLen respBody) packBuf
      | _ => packBuf
      end
  end.

Definition ExtractPackfileFromResponse (respBody : bytes) : option bytes :=
  if HasPrefix respBody #"PACK" then Some respBody else
  let packBuf := extract_loop (length respBody) respBody [] in
  if bool_decide (packBuf ≠ []) then Some packBuf
  else (λ idx, drop idx respBody) <$> Index respBody #"PACK".

Definition maxChunk : nat := Z.to_nat 65515.

(** The chunks of a packfile, [pos += maxChunk] at a time. *)
Fixpoint sideband_chunks (fuel : nat) (packfile : bytes) : bytes :=
  match fuel with
  | O => []
  | S fuel =>
      if bool_decide (packfile = []) then [] else
      let chunk := take maxChunk packfile in
      fmt_04x (Z.of_nat (length chunk) + 5) ++ ["001"%char] ++ chunk
      ++ sideband_chunks fuel (drop maxChunk packfile)
  end.

Definition FormatSidebandPackfile (packfile : bytes) (isV2 : bool) (acks : list gostring)
    (hasHaves : bool) : bytes :=
  (if isV2 then
     (if hasHaves then
        pkt_line (#"acknowledgments" ++ nl)
        ++ concat ((λ ack, pkt_line (#"ACK " ++ ack ++ nl)) <$> acks)
        ++ (if bool_decide (acks = []) then pkt_line (#"NAK" ++ nl) else [])
        ++ pkt_line (#"ready" ++ nl) ++ delim_pkt
      else [])
     ++ pkt_line (#"packfile" ++ nl)
   else if bool_decide (acks = []) then pkt_line (#"NAK" ++ nl)
   else concat ((λ ack, pkt_line (#"ACK " ++ ack ++ #" common" ++ nl)) <$> acks))
  ++ sideband_chunks (length packfile) packfile ++ flush_pkt.

(** ** Lemmas: side-band framing *)

Definition extract (data buf : bytes) : bytes := extract_loop (length data) data buf.

Lemma extract_fuel f g data buf :
  length data ≤ f → length data ≤ g → extract_loop f data buf = extract_loop g data buf.
Proof.
  revert g data buf. induction f as [|f IH]; intros g data buf Hf Hg.
  { destruct data; [|cbn in Hf; lia]. by destruct g. }
  destruct g as [|g]; [destruct data; [done|cbn in Hg; lia]|]. cbn [extract_loop].
  destruct (length data <? 4) eqn:E; [done|]. bools.
  destruct (DecodeString _) as [[|h [|l [|? ?]]]|]; try done.
  set (n := Z.to_nat _).
  destruct ((n =? 0) || (n =? 1) || (n =? 2)) eqn:E0; [apply IH; rewrite length_drop; lia|].
  destruct ((n <? 4) || (length data <? n)) eqn:E1; [done|]. bools.
  apply IH; rewrite length_drop; lia.
Qed.

(** A packet of the first band adds its data; any other packet adds nothing. *)
Lemma extract_pkt (b : byte) s rest buf :
  (Z.of_nat (length s) + 5 < 65536)%Z →
  extract (pkt_line (b :: s) ++ rest) buf
  = extract rest (if (b2z b =? 1)%Z then buf ++ s else buf).
Proof.
  intros Hs. set (n := (Z.of_nat (length (b :: s)) + 4)%Z).
  assert (Hn : (4 < n < 65536)%Z) by (subst n; cbn [length]; lia).
  pose proof (fmt_04x_length n ltac:(lia)) as Hl.
  assert (Hlen : length (pkt_line (b :: s) ++ rest) = Z.to_nat n + length rest).
  { unfold pkt_line. fold n. rewrite !length_app, Hl. subst n. cbn [length]. lia. }
  unfold extract. rewrite (extract_fuel _ (S (length (pkt_line (b :: s) ++ rest)))) by lia.
  cbn [extract_loop]. rewrite Hlen.
  replace (Z.to_nat n + length rest <? 4) with false by (symmetry; bools; lia).
  unfold pkt_line. fold n. rewrite <- app_assoc, take_app_length' by done.
  rewrite DecodeString_fmt_04x by lia.
  rewrite !b2z_z2b, (Z.mod_mod n 256) by lia.
  rewrite (Z.mod_small (n `div` 256)) by (Z.to_euclidean_division_equations; lia).
  replace (n `div` 256 * 256 + n `mod` 256)%Z with n by (pose proof (Z.div_mod n 256); lia).
  replace ((Z.to_nat n =? 0) || (Z.to_nat n =? 1) || (Z.to_nat n =? 2)) with false
    by (symmetry; bools; lia).
  replace ((Z.to_nat n <? 4) || (Z.to_nat n + length rest <? Z.to_nat n)) with false
    by (symmetry; bools; lia).
  rewrite (slice_app_mid (fmt_04x n) (b :: s) rest) by (rewrite ?Hl; subst n; cbn [length]; lia).
  rewrite app_assoc, drop_app_length' by (rewrite length_app, Hl; subst n; cbn [length]; lia).
  apply extract_fuel; lia.
Qed.

Lemma extract_special (p : bytes) rest buf :
  p = flush_pkt ∨ p = delim_pkt → extract (p ++ rest) buf = extract rest buf.
Proof.
  intros Hp. unfold extract. rewrite (extract_fuel _ (S (length (p ++ rest)))) by lia.
  assert (Hl : length p = 4) by by destruct Hp as [-> | ->].
  cbn [extract_loop]. rewrite length_app, Hl.
  replace (4 + length rest <? 4) with false by (symmetry; bools; lia).
  rewrite take_app_length', drop_app_length' by done.
  assert (Hd : ∃ l, DecodeString p = Some ["000"%char; l] ∧ (b2z l < 2)%Z)
    by (destruct Hp as [-> | ->]; eexists; by split).
  destruct Hd as (l & -> & Hb). pose proof (b2z_range l). change (b2z "000"%char) with 0%Z.
  replace ((Z.to_nat (0 * 256 + b2z l) =? 0) || (Z.to_nat (0 * 256 + b2z l) =? 1)
    || (Z.to_nat (0 * 256 + b2z l) =? 2)) with true by (symmetry; bools; lia).
  apply extract_fuel; lia.
Qed.

(** Text lines: they start with a printable byte. *)
Definition text_line (s : gostring) : Prop :=
  (∃ b r, s = b :: r ∧ b2z b ≠ 1%Z) ∧ (Z.of_nat (length s) + 4 < 65536)%Z.

Lemma extract_text s rest buf : text_line s → extract (pkt_line s ++ rest) buf = extract rest buf.
Proof.
  intros [(b & r & -> & Hb) Hl]. cbn [length] in Hl. rewrite extract_pkt by lia.
  by rewrite (proj2 (Z.eqb_neq _ _)).
Qed.

Lemma extract_texts {A} (f : A → gostring) l rest buf :
  Forall (λ x, text_line (f x)) l →
  extract (concat ((λ x, pkt_line (f x)) <$> l) ++ rest) buf = extract rest buf.
Proof.
  induction 1 as [|x l Hx _ IH]; [done|]. cbn [fmap list_fmap concat].
  by rewrite <- app_assoc, extract_text.
Qed.

Lemma extract_chunks f packfile rest buf :
  length packfile ≤ f →
  extract (sideband_chunks f packfile ++ rest) buf = extract rest (buf ++ packfile).
Proof.
  revert packfile buf. induction f as [|f IH]; intros packfile buf Hf.
  { destruct packfile; [|cbn in Hf; lia]. by rewrite app_nil_r. }
  cbn [sideband_chunks]. case_bool_decide as E; [subst; by rewrite app_nil_r|].
  assert (Hc : length (take maxChunk packfile) ≤ maxChunk) by (rewrite length_take; lia).
  assert (Hm : Z.of_nat maxChunk = 65515%Z) by (unfold maxChunk; lia).
  set (chunk := take maxChunk packfile) in *.
  replace ((fmt_04x (Z.of_nat (length chunk) + 5) ++ ["001"%char] ++ chunk
            ++ sideband_chunks f (drop maxChunk packfile)) ++ rest)
    with (pkt_line ("001"%char :: chunk) ++ sideband_chunks f (drop maxChunk packfile) ++ rest).
  2:{ unfold pkt_line. cbn [length].
      replace (Z.of_nat (S (length chunk)) + 4)%Z with (Z.of_nat (length chunk) + 5)%Z by lia.
      by rewrite <- !app_assoc. }
  rewrite extract_pkt by lia. change (b2z "001" =? 1)%Z with true. cbn iota.
  rewrite IH, <- app_assoc; [by unfold chunk; rewrite take_drop|].
  rewrite length_drop. assert (length packfile ≠ 0) by (intros Hz; apply E; by apply nil_length_inv). lia.
Qed.

Lemma pkt_line_not_PACK s rest :
  (Z.of_nat (length s) + 4 < 65536)%Z → HasPrefix (pkt_line s ++ rest) #"PACK" = false.
Proof.
  intros Hs. unfold pkt_line. rewrite fmt_04x_digits by lia.
  destruct (digits_bounds (Z.of_nat (length s) + 4) ltac:(lia)) as (Hd & _).
  apply is_hex_digit in Hd. cbn [app HasPrefix gostr String.list_ascii_of_string].
  rewrite bool_decide_eq_false_2; [done|]. intros E. by rewrite <- E in Hd.
Qed.

Lemma fixed_text_lines :
  Forall text_line [ #"acknowledgments" ++ nl; #"NAK" ++ nl; #"ready" ++ nl; #"packfile" ++ nl].
Proof. repeat constructor; cbn; try lia; eexists _, _; split; done. Qed.

Lemma ack_text_line (tail ack : gostring) :
  length tail ≤ 10 → isHexOID ack = true → text_line (#"ACK " ++ ack ++ tail).
Proof.
  intros Ht Ha. destruct (isHexOID_graphic ack Ha) as (_ & _ & Hl).
  split; [eexists _, _; split; [reflexivity|done]|]. rewrite !length_app. cbn. lia.
Qed.

Lemma extract_format packfile isV2 acks hasHaves :
  Forall (λ a, isHexOID a = true) acks →
  extract (FormatSidebandPackfile packfile isV2 acks hasHaves) [] = packfile.
Proof.
  intros Ha. unfold FormatSidebandPackfile.
  pose proof fixed_text_lines as Ht. rewrite !Forall_cons in Ht. destruct Ht as (T1 & T2 & T3 & T4 & _).
  assert (Hend : extract (sideband_chunks (length packfile) packfile ++ flush_pkt) [] = packfile).
  { rewrite extract_chunks by done. rewrite <- (app_nil_r flush_pkt).
    rewrite (extract_special flush_pkt); [done|by left]. }
  assert (Hacks : ∀ (tail : gostring) rest, length tail ≤ 10 →
    extract (concat ((λ a, pkt_line (#"ACK " ++ a ++ tail)) <$> acks) ++ rest) [] = extract rest []).
  { intros tail rest Hl. apply extract_texts. eapply Forall_impl; [exact Ha|].
    intros a. by apply ack_text_line. }
  destruct isV2.
  - assert (Hpk : extract (pkt_line (#"packfile" ++ nl) ++ sideband_chunks (length packfile) packfile
                     ++ flush_pkt) [] = packfile) by by rewrite extract_text.
    destruct hasHaves; rewrite <- !app_assoc; [|done].
    rewrite extract_text, Hacks by (done || cbn; lia).
    assert (Hr : extract (pkt_line (#"ready" ++ nl) ++ delim_pkt ++ pkt_line (#"packfile" ++ nl)
      ++ sideband_chunks (length packfile) packfile ++ flush_pkt) [] = packfile)
      by (rewrite extract_text by done; rewrite (extract_special delim_pkt); [done|by right]).
    case_bool_decide; cbn [app]; [by rewrite extract_text|done].
  - case_bool_decide; [by rewrite extract_text|]. by rewrite Hacks by (cbn; lia).
Qed.

Lemma format_not_PACK packfile isV2 acks hasHaves :
  Forall (λ a, isHexOID a = true) acks →
  HasPrefix (FormatSidebandPackfile packfile isV2 acks hasHaves) #"PACK" = false.
Proof.
  intros Ha. unfold FormatSidebandPackfile.
  destruct isV2; [destruct hasHaves|]; rewrite <- ?app_assoc.
  1,2: apply pkt_line_not_PACK; cbn; lia.
  case_bool_decide; [apply pkt_line_not_PACK; cbn; lia|].
  destruct Ha as [|a acks Ha _]; [done|]. cbn [fmap list_fmap concat]. rewrite <- app_assoc.
  apply pkt_line_not_PACK. by apply (ack_text_line (#" common" ++ nl)); [cbn; lia|].
Qed.

(** ** Lemmas: entry headers *)

Lemma byte_at_app pre c rest : byte_at (pre ++ c :: rest) (length pre) = b2z c.
Proof. unfold byte_at. rewrite app_nth2 by lia. by rewrite Nat.sub_diag. Qed.

(** One group of a size: its payload and whether another follows. *)
Lemma size_group q : (0 < q)%Z →
  let c := z2b (if (Z.shiftr q 7 =? 0)%Z then Z.land q 127 else Z.lor (Z.land q 127) 128) in
  Z.land (b2z c) 127 = (q `mod` 128)%Z ∧ (Z.land (b2z c) 128 =? 0)%Z = (q `div` 128 =? 0)%Z.
Proof.
  intros Hq. cbv zeta. rewrite (land_low q), Z.shiftr_div_pow2 by lia. change (2 ^ 7)%Z with 128%Z.
  destruct (seven_bits (q `mod` 128) ltac:(apply Z.mod_pos_bound; lia)) as (H1 & H2 & H3 & H4 & H5).
  pose proof (Z.mod_pos_bound q 128 ltac:(lia)).
  destruct (q `div` 128 =? 0)%Z; [|rewrite H5]; rewrite b2z_z2b_small by lia.
  - by rewrite H1, H3.
  - by rewrite H2, H4.
Qed.

Lemma read_size_more f off q room data pre rest shift acc b :
  data = pre ++ more_size f q ++ rest → length (more_size f q) ≤ room →
  (0 ≤ q < 128 ^ Z.of_nat f)%Z → (0 ≤ shift)%Z → (0 ≤ acc < 2 ^ shift)%Z →
  (q * 2 ^ shift < 2 ^ 64)%Z → (Z.land b 128 =? 0)%Z = (q =? 0)%Z →
  read_size room data off (length pre) shift acc b
  = Ok ((acc + q * 2 ^ shift)%Z, length pre + length (more_size f q)).
Proof.
  revert q room pre shift acc b. induction f as [|f IH];
    intros q room pre shift acc b Hd Hroom Hq Hs Ha H64 Hb; destruct (q =? 0)%Z eqn:E.
  1,3: apply Z.eqb_eq in E; subst q; replace (more_size _ 0) with (@nil byte) by (by destruct room || done);
    destruct room; cbn [read_size]; rewrite Hb; f_equal; f_equal; cbn; lia.
  { apply Z.eqb_neq in E. cbn in Hq. lia. }
  cbn [more_size] in *. rewrite E in *. apply Z.eqb_neq in E.
  destruct (size_group q ltac:(lia)) as [Hlow Hflag]. cbv zeta in Hlow, Hflag.
  assert (Hsr : Z.shiftr q 7 = (q `div` 128)%Z) by by rewrite Z.shiftr_div_pow2.
  set (c := z2b _) in *. clearbody c. rewrite Hsr in Hd, Hroom |- *.
  destruct room as [|room]; [cbn in Hroom; lia|]. cbn [read_size]. rewrite Hb.
  assert (Hat : byte_at data (length pre) = b2z c) by (rewrite Hd; apply byte_at_app).
  rewrite Hat, Hlow.
  pose proof (Z.mod_pos_bound q 128 ltac:(lia)) as Hm. pose proof (Z.div_mod q 128 ltac:(lia)) as Hdm.
  assert (H2 : (0 < 2 ^ shift)%Z) by (apply Z.pow_pos_nonneg; lia).
  assert (Hdq : (0 ≤ q `div` 128)%Z) by (apply Z.div_pos; lia).
  assert (Hs7 : (2 ^ (shift + 7) = 128 * 2 ^ shift)%Z) by (rewrite Z.pow_add_r by lia; lia).
  rewrite u64_small by (rewrite Z.shiftl_mul_pow2 by done; nia).
  rewrite lor_shiftl_add by done.
  replace (S (length pre)) with (length (pre ++ [c])) by (rewrite length_app; cbn; lia).
  rewrite (IH (q `div` 128)%Z); [|..].
  - cbn [length]. rewrite length_app. cbn [length]. f_equal. f_equal; [nia|lia].
  - rewrite Hd. by rewrite <- app_assoc.
  - cbn in Hroom. lia.
  - rewrite Nat2Z.inj_succ, Z.pow_succ_r in Hq by lia. split; [done|].
    apply Z.div_lt_upper_bound; lia.
  - lia.
  - rewrite Hs7. nia.
  - rewrite Hs7. nia.
  - done.
Qed.

(** The first byte of an object's header, checked on its 128 values. *)
Lemma first_byte ty lo (more : bool) :
  (1 ≤ ty ≤ 4)%Z → (0 ≤ lo < 16)%Z →
  let b := Z.lor (u8 (Z.shiftl ty 4)) lo in
  let c := z2b (if more then Z.lor b 128 else b) in
  Z.land (Z.shiftr (b2z c) 4) 7 = ty ∧ Z.land (b2z c) 15 = lo ∧
  (Z.land (b2z c) 128 =? 0)%Z = negb more.
Proof.
  intros Ht Hl. cbv zeta.
  set (P := λ ty lo, let b := Z.lor (u8 (Z.shiftl ty 4)) lo in forallb (λ more : bool,
    let c := z2b (if more then Z.lor b 128 else b) in
    (Z.land (Z.shiftr (b2z c) 4) 7 =? ty)%Z && (Z.land (b2z c) 15 =? lo)%Z
    && Bool.eqb (Z.land (b2z c) 128 =? 0)%Z (negb more)) [true; false]).
  assert (HP : forallb (λ ty, forallb (P ty) (seqZ 0 16)) (seqZ 1 4) = true) by (vm_compute; done).
  rewrite forallb_forall in HP. specialize (HP ty).
  rewrite <- list_elem_of_In, elem_of_seqZ in HP. specialize (HP ltac:(lia)).
  rewrite forallb_forall in HP. specialize (HP lo).
  rewrite <- list_elem_of_In, elem_of_seqZ in HP. specialize (HP ltac:(lia)). subst P. cbv beta zeta in HP.
  rewrite forallb_forall in HP. specialize (HP more ltac:(destruct more; cbn; auto)).
  apply andb_prop in HP as [[H1 H2]%andb_prop H3]. apply Bool.eqb_prop in H3. bools. done.
Qed.

(** ** Lemmas: reading back what was built *)

(** Objects the proxy serves: whole, of a known type and an allocatable size. *)
Definition whole (obj : RawObject) : Prop :=
  (1 ≤ Type_ obj ≤ 4)%Z ∧ (Z.of_nat (length (Data obj)) ≤ maxAlloc)%Z.

(** An object whose stream is read to its end by a read of its size: the
    inflater hands data over when its 32 KiB window is full or the stream
    ends, so a size that is a multiple of the window (0 included) leaves the
    end of the stream unread. *)
Definition settles (data : bytes) : Prop := (Z.of_nat (length data) `mod` 32768 ≠ 0)%Z.

Section ReadBack.
Context (sha1 deflate : bytes → bytes) (zlib_open : bytes → bool)
        (zlib_read : bytes → Z → option (bytes * nat)).
Context (sha1_length : ∀ d, length (sha1 d) = 20)
        (open_deflate : ∀ d rest, zlib_open (deflate d ++ rest) = true)
        (read_deflate : ∀ d rest, settles d →
           zlib_read (deflate d ++ rest) (Z.of_nat (length d)) = Some (d, length (deflate d))).

Definition entry_bytes (obj : RawObject) : bytes := object_header obj ++ deflate (Data obj).
Definition entry_at (pos : nat) (obj : RawObject) : rawPackEntry :=
  mkEntry (Type_ obj) (Z.of_nat (length (Data obj))) (Z.of_nat pos) 0 [] (Data obj).

Lemma read_entry_built obj i pre rest :
  whole obj → settles (Data obj) → 20 ≤ length rest →
  read_entry zlib_open zlib_read (pre ++ entry_bytes obj ++ rest) i (length pre)
  = Ok (entry_at (length pre) obj, length pre + length (entry_bytes obj)).
Proof using open_deflate read_deflate.
  intros [Ht Hsz] Hset Hrest. unfold entry_bytes, object_header.
  set (n := Z.of_nat (length (Data obj))) in *. assert (Hn : (0 ≤ n)%Z) by lia.
  set (more := more_size 10 (Z.shiftr n 4)). set (z := deflate (Data obj)).
  assert (Hlo : Z.land n 15 = (n `mod` 16)%Z) by (change 15%Z with (Z.ones 4); by rewrite Z.land_ones).
  assert (Hq : Z.shiftr n 4 = (n `div` 16)%Z) by by rewrite Z.shiftr_div_pow2.
  pose proof (Z.mod_pos_bound n 16 ltac:(lia)) as Hm. pose proof (Z.div_mod n 16 ltac:(lia)) as Hdm.
  assert (Hdq : (0 ≤ n `div` 16)%Z) by (apply Z.div_pos; lia).
  assert (Hmax : (maxAlloc = 2 ^ 48)%Z) by done.
  destruct (first_byte (Type_ obj) (Z.land n 15) (negb (Z.shiftr n 4 =? 0)%Z) Ht ltac:(lia))
    as (B1 & B2 & B3).
  set (b0 := Z.lor (u8 (Z.shiftl (Type_ obj) 4)) (Z.land n 15)) in *.
  assert (Hc : (if negb (Z.shiftr n 4 =? 0)%Z then Z.lor b0 128 else b0)
             = (if (Z.shiftr n 4 =? 0)%Z then b0 else Z.lor b0 128)) by by destruct (_ =? _)%Z.
  rewrite Hc in *. set (c := z2b _) in *. clearbody c.
  replace (pre ++ ((c :: more) ++ z) ++ rest) with (pre ++ c :: (more ++ z ++ rest))
    by (cbn [app]; by rewrite <- !app_assoc).
  set (data := pre ++ c :: (more ++ z ++ rest)).
  assert (Hlen : length data = length pre + 1 + length more + length z + length rest).
  { subst data. rewrite !length_app. cbn [length]. rewrite !length_app. lia. }
  unfold read_entry. rewrite Hlen.
  rewrite (proj2 (Nat.leb_gt _ _)) by lia.
  assert (byte_at data (length pre) = b2z c) as -> by apply byte_at_app.
  rewrite B1, B2. replace (S (length pre)) with (length (pre ++ [c])) by (rewrite length_app; cbn; lia).
  rewrite (read_size_more 10 (length pre) (Z.shiftr n 4) _ data (pre ++ [c]) (z ++ rest));
    [|subst data; by rewrite <- !app_assoc|fold more; rewrite length_app; cbn; lia| | | | |].
  2:{ rewrite Hq. split; [done|]. change (128 ^ Z.of_nat 10)%Z with (2 ^ 70)%Z. lia. }
  2:{ lia. }
  2:{ rewrite Hlo. cbn. lia. }
  2:{ rewrite Hq. lia. }
  2:{ by rewrite B3, negb_involutive. }
  fold more. cbn [mbind outcome_bind].
  replace (Z.land n 15 + Z.shiftr n 4 * 2 ^ 4)%Z with n by (rewrite Hlo, Hq; lia).
  unfold read_base, ObjOfsDelta, ObjRefDelta.
  rewrite !(proj2 (Z.eqb_neq _ _)) by lia. cbn [mbind outcome_bind].
  assert (Hdrop : drop (length (pre ++ [c]) + length more) data = z ++ rest).
  { subst data. rewrite <- length_app.
    replace (pre ++ c :: more ++ z ++ rest) with (((pre ++ [c]) ++ more) ++ z ++ rest)
      by (by rewrite <- !app_assoc). apply drop_app_length. }
  rewrite Hdrop. subst z. rewrite open_deflate. cbn [negb].
  rewrite (proj2 (Z.ltb_ge _ _)) by done. fold n in read_deflate. subst n. rewrite read_deflate by done.
  unfold entry_at. f_equal. f_equal. rewrite !length_app. cbn. lia.
Qed.

(** The entries of a list of objects laid out from a position. *)
Fixpoint entries_at (pos : nat) (objs : list RawObject) : list rawPackEntry :=
  match objs with
  | [] => []
  | o :: objs => entry_at pos o :: entries_at (pos + length (entry_bytes o)) objs
  end.

Lemma read_entries_built objs i pre rest :
  Forall whole objs → Forall (λ o, settles (Data o)) objs → 20 ≤ length rest →
  read_entries zlib_open zlib_read (pre ++ concat (entry_bytes <$> objs) ++ rest) (length objs) i (length pre)
  = Ok (entries_at (length pre) objs).
Proof using open_deflate read_deflate.
  intros Hw Hs Hrest. revert i pre Hs. induction Hw as [|o objs Ho _ IH]; intros i pre Hs; [done|].
  apply Forall_cons in Hs as [Hso Hs]. cbn [fmap list_fmap concat length read_entries entries_at].
  rewrite <- app_assoc, read_entry_built by (done || rewrite length_app; lia).
  cbn [mbind outcome_bind].
  rewrite <- length_app, app_assoc, IH by done. done.
Qed.

Lemma entries_at_offsets objs pos :
  Forall (λ z, (Z.of_nat pos ≤ z)%Z) (offset <$> entries_at pos objs) ∧
  NoDup (offset <$> entries_at pos objs).
Proof.
  revert pos. induction objs as [|o objs IH]; intros pos; cbn [entries_at fmap list_fmap].
  { split; constructor. }
  assert (Hpos : 0 < length (entry_bytes o)) by (unfold entry_bytes, object_header; cbn; lia).
  destruct (IH (pos + length (entry_bytes o))) as [Hle Hnd].
  split; constructor; [cbn; lia| | |done].
  - eapply Forall_impl; [exact Hle|]. cbn. intros z. lia.
  - intros Hin. pose proof (proj1 (Forall_forall _ _) Hle _ Hin) as Hlt. cbn in Hlt. lia.
Qed.

Lemma entries_at_whole objs pos :
  Forall whole objs → Forall (λ e, is_delta e = false) (entries_at pos objs).
Proof.
  intros Hw. revert pos. induction Hw as [|o objs [Ho _] _ IH]; intros pos; cbn [entries_at];
    constructor; [|apply IH].
  unfold is_delta, entry_at, ObjOfsDelta, ObjRefDelta. cbn [objType].
  by rewrite !(proj2 (Z.eqb_neq _ _)) by lia.
Qed.
End ReadBack.

(** ** Lemmas: resolution *)

Section Resolution.
Context (sha1 : bytes → bytes).

(** The object an entry that is whole stands for. *)
Definition whole_object (e : rawPackEntry) : RawObject :=
  mkRawObject (objType e) (decompressed e) (ComputeOID sha1 (objType e) (decompressed e)).

Lemma register_whole_spec es st :
  Forall (λ e, is_delta e = false) es → NoDup (offset <$> es) →
  (∀ e, e ∈ es → byOffset st !! offset e = None) →
  let st' := foldl (register_whole sha1) st es in
  size (byOffset st') = size (byOffset st) + length es ∧
  (∀ e, e ∈ es → byOffset st' !! offset e = Some (whole_object e)) ∧
  (∀ k, k ∉ offset <$> es → byOffset st' !! k = byOffset st !! k).
Proof.
  intros Hd. revert st. induction Hd as [|e es He Hd IH]; intros st Hnd Hfresh; cbn [foldl].
  { split_and!; [cbn; lia|by intros ? ?%elem_of_nil|done]. }
  cbn [fmap list_fmap] in Hnd. apply NoDup_cons in Hnd as [Hne Hnd].
  set (st1 := register_whole sha1 st e).
  assert (H1 : byOffset st1 = <[offset e := whole_object e]> (byOffset st))
    by (subst st1; unfold register_whole; by rewrite He).
  destruct (IH st1 Hnd) as (Hsz & Hin & Hout).
  { intros e' He'. rewrite H1, lookup_insert_ne; [apply Hfresh; by right|].
    intros E. apply Hne. rewrite E. by apply list_elem_of_fmap_2. }
  cbv zeta in *. split_and!.
  - rewrite Hsz, H1, map_size_insert_None by (apply Hfresh; by left). cbn [length]. lia.
  - intros e' [-> | He']%elem_of_cons; [|by apply Hin]. rewrite Hout, H1 by done. apply lookup_insert_eq.
  - intros k Hk. cbn [fmap list_fmap] in Hk. apply not_elem_of_cons in Hk as [Hk1 Hk2].
    rewrite Hout, H1 by done. by rewrite lookup_insert_ne.
Qed.

Lemma resolve_pass_whole baseLookup es acc :
  Forall (λ e, is_delta e = false) es → resolve_pass sha1 baseLookup es acc = Ok acc.
Proof.
  intros Hd. induction Hd as [|e es He _ IH]; [done|]. cbn [resolve_pass].
  unfold resolve_entry. destruct acc as [pr st]. rewrite He. cbn. done.
Qed.

Lemma resolve_passes_whole baseLookup n es st :
  Forall (λ e, is_delta e = false) es → resolve_passes sha1 baseLookup (S n) es st = Ok st.
Proof.
  intros Hd. cbn [resolve_passes]. rewrite resolve_pass_whole by done.
  cbn [mbind outcome_bind negb]. by rewrite orb_true_r.
Qed.

Lemma omap_whole (es : list rawPackEntry) (m : gmap Z RawObject) :
  (∀ e, e ∈ es → m !! offset e = Some (whole_object e)) →
  omap (λ e, m !! offset e) es = whole_object <$> es.
Proof.
  induction es as [|e es IH]; intros H; [done|]. cbn [omap list_omap fmap list_fmap].
  rewrite H by by left. f_equal. apply IH. intros e' He'. apply H. by right.
Qed.
End Resolution.

Lemma uint32_be_be32 n : (0 ≤ n < 2 ^ 32)%Z → uint32_be (be32 n) = n.
Proof.
  intros Hn. unfold uint32_be, be32. cbn [foldl]. rewrite !b2z_z2b.
  change (2 ^ 24)%Z with 16777216%Z. change (2 ^ 16)%Z with 65536%Z. change (2 ^ 8)%Z with 256%Z.
  replace (n `div` 16777216)%Z with (n `div` 256 `div` 256 `div` 256)%Z by (by rewrite !Z.div_div by lia).
  replace (n `div` 65536)%Z with (n `div` 256 `div` 256)%Z by (by rewrite Z.div_div by lia).
  pose proof (Z.div_mod n 256). pose proof (Z.div_mod (n `div` 256) 256).
  pose proof (Z.div_mod (n `div` 256 `div` 256) 256).
  assert (n `div` 256 `div` 256 `div` 256 < 256)%Z
    by (rewrite !Z.div_div by lia; apply Z.div_lt_upper_bound; lia).
  rewrite (Z.mod_small (n `div` 256 `div` 256 `div` 256)) by (split; [repeat apply Z.div_pos; lia|done]).
  lia.
Qed.

(** The object with the identifier its content has. *)
Definition identified (sha1 : bytes → bytes) (obj : RawObject) : RawObject :=
  mkRawObject (Type_ obj) (Data obj) (ComputeOID sha1 (Type_ obj) (Data obj)).

Lemma whole_objects sha1 deflate objs pos :
  whole_object sha1 <$> entries_at deflate pos objs = identified sha1 <$> objs.
Proof. revert pos. induction objs as [|o objs IH]; intros pos; [done|]. cbn. f_equal. apply IH. Qed.

Lemma entries_at_length deflate objs pos : length (entries_at deflate pos objs) = length objs.
Proof. revert pos. induction objs; intros; cbn; auto. Qed.

(** A pack with the 12-byte header for [n] objects and a long enough rest is
    read from position 12. *)
Lemma ParsePackfile_header sha1 zo zr baseLookup n rest :
  (0 ≤ n < 2 ^ 32)%Z → 20 ≤ length rest →
  ParsePackfileWithBase sha1 zo zr baseLookup (#"PACK" ++ be32 2 ++ be32 n ++ rest)
  = (entries ← read_entries zo zr (#"PACK" ++ be32 2 ++ be32 n ++ rest) (Z.to_nat n) 0 12;
     st ← resolve_passes sha1 baseLookup 50 entries
            (foldl (register_whole sha1) (mkResolved ∅ ∅) entries);
     if size (byOffset st) <? length entries then Err UnresolvedDeltas
     else Ok (omap (λ e, byOffset st !! offset e) entries)).
Proof.
  intros Hn Hr. unfold ParsePackfileWithBase.
  replace (length (#"PACK" ++ be32 2 ++ be32 n ++ rest) <? 32) with false
    by (symmetry; rewrite !length_app; bools; cbn; lia).
  change (take 4 (#"PACK" ++ _)) with #"PACK". rewrite bool_decide_eq_true_2 by done. cbn [negb].
  change (slice 4 8 (#"PACK" ++ be32 2 ++ _)) with (be32 2).
  change (uint32_be (be32 2)) with 2%Z. cbn [negb andb Z.eqb Pos.eqb].
  change (slice 8 12 (#"PACK" ++ be32 2 ++ be32 n ++ rest)) with (be32 n).
  by rewrite uint32_be_be32.
Qed.

(** *** Packing and unpacking

    Whole objects of the four types whose sizes the inflater reads to the end
    of their streams come back from the packfile built from them. *)
Lemma ParsePackfile_built (sha1 deflate : bytes → bytes) (zlib_open : bytes → bool)
    (zlib_read : bytes → Z → option (bytes * nat)) baseLookup (objs : list RawObject) :
  (∀ d, length (sha1 d) = 20) →
  (∀ d rest, zlib_open (deflate d ++ rest) = true) →
  (∀ d rest, settles d → zlib_read (deflate d ++ rest) (Z.of_nat (length d)) = Some (d, length (deflate d))) →
  Forall whole objs → Forall (λ o, settles (Data o)) objs → (Z.of_nat (length objs) < 2 ^ 32)%Z →
  ParsePackfileWithBase sha1 zlib_open zlib_read baseLookup (BuildPackfile sha1 deflate objs)
  = Ok (identified sha1 <$> objs).
Proof.
  intros Hsha Hopen Hread Hw Hs Hn. unfold BuildPackfile.
  set (body := #"PACK" ++ _). pose proof (Hsha body) as Htr. set (trailer := sha1 body) in *.
  clearbody trailer. subst body. rewrite <- !app_assoc.
  rewrite ParsePackfile_header by (rewrite ?length_app; lia).
  rewrite Nat2Z.id. set (hdr := #"PACK" ++ be32 2 ++ be32 (Z.of_nat (length objs))).
  replace (#"PACK" ++ be32 2 ++ be32 (Z.of_nat (length objs)) ++ _ ++ trailer)
    with (hdr ++ concat (entry_bytes deflate <$> objs) ++ trailer)
    by (subst hdr; by rewrite <- !app_assoc).
  change (read_entries zlib_open zlib_read ?d ?n 0 12)
    with (read_entries zlib_open zlib_read d n 0 (length hdr)).
  rewrite (read_entries_built deflate zlib_open zlib_read Hopen Hread objs 0 _ trailer) by (done || lia).
  cbn [mbind outcome_bind].
  set (pos := length hdr). set (es := entries_at deflate pos objs).
  destruct (entries_at_offsets deflate objs pos) as [_ Hnd]. fold es in Hnd.
  pose proof (entries_at_whole deflate objs pos Hw) as Hwh. fold es in Hwh.
  destruct (register_whole_spec sha1 es (mkResolved ∅ ∅) Hwh Hnd) as (Hsz & Hlk & _);
    [intros; apply lookup_empty|].
  set (st := foldl _ _ es) in *.
  rewrite (resolve_passes_whole sha1 baseLookup 49 es st Hwh). cbn [mbind outcome_bind].
  rewrite Hsz. cbn [byOffset]. rewrite map_size_empty. cbn [Nat.add]. rewrite Nat.ltb_irrefl.
  rewrite (omap_whole sha1) by done. subst es. by rewrite whole_objects.
Qed.

Lemma Extract_Format (packfile : bytes) isV2 acks hasHaves :
  packfile ≠ [] → Forall (λ a, isHexOID a = true) acks →
  ExtractPackfileFromResponse (FormatSidebandPackfile packfile isV2 acks hasHaves) = Some packfile.
Proof.
  intros Hne Ha. unfold ExtractPackfileFromResponse.
  rewrite format_not_PACK by done. fold (extract (FormatSidebandPackfile packfile isV2 acks hasHaves) []).
  rewrite extract_format by done. by rewrite bool_decide_eq_true_2.
Qed.

(** ** Properties *)

(** C31: Packs round-trip within the proxy: the pack extracted from the side-band response formatted from
    any pack built (protocol v2 or v0, any acknowledged commits, whatever the size) is the one that was
    built; and if every object is of the four types, allocatable, and of a size that is not a multiple
    of 32 KiB (so not empty: [empty_object_breaks_pack] shows what happens otherwise), parsing it,
    against any base objects, gives the same objects, in order, each with the identifier its content
    has. *)
Theorem packfile_roundtrip (sha1 deflate : bytes → bytes) (zlib_open : bytes → bool)
    (zlib_read : bytes → Z → option (bytes * nat)) baseLookup (objs : list RawObject) isV2 acks hasHaves :
  (∀ d, length (sha1 d) = 20) →
  (∀ d rest, zlib_open (deflate d ++ rest) = true) →
  (∀ d rest, settles d → zlib_read (deflate d ++ rest) (Z.of_nat (length d)) = Some (d, length (deflate d))) →
  Forall (λ a, isHexOID a = true) acks →
  let packfile := BuildPackfile sha1 deflate objs in
  ExtractPackfileFromResponse (FormatSidebandPackfile packfile isV2 acks hasHaves) = Some packfile ∧
  (Forall whole objs → Forall (λ o, settles (Data o)) objs → (Z.of_nat (length objs) < 2 ^ 32)%Z →
   ParsePackfileWithBase sha1 zlib_open zlib_read baseLookup packfile = Ok (identified sha1 <$> objs)).
Proof.
  intros Hsha Hopen Hread Ha packfile. split; [by apply Extract_Format|]. intros Hw Hs Hn.
  by apply ParsePackfile_built.
Qed.

(** ** Lemmas: what resolution computes *)

Lemma read_size_pos room data off pos shift acc b n pos' :
  read_size room data off pos shift acc b = Ok (n, pos') → pos ≤ pos'.
Proof.
  revert pos shift acc b. induction room as [|room IH]; intros pos shift acc b; cbn [read_size];
    (destruct (_ =? 0)%Z; [intros [= _ <-]; lia|]); [done|].
  intros H%IH. lia.
Qed.

Lemma read_ofs_pos room data off pos ofs b n pos' :
  read_ofs room data off pos ofs b = Ok (n, pos') → pos ≤ pos'.
Proof.
  revert pos ofs b. induction room as [|room IH]; intros pos ofs b; cbn [read_ofs];
    (destruct (_ =? 0)%Z; [intros [= _ <-]; lia|]); [done|].
  intros H%IH. lia.
Qed.

Lemma read_base_pos data off pos ty x y pos' :
  read_base data off pos ty = Ok (x, y, pos') → pos ≤ pos'.
Proof.
  unfold read_base. intros H. destruct (ty =? ObjOfsDelta)%Z.
  - destruct (_ <=? pos); [done|]. apply outcome_bind_ok in H as ([ofs p] & Ho%read_ofs_pos & H).
    injection H as _ _ <-. lia.
  - destruct (ty =? ObjRefDelta)%Z; [|injection H as _ _ <-; lia].
    destruct (_ <? pos + 20); [done|]. injection H as _ _ <-. lia.
Qed.

(** Entries lie one after the other. *)
Lemma read_entry_pos zo zr data i pos e pos' :
  read_entry zo zr data i pos = Ok (e, pos') → offset e = Z.of_nat pos ∧ pos < pos'.
Proof.
  unfold read_entry. intros H. destruct (_ <=? pos); [done|].
  apply outcome_bind_ok in H as ([size p1] & H1%read_size_pos & H).
  apply outcome_bind_ok in H as ([[bo bi] p2] & H2%read_base_pos & H).
  destruct (negb _); [done|]. destruct (_ <? _)%Z; [done|].
  destruct (zr _ _) as [[d n]|]; [|done]. injection H as <- <-. cbn. split; [done|lia].
Qed.

Lemma read_entries_offsets zo zr data n i pos es :
  read_entries zo zr data n i pos = Ok es →
  Forall (λ z, (Z.of_nat pos ≤ z)%Z) (offset <$> es) ∧ NoDup (offset <$> es).
Proof.
  revert i pos es. induction n as [|n IH]; intros i pos es; cbn [read_entries].
  { intros [= <-]. split; constructor. }
  intros H. apply outcome_bind_ok in H as ([e p] & [Ho Hp]%read_entry_pos & H).
  apply outcome_bind_ok in H as (es' & Hes & H). injection H as <-.
  destruct (IH _ _ _ Hes) as [Hle Hnd]. cbn [fmap list_fmap]. rewrite Ho. split; constructor; [lia| | |done].
  - eapply Forall_impl; [exact Hle|]. cbn. intros z. lia.
  - intros Hin. pose proof (proj1 (Forall_forall _ _) Hle _ Hin) as Hlt. cbn in Hlt. lia.
Qed.

Section Sound.
Context (sha1 : bytes → bytes) (baseLookup : gostring → option RawObject).

(** The base of a delta: the object at the distance it gives, or an object of
    the pack or of the store with the name it gives. [at_] gives the objects
    by the offset of their entry. *)
Definition based (at_ : gmap Z RawObject) (e : rawPackEntry) (base : RawObject) : Prop :=
  if (objType e =? ObjOfsDelta)%Z then at_ !! baseOffset e = Some base
  else (OID base = baseOID e ∧ ∃ k, at_ !! k = Some base) ∨ baseLookup (baseOID e) = Some base.

(** The object an entry stands for. *)
Definition made (at_ : gmap Z RawObject) (e : rawPackEntry) (o : RawObject) : Prop :=
  if is_delta e then
    ∃ base t, based at_ e base ∧ applyDelta (Data base) (decompressed e) = Ok t ∧
              o = mkRawObject (Type_ base) t (ComputeOID sha1 (Type_ base) t)
  else o = whole_object sha1 e.

Lemma based_mono m m' e b : m ⊆ m' → based m e b → based m' e b.
Proof.
  intros Hs. unfold based. destruct (_ =? _)%Z; [intros ?; by eapply lookup_weaken|].
  intros [[Ho [k Hk]]|?]; [left|by right]. split; [done|]. exists k. by eapply lookup_weaken.
Qed.
Lemma made_mono m m' e o : m ⊆ m' → made m e o → made m' e o.
Proof.
  intros Hs. unfold made. destruct (is_delta e); [|done].
  intros (b & t & Hb & Ht). exists b, t. split; [by eapply based_mono|done].
Qed.

Record res_inv (es : list rawPackEntry) (st : resolved) : Prop := {
  ri_made k o : byOffset st !! k = Some o → ∃ e, e ∈ es ∧ offset e = k ∧ made (byOffset st) e o;
  ri_oid i o : byOID st !! i = Some o → OID o = i ∧ ∃ k, byOffset st !! k = Some o;
}.

Lemma res_inv_step es st e ty data :
  res_inv es st → e ∈ es → byOffset st !! offset e = None →
  made (byOffset st) e (mkRawObject ty data (ComputeOID sha1 ty data)) →
  res_inv es (resolve_as sha1 e ty data st).
Proof.
  intros [Hm Ho] He Hn Hmade.
  assert (Hsub : byOffset st ⊆ byOffset (resolve_as sha1 e ty data st)) by by apply insert_subseteq.
  split; cbn [resolve_as byOffset byOID] in *.
  - intros k o [[<- <-]|[_ Hk]]%lookup_insert_Some.
    + exists e. split; [done|]. split; [done|]. by eapply made_mono.
    + destruct (Hm k o Hk) as (e' & ? & ? & ?). exists e'. split; [done|]. split; [done|]. by eapply made_mono.
  - intros i o [[<- <-]|[_ Hi]]%lookup_insert_Some.
    + split; [done|]. exists (offset e). apply lookup_insert_eq.
    + destruct (Ho i o Hi) as (? & k & Hk). split; [done|]. exists k. by eapply lookup_weaken.
Qed.

Lemma find_base_based es e st b :
  res_inv es st → find_base baseLookup e st = Some b → based (byOffset st) e b.
Proof.
  intros [_ Ho]. unfold find_base, based. destruct (_ =? _)%Z; [done|].
  destruct (byOID st !! baseOID e) as [o|] eqn:E; [|by right].
  intros [= ->]. destruct (Ho _ _ E). by left.
Qed.

Lemma register_inv es all st :
  es ⊆ all → NoDup (offset <$> es) → (∀ e, e ∈ es → byOffset st !! offset e = None) →
  res_inv all st → res_inv all (foldl (register_whole sha1) st es).
Proof.
  revert st. induction es as [|e es IH]; intros st Hsub Hnd Hfresh Hinv; [done|]. cbn [foldl].
  cbn [fmap list_fmap] in Hnd. apply NoDup_cons in Hnd as [Hne Hnd].
  assert (He : byOffset st !! offset e = None) by (apply Hfresh; by left).
  apply IH; [intros x Hx; apply Hsub; by right|done| |].
  - intros e' He'. unfold register_whole. destruct (is_delta e); [apply Hfresh; by right|].
    cbn [resolve_as byOffset]. rewrite lookup_insert_ne; [apply Hfresh; by right|].
    intros E. apply Hne. rewrite E. by apply list_elem_of_fmap_2.
  - unfold register_whole. destruct (is_delta e) eqn:Ed; [done|].
    apply res_inv_step; [done|apply Hsub; by left|done|]. unfold made. by rewrite Ed.
Qed.

Lemma resolve_pass_inv es all acc acc' :
  es ⊆ all → res_inv all acc.2 → resolve_pass sha1 baseLookup es acc = Ok acc' → res_inv all acc'.2.
Proof.
  revert acc. induction es as [|e es IH]; intros acc Hsub Hinv; cbn [resolve_pass].
  { by intros [= <-]. }
  intros H. apply outcome_bind_ok in H as (acc1 & H1 & H).
  apply (IH acc1); [intros x Hx; apply Hsub; by right| |done].
  unfold resolve_entry in H1. destruct acc as [pr st]. destruct (is_delta e) eqn:Ed; cbn [negb] in H1;
    [|by injection H1 as <-].
  destruct (byOffset st !! offset e) eqn:En; [by injection H1 as <-|].
  destruct (find_base baseLookup e st) as [b|] eqn:Eb; [|by injection H1 as <-].
  apply outcome_bind_ok in H1 as (t & Ht & H1). injection H1 as <-. cbn [snd] in *.
  apply res_inv_step; [done|apply Hsub; by left|done|].
  unfold made. rewrite Ed. exists b, t. split; [by eapply find_base_based|]. split; [|done].
  destruct (applyDelta _ _); cbn in Ht; simplify_eq. done.
Qed.

Lemma resolve_passes_inv n es st st' :
  res_inv es st → resolve_passes sha1 baseLookup n es st = Ok st' → res_inv es st'.
Proof.
  revert st. induction n as [|n IH]; intros st Hinv; cbn [resolve_passes]; [by intros [= <-]|].
  intros H. apply outcome_bind_ok in H as ([pr st1] & H1 & H).
  pose proof (resolve_pass_inv es es (false, st) (pr, st1) ltac:(done) Hinv H1) as Hi. cbn [snd] in Hi.
  destruct (_ || _); [by injection H as <-|]. by apply (IH st1).
Qed.

(** When the table is as large as the list, every entry is in it. *)
Lemma all_resolved es st :
  res_inv es st → NoDup (offset <$> es) → length es ≤ size (byOffset st) →
  Forall2 (λ e o, byOffset st !! offset e = Some o ∧ made (byOffset st) e o) es
    (omap (λ e, byOffset st !! offset e) es).
Proof.
  intros Hinv Hnd Hsz.
  assert (Hdom : dom (byOffset st) ⊆ list_to_set (C := gset Z) (offset <$> es)).
  { intros k [o Hk]%elem_of_dom. destruct (ri_made es st Hinv k o Hk) as (e & He & <- & _).
    apply elem_of_list_to_set. by apply list_elem_of_fmap_2. }
  assert (Heq : dom (byOffset st) = list_to_set (C := gset Z) (offset <$> es)).
  { apply set_subseteq_size_eq; [done|].
    rewrite size_list_to_set, size_dom, length_fmap by done. done. }
  assert (Hall : ∀ e, e ∈ es → ∃ o, byOffset st !! offset e = Some o).
  { intros e He. apply elem_of_dom. rewrite Heq. apply elem_of_list_to_set. by apply list_elem_of_fmap_2. }
  assert (Huniq : ∀ e e', e ∈ es → e' ∈ es → offset e = offset e' → e = e').
  { intros e e' He He' E. apply list_elem_of_lookup in He as [i Hi], He' as [j Hj].
    assert (i = j) as ->; [|congruence].
    apply (NoDup_lookup (offset <$> es) i j (offset e) Hnd); rewrite list_lookup_fmap.
    - by rewrite Hi.
    - rewrite Hj. cbn. by rewrite E. }
  assert (Hsub : ∀ l, l ⊆ es → Forall2 (λ e o, byOffset st !! offset e = Some o ∧ made (byOffset st) e o) l
    (omap (λ e, byOffset st !! offset e) l)); [|by apply Hsub].
  induction l as [|e l IH]; intros Hl; [constructor|]. cbn [omap list_omap].
  assert (He : e ∈ es) by (apply Hl; by left).
  destruct (Hall e He) as [o Ho]. rewrite Ho. constructor; [|apply IH; intros x Hx; apply Hl; by right].
  split; [done|]. destruct (ri_made es st Hinv _ _ Ho) as (e' & He' & E & Hm).
  by rewrite (Huniq e e').
Qed.
End Sound.

(** An accepted packfile: the table of resolved objects and the entries it is read from. *)
Lemma ParsePackfile_table sha1 zo zr baseLookup (data : bytes) objs :
  ParsePackfileWithBase sha1 zo zr baseLookup data = Ok objs →
  ∃ es st, read_entries zo zr data (Z.to_nat (uint32_be (slice 8 12 data))) 0 12 = Ok es ∧
    objs = omap (λ e, byOffset st !! offset e) es ∧ res_inv sha1 baseLookup es st ∧
    NoDup (offset <$> es) ∧ length es ≤ size (byOffset st).
Proof.
  unfold ParsePackfileWithBase. intros H.
  destruct (length data <? 32); [done|]. destruct (negb _) in H; [done|].
  destruct (_ && _) in H; [done|].
  apply outcome_bind_ok in H as (es & Hes & H). apply outcome_bind_ok in H as (st & Hst & H).
  destruct (size (byOffset st) <? length es) eqn:Esz; [done|]. injection H as <-. bools.
  destruct (read_entries_offsets _ _ _ _ _ _ _ Hes) as [_ Hnd].
  exists es, st. split_and!; [done..| |done|done].
  eapply resolve_passes_inv; [|exact Hst]. apply register_inv; [done|done| |].
  - intros. apply lookup_empty.
  - split; intros ? ?; cbn; by rewrite lookup_empty.
Qed.

Lemma made_identified sha1 baseLookup at_ e o :
  made sha1 baseLookup at_ e o → OID o = ComputeOID sha1 (Type_ o) (Data o).
Proof. unfold made. destruct (is_delta e); [by intros (b & t & _ & _ & ->)|by intros ->]. Qed.

Lemma parsed_identified sha1 zo zr baseLookup data objs o :
  ParsePackfileWithBase sha1 zo zr baseLookup data = Ok objs → o ∈ objs →
  OID o = ComputeOID sha1 (Type_ o) (Data o).
Proof.
  intros (es & st & _ & -> & Hinv & _)%ParsePackfile_table (e & _ & He)%list_elem_of_omap.
  destruct (ri_made _ _ _ _ Hinv _ _ He) as (e' & _ & _ & Hm). by eapply made_identified.
Qed.

(** C32: Parsing drops and invents nothing: when a packfile is accepted, its entries and the returned
    objects correspond one to one, in order; a whole entry gives the object of its own type and data,
    a delta gives what applying it to its base gives, where the base is the object at the offset the
    delta names, or one of the pack or of the store with the identifier it names; every identifier is
    computed from the object's content. *)
Theorem packfile_objects_genuine sha1 zo zr baseLookup (data : bytes) objs :
  ParsePackfileWithBase sha1 zo zr baseLookup data = Ok objs →
  ∃ entries (at_ : gmap Z RawObject),
    read_entries zo zr data (Z.to_nat (uint32_be (slice 8 12 data))) 0 12 = Ok entries ∧
    Forall2 (λ e o, at_ !! offset e = Some o ∧ made sha1 baseLookup at_ e o) entries objs ∧
    ∀ o, o ∈ objs → OID o = ComputeOID sha1 (Type_ o) (Data o).
Proof.
  intros (es & st & Hes & -> & Hinv & Hnd & Hsz)%ParsePackfile_table.
  exists es, (byOffset st). split; [done|].
  pose proof (all_resolved _ _ _ _ Hinv Hnd Hsz) as Hall. split; [done|].
  intros o Ho. apply list_elem_of_lookup in Ho as [i Hi].
  destruct (Forall2_lookup_r _ _ _ _ _ Hall Hi) as (e & _ & _ & Hm). by eapply made_identified.
Qed.

(** An entry whose header is one byte and that is not a delta. *)
Lemma read_entry_small zo zr data i pos b ty :
  pos < length data - 20 → byte_at data pos = b → (Z.land b 128 =? 0)%Z = true →
  Z.land (Z.shiftr b 4) 7 = ty → ty ≠ ObjOfsDelta → ty ≠ ObjRefDelta →
  read_entry zo zr data i pos =
  if negb (zo (drop (S pos) data)) then Err (BadZlib pos)
  else match zr (drop (S pos) data) (Z.land b 15) with
       | None => Err (BadZlib pos)
       | Some (d, n) => Ok (mkEntry ty (Z.land b 15) (Z.of_nat pos) 0 [] d, S pos + n)
       end.
Proof.
  intros Hp Hb Hc Hty H6 H7. unfold read_entry.
  rewrite (proj2 (Nat.leb_gt _ _)) by lia. rewrite Hb, Hty.
  assert (∀ room shift size, read_size room data pos (S pos) shift size b = Ok (size, S pos)) as ->
    by (intros [|room] shift size; cbn [read_size]; by rewrite Hc).
  cbn [mbind outcome_bind]. unfold read_base.
  rewrite (proj2 (Z.eqb_neq _ _) H6), (proj2 (Z.eqb_neq _ _) H7). cbn [mbind outcome_bind].
  destruct (negb _); [done|]. assert (maxAlloc <? Z.land b 15 = false)%Z as ->; [|done].
  apply Z.ltb_ge. change 15%Z with (Z.ones 4). rewrite Z.land_ones by lia.
  pose proof (Z.mod_pos_bound b (2 ^ 4) ltac:(lia)). unfold maxAlloc. lia.
Qed.

(** The stream Go's zlib writes for no data: one empty stored block. *)
Definition empty_stream : bytes := z2b <$> [120; 156; 1; 0; 0; 255; 255; 0; 0; 0; 1]%Z.

(** An empty object makes the rest of its packfile unreadable. A read of zero bytes consumes only
    the two bytes of the zlib header, so the parser looks for the next object inside the empty
    object's stream, and a well-formed packfile with an empty file before another object is
    rejected. *)
Theorem empty_object_breaks_pack (sha1 deflate : bytes → bytes) (zlib_open : bytes → bool)
    (zlib_read : bytes → Z → option (bytes * nat)) baseLookup oid (o : RawObject) (objs : list RawObject) :
  (∀ d, length (sha1 d) = 20) →
  deflate [] = empty_stream →
  (∀ d rest, zlib_open (deflate d ++ rest) = true) →
  (∀ s, zlib_open ("000"%char :: s) = false) →
  (∀ s, zlib_open s = true → zlib_read s 0%Z = Some ([], 2)) →
  (Z.of_nat (length objs) + 2 < 2 ^ 32)%Z →
  ParsePackfileWithBase sha1 zlib_open zlib_read baseLookup
    (BuildPackfile sha1 deflate (mkRawObject ObjBlob [] oid :: o :: objs)) = Err (BadZlib 15).
Proof.
  intros Hsha Hdef Hopen Hbad Hread Hn. unfold BuildPackfile.
  set (body := #"PACK" ++ _). pose proof (Hsha body) as Htr. set (trailer := sha1 body) in *.
  clearbody trailer. subst body. rewrite <- !app_assoc.
  rewrite ParsePackfile_header by (rewrite ?length_app; cbn [length]; lia).
  cbn [fmap list_fmap concat Data]. rewrite Hdef.
  change (object_header (mkRawObject ObjBlob [] oid)) with ["048"%char].
  set (tail := (object_header o ++ deflate (Data o)) ++ _).
  assert (Htl : 1 ≤ length tail) by (subst tail; unfold object_header; rewrite !length_app; cbn; lia).
  clearbody tail. set (n := Z.of_nat _).
  replace (Z.to_nat n) with (S (S (length objs))) by (subst n; cbn [length]; lia). clearbody n.
  set (data := #"PACK" ++ be32 2 ++ be32 n ++ _).
  assert (Hdata : data = (#"PACK" ++ be32 2 ++ be32 n) ++ ["048"%char] ++ empty_stream ++ tail ++ trailer)
    by (subst data; by rewrite <- !app_assoc).
  assert (Hlen : length data = 24 + length tail + 20) by (rewrite Hdata, !length_app, Htr; cbn; lia).
  assert (H13 : drop 13 data = empty_stream ++ tail ++ trailer) by by rewrite Hdata.
  assert (H16 : ∃ s, drop 16 data = "000"%char :: s) by (eexists; by rewrite Hdata).
  assert (Hb12 : byte_at data 12 = 48%Z) by by rewrite Hdata.
  assert (Hb15 : byte_at data 15 = 1%Z) by by rewrite Hdata.
  clearbody data. clear Hdata. cbn [read_entries].
  assert (Ho : zlib_open (empty_stream ++ tail ++ trailer) = true) by by rewrite <- Hdef.
  rewrite (read_entry_small zlib_open zlib_read data 0 12 48 3) by (done || lia).
  rewrite H13, Ho. cbn [negb]. change (Z.land 48 15) with 0%Z. rewrite (Hread _ Ho).
  cbn [mbind outcome_bind Nat.add].
  rewrite (read_entry_small zlib_open zlib_read data 1 15 1 0) by (done || lia).
  destruct H16 as [s ->]. by rewrite Hbad.
Qed.

(** ** Witnesses

    Stand-ins for the standard library: a digest of twenty bytes, and a codec
    that stores the data as it is behind a two-byte header and, for no data,
    writes the stream Go writes. *)
Definition demo_sha1 (d : bytes) : bytes := take 20 (d ++ replicate 20 "x"%char).
Definition demo_header : bytes := z2b <$> [120; 156]%Z.
Definition demo_deflate (d : bytes) : bytes :=
  if bool_decide (d = []) then empty_stream else demo_header ++ d.
Definition demo_open (s : bytes) : bool := HasPrefix s demo_header.
Definition demo_read (s : bytes) (n : Z) : option (bytes * nat) :=
  let d := take (Z.to_nat n) (drop 2 s) in
  if (Z.of_nat (length d) <? n)%Z then None else Some (d, 2 + Z.to_nat n).

Lemma demo_sha1_length d : length (demo_sha1 d) = 20.
Proof. unfold demo_sha1. rewrite length_take, length_app, length_replicate. lia. Qed.
Lemma demo_open_deflate d rest : demo_open (demo_deflate d ++ rest) = true.
Proof.
  unfold demo_open, demo_deflate. case_bool_decide; [done|]. rewrite <- app_assoc. apply HasPrefix_app.
Qed.
Lemma demo_read_deflate d rest : settles d →
  demo_read (demo_deflate d ++ rest) (Z.of_nat (length d)) = Some (d, length (demo_deflate d)).
Proof.
  intros Hs. unfold demo_read, demo_deflate. case_bool_decide as E; [by subst|].
  rewrite <- app_assoc. change (drop 2 (demo_header ++ ?x)) with x.
  rewrite Nat2Z.id, take_app_length, Z.ltb_irrefl, length_app. done.
Qed.

Definition demo_objects : list RawObject :=
  [mkRawObject ObjBlob #"hello, pack" []; mkRawObject ObjCommit #"tree 00" []].

Lemma packfile_roundtrip_witness :
  let packfile := BuildPackfile demo_sha1 demo_deflate demo_objects in
  ExtractPackfileFromResponse (FormatSidebandPackfile packfile true [demo_oid "a"] true) = Some packfile ∧
  ParsePackfile demo_sha1 demo_open demo_read packfile = Ok (identified demo_sha1 <$> demo_objects).
Proof.
  destruct (packfile_roundtrip demo_sha1 demo_deflate demo_open demo_read (λ _, None) demo_objects
           true [demo_oid "a"] true demo_sha1_length demo_open_deflate demo_read_deflate) as [H1 H2].
  { repeat constructor. }
  split; [exact H1|]. apply H2.
  - repeat constructor; vm_compute; discriminate.
  - repeat constructor; vm_compute; discriminate.
  - cbn. lia.
Defined.

Lemma packfile_objects_genuine_witness :
  Forall (λ o, OID o = ComputeOID demo_sha1 (Type_ o) (Data o)) (identified demo_sha1 <$> demo_objects).
Proof.
  destruct (packfile_objects_genuine demo_sha1 demo_open demo_read (λ _, None)
    (BuildPackfile demo_sha1 demo_deflate demo_objects) (identified demo_sha1 <$> demo_objects))
    as (es & m & _ & _ & H); [vm_compute; reflexivity|apply Forall_forall; exact H].
Defined.

Lemma empty_object_breaks_pack_witness :
  ParsePackfile demo_sha1 demo_open demo_read
    (BuildPackfile demo_sha1 demo_deflate (mkRawObject ObjBlob [] [] :: demo_objects)) = Err (BadZlib 15).
Proof.
  apply (empty_object_breaks_pack demo_sha1 demo_deflate demo_open demo_read (λ _, None) []
           (mkRawObject ObjBlob #"hello, pack" []) [mkRawObject ObjCommit #"tree 00" []]).
  - apply demo_sha1_length.
  - reflexivity.
  - apply demo_open_deflate.
  - reflexivity.
  - intros s _. reflexivity.
  - cbn. lia.
Defined.
