(* ===== verification/RepoStore.v ===== *)
(** * The repository store (pkg/gitproxy/repocache.go)

    The objects and the commit graph of one repository: ingesting a packfile,
    the objects reachable from a commit, and the objects a fetch needs. The
    walks over trees and commits are instances of one worklist search. *)

From S2P Require Import Prelude GoStrings PktLine Delta Packfile.

(** ** Worklist search *)

(** Look at the successors of a node: those already visited or stopped at are
    passed over, the others are visited, and queued when [keep] says so. *)
Definition visit (stop keep : gostring → bool) (acc : list gostring * list gostring) (p : gostring)
    : list gostring * list gostring :=
  let '(push, visited) := acc in
  if mem p visited || stop p then acc
  else (if keep p then push ++ [p] else push, visited ++ [p]).

Definition grow (stop keep : gostring → bool) (succs visited : list gostring)
    : list gostring * list gostring := foldl (visit stop keep) ([], visited) succs.

(** [for len(queue) > 0 { curr := queue[0]; queue = queue[1:]; ... }] *)
Fixpoint search (step : gostring → list gostring → list gostring * list gostring)
    (fuel : nat) (queue visited : list gostring) : list gostring :=
  match queue, fuel with
  | [], _ | _, O => visited
  | x :: queue, S fuel =>
      let '(push, visited) := step x visited in
      search step fuel (queue ++ push) visited
  end.

(** ** The store *)

Record RepoStore := mkRepoStore {
  objects : gmap gostring RawObject;
  commits : gmap gostring CommitInfo;
  treeEntries : gmap gostring (list gostring);
  commitObjects : gmap gostring (list gostring);
  dir : gostring;
}.

Definition NewRepoStore (dir : gostring) : RepoStore := mkRepoStore ∅ ∅ ∅ ∅ dir.

Definition HasCommit (oid : gostring) (s : RepoStore) : bool :=
  bool_decide (is_Some (commits s !! oid)).

Definition HasAllCommits (oids : list gostring) (s : RepoStore) : bool :=
  negb (bool_decide (oids = [])) && forallb (λ oid, HasCommit oid s) oids.

Definition GetCommit (oid : gostring) (s : RepoStore) : option CommitInfo := commits s !! oid.

(** [a < b] on Go strings: bytewise. *)
Fixpoint string_le (a b : gostring) : bool :=
  match a, b with
  | [], _ => true
  | _, [] => false
  | x :: a, y :: b => (b2z x <? b2z y)%Z || (bool_decide (x = y) && string_le a b)
  end.
Fixpoint insert_sorted (x : gostring) (l : list gostring) : list gostring :=
  match l with
  | [] => [x]
  | y :: l' => if string_le x y then x :: l else y :: insert_sorted x l'
  end.
Definition sort_strings (l : list gostring) : list gostring := foldr insert_sorted [] l.
Definition GetKnownCommits (s : RepoStore) : list gostring := sort_strings (map_to_list (commits s)).*1.

(** *** Reachable objects *)

Definition is_tree (s : RepoStore) (oid : gostring) : bool :=
  match objects s !! oid with Some o => (Type_ o =? ObjTree)%Z | None => false end.
Definition children (s : RepoStore) (oid : gostring) : list gostring := default [] (treeEntries s !! oid).

(** A turn of the tree walk: [visited] and [objectList] hold the same names. *)
Definition tree_step (s : RepoStore) (treeOID : gostring) (visited : list gostring)
    : list gostring * list gostring :=
  grow (λ _, false) (is_tree s) (children s treeOID) (add_once treeOID visited).

(** Each turn after the first takes a tree object out of the unvisited ones. *)
Definition reachable_objects (s : RepoStore) (commit : CommitInfo) : list gostring :=
  if bool_decide (Tree commit = []) then [ci_OID commit]
  else search (tree_step s) (S (size (objects s))) [Tree commit] [ci_OID commit].

Definition computeReachableObjects (commit : CommitInfo) (s : RepoStore) : RepoStore :=
  mkRepoStore (objects s) (commits s) (treeEntries s)
    (<[ci_OID commit := reachable_objects s commit]> (commitObjects s)) (dir s).

(** *** Ingestion *)

Definition store_object (acc : list gostring * RepoStore) (obj : RawObject) : list gostring * RepoStore :=
  let '(newCommits, s) := acc in
  let objects' := <[OID obj := obj]> (objects s) in
  if (Type_ obj =? ObjTree)%Z then
    (newCommits, mkRepoStore objects' (commits s)
       (<[OID obj := ParseTreeEntries (Data obj)]> (treeEntries s)) (commitObjects s) (dir s))
  else if (Type_ obj =? ObjCommit)%Z then
    (newCommits ++ [OID obj],
     mkRepoStore objects' (<[OID obj := ParseCommitObject (OID obj) (Data obj)]> (commits s))
       (treeEntries s) (commitObjects s) (dir s))
  else (newCommits, mkRepoStore objects' (commits s) (treeEntries s) (commitObjects s) (dir s)).

(** The effect of a parsed packfile: store its objects, then recompute the
    reachable objects of every commit of the store. *)
Definition ingest_objects (objs : list RawObject) (s : RepoStore) : list gostring * RepoStore :=
  let '(newCommits, s) := foldl store_object ([], s) objs in
  (newCommits, foldl (λ s c, computeReachableObjects c s) s (map_to_list (commits s)).*2).

Section Ingest.
Context (sha1 : bytes → bytes) (zlib_open : bytes → bool) (zlib_read : bytes → Z → option (bytes * nat)).

Definition IngestPackfile (packData : bytes) (s : RepoStore)
    : outcome pack_err (list gostring * RepoStore) :=
  objs ← ParsePackfileWithBase sha1 zlib_open zlib_read (λ oid, objects s !! oid) packData;
  Ok (ingest_objects objs s).
End Ingest.

(** *** The objects of a fetch *)

Definition parents (s : RepoStore) (oid : gostring) : list gostring :=
  match commits s !! oid with Some c => Parents c | None => [] end.

Definition commit_step (s : RepoStore) (stop : gostring → bool) (curr : gostring)
    (visited : list gostring) : list gostring * list gostring :=
  grow stop (λ _, true) (parents s curr) visited.

(** The names a walk over the commits can come to. *)
Definition all_parents (s : RepoStore) : list gostring :=
  (map_to_list (commits s)).*2 ≫= Parents.

Definition excluded_commits (s : RepoStore) (haves : list gostring) : list gostring :=
  let acks := filter (λ h, HasCommit h s = true) haves in
  search (commit_step s (λ _, false)) (length acks + length (all_parents s)) acks acks.

Definition needed_commits (s : RepoStore) (excluded wants : list gostring) : list gostring :=
  let start := filter (λ w, mem w excluded = false) wants in
  search (commit_step s (λ p, mem p excluded)) (length start + length (all_parents s)) start start.

Definition objects_of (s : RepoStore) (commits : list gostring) : list gostring :=
  commits ≫= λ c, default [] (commitObjects s !! c).

(** [order] is the order in which the needed commits are ranged over. *)
Definition CollectObjectsForCommits (order : list gostring → list gostring) (wants haves : list gostring)
    (s : RepoStore) : list RawObject * list gostring :=
  let acks := filter (λ h, HasCommit h s = true) haves in
  let excluded := excluded_commits s haves in
  let needed := needed_commits s excluded wants in
  let haveObjects := objects_of s excluded in
  let final := dedup_from [] (filter (λ oid, mem oid haveObjects = false) (objects_of s (order needed))) in
  let final := if bool_decide (final = []) then dedup_from [] wants else final in
  (omap (λ oid, objects s !! oid) final, acks).

(** ** The stores by repository *)

Section Manager.
Context (sha256 : bytes → bytes).

Record RepoCacheManager := mkManager {
  stores : gmap gostring RepoStore;
  cacheDir : gostring;
}.

Definition NewRepoCacheManager (cacheDir : gostring) : RepoCacheManager := mkManager ∅ cacheDir.

(** The store of a repository, and the manager that now has it. *)
Definition GetRepoStore (repoID : gostring) (m : RepoCacheManager) : RepoStore * RepoCacheManager :=
  match stores m !! repoID with
  | Some s => (s, m)
  | None =>
      let repoDir := if bool_decide (cacheDir m = []) then []
                     else cacheDir m ++ #"/" ++ EncodeToString (take 8 (sha256 repoID)) in
      let s := NewRepoStore repoDir in
      (s, mkManager (<[repoID := s]> (stores m)) (cacheDir m))
  end.
End Manager.

(** ** Lemmas: the worklist search *)

Lemma grow_eq stop keep succs visited :
  let new := dedup_from visited (filter (λ p, stop p = false) succs) in
  grow stop keep succs visited = (filter (λ p, keep p = true) new, visited ++ new).
Proof.
  cbv zeta. unfold grow. rewrite <- (app_nil_l (filter _ (dedup_from _ _))).
  generalize (@nil gostring) as push. revert visited.
  induction succs as [|p succs IH]; intros visited push; cbn [foldl].
  { cbn. by rewrite !app_nil_r. }
  cbn [visit]. destruct (stop p) eqn:Es.
  { rewrite orb_true_r, IH. by rewrite filter_cons_False by congruence. }
  rewrite orb_false_r, filter_cons_True by done. cbn [dedup_from].
  destruct (mem p visited); [by rewrite IH|].
  rewrite IH, dedup_from_snoc, <- app_assoc. cbn [app].
  destruct (keep p) eqn:Ek.
  - by rewrite filter_cons_True, <- app_assoc.
  - by rewrite filter_cons_False by congruence.
Qed.

Section Search.
Context (succ : gostring → list gostring) (stop keep : gostring → bool).
Context (U : gset gostring) (in_U : ∀ x y, y ∈ succ x → keep y = true → y ∈ U).
Context (leaf : ∀ x, keep x = false → succ x = []).

Definition edge (x y : gostring) : Prop := y ∈ succ x ∧ stop y = false.
Definition closed_at (visited : list gostring) (x : gostring) : Prop := ∀ y, edge x y → y ∈ visited.
Definition new_nodes (x : gostring) (visited : list gostring) : list gostring :=
  dedup_from visited (filter (λ p, stop p = false) (succ x)).
Abbreviation step := (λ x visited, grow stop keep (succ x) visited).

Lemma elem_of_new_nodes x visited y : y ∈ new_nodes x visited ↔ edge x y ∧ y ∉ visited.
Proof. unfold new_nodes, edge. rewrite elem_of_dedup_from, list_elem_of_filter. tauto. Qed.

(** What is left to do. *)
Definition todo (queue visited : list gostring) : nat :=
  length queue + size (U ∖ list_to_set visited).

Lemma todo_step x queue visited :
  let push := filter (λ p, keep p = true) (new_nodes x visited) in
  todo (queue ++ push) (visited ++ new_nodes x visited) < todo (x :: queue) visited.
Proof using in_U.
  cbv zeta. set (new := new_nodes x visited). set (push := filter _ new).
  unfold todo. rewrite length_app. cbn [length].
  assert (Hnd : NoDup push) by (apply NoDup_filter, NoDup_dedup_from).
  assert (Hpush : ∀ y, y ∈ push → y ∈ U ∧ y ∉ visited ∧ y ∈ new).
  { intros y [Hk Hy]%list_elem_of_filter. pose proof (proj1 (elem_of_new_nodes _ _ _) Hy) as [[? _] ?].
    split; [by eapply in_U|done]. }
  rewrite <- (size_list_to_set (C := gset gostring) push) by done.
  enough (size (list_to_set push ∪ U ∖ list_to_set (visited ++ new)) ≤ size (U ∖ list_to_set visited)) as H.
  { rewrite size_union in H; [lia|]. intros y Hy%elem_of_list_to_set Hy'.
    apply Hpush in Hy as (_ & _ & Hy). apply elem_of_difference in Hy' as [_ Hy'].
    apply Hy'. apply elem_of_list_to_set, elem_of_app. by right. }
  apply subseteq_size. intros y [Hy%elem_of_list_to_set|Hy]%elem_of_union.
  - apply Hpush in Hy as (? & ? & _). apply elem_of_difference. split; [done|].
    by rewrite elem_of_list_to_set.
  - apply elem_of_difference in Hy as [? Hy]. apply elem_of_difference. split; [done|].
    intros Hv%elem_of_list_to_set. apply Hy, elem_of_list_to_set, elem_of_app. by left.
Qed.

Lemma search_sound f queue visited y :
  y ∈ search step f queue visited → y ∈ visited ∨ ∃ x, x ∈ queue ∧ rtc edge x y.
Proof.
  revert queue visited. induction f as [|f IH]; intros queue visited; destruct queue as [|x queue];
    cbn [search]; [by left..|]. rewrite grow_eq. fold (new_nodes x visited).
  intros [Hy|(z & Hz & Hr)]%IH.
  - apply elem_of_app in Hy as [Hy|[He _]%elem_of_new_nodes]; [by left|right].
    exists x. split; [by left|by apply rtc_once].
  - right. apply elem_of_app in Hz as [Hz|Hz]; [exists z; split; [by right|done]|].
    apply list_elem_of_filter in Hz as [_ [He _]%elem_of_new_nodes].
    exists x. split; [by left|]. by eapply rtc_l.
Qed.

Lemma search_complete f queue visited :
  todo queue visited ≤ f → queue ⊆ visited →
  (∀ x, x ∈ visited → x ∈ queue ∨ closed_at visited x) →
  let result := search step f queue visited in
  visited ⊆ result ∧ ∀ x, x ∈ result → closed_at result x.
Proof using in_U leaf.
  cbv zeta. revert queue visited. induction f as [|f IH]; intros queue visited Hf Hq Hc;
    destruct queue as [|x queue]; cbn [search].
  - split; [done|]. intros z Hz. by destruct (Hc z Hz) as [?%elem_of_nil|?].
  - unfold todo in Hf. cbn in Hf. lia.
  - split; [done|]. intros z Hz. by destruct (Hc z Hz) as [?%elem_of_nil|?].
  - rewrite grow_eq. fold (new_nodes x visited).
    pose proof (todo_step x queue visited) as Ht. cbv zeta in Ht.
    destruct (IH (queue ++ filter (λ p, keep p = true) (new_nodes x visited))
                 (visited ++ new_nodes x visited)) as [Hsub Hcl]; [lia|..].
    + intros z [Hz|[_ Hz]%list_elem_of_filter]%elem_of_app; apply elem_of_app; [left|by right].
      apply Hq. by right.
    + assert (Hmono : ∀ z, closed_at visited z → closed_at (visited ++ new_nodes x visited) z)
        by (intros z Hz y Hy; apply elem_of_app; left; by apply Hz).
      intros z [Hz|Hz]%elem_of_app.
      * destruct (Hc z Hz) as [[-> | Hz']%elem_of_cons|Hz']; [right| |right; by apply Hmono].
        -- intros y Hy. apply elem_of_app. destruct (decide (y ∈ visited)); [by left|right].
           by apply elem_of_new_nodes.
        -- left. apply elem_of_app. by left.
      * destruct (keep z) eqn:Ek.
        -- left. apply elem_of_app. right. by apply list_elem_of_filter.
        -- right. intros y [Hy _]. rewrite leaf in Hy by done. by apply elem_of_nil in Hy.
    + split; [|done]. intros z Hz. apply Hsub, elem_of_app. by left.
Qed.

(** With enough fuel the search finds what it was given and everything that
    can be reached from the queue. *)
Lemma search_spec f queue visited y :
  todo queue visited ≤ f → queue ⊆ visited →
  (∀ x, x ∈ visited → x ∈ queue ∨ closed_at visited x) →
  y ∈ search step f queue visited ↔ y ∈ visited ∨ ∃ x, x ∈ queue ∧ rtc edge x y.
Proof using in_U leaf.
  intros Hf Hq Hc. split; [apply search_sound|].
  destruct (search_complete f queue visited Hf Hq Hc) as [Hsub Hcl].
  intros [Hy|(x & Hx & Hr)]; [by apply Hsub|].
  assert (Hxr : x ∈ search step f queue visited) by by apply Hsub, Hq.
  clear Hx. induction Hr as [x|x z y Hxz _ IH]; [done|]. apply IH. by apply (Hcl x).
Qed.

Lemma search_NoDup f queue visited : NoDup visited → NoDup (search step f queue visited).
Proof.
  revert queue visited. induction f as [|f IH]; intros queue visited Hnd; destruct queue as [|x queue];
    cbn [search]; [done..|]. rewrite grow_eq. apply IH. apply NoDup_app. split_and!; [done| |].
  - intros y Hy Hn. apply elem_of_dedup_from in Hn as [_ Hn]. done.
  - apply NoDup_dedup_from.
Qed.
End Search.

(** ** Lemmas: the index of the store *)

Definition commit_of (k : gostring) (o : RawObject) : option CommitInfo :=
  if (Type_ o =? ObjCommit)%Z then Some (ParseCommitObject k (Data o)) else None.
Definition tree_of (o : RawObject) : option (list gostring) :=
  if (Type_ o =? ObjTree)%Z then Some (ParseTreeEntries (Data o)) else None.

(** The commit and tree tables are functions of the objects. *)
Record indexed (s : RepoStore) : Prop := {
  ix_oid k o : objects s !! k = Some o → OID o = k;
  ix_commits k : commits s !! k = objects s !! k ≫= commit_of k;
  ix_trees k : treeEntries s !! k = objects s !! k ≫= tree_of;
}.

(** No two different objects with one name: SHA-1 has not collided. *)
Definition coherent (objs : list RawObject) (s : RepoStore) : Prop :=
  ∀ o o', o ∈ objs → (o' ∈ objs ∨ objects s !! OID o = Some o') → OID o' = OID o → o' = o.

Lemma store_object_fields nc s o :
  let s' := (store_object (nc, s) o).2 in
  objects s' = <[OID o := o]> (objects s) ∧
  commits s' = match commit_of (OID o) o with
               | Some c => <[OID o := c]> (commits s) | None => commits s end ∧
  treeEntries s' = match tree_of o with
                   | Some l => <[OID o := l]> (treeEntries s) | None => treeEntries s end ∧
  commitObjects s' = commitObjects s.
Proof.
  unfold store_object, commit_of, tree_of.
  destruct (Type_ o =? ObjTree)%Z eqn:Et; [|by destruct (Type_ o =? ObjCommit)%Z].
  apply Z.eqb_eq in Et. by rewrite Et.
Qed.

Lemma store_object_indexed nc s o :
  indexed s → (∀ o', objects s !! OID o = Some o' → o' = o) → indexed (store_object (nc, s) o).2.
Proof.
  intros [H1 H2 H3] Hc. destruct (store_object_fields nc s o) as (E1 & E2 & E3 & _). cbv zeta in *.
  assert (Hold : ∀ (B : Type) (f : RawObject → option B),
    f o = None → objects s !! OID o ≫= f = None).
  { intros B f Hf. destruct (objects s !! OID o) as [o'|] eqn:E; [|done].
    cbn. by rewrite (Hc o' eq_refl). }
  split; [intros k o'|intros k..]; rewrite ?E1, ?E2, ?E3.
  - intros [[<- <-]|[_ Hk]]%lookup_insert_Some; [done|by apply H1].
  - destruct (decide (OID o = k)) as [<-|Hne].
    + rewrite lookup_insert_eq. cbn. destruct (commit_of (OID o) o) eqn:Ec; [by rewrite lookup_insert_eq|].
      rewrite H2. by apply Hold.
    + rewrite lookup_insert_ne by done. destruct (commit_of (OID o) o); [by rewrite lookup_insert_ne|done].
  - destruct (decide (OID o = k)) as [<-|Hne].
    + rewrite lookup_insert_eq. cbn. destruct (tree_of o) eqn:Ec; [by rewrite lookup_insert_eq|].
      rewrite H3. by apply Hold.
    + rewrite lookup_insert_ne by done. destruct (tree_of o); [by rewrite lookup_insert_ne|done].
Qed.

Lemma store_objects_indexed objs nc s :
  indexed s → coherent objs s → indexed (foldl store_object (nc, s) objs).2.
Proof.
  revert nc s. induction objs as [|o objs IH]; intros nc s Hi Hc; [done|]. cbn [foldl].
  pose proof (store_object_indexed nc s o Hi) as Hi'.
  pose proof (store_object_fields nc s o) as (E1 & _). cbv zeta in E1.
  destruct (store_object (nc, s) o) as [nc' s'] eqn:Es. cbn [snd] in *.
  apply IH.
  - apply Hi'. intros o' Ho'. apply (Hc o o'); [by left|by right|]. by apply (ix_oid s Hi).
  - intros x x' Hx Hx' E. apply (Hc x x'); [by right| |done].
    destruct Hx' as [Hx'|Hx']; [left; by right|]. rewrite E1 in Hx'.
    apply lookup_insert_Some in Hx' as [[_ <-]|[_ Hx']]; [left; by left|by right].
Qed.

(** Recomputing touches only the table of reachable objects. *)
Lemma recompute_fields (l : list CommitInfo) s :
  let s' := foldl (λ s c, computeReachableObjects c s) s l in
  objects s' = objects s ∧ commits s' = commits s ∧ treeEntries s' = treeEntries s.
Proof.
  cbv zeta. revert s. induction l as [|c l IH]; intros s; [done|]. cbn [foldl].
  destruct (IH (computeReachableObjects c s)) as (-> & -> & ->). done.
Qed.

Lemma reachable_objects_ext s s' c :
  objects s' = objects s → treeEntries s' = treeEntries s →
  reachable_objects s' c = reachable_objects s c.
Proof.
  intros Ho Ht. unfold reachable_objects. rewrite Ho. destruct (bool_decide _); [done|].
  generalize (S (size (objects s))), [Tree c], [ci_OID c]. intros f. induction f as [|f IH]; intros q v;
    destruct q as [|x q]; cbn [search]; [done..|].
  assert (tree_step s' x v = tree_step s x v) as ->; [|destruct (tree_step s x v); apply IH].
  unfold tree_step, children, is_tree. by rewrite Ho, Ht.
Qed.

Lemma recompute_reachable (l : list CommitInfo) s c :
  c ∈ l → (∀ c', c' ∈ l → ci_OID c' = ci_OID c → c' = c) →
  commitObjects (foldl (λ s c, computeReachableObjects c s) s l) !! ci_OID c = Some (reachable_objects s c).
Proof.
  revert s. induction l as [|c0 l IH] using rev_ind; intros s Hc Hu; [by apply elem_of_nil in Hc|].
  rewrite foldl_app. cbn [foldl]. set (s1 := foldl _ s l).
  destruct (recompute_fields l s) as (Ho & _ & Ht). fold s1 in Ho, Ht. cbv zeta in Ho, Ht.
  unfold computeReachableObjects at 1. cbn [commitObjects].
  destruct (decide (ci_OID c0 = ci_OID c)) as [E|Hne].
  - rewrite (Hu c0) by (done || (apply elem_of_app; right; by apply list_elem_of_singleton)).
    rewrite lookup_insert_eq. f_equal. by apply reachable_objects_ext.
  - rewrite lookup_insert_ne by done. apply IH.
    + apply elem_of_app in Hc as [Hc|Hc%list_elem_of_singleton]; [done|by subst].
    + intros c' Hc'. apply Hu. apply elem_of_app. by left.
Qed.

Lemma foldl_commit_line_OID lines info : ci_OID (foldl commit_line info lines) = ci_OID info.
Proof.
  revert info. induction lines as [|l lines IH]; intros info; [done|]. cbn [foldl]. rewrite IH.
  unfold commit_line. destruct (HasPrefix l #"tree "); [done|].
  destruct (HasPrefix l #"parent "); [by case_bool_decide|]. by destruct (HasPrefix l #"author ").
Qed.

Lemma ParseCommitObject_OID k data : ci_OID (ParseCommitObject k data) = k.
Proof. unfold ParseCommitObject. by rewrite foldl_commit_line_OID. Qed.

(** ** Invariant of the store *)

Record store_wf (s : RepoStore) : Prop := {
  wf_indexed : indexed s;
  wf_reach c info : commits s !! c = Some info →
    commitObjects s !! c = Some (reachable_objects s info);
}.

Lemma commit_oid s c info : indexed s → commits s !! c = Some info → ci_OID info = c.
Proof.
  intros Hi Hc. rewrite (ix_commits s Hi) in Hc. apply bind_Some in Hc as (o & _ & Hc).
  unfold commit_of in Hc. destruct (_ =? _)%Z; [|done]. injection Hc as <-. apply ParseCommitObject_OID.
Qed.

Lemma ingest_wf objs s :
  store_wf s → coherent objs s → store_wf (ingest_objects objs s).2.
Proof.
  intros [Hi Hr] Hc. unfold ingest_objects.
  pose proof (store_objects_indexed objs [] s Hi Hc) as Hi1.
  destruct (foldl store_object ([], s) objs) as [nc s1]. cbn [snd] in *.
  set (l := (map_to_list (commits s1)).*2). destruct (recompute_fields l s1) as (Ho & Hcm & Ht).
  set (s2 := foldl _ s1 l) in *. cbv zeta in *. split.
  - destruct Hi1 as [I1 I2 I3]. split; [intros k o|intros k..]; rewrite ?Ho, ?Hcm, ?Ht; auto.
  - intros c info Hc2. rewrite Hcm in Hc2. pose proof (commit_oid s1 c info Hi1 Hc2) as Hoid.
    rewrite (reachable_objects_ext s1 s2) by done. rewrite <- Hoid.
    assert (Hl : ∀ c', c' ∈ l ↔ ∃ k, commits s1 !! k = Some c').
    { intros c'. subst l. rewrite list_elem_of_fmap. split.
      - intros ([k x] & -> & Hx). exists k. by apply elem_of_map_to_list.
      - intros [k Hk]. exists (k, c'). split; [done|]. by apply elem_of_map_to_list. }
    apply recompute_reachable; [apply Hl; by exists c|].
    intros c' [k Hk]%Hl E. rewrite (commit_oid s1 k c' Hi1 Hk) in E. subst k. congruence.
Qed.

(** ** Lemmas: reachable objects *)

(** [y] is an entry of the stored tree [x]. *)
Definition tree_edge (s : RepoStore) (x y : gostring) : Prop :=
  ∃ o, objects s !! x = Some o ∧ Type_ o = ObjTree ∧ y ∈ ParseTreeEntries (Data o).

Lemma children_edge s x y : indexed s → y ∈ children s x ↔ tree_edge s x y.
Proof.
  intros Hi. unfold children, tree_edge. rewrite (ix_trees s Hi).
  destruct (objects s !! x) as [o|]; cbn.
  - unfold tree_of. destruct (Type_ o =? ObjTree)%Z eqn:E; bools; cbn.
    + split; [by exists o|]. by intros (? & [= <-] & _ & ?).
    + split; [by intros ?%elem_of_nil|]. intros (? & [= <-] & ? & _). done.
  - split; [by intros ?%elem_of_nil|]. by intros (? & ? & _).
Qed.

Lemma children_leaf s x : indexed s → is_tree s x = false → children s x = [].
Proof.
  intros Hi Hx. unfold children, is_tree in *. rewrite (ix_trees s Hi).
  destruct (objects s !! x) as [o|]; cbn; [|done]. unfold tree_of. by rewrite Hx.
Qed.

Definition tree_search_step (s : RepoStore) (x : gostring) (visited : list gostring) :=
  grow (λ _, false) (is_tree s) (children s x) visited.

(** After the root, a queued tree has been visited already. *)
Lemma tree_step_search s f queue visited :
  queue ⊆ visited → search (tree_step s) f queue visited = search (tree_search_step s) f queue visited.
Proof.
  revert queue visited. induction f as [|f IH]; intros queue visited Hq; destruct queue as [|x queue];
    cbn [search]; [done..|].
  unfold tree_step, tree_search_step, add_once.
  rewrite (proj2 (mem_true x visited)) by (apply Hq; by left). rewrite grow_eq.
  apply IH. intros y [Hy|[_ Hy]%list_elem_of_filter]%elem_of_app; apply elem_of_app; [left|by right].
  apply Hq. by right.
Qed.

Lemma tree_search_root s f root visited :
  search (tree_step s) (S f) [root] visited
  = search (tree_search_step s) (S f) [root] (add_once root visited).
Proof.
  rewrite <- tree_step_search.
  - cbn [search]. unfold tree_step.
    assert (add_once root (add_once root visited) = add_once root visited) as ->; [|done].
    unfold add_once. destruct (mem root visited) eqn:E; [by rewrite E|].
    rewrite (proj2 (mem_true root (visited ++ [root]))); [done|].
    apply elem_of_app. right. by apply list_elem_of_singleton.
  - intros x ->%list_elem_of_singleton. unfold add_once. destruct (mem root visited) eqn:E; [by bools|].
    apply elem_of_app. right. by apply list_elem_of_singleton.
Qed.

Lemma rtc_iff {A} (R R' : A → A → Prop) x y : (∀ a b, R a b ↔ R' a b) → rtc R x y ↔ rtc R' x y.
Proof.
  intros H. split; intros Hr; (induction Hr as [|a b c Hab _ IH]; [apply rtc_refl|]);
    (eapply rtc_l; [by apply H|done]).
Qed.

Lemma reachable_objects_spec s c info x :
  indexed s → commits s !! c = Some info →
  x ∈ reachable_objects s info ↔ x = c ∨ (Tree info ≠ [] ∧ rtc (tree_edge s) (Tree info) x).
Proof.
  intros Hi Hc. pose proof (commit_oid s c info Hi Hc) as Hoid. unfold reachable_objects.
  case_bool_decide as Et; rewrite Hoid; [rewrite list_elem_of_singleton; tauto|].
  rewrite tree_search_root. set (r := Tree info) in *.
  assert (Hcc : children s c = []).
  { apply children_leaf; [done|]. rewrite (ix_commits s Hi) in Hc.
    apply bind_Some in Hc as (o & Ho & Hc). unfold is_tree. rewrite Ho. unfold commit_of in Hc.
    destruct (Type_ o =? ObjCommit)%Z eqn:E; [|done]. bools. by rewrite E. }
  assert (Hel : ∀ y, y ∈ add_once r [c] ↔ y = c ∨ y = r).
  { intros y. unfold add_once. destruct (mem r [c]) eqn:E; bools.
    - apply list_elem_of_singleton in E. rewrite list_elem_of_singleton. naive_solver.
    - rewrite elem_of_app, !list_elem_of_singleton. done. }
  unfold tree_search_step.
  rewrite (search_spec (children s) (λ _, false) (is_tree s) (dom (objects s))).
  - rewrite Hel. setoid_rewrite list_elem_of_singleton.
    assert (He : ∀ y, rtc (edge (children s) (λ _, false)) r y ↔ rtc (tree_edge s) r y).
    { intros y. apply rtc_iff. intros a b. unfold edge. rewrite children_edge by done. naive_solver. }
    split.
    + intros [[-> | ->]|(? & -> & Hr)]; [by left|right; split; [done|apply rtc_refl]|right].
      split; [done|by apply He].
    + intros [-> |[_ Hr]]; [by left; left|right]. exists r. split; [done|by apply He].
  - intros a b _ Hk. unfold is_tree in Hk. destruct (objects s !! b) eqn:E; [|done].
    apply elem_of_dom. by eexists.
  - intros a Ha. by apply children_leaf.
  - unfold todo. cbn [length]. rewrite <- size_dom.
    pose proof (subseteq_size (dom (objects s) ∖ list_to_set (add_once r [c])) (dom (objects s))
      (subseteq_difference_l _ _ _ (reflexivity _))). lia.
  - intros y ->%list_elem_of_singleton. apply Hel. by right.
  - intros y [-> | ->]%Hel; [right|left; by apply list_elem_of_singleton].
    intros z [Hz _]. rewrite Hcc in Hz. by apply elem_of_nil in Hz.
Qed.

Lemma reachable_objects_NoDup s info : NoDup (reachable_objects s info).
Proof.
  unfold reachable_objects. case_bool_decide; [apply NoDup_singleton|].
  rewrite tree_search_root. apply search_NoDup. unfold add_once.
  destruct (mem _ _) eqn:E; [apply NoDup_singleton|]. bools. apply NoDup_app. split_and!.
  - apply NoDup_singleton.
  - intros x ->%list_elem_of_singleton Hx%list_elem_of_singleton. apply E. by apply list_elem_of_singleton.
  - apply NoDup_singleton.
Qed.

(** ** Lemmas: the commits of a fetch *)

Definition parent_edge (s : RepoStore) (x y : gostring) : Prop := y ∈ parents s x.

Lemma parents_known s x y : y ∈ parents s x → y ∈ all_parents s.
Proof.
  unfold parents, all_parents. destruct (commits s !! x) as [c|] eqn:E; [|by intros ?%elem_of_nil].
  intros Hy. apply list_elem_of_bind. exists c. split; [done|]. apply list_elem_of_fmap.
  exists (x, c). split; [done|]. by apply elem_of_map_to_list.
Qed.

Lemma commit_search s stop start y :
  (∀ x, x ∈ start → stop x = false) →
  y ∈ search (commit_step s stop) (length start + length (all_parents s)) start start ↔
  ∃ x, x ∈ start ∧ rtc (λ a b, parent_edge s a b ∧ stop b = false) x y.
Proof.
  intros Hstop. unfold commit_step.
  rewrite (search_spec (parents s) stop (λ _, true) (list_to_set (all_parents s))).
  - split; [|by right]. intros [Hy|?]; [|done]. exists y. split; [done|apply rtc_refl].
  - intros a b Hb _. apply elem_of_list_to_set. by eapply parents_known.
  - done.
  - unfold todo. apply Nat.add_le_mono_l.
    set (U := list_to_set (all_parents s) : gset gostring).
    transitivity (size U); [apply subseteq_size; set_solver|].
    unfold size, set_size. cbn. apply submseteq_length, NoDup_submseteq; [apply NoDup_elements|].
    intros x Hx%elem_of_elements. by apply elem_of_list_to_set in Hx.
  - done.
  - intros x Hx. by left.
Qed.

Definition reaches (s : RepoStore) (from : list gostring) (c : gostring) : Prop :=
  ∃ x, x ∈ from ∧ rtc (parent_edge s) x c.

Lemma excluded_commits_spec s haves c :
  c ∈ excluded_commits s haves ↔ reaches s (filter (λ h, HasCommit h s = true) haves) c.
Proof.
  unfold excluded_commits, reaches. rewrite commit_search by done.
  split; intros (x & Hx & Hr); exists x; (split; [done|]); eapply rtc_iff; try exact Hr;
    intros a b; naive_solver.
Qed.

Lemma needed_commits_spec s excluded wants c :
  (∀ a b, a ∈ excluded → parent_edge s a b → b ∈ excluded) →
  c ∈ needed_commits s excluded wants ↔ c ∉ excluded ∧ reaches s wants c.
Proof.
  intros Hcl. unfold needed_commits, reaches. rewrite commit_search.
  2:{ by intros x [? _]%list_elem_of_filter. }
  assert (Hanc : ∀ x y, rtc (parent_edge s) x y → x ∈ excluded → y ∈ excluded).
  { intros x y Hr. induction Hr as [|a b z Hab _ IH]; [done|]. intros Ha. by eapply IH, Hcl. }
  split.
  - intros (x & [Hx Hw]%list_elem_of_filter & Hr). bools. split.
    + clear Hw. induction Hr as [|a b z [_ Hb] _ IH]; [done|]. apply IH. by bools.
    + exists x. split; [done|]. clear Hx Hw.
      induction Hr as [|a b z [Hab _] _ IH]; [apply rtc_refl|by eapply rtc_l].
  - intros (Hc & x & Hx & Hr). exists x. split.
    + apply list_elem_of_filter. split; [|done]. apply mem_false. intros He. by apply Hc, (Hanc x).
    + clear Hx. induction Hr as [|a b z Hab Hbz IH]; [apply rtc_refl|].
      eapply rtc_l; [split; [done|]|by apply IH]. apply mem_false. intros He. by apply Hc, (Hanc b).
Qed.

(** ** Properties *)

(** The stores a run of ingestions leads to, as long as no two different
    objects have one name. *)
Inductive store_reachable (sha1 : bytes → bytes) (zlib_open : bytes → bool)
    (zlib_read : bytes → Z → option (bytes * nat)) : RepoStore → Prop :=
  | sr_new dir : store_reachable sha1 zlib_open zlib_read (NewRepoStore dir)
  | sr_ingest s data nc s' :
      store_reachable sha1 zlib_open zlib_read s →
      (∀ objs, ParsePackfileWithBase sha1 zlib_open zlib_read (λ oid, objects s !! oid) data = Ok objs →
               coherent objs s) →
      IngestPackfile sha1 zlib_open zlib_read data s = Ok (nc, s') →
      store_reachable sha1 zlib_open zlib_read s'.

Lemma store_reachable_wf sha1 zo zr s : store_reachable sha1 zo zr s → store_wf s.
Proof.
  induction 1 as [dir|s data nc s' _ IH Hc Hi].
  - split; [split|]; intros *; cbn; by rewrite ?lookup_empty.
  - unfold IngestPackfile in Hi. apply outcome_bind_ok in Hi as (objs & Hp & Hi).
    injection Hi as Hi. pose proof (ingest_wf objs s IH (Hc objs Hp)) as Hwf. by rewrite Hi in Hwf.
Qed.

(** C20: In every store that a run of ingestions leads to, what is recorded for a known commit is,
    without repetition, exactly the commit and everything that can be reached from its tree through
    the entries of stored trees; the breadth-first walk never runs out of turns, whatever cycles,
    missing objects or submodules the trees hold. *)
Theorem reachable_objects_exact sha1 zlib_open zlib_read s c info :
  store_reachable sha1 zlib_open zlib_read s → commits s !! c = Some info →
  ∃ l, commitObjects s !! c = Some l ∧ NoDup l ∧
    ∀ x, x ∈ l ↔ x = c ∨ (Tree info ≠ [] ∧ rtc (tree_edge s) (Tree info) x).
Proof.
  intros [Hi Hr]%store_reachable_wf Hc. exists (reachable_objects s info). split_and!.
  - by apply Hr.
  - apply reachable_objects_NoDup.
  - intros x. by apply reachable_objects_spec.
Qed.

(** An object recorded for a commit that can be reached from some commits. *)
Definition covered (s : RepoStore) (from : list gostring) (oid : gostring) : Prop :=
  ∃ c, reaches s from c ∧ oid ∈ default [] (commitObjects s !! c).

(** C19: A fetch is answered with what the client lacks, all of it and nothing else: the acknowledged
    commits are the client's that the store knows; every stored object that a wanted commit or an
    ancestor of it covers is sent unless an acknowledged commit covers it; and, unless nothing is
    lacking (then the wanted commits themselves are sent), every object sent is one of these. The
    answer has these properties whichever order the needed commits are ranged over. *)
Theorem collect_objects_spec (order : list gostring → list gostring) wants haves s objs acks :
  (∀ l x, x ∈ order l ↔ x ∈ l) →
  CollectObjectsForCommits order wants haves s = (objs, acks) →
  acks = filter (λ h, HasCommit h s = true) haves ∧
  (∀ oid o, covered s wants oid → ¬ covered s acks oid → objects s !! oid = Some o → o ∈ objs) ∧
  ((∃ oid, covered s wants oid ∧ ¬ covered s acks oid) →
   ∀ o, o ∈ objs → ∃ oid, objects s !! oid = Some o ∧ covered s wants oid ∧ ¬ covered s acks oid) ∧
  ((¬ ∃ oid, covered s wants oid ∧ ¬ covered s acks oid) →
   objs = omap (λ oid, objects s !! oid) (dedup_from [] wants)).
Proof.
  intros Hord. unfold CollectObjectsForCommits. set (ak := filter _ haves).
  set (exc := excluded_commits s haves). set (need := needed_commits s exc wants).
  set (final := dedup_from [] _). intros [= <- <-].
  assert (Hexc : ∀ c, c ∈ exc ↔ reaches s ak c) by apply excluded_commits_spec.
  assert (Hcl : ∀ a b, a ∈ exc → parent_edge s a b → b ∈ exc).
  { intros a b (x & Hx & Hr)%Hexc Hab. apply Hexc. exists x. split; [done|]. by eapply rtc_r. }
  assert (Hneed : ∀ c, c ∈ need ↔ c ∉ exc ∧ reaches s wants c)
    by (intros c; by apply needed_commits_spec).
  assert (Hhave : ∀ oid, oid ∈ objects_of s exc ↔ covered s ak oid).
  { intros oid. unfold objects_of, covered. rewrite list_elem_of_bind. setoid_rewrite Hexc. naive_solver. }
  assert (Hfin : ∀ oid, oid ∈ final ↔ covered s wants oid ∧ ¬ covered s ak oid).
  { intros oid. subst final. rewrite elem_of_dedup_from, list_elem_of_filter, mem_false, Hhave.
    unfold objects_of. rewrite list_elem_of_bind. setoid_rewrite Hord.
    setoid_rewrite Hneed. setoid_rewrite Hexc. split.
    - intros [[Hn (c & Hin & _ & Hr)] _]. split; [by exists c|done].
    - intros [(c & Hr & Hin) Hn]. split; [|by intros ?%elem_of_nil]. split; [done|].
      exists c. split; [done|]. split; [|done]. intros He. apply Hn. by exists c. }
  split; [done|]. destruct final as [|f0 fl] eqn:Ef.
  - rewrite bool_decide_eq_true_2 by done.
    assert (Hnone : ¬ ∃ oid, covered s wants oid ∧ ¬ covered s ak oid)
      by (intros [oid Ho]; by apply Hfin, elem_of_nil in Ho).
    split_and!; [|by intros ?|done]. intros oid o Hw Hn _. destruct Hnone. by exists oid.
  - rewrite bool_decide_eq_false_2 by done. split_and!.
    + intros oid o Hw Hn Ho. apply list_elem_of_omap. exists oid. split; [by apply Hfin|done].
    + intros _ o (oid & Hin & Ho)%list_elem_of_omap. exists oid. split; [done|]. by apply Hfin.
    + intros Hnone. destruct Hnone. exists f0. apply Hfin. by left.
Qed.

(** Knowing a commit is not having its objects: once a packfile with a lone commit object is
    ingested, the store reports the commit as present, while every other object it lacked, the
    commit's tree included, is still missing. *)
Theorem has_commit_without_tree (o : RawObject) (s : RepoStore) :
  Type_ o = ObjCommit →
  let s' := (ingest_objects [o] s).2 in
  HasCommit (OID o) s' = true ∧ HasAllCommits [OID o] s' = true ∧
  ∀ t, t ≠ OID o → objects s !! t = None → objects s' !! t = None.
Proof.
  intros Ht. cbv zeta. unfold ingest_objects. cbn [foldl].
  pose proof (store_object_fields [] s o) as (E1 & E2 & _). cbv zeta in *.
  destruct (store_object ([], s) o) as [nc s1]. cbn [snd] in *.
  destruct (recompute_fields (map_to_list (commits s1)).*2 s1) as (Ho & Hc & _). cbv zeta in *.
  assert (Hcm : HasCommit (OID o) (foldl (λ s c, computeReachableObjects c s) s1
    (map_to_list (commits s1)).*2) = true).
  { unfold HasCommit. rewrite Hc, E2. unfold commit_of. rewrite Ht. cbn.
    apply bool_decide_eq_true. rewrite lookup_insert_eq. by eexists. }
  split; [done|]. split.
  - unfold HasAllCommits. cbn [forallb]. by rewrite Hcm.
  - intros t Hne Hn. rewrite Ho, E1. by rewrite lookup_insert_ne.
Qed.

(** ** Witnesses *)

Definition oid_of (t : Z) (d : bytes) : gostring := ComputeOID demo_sha1 t d.
Definition demo_blob : RawObject := identified demo_sha1 (mkRawObject ObjBlob #"hello" []).
Definition demo_tree : RawObject := identified demo_sha1
  (mkRawObject ObjTree (#"100644 f" ++ ["000"%char] ++ demo_sha1 (#"blob 5" ++ ["000"%char] ++ #"hello")) []).
Definition demo_commit : RawObject := identified demo_sha1
  (mkRawObject ObjCommit (#"tree " ++ OID demo_tree ++ nl ++ nl ++ #"first") []).
Definition demo_pack : bytes :=
  BuildPackfile demo_sha1 demo_deflate [demo_blob; demo_tree; demo_commit].
Definition demo_store : RepoStore :=
  (ingest_objects [demo_blob; demo_tree; demo_commit] (NewRepoStore #"/repo")).2.

Lemma demo_store_reachable : store_reachable demo_sha1 demo_open demo_read demo_store.
Proof.
  assert (Hp : ParsePackfileWithBase demo_sha1 demo_open demo_read
    (λ oid, objects (NewRepoStore #"/repo") !! oid) demo_pack = Ok [demo_blob; demo_tree; demo_commit])
    by (vm_compute; reflexivity).
  eapply (sr_ingest _ _ _ (NewRepoStore #"/repo") demo_pack).
  - apply sr_new.
  - intros objs Hobjs. rewrite Hp in Hobjs. injection Hobjs as <-.
    intros o o' Ho [Ho'|Ho'] E; [|by cbn in Ho'; rewrite lookup_empty in Ho'].
    rewrite !elem_of_cons, elem_of_nil in Ho, Ho'.
    destruct Ho as [-> |[-> |[-> |[]]]], Ho' as [-> |[-> |[-> |[]]]]; try reflexivity;
      exfalso; vm_compute in E; discriminate.
  - unfold IngestPackfile. rewrite Hp. cbn [mbind outcome_bind]. unfold demo_store.
    exact (f_equal Ok (surjective_pairing _)).
Qed.

Lemma reachable_objects_exact_witness :
  ∃ l, commitObjects demo_store !! OID demo_commit = Some l ∧ NoDup l ∧ OID demo_commit ∈ l.
Proof.
  destruct (commits demo_store !! OID demo_commit) as [info|] eqn:E; [|vm_compute in E; discriminate].
  destruct (reachable_objects_exact demo_sha1 demo_open demo_read demo_store (OID demo_commit) info
    demo_store_reachable E) as (l & Hl & Hnd & Hx).
  exists l. split; [exact Hl|]. split; [exact Hnd|]. apply Hx. left. reflexivity.
Defined.

Lemma collect_objects_spec_witness :
  Forall (λ o, ∃ oid, objects demo_store !! oid = Some o ∧ covered demo_store [OID demo_commit] oid)
    (CollectObjectsForCommits (λ l, l) [OID demo_commit] [] demo_store).1.
Proof.
  destruct (CollectObjectsForCommits (λ l, l) [OID demo_commit] [] demo_store) as [objs acks] eqn:E.
  destruct (collect_objects_spec (λ l, l) [OID demo_commit] [] demo_store objs acks
    (λ l x, iff_refl _) E) as (Ha & _ & Hmin & _).
  apply Forall_forall. intros o Ho. destruct Hmin with (o := o) as (oid & H1 & H2 & _);
    [|exact Ho|exists oid; split; [exact H1|exact H2]].
  destruct (store_reachable_wf _ _ _ _ demo_store_reachable) as [Hi Hr].
  destruct (commits demo_store !! OID demo_commit) as [info|] eqn:Ec; [|vm_compute in Ec; discriminate].
  exists (OID demo_commit). split.
  - exists (OID demo_commit). split.
    2:{ rewrite (Hr _ _ Ec). apply (reachable_objects_spec _ _ _ _ Hi Ec). by left. }
    exists (OID demo_commit). split; [by left|apply rtc_refl].
  - rewrite Ha. by intros (c & (x & Hx & _) & _); apply elem_of_nil in Hx.
Defined.

Lemma has_commit_without_tree_witness :
  HasCommit (OID demo_commit) (ingest_objects [demo_commit] (NewRepoStore #"/repo")).2 = true ∧
  objects (ingest_objects [demo_commit] (NewRepoStore #"/repo")).2 !! OID demo_tree = None.
Proof.
  destruct (has_commit_without_tree demo_commit (NewRepoStore #"/repo") eq_refl) as (H1 & _ & H2).
  split; [exact H1|]. apply H2; [vm_compute; discriminate|reflexivity].
Defined.
