(* ===== verification/GoURL.v ===== *)
(** * The Go [net/url] functions the source calls

    A [url.URL] with its decoded path, percent-encoding, [EscapedPath],
    [String] and [Query().Get], from their documented behaviour. *)

From S2P Require Import Prelude GoStrings.

(** [Opaque], [OmitHost] and the fragment are empty in every URL of the
    source; [u_User] is the encoded user information. *)
Record url := mkUrl {
  u_Scheme : gostring;
  u_User : option gostring;
  u_Host : gostring;
  u_Path : gostring;
  u_RawPath : gostring;
  u_ForceQuery : bool;
  u_RawQuery : gostring;
}.

(** ** Percent-encoding *)

Inductive encoding := encodePath | encodeHost.

Definition alphanumeric (c : byte) : bool :=
  let z := b2z c in
  ((48 <=? z)%Z && (z <=? 57)%Z) || ((65 <=? z)%Z && (z <=? 90)%Z)
  || ((97 <=? z)%Z && (z <=? 122)%Z).

Definition shouldEscape (mode : encoding) (c : byte) : bool :=
  if alphanumeric c || bool_decide (c ∈ #"-_.~") then false else
  match mode with
  | encodePath => negb (bool_decide (c ∈ #"$&+,/:;=@"))
  | encodeHost => negb (bool_decide (c ∈ #"!$&'()*+,;=:[]<>" ++ ["034"%char]))
  end.

Definition upper_hex (n : Z) : byte := z2b (if (n <? 10)%Z then 48 + n else 55 + n).
Definition escape_byte (mode : encoding) (c : byte) : gostring :=
  if shouldEscape mode c then ["%"%char; upper_hex (b2z c `div` 16); upper_hex (b2z c `mod` 16)]
  else [c].
Definition escape (mode : encoding) (s : gostring) : gostring := s ≫= escape_byte mode.

(** [unescape]; in a query a plus sign is a space. *)
Fixpoint unescape (plus : bool) (s : gostring) : option gostring :=
  match s with
  | [] => Some []
  | c :: r =>
      if bool_decide (c = "%"%char) then
        match r with
        | a :: b :: r => x ← hex_val a; y ← hex_val b; t ← unescape plus r; Some (z2b (x * 16 + y) :: t)
        | _ => None
        end
      else
        let c := if plus && bool_decide (c = "+"%char) then " "%char else c in
        t ← unescape plus r; Some (c :: t)
  end.

(** ** [EscapedPath] and [String] *)

Definition validEncoded (s : gostring) : bool :=
  forallb (λ c, bool_decide (c ∈ #"!$&'()*+,;=:@[]%") || negb (shouldEscape encodePath c)) s.

Definition EscapedPath (u : url) : gostring :=
  if bool_decide (u_RawPath u ≠ []) && validEncoded (u_RawPath u)
     && bool_decide (unescape false (u_RawPath u) = Some (u_Path u))
  then u_RawPath u
  else if bool_decide (u_Path u = #"*") then #"*"
  else escape encodePath (u_Path u).

(** What comes before the path. *)
Definition url_prefix (u : url) : gostring :=
  (if bool_decide (u_Scheme u = []) then [] else u_Scheme u ++ #":") ++
  (if bool_decide (u_Scheme u = [] ∧ u_Host u = [] ∧ u_User u = None)
      || bool_decide (u_Host u = [] ∧ u_Path u = [] ∧ u_User u = None)
   then [] else #"//") ++
  match u_User u with Some ui => ui ++ #"@" | None => [] end ++
  escape encodeHost (u_Host u).

Definition String (u : url) : gostring :=
  let path := EscapedPath u in
  let pre := url_prefix u in
  let pre := pre ++ (if bool_decide (path ≠ []) && negb (HasPrefix path #"/")
                        && bool_decide (u_Host u ≠ []) then #"/" else []) in
  pre ++ (if bool_decide (pre = []) && Contains (hd [] (SplitN2 path #"/")) #":" then #"./" else [])
  ++ path ++ (if u_ForceQuery u || bool_decide (u_RawQuery u ≠ []) then #"?" ++ u_RawQuery u else []).

(** ** [url.Query().Get(key)]

    Pairs that do not decode, or that hold a semicolon, are skipped. *)
Definition query_pair (pair : gostring) : option (gostring * gostring) :=
  if Contains pair #";" || bool_decide (pair = []) then None else
  match SplitN2 pair #"=" with
  | k :: v => k ← unescape true k; v ← unescape true (hd [] v); Some (k, v)
  | [] => None
  end.
Definition QueryGet (key rawQuery : gostring) : gostring :=
  hd [] ((filter (λ p, p.1 = key) (omap query_pair (Split rawQuery #"&"))).*2).

(** ** Lemmas *)

Lemma escape_cons mode c s : escape mode (c :: s) = escape_byte mode c ++ escape mode s.
Proof. done. Qed.
Lemma escape_app mode s t : escape mode (s ++ t) = escape mode s ++ escape mode t.
Proof. unfold escape. by rewrite bind_app. Qed.

Definition clean (mode : encoding) (s : gostring) : Prop := Forall (λ c, shouldEscape mode c = false) s.

Lemma escape_clean mode s : clean mode s → escape mode s = s.
Proof. induction 1 as [|c s Hc _ IH]; [done|]. rewrite escape_cons, IH. unfold escape_byte. by rewrite Hc. Qed.

Lemma escape_length mode s : length s ≤ length (escape mode s).
Proof.
  induction s as [|c s IH]; [done|]. rewrite escape_cons, length_app. unfold escape_byte.
  destruct (shouldEscape mode c); cbn; lia.
Qed.

(** Only strings without a byte to encode are their own encoding. *)
Lemma escape_id mode s : escape mode s = s ↔ clean mode s.
Proof.
  split; [|apply escape_clean]. induction s as [|c s IH]; [constructor|].
  rewrite escape_cons. unfold escape_byte. destruct (shouldEscape mode c) eqn:E.
  - intros H%(f_equal length). cbn in H. pose proof (escape_length mode s). lia.
  - intros [= H]. constructor; [done|by apply IH].
Qed.

(** An encoding that is clean was made without encoding a byte: the percent
    sign is itself to be encoded. *)
Lemma clean_escape mode s : clean mode (escape mode s) ↔ clean mode s.
Proof.
  split.
  - induction s as [|c s IH]; [done|]. unfold clean. rewrite escape_cons, Forall_app.
    intros [Hc Hs]. constructor; [|by apply IH]. unfold escape_byte in Hc.
    destruct (shouldEscape mode c) eqn:E; [|done].
    apply Forall_cons in Hc as [Hp _]. by destruct mode.
  - intros H. by rewrite escape_clean.
Qed.

Lemma hex_val_upper n : (0 ≤ n < 16)%Z → hex_val (upper_hex n) = Some n.
Proof.
  intros Hn. unfold hex_val, upper_hex. destruct (n <? 10)%Z eqn:E; bools;
    rewrite b2z_z2b_small by lia; repeat (case_match; bools; try (f_equal; lia)); lia.
Qed.

Lemma unescape_escape_byte plus mode c t :
  (plus = true → c ≠ "+"%char) → unescape plus (escape_byte mode c ++ t) = (cons c) <$> unescape plus t.
Proof.
  intros Hc. unfold escape_byte. destruct (shouldEscape mode c) eqn:E.
  - cbn [app unescape]. rewrite bool_decide_eq_true_2 by done.
    pose proof (b2z_range c). rewrite !hex_val_upper by (Z.to_euclidean_division_equations; lia).
    cbn [mbind option_bind]. destruct (unescape plus t); [|done]. cbn. do 2 f_equal.
    rewrite <- (z2b_b2z c) at 3. f_equal. pose proof (Z.div_mod (b2z c) 16). lia.
  - cbn [app unescape]. rewrite bool_decide_eq_false_2 by (intros ->; by destruct mode).
    destruct plus; cbn [andb]; [rewrite bool_decide_eq_false_2 by auto|];
      by destruct (unescape _ t).
Qed.

(** Decoding a path gives back what was encoded. *)
Lemma unescape_escape mode s : unescape false (escape mode s) = Some s.
Proof.
  induction s as [|c s IH]; [done|]. rewrite escape_cons, unescape_escape_byte by done. by rewrite IH.
Qed.

Lemma EscapedPath_decodes u : unescape false (EscapedPath u) = Some (u_Path u).
Proof.
  unfold EscapedPath. destruct (_ && _ && _) eqn:E; bools; [by destruct E|].
  case_bool_decide as Es; [by rewrite Es|]. apply unescape_escape.
Qed.
