(* ===== verification/Target.v ===== *)
(** * The target of a Git request (pkg/gitproxy/target.go)

    [ResolveUpstreamURL] reads the upstream repository from the request: an
    absolute URL, a scheme or a host name at the head of the path, the
    configured default, or the [Host] header. *)

From S2P Require Import Prelude GoStrings GoNet GoURL.

Section Target.
Context `{Unicode}.

(** [url.Parse]. *)
Context (url_parse : gostring → option url).

Inductive target_err :=
  | InvalidDefaultTarget (defaultTarget : gostring)
  | UndeterminedTarget (path : gostring).

Definition buildURL (scheme host path rawQuery : gostring) : url :=
  mkUrl (if bool_decide (scheme = []) then #"https" else scheme) None host path [] false rawQuery.

(** A host and, after the first slash, a path. *)
Definition split_host (s : gostring) : gostring * gostring :=
  match SplitN2 s #"/" with
  | [host; rest] => (host, #"/" ++ rest)
  | parts => (hd [] parts, [])
  end.

Definition parseHostAndPath (scheme rest rawQuery : gostring) : url :=
  let '(host, subPath) := split_host rest in buildURL scheme host subPath rawQuery.

Definition isLikelyHostname (s : gostring) : bool :=
  if bool_decide (s = []) then false
  else if HasSuffix s #".git" then false
  else
    let s := HostWithoutPort s in
    if bool_decide (is_Some (ParseIP s)) then true
    else if bool_decide (s = #"localhost") then true
    else if Contains s #"." then
      let tld := List.last (Split s #".") [] in
      (2 <=? length tld) && negb (EqualFold tld #"git")
    else false.

Definition isLocalHost (host : gostring) : bool :=
  let host := HostWithoutPort host in
  bool_decide (host ∈ [ #"localhost"; #"127.0.0.1"; #"::1"; [] ]).

(** The loop over the schemes: [https] before [http]. *)
Fixpoint scheme_loop (schemes : list gostring) (trimmed rawQuery : gostring) : option url :=
  match schemes with
  | [] => None
  | scheme :: schemes =>
      let prefixDbl := scheme ++ #"://" in
      let prefixSgl := scheme ++ #":/" in
      let prefixSlash := scheme ++ #"/" in
      if HasPrefix trimmed prefixDbl
      then Some (parseHostAndPath scheme (drop (length prefixDbl) trimmed) rawQuery)
      else if HasPrefix trimmed prefixSgl
      then Some (parseHostAndPath scheme (drop (length prefixSgl) trimmed) rawQuery)
      else if HasPrefix trimmed prefixSlash
      then Some (parseHostAndPath scheme (drop (length prefixSlash) trimmed) rawQuery)
      else scheme_loop schemes trimmed rawQuery
  end.

Definition ResolveUpstreamURL (u : url) (rHost defaultTarget : gostring) : outcome target_err url :=
  if bool_decide (u_Scheme u ≠ [] ∧ u_Host u ≠ []) then Ok u else
  let rawPath := if bool_decide (EscapedPath u = []) then u_Path u else EscapedPath u in
  let trimmed := if HasPrefix rawPath #"/" then drop 1 rawPath else rawPath in
  match scheme_loop [ #"https"; #"http"] trimmed (u_RawQuery u) with
  | Some t => Ok t
  | None =>
      let '(host, subPath) := split_host trimmed in
      if isLikelyHostname host then
        let scheme := if isLocalHost host then #"http" else #"https" in
        let scheme :=
          if bool_decide (defaultTarget = []) then scheme else
          match url_parse defaultTarget with
          | Some defU => if bool_decide (u_Scheme defU = []) then scheme else u_Scheme defU
          | None => scheme
          end in
        Ok (buildURL scheme host subPath (u_RawQuery u))
      else if bool_decide (defaultTarget ≠ []) then
        match url_parse defaultTarget with
        | None => Err (InvalidDefaultTarget defaultTarget)
        | Some base =>
            let relPath := if HasPrefix (u_Path u) #"/" then u_Path u else #"/" ++ u_Path u in
            Ok (buildURL (u_Scheme base) (u_Host base)
                  (TrimRightByte (u_Path base) "/"%char ++ relPath) (u_RawQuery u))
        end
      else if bool_decide (rHost ≠ [] ∧ rHost ≠ #"example.com") && negb (isLocalHost rHost)
      then Ok (buildURL #"https" rHost (u_Path u) (u_RawQuery u))
      else Err (UndeterminedTarget (u_Path u))
  end.
End Target.

(** ** Lemmas *)

Lemma split_host_app h q : "/"%char ∉ h → split_host (h ++ #"/" ++ q) = (h, #"/" ++ q).
Proof.
  intros Hh. unfold split_host, SplitN2.
  cbn [gostr String.list_ascii_of_string app]. rewrite Index_byte_app by done.
  rewrite take_app_length. replace (h ++ "/"%char :: q) with ((h ++ #"/") ++ q) by (by rewrite <- app_assoc).
  by rewrite drop_app_length' by by rewrite length_app.
Qed.

Lemma escaped_path_of u s : EscapedPath u = #"/" ++ s →
  let raw := if bool_decide (EscapedPath u = []) then u_Path u else EscapedPath u in
  (if HasPrefix raw #"/" then drop 1 raw else raw) = s.
Proof. intros ->. cbn zeta. rewrite bool_decide_eq_false_2 by done. by rewrite HasPrefix_app. Qed.

Section Spellings.
Context `{Unicode}.

(** No host name starts a scheme spelling. *)
Lemma HasPrefix_head h q p t : "/"%char ∉ h → "/"%char ∉ p →
  HasPrefix (h ++ #"/" ++ q) (p ++ #"/" ++ t) = true → h = p.
Proof.
  intros Hh Hp (z & Hz)%HasPrefix_spec.
  pose proof (split_host_app h q Hh) as H1. rewrite Hz, <- !app_assoc in H1.
  rewrite (split_host_app p (t ++ z) Hp) in H1. by injection H1.
Qed.

Lemma scheme_loop_host h q rawQuery :
  "/"%char ∉ h → isLikelyHostname h = true →
  scheme_loop [ #"https"; #"http"] (h ++ #"/" ++ q) rawQuery = None.
Proof using Type*.
  intros Hh Hl. cbn [scheme_loop].
  assert (Hno : ∀ p t, "/"%char ∉ p → isLikelyHostname p = false →
    HasPrefix (h ++ #"/" ++ q) (p ++ #"/" ++ t) = false).
  { intros p t Hp Hf. destruct (HasPrefix _ _) eqn:E; [|done].
    apply HasPrefix_head in E; [|done..]. congruence. }
  assert (Hn : ∀ p, p ∈ [ #"https:"; #"https"; #"http:"; #"http"] →
    "/"%char ∉ p ∧ isLikelyHostname p = false).
  { intros p. rewrite !elem_of_cons. intros [-> |[-> |[-> |[-> |[]%elem_of_nil]]]];
      (split; [by apply (bool_decide_unpack _)|reflexivity]). }
  assert (Ha : ∀ sc, sc ∈ [ #"https"; #"http"] →
    HasPrefix (h ++ #"/" ++ q) (sc ++ #"://") = false ∧ HasPrefix (h ++ #"/" ++ q) (sc ++ #":/") = false
    ∧ HasPrefix (h ++ #"/" ++ q) (sc ++ #"/") = false).
  { intros sc Hsc.
    assert (sc ∈ [ #"https:"; #"https"; #"http:"; #"http"] ∧ sc ++ #":" ∈ [ #"https:"; #"https"; #"http:"; #"http"])
      as [[H1 H2]%Hn [H3 H4]%Hn] by (rewrite !elem_of_cons in Hsc; destruct Hsc as [-> |[-> |[]%elem_of_nil]];
          split; apply (bool_decide_unpack _); vm_compute; exact I).
    pose proof (Hno _ #"/" H3 H4) as P1. pose proof (Hno _ [] H3 H4) as P2. pose proof (Hno _ [] H1 H2) as P3.
    by rewrite <- !app_assoc in P1, P2. }
  destruct (Ha #"https") as (-> & -> & ->); [set_solver|].
  destruct (Ha #"http") as (-> & -> & ->); [set_solver|]. done.
Qed.

(** The spelling decides the scheme: what comes after it is host and path. *)
Lemma scheme_loop_spelling scheme sep h q rawQuery :
  scheme ∈ [ #"https"; #"http"] → sep ∈ [ #"://"; #":/"; #"/"] → h ≠ [] → "/"%char ∉ h →
  scheme_loop [ #"https"; #"http"] (scheme ++ sep ++ h ++ #"/" ++ q) rawQuery
  = Some (buildURL scheme h (#"/" ++ q) rawQuery).
Proof.
  intros Hs Hsep Hne Hh.
  assert (Hp : ∀ sc, parseHostAndPath sc (h ++ #"/" ++ q) rawQuery = buildURL sc h (#"/" ++ q) rawQuery).
  { intros sc. unfold parseHostAndPath. by rewrite split_host_app. }
  destruct h as [|c h]; [done|]. apply not_elem_of_cons in Hh as [Hc _].
  assert (Hf : bool_decide ("/"%char = c) = false) by by apply bool_decide_eq_false_2.
  rewrite !elem_of_cons in Hs. rewrite !elem_of_cons in Hsep.
  destruct Hs as [-> |[-> |[]%elem_of_nil]], Hsep as [-> |[-> |[-> |[]%elem_of_nil]]];
    cbn -[parseHostAndPath buildURL]; rewrite ?Hf; cbn -[parseHostAndPath buildURL];
    first [exact (f_equal Some (Hp #"https"))|exact (f_equal Some (Hp #"http"))].
Qed.
End Spellings.

(** ** Properties *)

(** A repository has one name: the target is the same whether the path writes the scheme as
    [https://], as [https:/] (what path cleaning leaves of it) or as [https/], and it is the https
    URL too when the path starts with a remote host name; the https and http spellings never take
    a host name for a scheme. *)
Theorem target_spellings_agree `{Unicode} url_parse (u : url) (h q rHost defaultTarget : gostring) :
  ¬ (u_Scheme u ≠ [] ∧ u_Host u ≠ []) → h ≠ [] → "/"%char ∉ h →
  (∀ scheme sep, scheme ∈ [ #"https"; #"http"] → sep ∈ [ #"://"; #":/"; #"/"] →
     EscapedPath u = #"/" ++ scheme ++ sep ++ h ++ #"/" ++ q →
     ResolveUpstreamURL url_parse u rHost defaultTarget
     = Ok (buildURL scheme h (#"/" ++ q) (u_RawQuery u))) ∧
  (EscapedPath u = #"/" ++ h ++ #"/" ++ q → isLikelyHostname h = true →
     ResolveUpstreamURL url_parse u rHost []
     = Ok (buildURL (if isLocalHost h then #"http" else #"https") h (#"/" ++ q) (u_RawQuery u))).
Proof.
  intros Habs Hne Hh. unfold ResolveUpstreamURL. rewrite bool_decide_eq_false_2 by done. cbn zeta. split.
  - intros scheme sep Hs Hsep He. rewrite (escaped_path_of _ _ He).
    by rewrite (scheme_loop_spelling scheme sep h q).
  - intros He Hl. rewrite (escaped_path_of _ _ He), scheme_loop_host by done.
    by rewrite split_host_app, Hl by done.
Qed.

(** A path that names its host is encoded twice: the target's path is cut out of the encoded
    path but stored as a decoded one, so what goes over the wire encodes the percent signs again,
    and it is the repository's path only if nothing in it has to be encoded. *)
Theorem path_escaped_twice `{Unicode} url_parse (u : url) (h s scheme rHost defaultTarget : gostring) :
  ¬ (u_Scheme u ≠ [] ∧ u_Host u ≠ []) → u_RawPath u = [] → u_RawQuery u = [] →
  scheme ∈ [ #"https"; #"http"] → h ≠ [] → "/"%char ∉ h →
  clean encodePath h → clean encodeHost h →
  u_Path u = #"/" ++ scheme ++ #"/" ++ h ++ #"/" ++ s →
  ∃ t, ResolveUpstreamURL url_parse u rHost defaultTarget = Ok t ∧
    String t = scheme ++ #"://" ++ h ++ #"/" ++ escape encodePath (escape encodePath s) ∧
    (String t = scheme ++ #"://" ++ h ++ #"/" ++ escape encodePath s ↔ clean encodePath s).
Proof.
  intros Habs Hraw Hq Hs Hne Hh Hcp Hch Hp. exists (buildURL scheme h (#"/" ++ escape encodePath s) []).
  assert (Hse : clean encodePath scheme ∧ scheme ≠ []).
  { rewrite !elem_of_cons in Hs. destruct Hs as [-> |[-> |[]%elem_of_nil]]; (split; [|done]);
      repeat constructor. }
  destruct Hse as [Hse Hsn].
  assert (He : EscapedPath u = #"/" ++ scheme ++ #"/" ++ h ++ #"/" ++ escape encodePath s).
  { unfold EscapedPath. rewrite Hraw, bool_decide_eq_false_2 by (intros Hn; by apply Hn). cbn [andb].
    rewrite Hp, bool_decide_eq_false_2 by (destruct scheme; [done|]; discriminate).
    rewrite !escape_app, (escape_clean _ scheme), (escape_clean _ h) by done. done. }
  assert (Hstr : String (buildURL scheme h (#"/" ++ escape encodePath s) [])
    = scheme ++ #"://" ++ h ++ #"/" ++ escape encodePath (escape encodePath s)).
  { unfold String, url_prefix, EscapedPath, buildURL.
    cbn [u_Scheme u_User u_Host u_Path u_RawPath u_ForceQuery u_RawQuery].
    rewrite (bool_decide_eq_false_2 (scheme = [])) by done. rewrite escape_app, (escape_clean _ h) by done.
    change (escape encodePath #"/") with #"/".
    assert (Hstar : bool_decide (#"/" ++ escape encodePath s = #"*") = false)
      by (apply bool_decide_eq_false_2; discriminate).
    rewrite (bool_decide_eq_false_2 ([] ≠ [])), Hstar by naive_solver. cbn [andb orb].
    rewrite !(bool_decide_eq_false_2 (_ ∧ _)) by naive_solver. cbn [orb].
    rewrite HasPrefix_app, andb_false_r, andb_false_l, app_nil_r.
    rewrite !(bool_decide_eq_false_2 (_ = [])) by (discriminate || (destruct scheme; [done|]; discriminate)).
    cbn [andb]. rewrite !app_nil_r. change (#"://") with (#":" ++ #"//"). rewrite !app_nil_l, <- !app_assoc.
    reflexivity. }
  split; [|split; [done|]].
  - unfold ResolveUpstreamURL. rewrite bool_decide_eq_false_2 by done. cbn zeta.
    rewrite (escaped_path_of _ _ He), (scheme_loop_spelling scheme #"/" h) by (done || set_solver).
    by rewrite Hq.
  - rewrite Hstr, <- clean_escape, <- escape_id. split; [|by intros ->].
    by intros H1%app_inv_head%(app_inv_head #"://")%app_inv_head%(app_inv_head #"/").
Qed.

(** ** The properties at concrete inputs *)

Definition demo_url (path : gostring) : url := mkUrl [] None [] path [] false [].

Lemma target_spellings_agree_witness :
  let resolve p := @ResolveUpstreamURL ascii_unicode (λ _, None) (demo_url p) [] [] in
  resolve #"/https://github.com/org/repo.git" = resolve #"/https:/github.com/org/repo.git" ∧
  resolve #"/https:/github.com/org/repo.git" = resolve #"/github.com/org/repo.git".
Proof.
  assert (Hh : "/"%char ∉ #"github.com") by (apply (bool_decide_unpack _); vm_compute; exact I).
  assert (Habs : ∀ p, ¬ (u_Scheme (demo_url p) ≠ [] ∧ u_Host (demo_url p) ≠ [])) by (intros p [H _]; by apply H).
  pose proof (λ p, @target_spellings_agree ascii_unicode (λ _, None) (demo_url p) #"github.com" #"org/repo.git"
    [] [] (Habs p) ltac:(discriminate) Hh) as T.
  cbv zeta. split.
  - rewrite (proj1 (T #"/https://github.com/org/repo.git") #"https" #"://"),
      (proj1 (T #"/https:/github.com/org/repo.git") #"https" #":/"); reflexivity || set_solver.
  - rewrite (proj1 (T #"/https:/github.com/org/repo.git") #"https" #":/"),
      (proj2 (T #"/github.com/org/repo.git")); reflexivity || set_solver.
Defined.

Lemma path_escaped_twice_witness :
  ∃ t, @ResolveUpstreamURL ascii_unicode (λ _, None) (demo_url #"/https/git.example/my repo") [] [] = Ok t ∧
       String t = #"https://git.example/my%2520repo".
Proof.
  destruct (@path_escaped_twice ascii_unicode (λ _, None) (demo_url #"/https/git.example/my repo")
    #"git.example" #"my repo" #"https" [] []) as (t & H1 & H2 & _).
  - intros [H _]. by apply H.
  - reflexivity.
  - reflexivity.
  - set_solver.
  - discriminate.
  - apply (bool_decide_unpack _); vm_compute; exact I.
  - repeat constructor.
  - repeat constructor.
  - reflexivity.
  - exists t. split; [exact H1|]. rewrite H2. reflexivity.
Defined.
