(* ===== verification/GitServer.v ===== *)
(** * The Git proxy server (pkg/gitproxy/server.go)

    [ServeHTTP] answers a fetch from the repository store when it can, any
    cacheable request from the response cache, and otherwise asks the
    upstream, naming the commits of the store as further haves; packs that
    come back are ingested. *)

From S2P Require Import Prelude GoStrings GoNet GoURL Http HTTPProxy Cache CachingTransport.
From S2P Require Import Target PktLine Packfile RepoStore.

(** [g_Body] is what reading the body gives; [None] is a read error. *)
Record GitRequest := mkGitRequest {
  g_Method : gostring;
  g_URL : url;
  g_Host : gostring;
  g_Header : Header;
  g_Body : option bytes;
}.

Record Config := mkConfig {
  DefaultTargetURL : gostring;
  DefaultAuthHeader : gostring;
  DefaultAuthToken : gostring;
  CacheTTL : Z;
}.

(** The package's own hop-by-hop functions: the same as the proxy's. *)
Module Own.
Definition hopByHopHeaders : list gostring :=
  [ #"Connection"; #"Keep-Alive"; #"Proxy-Authenticate"; #"Proxy-Authorization";
    #"Te"; #"Trailers"; #"Transfer-Encoding"; #"Upgrade"].

Definition splitAndTrim (s : gostring) : list gostring :=
  filter (λ t, t ≠ []) (TrimSpace <$> Split s #",").

Definition removeHopByHopHeaders (h : Header) : Header :=
  let c := Get #"Connection" h in
  let h := if bool_decide (c = []) then h
           else foldl (λ h f, Del f h) h (splitAndTrim c) in
  foldl (λ h f, Del f h) h hopByHopHeaders.
End Own.

Lemma own_hop_by_hop h : Own.removeHopByHopHeaders h = removeHopByHopHeaders h.
Proof. done. Qed.

(** [NewServer]: the credential header has a default. *)
Definition NewServer (config : Config) : Config :=
  mkConfig (DefaultTargetURL config)
    (if bool_decide (DefaultAuthHeader config = []) then #"Authorization" else DefaultAuthHeader config)
    (DefaultAuthToken config) (CacheTTL config).

(** The state: the response cache ([None] when [Config.Cache] is nil), the
    repository stores, and the world of the upstream. *)
Record GitState {C W : Type} := mkGitState {
  g_cache : option C;
  g_repos : RepoCacheManager;
  g_world : W;
}.
Arguments GitState : clear implicits.
Arguments mkGitState {C W}.

(** The failures the server reports with the text of an error. *)
Inductive git_err :=
  | ProxyError (e : target_err)
  | ReadBodyError
  | NewRequestError
  | UpstreamError.

Inductive store_err := ParsingFetchRequest | NoWantsInRequest | MissingCommits | NoObjects.

Section Server.
Context `{Unicode} {C W : Type} `{CacheOps C}
        (url_parse : gostring → option url)
        (new_request_url : gostring → gostring → option url)
        (errtext : git_err → gostring)
        (sha1 sha256 deflate : bytes → bytes) (zlib_open : bytes → bool)
        (zlib_read : bytes → Z → option (bytes * nat))
        (encode : CachedResponse → option bytes) (decode : bytes → option CachedResponse)
        (RoundTrip : GitRequest → W → option Response * W) (write_ok : nat → bool).

Abbreviation State := (GitState C W).

Definition with_cache (c : option C) (st : State) : State := mkGitState c (g_repos st) (g_world st).
Definition with_repos (m : RepoCacheManager) (st : State) : State := mkGitState (g_cache st) m (g_world st).
Definition with_world (s : W) (st : State) : State := mkGitState (g_cache st) (g_repos st) s.

(** A store is shared by pointer: ingestion into it is seen by the manager. *)
Definition set_store (repoID : gostring) (s : RepoStore) (m : RepoCacheManager) : RepoCacheManager :=
  mkManager (<[repoID := s]> (stores m)) (cacheDir m).

Definition computeCacheKey (r : GitRequest) (target : url) (body : bytes) : gostring :=
  let proto := Get #"Git-Protocol" (g_Header r) in
  if bool_decide (g_Method r = #"GET")
  then #"git:get:" ++ String target ++ #":" ++ proto
  else #"git:post:" ++ String target ++ #":" ++ proto ++ #":" ++ EncodeToString (sha256 body).

Definition request_type (r : GitRequest) (body : bytes) : RequestType :=
  ClassifyGitRequest (g_Method r) (u_Path (g_URL r)) (QueryGet #"service" (u_RawQuery (g_URL r))) body.

(** ** Fetches from the store *)

Definition formatted (fq : FetchRequest) (objects : list RawObject) (acks : list gostring) : bytes :=
  FormatSidebandPackfile (BuildPackfile sha1 deflate objects) (IsV2 fq) acks
    (negb (bool_decide (Haves fq = []))).

(** The first part of [ServeHTTP]: the response body of a hit. *)
Definition fetch_hit (order : list gostring → list gostring) (reqBody : bytes) (s : RepoStore) : option bytes :=
  match ParseFetchRequest reqBody with
  | Ok fq =>
      if negb (bool_decide (Wants fq = [])) && HasAllCommits (Wants fq) s then
        let '(objects, acks) := CollectObjectsForCommits order (Wants fq) (Haves fq) s in
        if bool_decide (objects = []) then None else Some (formatted fq objects acks)
      else None
  | _ => None
  end.

Definition buildFetchFromStore (order : list gostring → list gostring) (s : RepoStore) (reqBody : bytes)
    : outcome store_err bytes :=
  match ParseFetchRequest reqBody with
  | Ok fq =>
      if bool_decide (Wants fq = []) then Err NoWantsInRequest
      else if negb (HasAllCommits (Wants fq) s) then Err MissingCommits
      else
        let '(objects, acks) := CollectObjectsForCommits order (Wants fq) (Haves fq) s in
        if bool_decide (objects = []) then Err NoObjects else Ok (formatted fq objects acks)
  | _ => Err ParsingFetchRequest
  end.

(** The body sent upstream: a fetch also names the commits of the store. *)
Definition upstream_body (rt : RequestType) (reqBody : bytes) (s : RepoStore) : bytes :=
  if bool_decide (rt = RequestTypeUploadPackFetch) then
    match ParseFetchRequest reqBody with
    | Ok fq =>
        let known := GetKnownCommits s in
        if bool_decide (Wants fq = []) || bool_decide (known = []) then reqBody
        else BuildUpstreamFetchRequest (Wants fq) (dedup_from [] (Haves fq ++ known)) (IsV2 fq)
    | _ => reqBody
    end
  else reqBody.

(** ** The upstream request *)

Definition inject_token (cfg : Config) (h : Header) : Header :=
  if bool_decide (DefaultAuthToken cfg ≠ []) && bool_decide (Get #"Authorization" h = []) then
    if bool_decide (DefaultAuthHeader cfg = #"Authorization")
    then Set_ #"Authorization" (#"Bearer " ++ DefaultAuthToken cfg) h
    else Set_ (DefaultAuthHeader cfg) (DefaultAuthToken cfg) h
  else h.

Definition git_outgoing (cfg : Config) (r : GitRequest) (target : url) (body : bytes) : option GitRequest :=
  u ← new_request_url (g_Method r) (String target);
  Some (mkGitRequest (g_Method r) u (u_Host target)
          (inject_token cfg (Del #"X-Forwarded-For" (Own.removeHopByHopHeaders (add_all (g_Header r) ∅))))
          (Some body)).

(** ** The response

    Every function gives the response, or [None] when the handler panics and
    the connection is cut, and the state it leaves. *)

(** [http.Error] with a fixed text. *)
Definition fail (msg : gostring) (code : Z) (w : Writer) : option Writer := Some (HttpError msg code w).

(** The default branch: store the response, relay it with its length. *)
Definition store_and_reply (cfg : Config) (now' : Z) (key : gostring) (status : Z) (respHeader : Header)
    (body : bytes) (w : Writer) (st : State) : option Writer * State :=
  let st := match g_cache st, encode (mkCachedResponse status respHeader body) with
            | Some c, Some b => with_cache (Some (cache_set now' key b (CacheTTL cfg) c)) st
            | _, _ => st
            end in
  let w := map_header (Set_ #"Content-Length" (fmt_d (Z.of_nat (length body)))) w in
  (Some (Write body (WriteHeader status w)), st).

(** A fetch that succeeded: ingest its pack, then reply. [None] stands for an
    ingestion that panics. *)
Definition ingest_response (body : bytes) (s : RepoStore) : option RepoStore :=
  match ExtractPackfileFromResponse body with
  | None => Some s
  | Some packData =>
      match IngestPackfile sha1 zlib_open zlib_read packData s with
      | Ok (_, s) => Some s
      | Err _ => Some s
      | Panic _ => None
      end
  end.

Definition reply_cacheable (cfg : Config) (order : list gostring → list gostring) (now' : Z)
    (r : GitRequest) (rt : RequestType) (target : url) (reqBody upstreamReqBody : bytes)
    (resp : Response) (respHeader : Header) (w : Writer) (st : State) : option Writer * State :=
  let w := map_header (Set_ #"X-Git-Cache" #"MISS") w in
  if BodyFails resp then (fail #"Failed to read upstream response" 502 w, st) else
  let body := resp_body resp in
  let default st :=
    store_and_reply cfg now' (computeCacheKey r target reqBody) (StatusCode resp) respHeader body w st in
  if bool_decide (rt = RequestTypeUploadPackFetch) then
    let repo := u_Path target in
    let '(s, m) := GetRepoStore sha256 repo (g_repos st) in
    match ingest_response body s with
    | None => (None, with_repos m st)
    | Some s =>
        let st := with_repos (set_store repo s m) st in
        if bool_decide (upstreamReqBody = reqBody) then default st
        else
          match buildFetchFromStore order s reqBody with
          | Ok b => (Some (Write b (WriteHeader 200 (map_header (Del #"Content-Length") w))), st)
          | _ => (fail #"cache-assisted fetch failed" 502 w, st)
          end
    end
  else default st.

(** Anything else is relayed as it comes. *)
Definition bypass (resp : Response) (w : Writer) : Writer :=
  let w := WriteHeader (StatusCode resp) (map_header (Set_ #"X-Git-Cache" #"BYPASS") w) in
  (relay_body write_ok 0 (Chunks resp) w).2.

Definition forward (cfg : Config) (order : list gostring → list gostring) (now' : Z)
    (r : GitRequest) (rt : RequestType) (target : url) (reqBody upstreamReqBody : bytes) (cacheable : bool)
    (st : State) : option Writer * State :=
  match git_outgoing cfg r target upstreamReqBody with
  | None => (fail (errtext NewRequestError) 500 new_writer, st)
  | Some outReq =>
      match RoundTrip outReq (g_world st) with
      | (None, s) => (fail (errtext UpstreamError) 502 new_writer, with_world s st)
      | (Some resp, s) =>
          let st := with_world s st in
          let respHeader := Own.removeHopByHopHeaders (RespHeader resp) in
          let w := map_header (add_all respHeader) new_writer in
          if cacheable && (StatusCode resp =? 200)%Z
          then reply_cacheable cfg order now' r rt target reqBody upstreamReqBody resp respHeader w st
          else (Some (bypass resp w), st)
      end
  end.

(** The response of a hit in the store and of one in the response cache. *)
Definition store_hit_response (b : bytes) : Writer :=
  let w := map_header (Set_ #"Content-Type" #"application/x-git-upload-pack-result") new_writer in
  let w := map_header (Set_ #"X-Git-Cache" #"HIT") w in
  let w := map_header (Set_ #"Cache-Control" #"no-cache") w in
  let w := map_header (Del #"Content-Length") w in
  Write b (WriteHeader 200 w).
Definition cache_hit_response (cr : CachedResponse) : Writer :=
  let w := map_header (add_all (cr_Header cr)) new_writer in
  let w := map_header (Set_ #"X-Git-Cache" #"HIT") w in
  Write (cr_Body cr) (WriteHeader (cr_StatusCode cr) w).

(** The look into the response cache: what it answers and the cache after. *)
Definition cache_lookup (now : Z) (key : gostring) (st : State) : option CachedResponse * State :=
  match g_cache st with
  | None => (None, st)
  | Some c =>
      let '(v, c) := cache_get now key c in
      (v ≫= decode, with_cache (Some c) st)
  end.

(** The part after the store did not answer; [s] is the store of the
    repository, looked at for fetches only. *)
Definition serve_rest (cfg : Config) (order : list gostring → list gostring) (now now' : Z)
    (r : GitRequest) (rt : RequestType) (target : url) (reqBody : bytes) (s : RepoStore)
    (st : State) : option Writer * State :=
  let cacheable := IsCacheable rt && bool_decide (is_Some (g_cache st)) && (0 <? CacheTTL cfg)%Z in
  let '(hit, st) := if cacheable then cache_lookup now (computeCacheKey r target reqBody) st
                    else (None, st) in
  match hit with
  | Some cr => (Some (cache_hit_response cr), st)
  | None => forward cfg order now' r rt target reqBody (upstream_body rt reqBody s) cacheable st
  end.

(** [now] and [now'] are the times of the cache's lookup and store, [order]
    and [order'] those of the two loops over needed commits. *)
Definition ServeHTTP (cfg : Config) (order order' : list gostring → list gostring) (now now' : Z)
    (r : GitRequest) (st : State) : option Writer * State :=
  match ResolveUpstreamURL url_parse (g_URL r) (g_Host r) (DefaultTargetURL cfg) with
  | Ok target =>
      match g_Body r with
      | None => (fail (errtext ReadBodyError) 400 new_writer, st)
      | Some reqBody =>
          let rt := request_type r reqBody in
          if bool_decide (rt = RequestTypeUploadPackFetch) then
            let '(s, m) := GetRepoStore sha256 (u_Path target) (g_repos st) in
            let st := with_repos m st in
            match fetch_hit order reqBody s with
            | Some b => (Some (store_hit_response b), st)
            | None => serve_rest cfg order' now now' r rt target reqBody s st
            end
          else serve_rest cfg order' now now' r rt target reqBody (NewRepoStore []) st
      end
  | Err e => (fail (errtext (ProxyError e)) 400 new_writer, st)
  | Panic _ => (None, st)
  end.
End Server.
