(* ===== verification/GitServerSpec.v ===== *)
(** * What the Git proxy server promises

    Fetches answered from the store carry the objects they ask for; whatever
    the history, a successful answer is either made from the store or one the
    upstream gave to the same, unmodified request; and what the upstream sees
    of a request. *)

From S2P Require Import Prelude GoStrings GoNet GoURL Http HTTPProxy Cache CachingTransport.
From S2P Require Import Target PktLine Packfile RepoStore GitServer.

(** ** Lemmas: genuine stores *)

(** Every object is filed under the identifier its content has. *)
Definition genuine (sha1 : bytes → bytes) (s : RepoStore) : Prop :=
  ∀ k o, objects s !! k = Some o → OID o = k ∧ OID o = ComputeOID sha1 (Type_ o) (Data o).

Lemma genuine_new sha1 dir : genuine sha1 (NewRepoStore dir).
Proof. intros k o. cbn. by rewrite lookup_empty. Qed.

Lemma ingest_genuine sha1 zo zr data s nc s' :
  genuine sha1 s → IngestPackfile sha1 zo zr data s = Ok (nc, s') → genuine sha1 s'.
Proof.
  intros Hg H. unfold IngestPackfile in H. apply outcome_bind_ok in H as (objs & Hp & H). injection H as H.
  assert (Hall : Forall (λ o, OID o = ComputeOID sha1 (Type_ o) (Data o)) objs).
  { apply Forall_forall. intros o Ho. by eapply parsed_identified. }
  clear Hp. assert (Hf : ∀ nc, genuine sha1 (foldl store_object (nc, s) objs).2).
  { clear nc s' H. revert s Hg. induction Hall as [|o objs Ho _ IH]; intros s Hg nc; [done|]. cbn [foldl].
    destruct (store_object_fields nc s o) as (E & _). destruct (store_object (nc, s) o) as [nc1 s1].
    cbn [snd] in *. apply IH. intros k o'. rewrite E. intros [[<- <-]|[_ Hk]]%lookup_insert_Some; [done|].
    by apply Hg. }
  specialize (Hf []). unfold ingest_objects in H. destruct (foldl store_object _ _) as [nc1 s1].
  cbn [snd] in Hf. injection H as _ <-. intros k o.
  destruct (recompute_fields (map_to_list (commits s1)).*2 s1) as (-> & _). apply Hf.
Qed.

(** ** Lemmas: fetches *)

Section Fetch.
Context (sha1 sha256 deflate : bytes → bytes) (zlib_open : bytes → bool)
        (zlib_read : bytes → Z → option (bytes * nat)).

Lemma fetch_hit_Some order body s b :
  fetch_hit sha1 deflate order body s = Some b ↔
  ∃ fq objs acks, ParseFetchRequest body = Ok fq ∧ HasAllCommits (Wants fq) s = true ∧
    CollectObjectsForCommits order (Wants fq) (Haves fq) s = (objs, acks) ∧ objs ≠ [] ∧
    b = formatted sha1 deflate fq objs acks.
Proof.
  unfold fetch_hit. destruct (ParseFetchRequest body) as [fq|e|p] eqn:Ep;
    [|split; [done|by intros (? & ? & ? & ? & _)]..].
  rewrite bool_decide_eq_false_2 by by apply (ParseFetchRequest_hex body). cbn [negb andb].
  destruct (HasAllCommits _ _) eqn:Eh; [|split; [done|by intros (? & ? & ? & [= <-] & ? & _); congruence]].
  destruct (CollectObjectsForCommits _ _ _ _) as [objs acks] eqn:Ec. case_bool_decide as Eo.
  - split; [done|]. intros (? & ? & ? & [= <-] & _ & Ec' & Hne & _). rewrite Ec in Ec'. congruence.
  - split; [intros [= <-]; by eexists _, _, _|].
    intros (? & ? & ? & [= <-] & _ & Ec' & _ & ->). rewrite Ec in Ec'. by injection Ec' as <- <-.
Qed.

(** The two ways the code builds a response from the store agree. *)
Lemma build_fetch_hit order body s b :
  buildFetchFromStore sha1 deflate order s body = Ok b ↔ fetch_hit sha1 deflate order body s = Some b.
Proof.
  unfold buildFetchFromStore, fetch_hit. destruct (ParseFetchRequest body) as [fq|e|p]; [|done..].
  case_bool_decide; cbn [negb andb]; [done|]. destruct (HasAllCommits _ _); cbn [negb]; [|done].
  destruct (CollectObjectsForCommits _ _ _ _) as [objs acks]. case_bool_decide; [done|].
  split; by intros [= ->].
Qed.

Lemma GetRepoStore_genuine repo m s m' :
  (∀ p s, stores m !! p = Some s → genuine sha1 s) → GetRepoStore sha256 repo m = (s, m') →
  genuine sha1 s ∧ ∀ p s, stores m' !! p = Some s → genuine sha1 s.
Proof.
  intros Hg. unfold GetRepoStore. destruct (stores m !! repo) as [s0|] eqn:E; intros [= <- <-].
  { split; [by eapply Hg|done]. }
  split; [apply genuine_new|]. intros p s. cbn. intros [[_ <-]|[_ Hp]]%lookup_insert_Some; [apply genuine_new|].
  by eapply Hg.
Qed.

Lemma ingest_response_genuine body s s' :
  genuine sha1 s → ingest_response sha1 zlib_open zlib_read body s = Some s' → genuine sha1 s'.
Proof.
  intros Hg. unfold ingest_response. destruct (ExtractPackfileFromResponse body) as [p|]; [|by intros [= <-]].
  destruct (IngestPackfile _ _ _ _ _) as [[nc s1]|e|e] eqn:E; [|by intros [= <-]|done].
  intros [= <-]. by eapply ingest_genuine.
Qed.
End Fetch.

(** ** Runs

    The upstream's answers are given, and its log is the world. *)

Section Run.
Context `{Unicode} {C : Type} `{CacheLaws C}
        (url_parse : gostring → option url)
        (new_request_url : gostring → gostring → option url)
        (errtext : git_err → gostring)
        (sha1 sha256 deflate : bytes → bytes) (zlib_open : bytes → bool)
        (zlib_read : bytes → Z → option (bytes * nat))
        (encode : CachedResponse → option bytes) (decode : bytes → option CachedResponse)
        (decode_encode : ∀ cr b, encode cr = Some b → decode b = Some cr)
        (answers : nat → GitRequest → option Response) (write_ok : nat → bool) (cfg : Config).

Abbreviation log := (list (GitRequest * option Response)).

Definition git_upstream (q : GitRequest) (l : log) : option Response * log :=
  let a := answers (length l) q in (a, l ++ [(q, a)]).

Abbreviation serve := (ServeHTTP url_parse new_request_url errtext sha1 sha256 deflate zlib_open zlib_read
                         encode decode git_upstream write_ok cfg).

(** Requests one after the other, each with the choices its handler depends on. *)
Record Served := mkServed {
  sv_request : GitRequest;
  sv_order : list gostring → list gostring;
  sv_order' : list gostring → list gostring;
  sv_now : Z;
  sv_now' : Z;
}.

Fixpoint git_serve_all (qs : list Served) (st : GitState C log)
    : list (GitRequest * option Writer) * GitState C log :=
  match qs with
  | [] => ([], st)
  | v :: qs =>
      let '(w, st) := serve (sv_order v) (sv_order' v) (sv_now v) (sv_now' v) (sv_request v) st in
      let '(ws, st) := git_serve_all qs st in ((sv_request v, w) :: ws, st)
  end.

Definition resolves (q : GitRequest) (target : url) (body : bytes) : Prop :=
  ResolveUpstreamURL url_parse (g_URL q) (g_Host q) (DefaultTargetURL cfg) = Ok target ∧
  g_Body q = Some body.

(** The upstream gave [resp], a complete 200, to a request that carried the
    body its client sent, and that has the cache slot [key]. *)
Definition git_answered (l : log) (key : gostring) (resp : Response) : Prop :=
  ∃ q target body out, resolves q target body ∧
    git_outgoing new_request_url cfg q target body = Some out ∧ (out, Some resp) ∈ l ∧
    StatusCode resp = 200%Z ∧ BodyFails resp = false ∧
    same_slot key (computeCacheKey sha256 q target body).

Definition git_backed (c : C) (l : log) : Prop :=
  ∀ k v, holds c k v → ∃ resp, git_answered l k resp ∧
    encode (mkCachedResponse (StatusCode resp) (removeHopByHopHeaders (RespHeader resp)) (resp_body resp))
    = Some v.

Definition git_inv (st : GitState C log) : Prop :=
  (∃ c, g_cache st = Some c ∧ git_backed c (g_world st)) ∧
  ∀ p s, stores (g_repos st) !! p = Some s → genuine sha1 s.

(** What a client may be told is a success. *)
Definition git_justified (l : log) (q : GitRequest) (w : Writer) : Prop :=
  ∀ target body sent, resolves q target body → IsCacheable (request_type q body) = true →
    w_sent w = Some (200%Z, sent) →
    (∃ s order, genuine sha1 s ∧ fetch_hit sha1 deflate order body s = Some (w_body w)) ∨
    (∃ resp, git_answered l (computeCacheKey sha256 q target body) resp ∧ w_body w = resp_body resp).

(** One request: the log grows, the invariant stays, the answer is justified. *)
Definition git_ok (l : log) (q : GitRequest) (res : option Writer * GitState C log) : Prop :=
  l ⊆ g_world res.2 ∧ git_inv res.2 ∧ ∀ w, res.1 = Some w → git_justified (g_world res.2) q w.

Lemma git_answered_mono l l' k resp : l ⊆ l' → git_answered l k resp → git_answered l' k resp.
Proof.
  intros Hs (q & t & b & out & ? & ? & Hin & ?). exists q, t, b, out. split_and!; try tauto. by apply Hs.
Qed.

Lemma git_backed_mono c l l' : l ⊆ l' → git_backed c l → git_backed c l'.
Proof.
  intros Hs Hb k v Hk. destruct (Hb k v Hk) as (resp & Ha & He). exists resp.
  split; [by eapply git_answered_mono|done].
Qed.

Lemma git_justified_mono l l' q w : l ⊆ l' → git_justified l q w → git_justified l' q w.
Proof.
  intros Hs Hj t b sent P1 P2 P3. destruct (Hj t b sent P1 P2 P3) as [?|(resp & Ha & ?)]; [by left|].
  right. exists resp. split; [by eapply git_answered_mono|done].
Qed.

(** A response with another status has nothing to justify. *)
Lemma not_200_justified l q w code sent :
  w_sent w = Some (code, sent) → code ≠ 200%Z → git_justified l q w.
Proof. intros Hw Hc t b sent' _ _ Hs. rewrite Hw in Hs. congruence. Qed.

Lemma fail_ok (l : log) q msg code w0 (st : GitState C log) :
  w_sent w0 = None → code ≠ 200%Z → l ⊆ g_world st → git_inv st → git_ok l q (fail msg code w0, st).
Proof.
  intros Hw0 Hc Hl Hi. split_and!; [done..|]. intros w [= <-].
  apply (not_200_justified _ _ _ code (w_header (HttpError msg code w0))); [|done].
  unfold HttpError, Write, WriteHeader, map_header. cbn. by rewrite Hw0.
Qed.

Lemma relay_body_sent n chunks w code sent :
  w_sent w = Some (code, sent) → w_sent (relay_body write_ok n chunks w).2 = Some (code, sent).
Proof.
  revert n w. induction chunks as [|c chunks IH]; intros n w Hw; cbn [relay_body]; [done|].
  case_bool_decide; [by apply IH|]. destruct (write_ok n); [|done]. apply IH.
  unfold Write, WriteHeader. by rewrite Hw.
Qed.
(** The unmodified request of [q] was answered by [resp]. *)
Definition answered_to (l : log) (q : GitRequest) (target : url) (body : bytes) (resp : Response) : Prop :=
  resolves q target body ∧
  (∃ out, git_outgoing new_request_url cfg q target body = Some out ∧ (out, Some resp) ∈ l) ∧
  StatusCode resp = 200%Z ∧ BodyFails resp = false.

Lemma answered_to_key l q target body resp k :
  answered_to l q target body resp → same_slot k (computeCacheKey sha256 q target body) →
  git_answered l k resp.
Proof. intros (Hr & (out & Ho & Hin) & Hs & Hf) Hk. by exists q, target, body, out. Qed.

Lemma resolves_det q t b t' b' : resolves q t b → resolves q t' b' → t' = t ∧ b' = b.
Proof. intros [P1 P2] [P3 P4]. split; congruence. Qed.

Lemma store_and_reply_ok l q target body now' resp w st :
  w_sent w = None → w_body w = [] → l ⊆ g_world st → git_inv st →
  answered_to (g_world st) q target body resp →
  git_ok l q (store_and_reply encode cfg now' (computeCacheKey sha256 q target body) (StatusCode resp)
                (removeHopByHopHeaders (RespHeader resp)) (resp_body resp) w st).
Proof.
  intros Hw Hwb Hl [(c & Hc & Hb) Hg] Ha. unfold store_and_reply. rewrite Hc.
  set (cr := mkCachedResponse _ _ _). split_and!; [by destruct (encode cr)| |].
  - destruct (encode cr) as [b|] eqn:Ee; [|split; [by exists c|done]].
    split; [|done]. eexists. split; [reflexivity|]. cbn. intros k v [[Hk ->]|Hk]%holds_set; [|by apply Hb].
    exists resp. split; [by eapply answered_to_key|done].
  - intros w' [= <-] t b sent Hr _ _. right. exists resp.
    destruct (resolves_det _ _ _ _ _ (proj1 Ha) Hr) as [-> ->]. split.
    + eapply git_answered_mono; [|eapply answered_to_key; [exact Ha|apply same_slot_refl]].
      by destruct (encode cr).
    + unfold Write, WriteHeader, map_header. cbn. rewrite Hw. cbn. by rewrite Hwb.
Qed.

Lemma fetch_hit_ok l q target body order s (b : bytes) w st sent0 :
  resolves q target body → genuine sha1 s → fetch_hit sha1 deflate order body s = Some b →
  w_sent w = Some (200%Z, sent0) → w_body w = b → l ⊆ g_world st → git_inv st →
  git_ok l q (Some w, st).
Proof.
  intros Hr Hg Hf Hw Hb Hl Hi. split_and!; [done..|]. intros w' [= <-] t b' sent Hr' _ _. left.
  destruct (resolves_det _ _ _ _ _ Hr Hr') as [-> ->]. exists s, order. by rewrite Hb.
Qed.

Lemma reply_cacheable_ok l q target body up order now' resp w st :
  w_sent w = None → w_body w = [] → l ⊆ g_world st → git_inv st → resolves q target body →
  StatusCode resp = 200%Z →
  (∃ out, git_outgoing new_request_url cfg q target up = Some out ∧ (out, Some resp) ∈ g_world st) →
  (request_type q body ≠ RequestTypeUploadPackFetch → up = body) →
  git_ok l q (reply_cacheable sha1 sha256 deflate zlib_open zlib_read encode cfg order now' q
    (request_type q body) target body up resp (removeHopByHopHeaders (RespHeader resp)) w st).
Proof.
  intros Hw Hwb Hl Hi Hr Hs Hout Hup. unfold reply_cacheable. cbn zeta.
  set (w1 := map_header _ w).
  assert (Hw1 : w_sent w1 = None) by done.
  destruct (BodyFails resp) eqn:Ef; [by apply fail_ok|].
  assert (Hdef : up = body → ∀ st', g_world st' = g_world st → git_inv st' →
    git_ok l q (store_and_reply encode cfg now' (computeCacheKey sha256 q target body) (StatusCode resp)
      (removeHopByHopHeaders (RespHeader resp)) (resp_body resp) w1 st')).
  { intros -> st' Hst Hi'. apply store_and_reply_ok; [done|done|by rewrite Hst|done|].
    rewrite Hst. by split_and!. }
  case_bool_decide as Et; [|by apply Hdef; auto].
  destruct Hi as [Hc Hg]. destruct (GetRepoStore _ _ _) as [s m] eqn:Em.
  destruct (GetRepoStore_genuine _ _ _ _ _ _ Hg Em) as [Hgs Hgm].
  destruct (ingest_response _ _ _ _ _) as [s'|] eqn:Ei; [|by split_and!].
  pose proof (ingest_response_genuine _ _ _ _ _ _ Hgs Ei) as Hgs'.
  assert (Hi' : git_inv (with_repos (set_store (u_Path target) s' m) st)).
  { split; [done|]. intros p s0. cbn. intros [[_ <-]|[_ Hp]]%lookup_insert_Some; [done|by eapply Hgm]. }
  case_bool_decide as Eu; [by apply Hdef|].
  destruct (buildFetchFromStore _ _ _ _ _) as [b|e|e] eqn:Eb; [|by apply fail_ok..].
  apply build_fetch_hit in Eb. eapply fetch_hit_ok; [done|exact Hgs'|exact Eb| | |done|done].
  - unfold Write, WriteHeader, map_header. cbn. rewrite Hw. reflexivity.
  - unfold Write, WriteHeader, map_header. cbn. rewrite Hw. cbn. by rewrite Hwb.
Qed.

Lemma forward_ok l q target body up order now' cacheable st :
  l ⊆ g_world st → git_inv st → resolves q target body →
  (cacheable = true ∨ IsCacheable (request_type q body) = false) →
  (request_type q body ≠ RequestTypeUploadPackFetch → up = body) →
  git_ok l q (forward new_request_url errtext sha1 sha256 deflate zlib_open zlib_read encode git_upstream
    write_ok cfg order now' q (request_type q body) target body up cacheable st).
Proof.
  intros Hl Hi Hr Hca Hup. unfold forward.
  destruct (git_outgoing _ _ _ _ _) as [out|] eqn:Eo; [|by apply fail_ok].
  unfold git_upstream. set (a := answers _ out). set (l1 := g_world st ++ [(out, a)]).
  assert (Hl1 : g_world st ⊆ l1) by (intros x Hx; apply elem_of_app; by left).
  assert (Hin : (out, a) ∈ l1) by (apply elem_of_app; right; by apply list_elem_of_singleton).
  assert (Hi1 : git_inv (with_world l1 st)).
  { destruct Hi as [(c & Hc & Hb) Hg]. split; [|done]. exists c. split; [done|]. by eapply git_backed_mono. }
  assert (Hl' : l ⊆ g_world (with_world l1 st)) by (cbn; by etrans).
  destruct a as [resp|] eqn:Ea; [|by apply fail_ok].
  destruct (cacheable && (StatusCode resp =? 200)%Z) eqn:Ec.
  - apply andb_prop in Ec as [_ Ec%Z.eqb_eq]. apply reply_cacheable_ok; try done. by exists out.
  - split_and!; [done..|]. cbn. intros w [= <-] t b sent Hr' Hcb Hs. exfalso.
    destruct (resolves_det _ _ _ _ _ Hr Hr') as [-> ->].
    destruct Hca as [-> |Hca]; [|congruence]. cbn [andb] in Ec. apply Z.eqb_neq in Ec. unfold bypass in Hs.
    erewrite relay_body_sent in Hs by reflexivity. apply Some_inj in Hs. exact (Ec (f_equal fst Hs)).
Qed.

Lemma cache_lookup_ok now key st hit st' :
  git_inv st → cache_lookup decode now key st = (hit, st') →
  g_world st' = g_world st ∧ git_inv st' ∧
  ∀ cr, hit = Some cr → ∃ resp, git_answered (g_world st) key resp ∧ cr_Body cr = resp_body resp.
Proof using decode_encode.
  intros [(c & Hc & Hb) Hg]. unfold cache_lookup. rewrite Hc.
  destruct (cache_get now key c) as [v c'] eqn:Eg. intros [= <- <-]. split_and!; [done| |].
  - split; [|done]. exists c'. split; [done|]. intros k v' Hk. apply Hb. eapply holds_get. rewrite Eg. exact Hk.
  - intros cr Hcr. destruct v as [v|]; [|done]. cbn in Hcr.
    assert (Hv : holds c key v) by (eapply get_holds; by rewrite Eg).
    destruct (Hb _ _ Hv) as (resp & Ha & He). exists resp. split; [done|].
    rewrite (decode_encode _ _ He) in Hcr. by injection Hcr as <-.
Qed.

Lemma serve_rest_ok l q target body order now now' s st :
  (0 < CacheTTL cfg)%Z → l ⊆ g_world st → git_inv st → resolves q target body →
  git_ok l q (serve_rest new_request_url errtext sha1 sha256 deflate zlib_open zlib_read encode decode
    git_upstream write_ok cfg order now now' q (request_type q body) target body s st).
Proof using decode_encode.
  intros Ht Hl Hi Hr. unfold serve_rest.
  assert (Hup : request_type q body ≠ RequestTypeUploadPackFetch →
    upstream_body (request_type q body) body s = body).
  { intros Hne. unfold upstream_body. by rewrite bool_decide_eq_false_2. }
  assert (Hca : IsCacheable (request_type q body) && bool_decide (is_Some (g_cache st)) && (0 <? CacheTTL cfg)%Z
    = IsCacheable (request_type q body)).
  { destruct Hi as [(c & -> & _) _]. rewrite (bool_decide_eq_true_2 (is_Some _)) by eauto.
    rewrite (proj2 (Z.ltb_lt _ _)) by done. by rewrite !andb_true_r. }
  rewrite Hca. destruct (IsCacheable _) eqn:Ecb; [|by apply forward_ok; auto].
  destruct (cache_lookup _ _ _ _) as [hit st'] eqn:El.
  destruct (cache_lookup_ok _ _ _ _ _ Hi El) as (Hw & Hi' & Hhit).
  destruct hit as [cr|]; [|apply forward_ok; rewrite ?Hw; auto].
  split_and!; [by cbn; rewrite Hw|done|]. cbn. intros w [= <-] t b sent Hr' _ _. right.
  destruct (resolves_det _ _ _ _ _ Hr Hr') as [-> ->].
  destruct (Hhit cr eq_refl) as (resp & Ha & Hb). exists resp. rewrite Hw. split; [done|].
  unfold cache_hit_response, Write, WriteHeader, map_header. cbn. done.
Qed.

Lemma serve_ok l q order order' now now' st :
  (0 < CacheTTL cfg)%Z → l ⊆ g_world st → git_inv st → git_ok l q (serve order order' now now' q st).
Proof using decode_encode.
  intros Ht Hl Hi. unfold ServeHTTP.
  destruct (ResolveUpstreamURL _ _ _ _) as [target|e|e] eqn:Et; [|by apply fail_ok|by split_and!].
  destruct (g_Body q) as [body|] eqn:Eb; [|by apply fail_ok].
  assert (Hr : resolves q target body) by done.
  case_bool_decide as Ert; [|by apply serve_rest_ok].
  destruct Hi as [Hc Hg]. destruct (GetRepoStore _ _ _) as [s m] eqn:Em.
  destruct (GetRepoStore_genuine _ _ _ _ _ _ Hg Em) as [Hgs Hgm].
  assert (Hi' : git_inv (with_repos m st)) by done.
  destruct (fetch_hit _ _ _ _ _) as [b|] eqn:Ef; [|by apply serve_rest_ok].
  by eapply fetch_hit_ok.
Qed.

Lemma git_serve_all_ok qs st ws st' :
  (0 < CacheTTL cfg)%Z → git_inv st → git_serve_all qs st = (ws, st') →
  g_world st ⊆ g_world st' ∧ git_inv st' ∧
  ∀ q w, (q, Some w) ∈ ws → git_justified (g_world st') q w.
Proof using decode_encode.
  intros Ht. revert st ws. induction qs as [|v qs IH]; intros st ws Hi; cbn [git_serve_all].
  { intros [= <- <-]. split_and!; [done..|]. by intros ?? ?%elem_of_nil. }
  destruct (serve _ _ _ _ _ _) as [w st1] eqn:E1.
  destruct (serve_ok (g_world st) (sv_request v) (sv_order v) (sv_order' v) (sv_now v) (sv_now' v) st
    Ht ltac:(done) Hi) as (Hl & Hi1 & Hj). rewrite E1 in Hl, Hi1, Hj. cbn [fst snd] in *.
  destruct (git_serve_all qs st1) as [ws1 st2] eqn:E2. intros [= <- <-].
  destruct (IH _ _ Hi1 E2) as (Hl2 & Hi2 & Hall). split_and!; [by etrans|done|].
  intros q w0 [[= -> <-]|Hin]%elem_of_cons; [|by apply Hall].
  eapply git_justified_mono; [exact Hl2|by apply Hj].
Qed.
End Run.

(** ** Properties *)

Lemma store_reachable_genuine sha1 zo zr s : store_reachable sha1 zo zr s → genuine sha1 s.
Proof.
  induction 1 as [dir|s data nc s' _ IH _ Hi]; [apply genuine_new|by eapply ingest_genuine].
Qed.

(** A success with this pack in its body. *)
Definition answers_with_pack (packfile : bytes) (w : Writer) : Prop :=
  ∃ sent, w_sent w = Some (200%Z, sent) ∧ ExtractPackfileFromResponse (w_body w) = Some packfile.

(** C25: A fetch whose wanted commits the repository's store has, and for which it collects any object, is
    answered from the store, without asking the upstream and without changing anything: status 200 and
    a side-band body from which the pack built of exactly the objects collected is extracted. Neither
    the host nor the credentials of the request play a part: the store is found by the path of the
    target. Where the store has only taken in packs (so its objects have the identifiers of their
    content) and no object collected is one whose stream the parser misreads (each is of the four
    types, allocatable, and of a size that is not a multiple of 32 KiB, so not empty), parsing that
    pack gives back these objects, identifiers included. *)
Theorem fetch_served_from_store `{Unicode} {C W} `{CacheOps C} url_parse new_request_url errtext
    sha1 sha256 deflate zlib_open zlib_read encode decode RT write_ok cfg order order' now now'
    (q : GitRequest) (st : GitState C W) target body fq s objs acks :
  (∀ d, length (sha1 d) = 20) →
  (∀ d rest, zlib_open (deflate d ++ rest) = true) →
  (∀ d rest, settles d → zlib_read (deflate d ++ rest) (Z.of_nat (length d)) = Some (d, length (deflate d))) →
  ResolveUpstreamURL url_parse (g_URL q) (g_Host q) (DefaultTargetURL cfg) = Ok target →
  g_Body q = Some body → request_type q body = RequestTypeUploadPackFetch →
  ParseFetchRequest body = Ok fq →
  stores (g_repos st) !! u_Path target = Some s → HasAllCommits (Wants fq) s = true →
  CollectObjectsForCommits order (Wants fq) (Haves fq) s = (objs, acks) → objs ≠ [] →
  let packfile := BuildPackfile sha1 deflate objs in
  (∃ w,
    ServeHTTP url_parse new_request_url errtext sha1 sha256 deflate zlib_open zlib_read encode decode RT
      write_ok cfg order order' now now' q st = (Some w, st) ∧ answers_with_pack packfile w) ∧
  (store_reachable sha1 zlib_open zlib_read s →
   Forall whole objs → Forall (λ o, settles (Data o)) objs → (Z.of_nat (length objs) < 2 ^ 32)%Z →
   ParsePackfile sha1 zlib_open zlib_read packfile = Ok objs).
Proof.
  intros Hsha Hopen Hread Ht Hb Hrt Hfq Hs Hall Hcol Hne packfile. subst packfile. split.
  - assert (Hhit : fetch_hit sha1 deflate order body s = Some (formatted sha1 deflate fq objs acks)).
    { apply fetch_hit_Some. by exists fq, objs, acks. }
    exists (store_hit_response (formatted sha1 deflate fq objs acks)). split; [|eexists; split].
    + unfold ServeHTTP. rewrite Ht, Hb. rewrite bool_decide_eq_true_2 by done.
      unfold GetRepoStore. rewrite Hs, Hhit. by destruct st.
    + reflexivity.
    + apply Extract_Format; [done|]. assert (acks = filter (λ h, HasCommit h s = true) (Haves fq)) as ->
        by (unfold CollectObjectsForCommits in Hcol; by injection Hcol as _ <-).
      apply ParseFetchRequest_hex in Hfq as [_ [_ Hh]%Forall_app].
      apply Forall_forall. intros x [_ Hx]%list_elem_of_filter. by eapply Forall_forall in Hh.
  - intros Hreach Hw Hset Hlen.
    unfold ParsePackfile. rewrite (ParsePackfile_built sha1 deflate zlib_open zlib_read) by done. f_equal.
    pose proof (store_reachable_genuine _ _ _ _ Hreach) as Hg.
    assert (Hin : ∀ o, o ∈ objs → identified sha1 o = o).
    { intros o Ho. unfold CollectObjectsForCommits in Hcol. injection Hcol as Hcol _.
      rewrite <- Hcol in Ho. apply list_elem_of_omap in Ho as (k & _ & Hk). destruct (Hg k o Hk) as [_ E].
      destruct o as [ty d i]. unfold identified. cbn in *. by rewrite <- E. }
    clear -Hin. induction objs as [|o objs IH]; [done|]. cbn [fmap list_fmap].
    rewrite Hin by (by left). f_equal. apply IH. intros x Hx. apply Hin. by right.
Qed.

(** The proxy never passes off an answer to a question the client did not ask. It adds the commits
    of its store to the haves of the fetches it sends on, so the packs that come back lack objects
    the client needs; over any sequence of requests, with any cache that keeps its interface, any
    upstream and any clients, a cacheable request (a fetch or an object) that is answered 200 gets
    either a response made for its own wants and haves from a store in which every object has the
    identifier of its content, or the complete body of a 200 that the upstream gave to a request of
    the same cache slot sent on unchanged. *)
Theorem fetch_responses_genuine `{Unicode} {C} `{CacheLaws C} url_parse new_request_url errtext
    sha1 sha256 deflate zlib_open zlib_read encode decode
    (decode_encode : ∀ cr b, encode cr = Some b → decode b = Some cr)
    answers write_ok cfg (qs : list Served) (c0 : C) cacheDir :
  (0 < CacheTTL cfg)%Z → (∀ k v, ¬ holds c0 k v) →
  let '(ws, st) := git_serve_all url_parse new_request_url errtext sha1 sha256 deflate zlib_open zlib_read
                     encode decode answers write_ok cfg qs
                     (mkGitState (Some c0) (NewRepoCacheManager cacheDir) []) in
  ∀ q w, (q, Some w) ∈ ws → git_justified url_parse new_request_url sha1 sha256 deflate cfg (g_world st) q w.
Proof.
  intros Ht Hempty. destruct (git_serve_all _ _ _ _ _ _ _ _ _ _ _ _ _ _ _) as [ws st] eqn:E.
  eapply git_serve_all_ok in E; [by apply E|done|done|]. split.
  - exists c0. split; [done|]. intros k v Hk. by apply Hempty in Hk.
  - intros p s. cbn. by rewrite lookup_empty.
Qed.

Lemma values_client (h : Header) (k : gostring) :
  values k (Del #"X-Forwarded-For" (removeHopByHopHeaders h))
  = if decide (k ∈ dropped h) then [] else values k h.
Proof.
  unfold dropped, Del. unfold values at 1. rewrite lookup_delete.
  change (CanonicalKey #"X-Forwarded-For") with #"X-Forwarded-For".
  rewrite lookup_removeHopByHop, app_assoc.
  destruct (decide (#"X-Forwarded-For" = k)) as [<-|Hx].
  { rewrite decide_True; [done|]. apply elem_of_app. right. by apply list_elem_of_singleton. }
  destruct (decide (k ∈ connection_drops h ++ hopByHopHeaders)) as [Hd|Hd].
  { rewrite decide_True; [done|]. apply elem_of_app. by left. }
  rewrite decide_False; [done|]. intros [?|?%list_elem_of_singleton]%elem_of_app; by subst.
Qed.

(** The client's header lines that are sent on. *)
Definition sent_on (h : Header) (k : gostring) : list gostring :=
  if decide (k ∈ dropped h) then [] else values k h.

(** C38: What the upstream sees of a request that is not cacheable (reference discovery, a push): one
    request with the client's method and body, to the target's host, with the client's header lines
    less the hop-by-hop ones, those its Connection header names and X-Forwarded-For; and if the
    client gave no Authorization, the configured token, whatever the host the path named. *)
Theorem git_upstream_sees `{Unicode} {C W} `{CacheOps C} url_parse new_request_url errtext
    sha1 sha256 deflate zlib_open zlib_read encode decode RT write_ok cfg order order' now now'
    (q : GitRequest) (st : GitState C W) target body u :
  ResolveUpstreamURL url_parse (g_URL q) (g_Host q) (DefaultTargetURL cfg) = Ok target →
  g_Body q = Some body → IsCacheable (request_type q body) = false →
  new_request_url (g_Method q) (String target) = Some u → canonical (g_Header q) →
  ∃ out,
    (ServeHTTP url_parse new_request_url errtext sha1 sha256 deflate zlib_open zlib_read encode decode RT
      write_ok cfg order order' now now' q st).2 = with_world (RT out (g_world st)).2 st ∧
    g_Method out = g_Method q ∧ g_URL out = u ∧ g_Host out = u_Host target ∧ g_Body out = Some body ∧
    ∀ k, values k (g_Header out) =
      if decide (DefaultAuthToken cfg ≠ [] ∧ hd [] (sent_on (g_Header q) #"Authorization") = [] ∧
                 k = CanonicalKey (DefaultAuthHeader cfg))
      then [if decide (DefaultAuthHeader cfg = #"Authorization")
            then #"Bearer " ++ DefaultAuthToken cfg else DefaultAuthToken cfg]
      else sent_on (g_Header q) k.
Proof.
  intros Ht Hb Hca Hu Hcan.
  set (h := Del #"X-Forwarded-For" (removeHopByHopHeaders (add_all (g_Header q) ∅))).
  exists (mkGitRequest (g_Method q) u (u_Host target) (inject_token cfg h) (Some body)).
  assert (Ho : git_outgoing new_request_url cfg q target body
    = Some (mkGitRequest (g_Method q) u (u_Host target) (inject_token cfg h) (Some body))).
  { unfold git_outgoing. by rewrite Hu. }
  assert (Hne : request_type q body ≠ RequestTypeUploadPackFetch) by (intros E; by rewrite E in Hca).
  split_and!; [|done..|].
  - unfold ServeHTTP. rewrite Ht, Hb. rewrite bool_decide_eq_false_2 by done. cbn zeta.
    unfold serve_rest. rewrite Hca. cbn [andb]. unfold forward, upstream_body.
    rewrite bool_decide_eq_false_2 by done. rewrite Ho. by destruct (RT _ _) as [[resp|] s].
  - assert (Hh : ∀ k, values k h = sent_on (g_Header q) k).
    { intros k. unfold h, sent_on. rewrite (values_client (add_all (g_Header q) ∅)).
      assert (Hv : ∀ k, values k (add_all (g_Header q) ∅) = values k (g_Header q)).
      { intros k'. rewrite values_add_all by done. unfold values at 1. by rewrite lookup_empty. }
      assert (dropped (add_all (g_Header q) ∅) = dropped (g_Header q)) as ->
        by (unfold dropped, connection_drops, Get; by rewrite Hv).
      by rewrite Hv. }
    assert (Hg : Get #"Authorization" h = hd [] (sent_on (g_Header q) #"Authorization"))
      by (unfold Get; by rewrite <- Hh).
    intros k. cbn [g_Header]. unfold inject_token. rewrite Hg.
    case_bool_decide as E1; cbn [andb]; [|rewrite decide_False by tauto; apply Hh].
    case_bool_decide as E2; [|rewrite decide_False by tauto; apply Hh].
    case_bool_decide as E3; unfold Set_; rewrite values_insert.
    + rewrite E3. destruct (decide (CanonicalKey #"Authorization" = k)) as [<-|Hk].
      * rewrite decide_True by (split_and!; done). by rewrite decide_True.
      * rewrite decide_False by (intros (_ & _ & Hk'); by rewrite Hk' in Hk). apply Hh.
    + destruct (decide (CanonicalKey (DefaultAuthHeader cfg) = k)) as [<-|Hk].
      * rewrite decide_True by (split_and!; done). by rewrite decide_False.
      * rewrite decide_False by (intros (_ & _ & Hk'); by rewrite Hk' in Hk). apply Hh.
Qed.

(** ** The properties at concrete inputs *)

Definition demo_body : bytes :=
  pkt_line (#"want " ++ OID demo_commit ++ nl) ++ flush_pkt ++ pkt_line (#"done" ++ nl).
Definition demo_fetch (path : gostring) : GitRequest :=
  mkGitRequest #"POST" (demo_url path) #"proxy:8080" ∅ (Some demo_body).
Definition demo_cfg : Config := NewServer (mkConfig [] [] #"s3cret" 60).
Definition demo_new_request (_ s : gostring) : option url := Some (demo_url s).
Definition no_upstream {W} (_ : GitRequest) (s : W) : option Response * W := (None, s).

Lemma fetch_served_from_store_witness :
  let st := mkGitState (@None InMemoryCache.t)
              (mkManager {[ #"/repo/git-upload-pack" := demo_store ]} []) tt in
  let objs := (CollectObjectsForCommits (λ l, l) [OID demo_commit] [] demo_store).1 in
  (∃ w,
    @ServeHTTP ascii_unicode _ _ _ (λ _, None) demo_new_request (λ _, #"error") demo_sha1 demo_sha1 demo_deflate
      demo_open demo_read demo_encode demo_decode no_upstream (λ _, true) demo_cfg (λ l, l) (λ l, l) 0 0
      (demo_fetch #"/https/other.example/repo/git-upload-pack") st = (Some w, st) ∧
    answers_with_pack (BuildPackfile demo_sha1 demo_deflate objs) w) ∧
  ParsePackfile demo_sha1 demo_open demo_read (BuildPackfile demo_sha1 demo_deflate objs) = Ok objs.
Proof.
  cbv zeta. destruct (@fetch_served_from_store ascii_unicode InMemoryCache.t unit _ (λ _, None) demo_new_request
    (λ _, #"error") demo_sha1 demo_sha1 demo_deflate demo_open demo_read demo_encode demo_decode no_upstream
    (λ _, true) demo_cfg (λ l, l) (λ l, l) 0 0 (demo_fetch #"/https/other.example/repo/git-upload-pack")
    (mkGitState (@None InMemoryCache.t) (mkManager {[ #"/repo/git-upload-pack" := demo_store ]} []) tt)
    (buildURL #"https" #"other.example" #"/repo/git-upload-pack" []) demo_body
    (mkFetchRequest [OID demo_commit] [] false true) demo_store
    (CollectObjectsForCommits (λ l, l) [OID demo_commit] [] demo_store).1 []) as [H1 H2].
  - exact demo_sha1_length.
  - exact demo_open_deflate.
  - exact demo_read_deflate.
  - vm_compute. reflexivity.
  - reflexivity.
  - vm_compute. reflexivity.
  - vm_compute. reflexivity.
  - apply lookup_insert_eq.
  - vm_compute. reflexivity.
  - vm_compute. reflexivity.
  - vm_compute. discriminate.
  - split; [exact H1|]. apply H2.
    + exact demo_store_reachable.
    + apply (bool_decide_unpack _). vm_compute. exact I.
    + apply (bool_decide_unpack _). vm_compute. exact I.
    + vm_compute. reflexivity.
Defined.

Definition demo_git_answers (n : nat) (q : GitRequest) : option Response := Some (demo_answer #"object").
Definition demo_served (path : gostring) : Served :=
  mkServed (mkGitRequest #"GET" (demo_url path) #"proxy:8080" ∅ (Some [])) (λ l, l) (λ l, l) 0 0.

Lemma fetch_responses_genuine_witness :
  let '(ws, st) := @git_serve_all ascii_unicode _ _ (λ _, None) demo_new_request (λ _, #"error") demo_sha1
      demo_sha1 demo_deflate demo_open demo_read demo_encode demo_decode demo_git_answers (λ _, true) demo_cfg
      [demo_served #"/https/git.example/repo/objects/pack/pack-00.pack";
       demo_served #"/https/git.example/repo/objects/pack/pack-00.pack"]
      (mkGitState (Some (InMemoryCache.NewInMemoryCache 0)) (NewRepoCacheManager []) []) in
  ∀ q w, (q, Some w) ∈ ws →
    @git_justified ascii_unicode InMemoryCache.t _ _ (λ _, None) demo_new_request demo_sha1 demo_sha1
      demo_deflate demo_cfg (g_world st) q w.
Proof.
  apply (@fetch_responses_genuine ascii_unicode _ _ _ (λ _, None) demo_new_request (λ _, #"error") demo_sha1
    demo_sha1 demo_deflate demo_open demo_read demo_encode demo_decode demo_codec demo_git_answers (λ _, true)
    demo_cfg).
  - reflexivity.
  - intros k v H. cbn in H. rewrite lookup_empty in H. discriminate.
Defined.

Definition git_recording (q : GitRequest) (seen : list GitRequest) : option Response * list GitRequest :=
  (None, seen ++ [q]).

Lemma git_upstream_sees_witness :
  ∃ out,
    (@ServeHTTP ascii_unicode InMemoryCache.t _ _ (λ _, None) demo_new_request (λ _, #"error") demo_sha1
      demo_sha1 demo_deflate demo_open demo_read demo_encode demo_decode git_recording (λ _, true) demo_cfg
      (λ l, l) (λ l, l) 0 0 (sv_request (demo_served #"/https/attacker.example/repo/info/refs"))
      (mkGitState None (NewRepoCacheManager []) [])).2
    = mkGitState None (NewRepoCacheManager []) [out] ∧
    g_Host out = #"attacker.example" ∧ values #"Authorization" (g_Header out) = [ #"Bearer s3cret"].
Proof.
  destruct (@git_upstream_sees ascii_unicode InMemoryCache.t _ _ (λ _, None) demo_new_request (λ _, #"error")
    demo_sha1 demo_sha1 demo_deflate demo_open demo_read demo_encode demo_decode git_recording (λ _, true)
    demo_cfg (λ l, l) (λ l, l) 0 0 (sv_request (demo_served #"/https/attacker.example/repo/info/refs"))
    (mkGitState None (NewRepoCacheManager []) [])
    (buildURL #"https" #"attacker.example" #"/repo/info/refs" []) []
    (demo_url #"https://attacker.example/repo/info/refs")) as (out & H1 & _ & _ & H2 & _ & H3).
  - vm_compute. reflexivity.
  - reflexivity.
  - vm_compute. reflexivity.
  - vm_compute. reflexivity.
  - intros k vv H. cbn in H. rewrite lookup_empty in H. discriminate.
  - exists out. split; [exact H1|]. split; [exact H2|]. rewrite H3. vm_compute. reflexivity.
Defined.
