(* ===== verification/GitConcurrent.v ===== *)
(** * The Git proxy under concurrent requests (pkg/gitproxy)

    The net/http server runs every request in its own goroutine. What they
    share is the manager's table of stores and the stores, each behind its
    lock, the response cache and the upstream; [gstep] is the code of
    [Server.ServeHTTP] between two accesses to these, [sys_step] interleaves
    the steps of any number of requests with new arrivals and with what the
    cache drops in the background. Run alone, the steps are [ServeHTTP]. The
    locks themselves, and requests that wait for them, are in [GitLocks]. *)

From S2P Require Import Prelude GoStrings GoNet GoURL Http HTTPProxy Cache CachingTransport.
From S2P Require Import Target PktLine Packfile RepoStore GitServer GitServerSpec.

(** ** One request *)

(** Where a request is: [t] the target, [b] the client's body, [fq] the fetch
    it asks for, [up] the body sent upstream, [resp] what came back. *)
Inductive gpc :=
  | Arrived
  | CheckStore (t : url) (b : bytes) (fq : FetchRequest)
  | CollectHit (t : url) (b : bytes) (fq : FetchRequest)
  | LookUp (t : url) (b : bytes)
  | FindStore (t : url) (b : bytes)
  | ReadKnown (t : url) (b : bytes) (fq : FetchRequest)
  | Sending (t : url) (b up : bytes)
  | Ingesting (t : url) (b up : bytes) (resp : Response)
  | CheckOwn (t : url) (b : bytes) (resp : Response)
  | CollectOwn (t : url) (b : bytes) (fq : FetchRequest) (resp : Response)
  | Storing (t : url) (b : bytes) (resp : Response)
  | GDone (r : option Writer).

(** The choices a step depends on: the orders of the two loops over needed
    commits and the times of the cache's lookup and store. *)
Record choices := mkChoices {
  ch_order : list gostring → list gostring;
  ch_order' : list gostring → list gostring;
  ch_now : Z;
  ch_now' : Z;
}.

Section Steps.
Context `{Unicode} {C W : Type} `{CacheOps C}
        (url_parse : gostring → option url)
        (new_request_url : gostring → gostring → option url)
        (errtext : git_err → gostring)
        (sha1 sha256 deflate : bytes → bytes) (zlib_open : bytes → bool)
        (zlib_read : bytes → Z → option (bytes * nat))
        (encode : CachedResponse → option bytes) (decode : bytes → option CachedResponse)
        (RoundTrip : GitRequest → W → option Response * W) (write_ok : nat → bool) (cfg : Config).

Abbreviation State := (GitState C W).

(** The store behind the pointer a request holds. *)
Definition store_at (t : url) (st : State) : option RepoStore := stores (g_repos st) !! u_Path t.

Definition cacheable (rt : RequestType) (st : State) : bool :=
  IsCacheable rt && bool_decide (is_Some (g_cache st)) && (0 <? CacheTTL cfg)%Z.

(** The header lines of the upstream's response that is not passed on as it comes. *)
Definition miss_writer (resp : Response) : Writer :=
  map_header (Set_ #"X-Git-Cache" #"MISS")
    (map_header (add_all (Own.removeHopByHopHeaders (RespHeader resp))) new_writer).

Definition assisted_fails (resp : Response) : gpc :=
  GDone (fail #"cache-assisted fetch failed" 502 (miss_writer resp)).

(** What is made of the upstream's response, before anything shared is touched. *)
Definition answer (q : GitRequest) (t : url) (b up : bytes) (resp : Response) (st : State) : gpc :=
  let rt := request_type q b in
  if cacheable rt st && (StatusCode resp =? 200)%Z then
    if BodyFails resp then GDone (fail #"Failed to read upstream response" 502 (miss_writer resp))
    else if bool_decide (rt = RequestTypeUploadPackFetch) then Ingesting t b up resp
    else Storing t b resp
  else GDone (Some (bypass write_ok resp
              (map_header (add_all (Own.removeHopByHopHeaders (RespHeader resp))) new_writer))).

(** [GetRepoStore] before [IngestPackfile] finds the store the request has
    already asked for, so the two are one step. *)
Definition gstep (v : choices) (q : GitRequest) (c : gpc) (st : State) : option (gpc * State) :=
  match c with
  | Arrived =>
      Some match ResolveUpstreamURL url_parse (g_URL q) (g_Host q) (DefaultTargetURL cfg) with
      | Ok t =>
          match g_Body q with
          | None => (GDone (fail (errtext ReadBodyError) 400 new_writer), st)
          | Some b =>
              if bool_decide (request_type q b = RequestTypeUploadPackFetch) then
                (match ParseFetchRequest b with Ok fq => CheckStore t b fq | _ => LookUp t b end,
                 with_repos (GetRepoStore sha256 (u_Path t) (g_repos st)).2 st)
              else (LookUp t b, st)
          end
      | Err e => (GDone (fail (errtext (ProxyError e)) 400 new_writer), st)
      | Panic _ => (GDone None, st)
      end
  | CheckStore t b fq =>
      s ← store_at t st;
      Some (if negb (bool_decide (Wants fq = [])) && HasAllCommits (Wants fq) s
            then CollectHit t b fq else LookUp t b, st)
  | CollectHit t b fq =>
      s ← store_at t st;
      let '(objects, acks) := CollectObjectsForCommits (ch_order v) (Wants fq) (Haves fq) s in
      Some (if bool_decide (objects = []) then LookUp t b
            else GDone (Some (store_hit_response (formatted sha1 deflate fq objects acks))), st)
  | LookUp t b =>
      let rt := request_type q b in
      let '(hit, st) := if cacheable rt st
                        then cache_lookup decode (ch_now v) (computeCacheKey sha256 q t b) st
                        else (None, st) in
      Some (match hit with
            | Some cr => GDone (Some (cache_hit_response cr))
            | None => if bool_decide (rt = RequestTypeUploadPackFetch) then FindStore t b else Sending t b b
            end, st)
  | FindStore t b =>
      Some match ParseFetchRequest b with
      | Ok fq =>
          if bool_decide (Wants fq = []) then (Sending t b b, st)
          else (ReadKnown t b fq, with_repos (GetRepoStore sha256 (u_Path t) (g_repos st)).2 st)
      | _ => (Sending t b b, st)
      end
  | ReadKnown t b fq =>
      s ← store_at t st;
      Some (Sending t b (upstream_body RequestTypeUploadPackFetch b s), st)
  | Sending t b up =>
      Some match git_outgoing new_request_url cfg q t up with
      | None => (GDone (fail (errtext NewRequestError) 500 new_writer), st)
      | Some outReq =>
          match RoundTrip outReq (g_world st) with
          | (None, w) => (GDone (fail (errtext UpstreamError) 502 new_writer), with_world w st)
          | (Some resp, w) => (answer q t b up resp st, with_world w st)
          end
      end
  | Ingesting t b up resp =>
      let '(s, m) := GetRepoStore sha256 (u_Path t) (g_repos st) in
      Some match ingest_response sha1 zlib_open zlib_read (resp_body resp) s with
      | None => (GDone None, with_repos m st)
      | Some s =>
          (if bool_decide (up = b) then Storing t b resp else CheckOwn t b resp,
           with_repos (set_store (u_Path t) s m) st)
      end
  | CheckOwn t b resp =>
      match ParseFetchRequest b with
      | Ok fq =>
          if bool_decide (Wants fq = []) then Some (assisted_fails resp, st) else
          s ← store_at t st;
          Some (if HasAllCommits (Wants fq) s then CollectOwn t b fq resp else assisted_fails resp, st)
      | _ => Some (assisted_fails resp, st)
      end
  | CollectOwn t b fq resp =>
      s ← store_at t st;
      let '(objects, acks) := CollectObjectsForCommits (ch_order' v) (Wants fq) (Haves fq) s in
      Some (if bool_decide (objects = []) then assisted_fails resp
            else GDone (Some (Write (formatted sha1 deflate fq objects acks)
                   (WriteHeader 200 (map_header (Del #"Content-Length") (miss_writer resp))))), st)
  | Storing t b resp =>
      let '(w, st) := store_and_reply encode cfg (ch_now' v) (computeCacheKey sha256 q t b) (StatusCode resp)
                        (Own.removeHopByHopHeaders (RespHeader resp)) (resp_body resp) (miss_writer resp) st in
      Some (GDone w, st)
  | GDone _ => None
  end.

(** A request that runs without interruption, for at most [n] steps. *)
Fixpoint drive (n : nat) (v : choices) (q : GitRequest) (x : gpc * State) : gpc * State :=
  match n with
  | O => x
  | S n => match gstep v q x.1 x.2 with Some x => drive n v q x | None => x end
  end.

(** The steps a request still has to make, at most. *)
Definition gsteps_left (c : gpc) : nat :=
  match c with
  | Arrived => 10 | CheckStore _ _ _ => 9 | CollectHit _ _ _ => 8 | LookUp _ _ => 7
  | FindStore _ _ => 6 | ReadKnown _ _ _ => 5 | Sending _ _ _ => 4 | Ingesting _ _ _ _ => 3
  | CheckOwn _ _ _ => 2 | CollectOwn _ _ _ _ | Storing _ _ _ => 1 | GDone _ => 0
  end.
End Steps.

(** ** Lemmas: a request alone *)

Section Alone.
Context `{Unicode} {C W : Type} `{CacheOps C}
        (url_parse : gostring → option url)
        (new_request_url : gostring → gostring → option url)
        (errtext : git_err → gostring)
        (sha1 sha256 deflate : bytes → bytes) (zlib_open : bytes → bool)
        (zlib_read : bytes → Z → option (bytes * nat))
        (encode : CachedResponse → option bytes) (decode : bytes → option CachedResponse)
        (RoundTrip : GitRequest → W → option Response * W) (write_ok : nat → bool) (cfg : Config)
        (v : choices) (q : GitRequest).

Abbreviation State := (GitState C W).
Abbreviation step := (gstep url_parse new_request_url errtext sha1 sha256 deflate zlib_open zlib_read encode decode
                        RoundTrip write_ok cfg v q).
Abbreviation run_alone := (λ n, drive url_parse new_request_url errtext sha1 sha256 deflate zlib_open zlib_read
                             encode decode RoundTrip write_ok cfg n v q).

(** Within [n] steps the request ends as the function says. *)
Definition ends (n : nat) (x : gpc * State) (res : option Writer * State) : Prop :=
  run_alone n x = (GDone res.1, res.2).

Lemma ends_done n r st : ends n (GDone r, st) (r, st).
Proof. by destruct n. Qed.

Lemma ends_step n x x' res : step x.1 x.2 = Some x' → ends n x' res → ends (S n) x res.
Proof. intros E Hn. unfold ends. cbn [drive]. by rewrite E. Qed.

Lemma ends_mono n m x res : n ≤ m → ends n x res → ends m x res.
Proof.
  revert m x. induction n as [|n IH]; intros m x Hle Hn.
  { unfold ends in Hn. cbn in Hn. subst x. by destruct m. }
  destruct m as [|m]; [lia|]. unfold ends in *. cbn [drive] in *.
  destruct (gstep _ _ _ _ _ _ _ _ _ _ _ _ _ _ _ _ _) as [x'|]; [|done]. apply IH; [lia|done].
Qed.

Lemma with_repos_id (st : State) : with_repos (g_repos st) st = st.
Proof. by destruct st. Qed.

Lemma GetRepoStore_known p (m : RepoCacheManager) s : stores m !! p = Some s → GetRepoStore sha256 p m = (s, m).
Proof. intros Hs. unfold GetRepoStore. by rewrite Hs. Qed.

Lemma GetRepoStore_stores p (m : RepoCacheManager) :
  stores (GetRepoStore sha256 p m).2 !! p = Some (GetRepoStore sha256 p m).1.
Proof. unfold GetRepoStore. destruct (stores m !! p) as [s|] eqn:E; [done|]. cbn. by rewrite lookup_insert_eq. Qed.

Lemma answer_ends t b up resp st :
  (request_type q b = RequestTypeUploadPackFetch → is_Some (store_at t st)) →
  StatusCode resp = 200%Z →
  cacheable cfg (request_type q b) st = true →
  ends 3 (answer write_ok cfg q t b up resp st, st)
    (reply_cacheable sha1 sha256 deflate zlib_open zlib_read encode cfg (ch_order' v) (ch_now' v) q
       (request_type q b) t b up resp (Own.removeHopByHopHeaders (RespHeader resp))
       (map_header (add_all (Own.removeHopByHopHeaders (RespHeader resp))) new_writer) st).
Proof.
  intros Hst Hs Hc. unfold answer, reply_cacheable. cbn zeta. rewrite Hc, Hs. cbn [andb Z.eqb Pos.eqb].
  destruct (BodyFails resp); [apply ends_done|].
  assert (Hsto : ∀ st', ends 1 (Storing t b resp, st')
    (store_and_reply encode cfg (ch_now' v) (computeCacheKey sha256 q t b) 200
       (Own.removeHopByHopHeaders (RespHeader resp)) (resp_body resp) (miss_writer resp) st')).
  { intros st'. unfold ends. cbn [drive gstep fst snd]. rewrite Hs. by destruct (store_and_reply _ _ _ _ _ _ _ _). }
  case_bool_decide as Et; [|eapply ends_mono; [|apply Hsto]; lia].
  destruct (Hst Et) as [s Hs']. pose proof (GetRepoStore_known _ _ _ Hs') as Hg.
  eapply ends_step.
  { cbn [gstep fst snd]. rewrite Hg. reflexivity. }
  rewrite Hg. destruct (ingest_response _ _ _ _ _) as [s2|]; cbn [fst snd]; [|apply ends_done].
  case_bool_decide as Eu; cbn [fst snd]; [eapply ends_mono; [|apply Hsto]; lia|].
  set (st2 := with_repos _ st).
  assert (Hs2 : store_at t st2 = Some s2) by (unfold store_at; cbn; by rewrite lookup_insert_eq).
  clearbody st2. unfold buildFetchFromStore.
  destruct (ParseFetchRequest b) as [fq|e|e] eqn:Ep;
    [|eapply ends_step; [cbn [gstep fst snd]; rewrite Ep; reflexivity|apply ends_done]..].
  case_bool_decide as Ew.
  { eapply ends_step; [cbn [gstep fst snd]; rewrite Ep, bool_decide_eq_true_2 by done; reflexivity|apply ends_done]. }
  destruct (HasAllCommits (Wants fq) s2) eqn:Eh; cbn [negb].
  2:{ eapply ends_step; [|apply ends_done]. cbn [gstep fst snd].
      rewrite Ep, bool_decide_eq_false_2, Hs2 by done. cbn. by rewrite Eh. }
  eapply ends_step.
  { cbn [gstep fst snd]. rewrite Ep, bool_decide_eq_false_2, Hs2 by done. cbn. by rewrite Eh. }
  destruct (CollectObjectsForCommits _ _ _ _) as [objs acks] eqn:Ec.
  eapply ends_step; [cbn [gstep fst snd]; rewrite Hs2; cbn [mbind option_bind]; rewrite Ec; reflexivity|].
  case_bool_decide; apply ends_done.
Qed.

Lemma sending_ends t b up st :
  (request_type q b = RequestTypeUploadPackFetch → is_Some (store_at t st)) →
  ends 4 (Sending t b up, st)
    (forward new_request_url errtext sha1 sha256 deflate zlib_open zlib_read encode RoundTrip write_ok cfg
       (ch_order' v) (ch_now' v) q (request_type q b) t b up (cacheable cfg (request_type q b) st) st).
Proof.
  intros Hst. eapply ends_step; [cbn [gstep fst snd]; reflexivity|]. unfold forward.
  destruct (git_outgoing _ _ _ _ _) as [out|]; [|apply ends_done].
  destruct (RoundTrip out (g_world st)) as [[resp|] w]; [|apply ends_done].
  destruct (cacheable _ _ st && (StatusCode resp =? 200)%Z) eqn:Ec.
  - apply andb_prop in Ec as [Ec Es%Z.eqb_eq]. exact (answer_ends t b up resp (with_world w st) Hst Es Ec).
  - unfold answer. rewrite Ec. apply ends_done.
Qed.

Lemma lookup_ends t b s st :
  (request_type q b = RequestTypeUploadPackFetch → store_at t st = Some s) →
  ends 7 (LookUp t b, st)
    (serve_rest new_request_url errtext sha1 sha256 deflate zlib_open zlib_read encode decode RoundTrip write_ok cfg
       (ch_order' v) (ch_now v) (ch_now' v) q (request_type q b) t b s st).
Proof.
  intros Hst. unfold serve_rest. fold (cacheable cfg (request_type q b) st).
  set (look := if cacheable _ _ st then _ else _).
  assert (Hl : g_repos look.2 = g_repos st ∧ cacheable cfg (request_type q b) look.2 = cacheable cfg (request_type q b) st).
  { subst look. destruct (cacheable cfg _ st) eqn:E; [|by cbn; rewrite E]. unfold cache_lookup.
    destruct (g_cache st) as [c|] eqn:Ec; [|done]. destruct (cache_get (ch_now v) _ c). split; [done|].
    rewrite <- E. unfold cacheable. by rewrite Ec. }
  destruct look as [hit st1] eqn:El. eapply ends_step.
  { cbn [gstep fst snd]. fold look. rewrite El. reflexivity. } destruct Hl as [Hr Hc]. cbn [snd] in Hr, Hc.
  destruct hit as [cr|]; [apply ends_done|]. rewrite <- Hc.
  assert (Hst1 : request_type q b = RequestTypeUploadPackFetch → store_at t st1 = Some s).
  { intros E. unfold store_at. rewrite Hr. by apply Hst. }
  assert (Hsend : ∀ up, ends 4 (Sending t b up, st1) (forward new_request_url errtext sha1 sha256 deflate zlib_open
    zlib_read encode RoundTrip write_ok cfg (ch_order' v) (ch_now' v) q (request_type q b) t b up
    (cacheable cfg (request_type q b) st1) st1)).
  { intros up. apply sending_ends. intros E. by rewrite Hst1. }
  case_bool_decide as Et; unfold upstream_body at 1.
  2:{ rewrite bool_decide_eq_false_2 by done. eapply ends_mono; [|apply Hsend]. lia. }
  rewrite bool_decide_eq_true_2 by done. specialize (Hst1 Et).
  destruct (ParseFetchRequest b) as [fq|e|e] eqn:Ep;
    [|eapply ends_step; [cbn [gstep fst snd]; by rewrite Ep|]; eapply ends_mono; [|apply Hsend]; lia..].
  destruct (bool_decide (Wants fq = [])) eqn:Ew; cbn [orb].
  { eapply ends_step; [cbn [gstep fst snd]; rewrite Ep, Ew; reflexivity|]. eapply ends_mono; [|apply Hsend]; lia. }
  eapply ends_step; [cbn [gstep fst snd]; rewrite Ep, Ew, (GetRepoStore_known _ _ _ Hst1); cbn [snd]|].
  { rewrite with_repos_id. reflexivity. }
  eapply ends_step; [cbn [gstep fst snd]; rewrite Hst1; reflexivity|].
  unfold upstream_body. rewrite bool_decide_eq_true_2, Ep, Ew by done. apply Hsend.
Qed.

Lemma arrived_ends st :
  ends 10 (Arrived, st)
    (ServeHTTP url_parse new_request_url errtext sha1 sha256 deflate zlib_open zlib_read encode decode RoundTrip
       write_ok cfg (ch_order v) (ch_order' v) (ch_now v) (ch_now' v) q st).
Proof.
  eapply ends_step; [cbn [gstep fst snd]; reflexivity|]. unfold ServeHTTP.
  destruct (ResolveUpstreamURL _ _ _ _) as [t|e|p]; [|apply ends_done..].
  destruct (g_Body q) as [b|]; [|apply ends_done].
  case_bool_decide as Et; [|eapply ends_mono; [|by apply lookup_ends]; lia].
  pose proof (GetRepoStore_stores (u_Path t) (g_repos st)) as Hs.
  destruct (GetRepoStore _ _ _) as [s m]. cbn [fst snd] in *.
  assert (Hrest : ends 7 (LookUp t b, with_repos m st) (serve_rest new_request_url errtext sha1 sha256 deflate zlib_open
    zlib_read encode decode RoundTrip write_ok cfg (ch_order' v) (ch_now v) (ch_now' v) q (request_type q b) t b s
    (with_repos m st))) by by apply lookup_ends.
  assert (Hst : store_at t (with_repos m st) = Some s) by done.
  generalize dependent (with_repos m st). clear Hs. intros st1 Hrest Hst. unfold fetch_hit.
  destruct (ParseFetchRequest b) as [fq|e|e]; [|eapply ends_mono; [|exact Hrest]; lia..].
  eapply ends_step; [cbn [gstep fst snd]; rewrite Hst; reflexivity|].
  destruct (negb _ && _); [|eapply ends_mono; [|exact Hrest]; lia].
  destruct (CollectObjectsForCommits _ _ _ _) as [objs acks] eqn:Ec.
  eapply ends_step; [cbn [gstep fst snd]; rewrite Hst; cbn [mbind option_bind]; rewrite Ec; reflexivity|].
  case_bool_decide; [exact Hrest|apply ends_done].
Qed.
End Alone.

(** ** Lemmas: stores only grow *)

Definition store_keeps (s s' : RepoStore) : Prop := ∀ c, HasCommit c s = true → HasCommit c s' = true.

#[global] Instance store_keeps_refl : Reflexive store_keeps.
Proof. by intros s c Hc. Qed.
#[global] Instance store_keeps_trans : Transitive store_keeps.
Proof. intros s1 s2 s3 H1 H2 c Hc. by apply H2, H1. Qed.

Lemma HasCommit_true c s : HasCommit c s = true ↔ is_Some (commits s !! c).
Proof. unfold HasCommit. by rewrite bool_decide_eq_true. Qed.

Lemma insert_sorted_perm x l : insert_sorted x l ≡ₚ x :: l.
Proof.
  induction l as [|y l IH]; [done|]. cbn [insert_sorted]. destruct (string_le x y); [done|].
  rewrite IH. apply Permutation_swap.
Qed.

Lemma known_commits s c : c ∈ GetKnownCommits s → is_Some (commits s !! c).
Proof.
  unfold GetKnownCommits. assert (Hp : ∀ l, sort_strings l ≡ₚ l).
  { induction l as [|x l IH]; [done|]. unfold sort_strings in *. cbn [foldr]. by rewrite insert_sorted_perm, IH. }
  rewrite Hp. intros ([c' i] & -> & Hi)%list_elem_of_fmap. apply elem_of_map_to_list in Hi. by eexists.
Qed.

Lemma HasAllCommits_keeps l s s' : store_keeps s s' → HasAllCommits l s = true → HasAllCommits l s' = true.
Proof.
  intros Hk. unfold HasAllCommits. rewrite !andb_true_iff, !forallb_forall. intros [Hl Ha].
  split; [done|]. intros c Hc. by apply Hk, Ha.
Qed.

Lemma store_objects_keep nc s objs : store_keeps s (foldl store_object (nc, s) objs).2.
Proof.
  revert nc s. induction objs as [|o objs IH]; intros nc s; [done|]. cbn [foldl].
  destruct (store_object_fields nc s o) as (_ & Ec & _). destruct (store_object (nc, s) o) as [nc1 s1].
  cbn [snd] in Ec. etrans; [|apply IH]. intros c. rewrite !HasCommit_true, Ec.
  destruct (commit_of _ o) as [i|]; [|done]. destruct (decide (OID o = c)) as [<-|Hne].
  - rewrite lookup_insert_eq. by eexists.
  - by rewrite lookup_insert_ne by done.
Qed.

Lemma ingest_keeps sha1 zo zr body s s' :
  ingest_response sha1 zo zr body s = Some s' → store_keeps s s'.
Proof.
  unfold ingest_response. destruct (ExtractPackfileFromResponse body) as [p|]; [|by intros [= <-]].
  destruct (IngestPackfile _ _ _ _ _) as [[nc s1]|e|e] eqn:E; [|by intros [= <-]|done]. intros [= <-].
  unfold IngestPackfile in E. apply outcome_bind_ok in E as (objs & _ & [= E]).
  unfold ingest_objects in E. pose proof (store_objects_keep [] s objs) as Hk.
  destruct (foldl store_object ([], s) objs) as [nc1 s2]. injection E as _ <-.
  intros c Hc%Hk. revert Hc. cbn [snd]. rewrite !HasCommit_true.
  destruct (recompute_fields (map_to_list (commits s2)).*2 s2) as (_ & -> & _). done.
Qed.

(** ** Any number of requests *)

Section Many.
Context `{Unicode} {C : Type} `{CacheLaws C}
        (url_parse : gostring → option url)
        (new_request_url : gostring → gostring → option url)
        (errtext : git_err → gostring)
        (sha1 sha256 deflate : bytes → bytes) (zlib_open : bytes → bool)
        (zlib_read : bytes → Z → option (bytes * nat))
        (encode : CachedResponse → option bytes) (decode : bytes → option CachedResponse)
        (decode_encode : ∀ cr b, encode cr = Some b → decode b = Some cr)
        (answers : nat → GitRequest → option Response) (write_ok : nat → bool) (cfg : Config).
Hypothesis ttl_positive : (0 < CacheTTL cfg)%Z.

Abbreviation log := (list (GitRequest * option Response)).
Abbreviation State := (GitState C log).
Abbreviation step := (gstep url_parse new_request_url errtext sha1 sha256 deflate zlib_open zlib_read encode decode
                        (git_upstream answers) write_ok cfg).
Abbreviation inv := (git_inv url_parse new_request_url sha1 sha256 encode cfg).
Abbreviation resolves_to := (resolves url_parse cfg).
Abbreviation justified := (git_justified url_parse new_request_url sha1 sha256 deflate cfg).
Abbreviation key := (computeCacheKey sha256).

(** The shared state and the requests in flight or answered. *)
Record system := mkSystem {
  sys_state : State;
  sys_threads : list (GitRequest * gpc);
}.

Inductive sys_step : system → system → Prop :=
  | sys_arrival q st ths : sys_step (mkSystem st ths) (mkSystem st (ths ++ [(q, Arrived)]))
  | sys_request i v q c c' st st' ths :
      ths !! i = Some (q, c) → step v q c st = Some (c', st') →
      sys_step (mkSystem st ths) (mkSystem st' (<[i := (q, c')]> ths))
  | sys_cache c c' st ths :
      g_cache st = Some c → (∀ k x, holds c' k x → holds c k x) →
      sys_step (mkSystem st ths) (mkSystem (with_cache (Some c') st) ths).

(** What a state promises to the requests that have seen it. *)
Definition grown (st st' : State) : Prop :=
  g_world st ⊆ g_world st' ∧
  ∀ t s, store_at t st = Some s → ∃ s', store_at t st' = Some s' ∧ store_keeps s s'.

#[local] Instance grown_refl : Reflexive grown.
Proof. intros st. split; [done|]. intros t s Hs. by exists s. Qed.

Definition fetch_of (q : GitRequest) (b : bytes) (fq : FetchRequest) : Prop :=
  request_type q b = RequestTypeUploadPackFetch ∧ ParseFetchRequest b = Ok fq.
Definition stocked (t : url) (fq : FetchRequest) (st : State) : Prop :=
  ∃ s, store_at t st = Some s ∧ HasAllCommits (Wants fq) s = true.
(** The request a fetch was sent upstream with names commits that the store has. *)
Definition augmented (t : url) (b up : bytes) (st : State) : Prop :=
  up = b ∨ ∃ fq known s, ParseFetchRequest b = Ok fq ∧
    up = BuildUpstreamFetchRequest (Wants fq) (dedup_from [] (Haves fq ++ known)) (IsV2 fq) ∧
    store_at t st = Some s ∧ Forall (λ c, HasCommit c s = true) known.
Definition placed (q : GitRequest) (t : url) (b : bytes) (st : State) : Prop :=
  resolves_to q t b ∧ (request_type q b = RequestTypeUploadPackFetch → is_Some (store_at t st)).

Definition thread_ok (st : State) (q : GitRequest) (c : gpc) : Prop :=
  match c with
  | Arrived | GDone None => True
  | LookUp t b => placed q t b st
  | FindStore t b | CheckOwn t b _ => placed q t b st ∧ request_type q b = RequestTypeUploadPackFetch
  | CheckStore t b fq | ReadKnown t b fq => placed q t b st ∧ fetch_of q b fq
  | CollectHit t b fq | CollectOwn t b fq _ => placed q t b st ∧ fetch_of q b fq ∧ stocked t fq st
  | Sending t b up => placed q t b st ∧ augmented t b up st ∧
      (request_type q b ≠ RequestTypeUploadPackFetch → up = b)
  | Ingesting t b up resp => placed q t b st ∧ augmented t b up st ∧
      request_type q b = RequestTypeUploadPackFetch ∧
      (up = b → answered_to url_parse new_request_url cfg (g_world st) q t b resp)
  | Storing t b resp => placed q t b st ∧ answered_to url_parse new_request_url cfg (g_world st) q t b resp
  | GDone (Some w) => justified (g_world st) q w
  end.

Lemma placed_grown q t b st st' : grown st st' → placed q t b st → placed q t b st'.
Proof.
  intros [_ Hg] [Hr Hs]. split; [done|]. intros [s E]%Hs. destruct (Hg t s E) as (s' & ? & _). by exists s'.
Qed.
Lemma stocked_grown t fq st st' : grown st st' → stocked t fq st → stocked t fq st'.
Proof.
  intros [_ Hg] (s & Hs & Ha). destruct (Hg t s Hs) as (s' & Hs' & Hk). exists s'.
  split; [done|by eapply HasAllCommits_keeps].
Qed.
Lemma augmented_grown t b up st st' : grown st st' → augmented t b up st → augmented t b up st'.
Proof.
  intros [_ Hg] [->|(fq & known & s & Hp & Hu & Hs & Hk)]; [by left|]. right.
  destruct (Hg t s Hs) as (s' & Hs' & Hkeep). exists fq, known, s'. split_and!; try done.
  eapply Forall_impl; [exact Hk|]. intros c. apply Hkeep.
Qed.
Lemma answered_to_grown q t b resp st st' :
  grown st st' → answered_to url_parse new_request_url cfg (g_world st) q t b resp →
  answered_to url_parse new_request_url cfg (g_world st') q t b resp.
Proof.
  intros [Hl _] (Hr & (out & Ho & Hin) & ?). split_and!; [done| |tauto..]. exists out. split; [done|by apply Hl].
Qed.

(** What a request relies on is not taken away by the others. *)
Lemma thread_ok_grown st st' q c : grown st st' → thread_ok st q c → thread_ok st' q c.
Proof.
  intros Hg. destruct c; cbn [thread_ok]; try done;
    try (intros Hp; by eapply placed_grown); try (intros [Hp ?]; split; [by eapply placed_grown|done]).
  - intros (? & ? & ?). split_and!; [by eapply placed_grown|done|by eapply stocked_grown].
  - intros (? & ? & ?). split_and!; [by eapply placed_grown|by eapply augmented_grown|done].
  - intros (? & ? & ? & Ha). split_and!; [by eapply placed_grown|by eapply augmented_grown|done|].
    intros E%Ha. by eapply answered_to_grown.
  - intros (? & ? & ?). split_and!; [by eapply placed_grown|done|by eapply stocked_grown].
  - intros [? ?]. split; [by eapply placed_grown|by eapply answered_to_grown].
  - destruct r; [|done]. apply git_justified_mono; try done. apply Hg.
Qed.

(** *** One step keeps what all rely on *)

Definition advances (st : State) (q : GitRequest) (x : gpc * State) : Prop :=
  grown st x.2 ∧ inv x.2 ∧ thread_ok x.2 q x.1.

Lemma fail_done st q msg code w0 :
  w_sent w0 = None → code ≠ 200%Z → thread_ok st q (GDone (fail msg code w0)).
Proof.
  intros Hw Hc. apply (not_200_justified url_parse new_request_url sha1 sha256 deflate cfg _ _ _ code
    (w_header (HttpError msg code w0))); [|done].
  unfold HttpError, Write, WriteHeader, map_header. cbn. by rewrite Hw.
Qed.

Lemma stays st q c : inv st → thread_ok st q c → advances st q (c, st).
Proof. done. Qed.

Lemma get_store_grown t (st : State) : grown st (with_repos (GetRepoStore sha256 (u_Path t) (g_repos st)).2 st).
Proof.
  split; [done|]. intros t' s Hs. exists s. split; [|done]. unfold store_at, GetRepoStore in *. cbn.
  destruct (stores (g_repos st) !! u_Path t) eqn:E; [done|]. cbn. rewrite lookup_insert_ne; [done|].
  intros Heq. rewrite Heq in E. congruence.
Qed.
Lemma get_store_inv t (st : State) : inv st → inv (with_repos (GetRepoStore sha256 (u_Path t) (g_repos st)).2 st).
Proof.
  intros [Hc Hg]. split; [done|]. eapply GetRepoStore_genuine; [exact Hg|]. apply surjective_pairing.
Qed.
Lemma get_store_at t (st : State) : is_Some (store_at t (with_repos (GetRepoStore sha256 (u_Path t) (g_repos st)).2 st)).
Proof. eexists. apply GetRepoStore_stores. Qed.

Lemma cacheable_inv rt st : inv st → cacheable cfg rt st = IsCacheable rt.
Proof.
  intros [(c & Hc & _) _]. unfold cacheable. rewrite Hc, bool_decide_eq_true_2 by by eexists.
  rewrite (proj2 (Z.ltb_lt _ _)) by done. by rewrite !andb_true_r.
Qed.

Lemma arrived_ok v q st x : inv st → step v q Arrived st = Some x → advances st q x.
Proof.
  intros Hi [= <-]. destruct (ResolveUpstreamURL _ _ _ _) as [t|e|p] eqn:Et;
    [|by apply stays, fail_done|by apply stays].
  destruct (g_Body q) as [b|] eqn:Eb; [|by apply stays, fail_done].
  assert (Hr : resolves_to q t b) by done.
  case_bool_decide as Eu; [|by apply stays].
  split_and!; [apply get_store_grown|by apply get_store_inv|]. cbn [fst snd].
  assert (Hp : placed q t b (with_repos (GetRepoStore sha256 (u_Path t) (g_repos st)).2 st))
    by (split; [done|intros _; apply get_store_at]).
  by destruct (ParseFetchRequest b) eqn:Ep; cbn [thread_ok].
Qed.

Lemma check_ok v q t b fq st x :
  inv st → thread_ok st q (CheckStore t b fq) → step v q (CheckStore t b fq) st = Some x → advances st q x.
Proof.
  intros Hi [Hp Hf] Hx. cbn [gstep] in Hx. destruct (store_at t st) as [s|] eqn:Es; [|done]. injection Hx as <-.
  apply stays; [done|]. destruct (_ && _) eqn:Ea; [|done]. apply andb_prop in Ea as [_ Ea].
  split_and!; [done..|by exists s].
Qed.

Lemma genuine_hit t b fq st s order objs acks :
  inv st → store_at t st = Some s → ParseFetchRequest b = Ok fq → stocked t fq st →
  CollectObjectsForCommits order (Wants fq) (Haves fq) s = (objs, acks) → objs ≠ [] →
  ∃ s order, genuine sha1 s ∧ fetch_hit sha1 deflate order b s = Some (formatted sha1 deflate fq objs acks).
Proof.
  intros [_ Hg] Hs Hf (s' & Hs' & Ha) Hc Ho. assert (s' = s) as -> by congruence.
  exists s, order. split; [by eapply Hg|]. apply fetch_hit_Some. by exists fq, objs, acks.
Qed.

Lemma hit_justified l q t b w :
  resolves_to q t b → (∃ s order, genuine sha1 s ∧ fetch_hit sha1 deflate order b s = Some (w_body w)) → justified l q w.
Proof.
  intros Hr Hh t' b' sent Hr' _ _. left. by destruct (resolves_det _ _ _ _ _ _ _ Hr Hr') as [-> ->].
Qed.

Lemma collect_ok v q t b fq st x :
  inv st → thread_ok st q (CollectHit t b fq) → step v q (CollectHit t b fq) st = Some x → advances st q x.
Proof.
  intros Hi (Hp & Hf & Hst) Hx. cbn [gstep] in Hx. destruct (store_at t st) as [s|] eqn:Es; [|done].
  cbn [mbind option_bind] in Hx. destruct (CollectObjectsForCommits _ _ _ _) as [objs acks] eqn:Ec. injection Hx as <-.
  apply stays; [done|]. case_bool_decide as Eo; [done|]. eapply hit_justified; [apply Hp|].
  eapply genuine_hit; try done. apply Hf.
Qed.

Lemma lookup_ok v q t b st x :
  inv st → thread_ok st q (LookUp t b) → step v q (LookUp t b) st = Some x → advances st q x.
Proof using decode_encode ttl_positive.
  intros Hi Hp Hx. cbn [gstep] in Hx. cbn [thread_ok] in Hp.
  destruct (if cacheable _ _ st then _ else _) as [hit st1] eqn:El. injection Hx as <-.
  assert (Hl : grown st st1 ∧ inv st1 ∧ ∀ cr, hit = Some cr → ∃ resp,
    git_answered url_parse new_request_url sha256 cfg (g_world st1) (key q t b) resp ∧ cr_Body cr = resp_body resp).
  { destruct (cacheable _ _ st); [|by injection El as <- <-].
    destruct (cache_lookup_ok url_parse new_request_url sha1 sha256 encode decode decode_encode cfg _ _ _ _ _ Hi El)
      as (Hw & Hi' & Hhit). rewrite Hw. split_and!; [|done..]. split; [by rewrite Hw|]. intros t' s Hs. exists s.
    split; [|done]. unfold cache_lookup in El. destruct (g_cache st) as [c|]; [|by injection El as _ <-].
    destruct (cache_get (ch_now v) _ c). by injection El as _ <-. }
  destruct Hl as (Hg & Hi1 & Hhit). split_and!; [done..|]. cbn [fst snd].
  destruct hit as [cr|]; cbn [thread_ok].
  - intros t' b' sent Hr' _ _. right. destruct (resolves_det _ _ _ _ _ _ _ (proj1 Hp) Hr') as [-> ->].
    destruct (Hhit cr eq_refl) as (resp & Ha & Hb). by exists resp.
  - case_bool_decide; [split; [by eapply placed_grown|done]|]. split_and!; [by eapply placed_grown|by left|done].
Qed.

Lemma find_ok v q t b st x :
  inv st → thread_ok st q (FindStore t b) → step v q (FindStore t b) st = Some x → advances st q x.
Proof.
  intros Hi [Hp Hu] [= <-].
  assert (Hsame : advances st q (Sending t b b, st)) by (apply stays; [done|split_and!; [done|by left|done]]).
  destruct (ParseFetchRequest b) as [fq|e|e] eqn:Ep; [|done..]. case_bool_decide; [done|].
  split_and!; [apply get_store_grown|by apply get_store_inv|]. cbn [fst snd]. split_and!; [|done..].
  eapply placed_grown; [apply get_store_grown|done].
Qed.

Lemma upstream_body_augmented t b s st :
  store_at t st = Some s → augmented t b (upstream_body RequestTypeUploadPackFetch b s) st.
Proof.
  intros Hs. unfold upstream_body. rewrite bool_decide_eq_true_2 by done.
  destruct (ParseFetchRequest b) as [fq|e|e] eqn:Ep; [|by left..].
  destruct (_ || _); [by left|]. right. exists fq, (GetKnownCommits s), s. split_and!; [done..|].
  apply Forall_forall. intros c Hc. apply HasCommit_true. by apply known_commits.
Qed.

Lemma read_known_ok v q t b fq st x :
  inv st → thread_ok st q (ReadKnown t b fq) → step v q (ReadKnown t b fq) st = Some x → advances st q x.
Proof.
  intros Hi [Hp [Hu Hf]] Hx. cbn [gstep] in Hx. destruct (store_at t st) as [s|] eqn:Es; [|done].
  injection Hx as <-. apply stays; [done|]. split_and!; [done|by apply upstream_body_augmented|done].
Qed.

(** The upstream's answer enters the log; the stores are as they were. *)
Lemma logged_grown (st : State) l : g_world st ⊆ l → grown st (with_world l st).
Proof. intros Hl. split; [done|]. intros t s Hs. by exists s. Qed.
Lemma logged_inv st l : g_world st ⊆ l → inv st → inv (with_world l st).
Proof.
  intros Hl [(c & Hc & Hb) Hg]. split; [|done]. exists c. split; [done|]. by eapply git_backed_mono.
Qed.

Lemma sending_ok v q t b up st x :
  inv st → thread_ok st q (Sending t b up) → step v q (Sending t b up) st = Some x → advances st q x.
Proof using ttl_positive.
  intros Hi (Hp & Ha & Hup) [= <-]. destruct (git_outgoing _ _ _ _ _) as [out|] eqn:Eo; [|by apply stays, fail_done].
  unfold git_upstream. set (a := answers _ out). set (l := g_world st ++ [(out, a)]).
  assert (Hl : g_world st ⊆ l) by (intros y Hy; apply elem_of_app; by left).
  assert (Hin : (out, a) ∈ l) by (apply elem_of_app; right; by apply list_elem_of_singleton).
  pose proof (logged_grown st l Hl) as Hg. pose proof (logged_inv st l Hl Hi) as Hi'.
  destruct a as [resp|] eqn:Ea; (split_and!; [done..|]); cbn [fst snd]; [|by apply fail_done].
  unfold answer. rewrite cacheable_inv by done.
  destruct (IsCacheable _ && (StatusCode resp =? 200)%Z) eqn:Ec.
  - apply andb_prop in Ec as [_ Es%Z.eqb_eq]. destruct (BodyFails resp) eqn:Ef; [by apply fail_done|].
    assert (Hans : up = b → answered_to url_parse new_request_url cfg l q t b resp).
    { intros ->. split_and!; [apply Hp|by exists out|done..]. }
    case_bool_decide as Eu; cbn [thread_ok].
    + split_and!; [by eapply placed_grown|by eapply augmented_grown|done|done].
    + split; [by eapply placed_grown|by apply Hans, Hup].
  - intros t' b' sent Hr' Hcb Hs. exfalso. destruct (resolves_det _ _ _ _ _ _ _ (proj1 Hp) Hr') as [-> ->].
    rewrite Hcb in Ec. cbn [andb] in Ec. apply Z.eqb_neq in Ec. unfold bypass in Hs.
    erewrite relay_body_sent in Hs by reflexivity. apply Some_inj in Hs. exact (Ec (f_equal fst Hs)).
Qed.

Lemma set_store_grown t s s' (st : State) :
  store_at t st = Some s → store_keeps s s' → grown st (with_repos (set_store (u_Path t) s' (g_repos st)) st).
Proof.
  intros Hs Hk. split; [done|]. intros t' s0 Hs0. unfold store_at in *. cbn.
  destruct (decide (u_Path t = u_Path t')) as [E|E].
  - rewrite E, lookup_insert_eq. exists s'. split; [done|]. by rewrite E in Hs; assert (s0 = s) as -> by congruence.
  - rewrite lookup_insert_ne by done. by exists s0.
Qed.

Lemma ingesting_ok v q t b up resp st x :
  inv st → thread_ok st q (Ingesting t b up resp) → step v q (Ingesting t b up resp) st = Some x → advances st q x.
Proof.
  intros Hi (Hp & _ & Hu & Ha) Hx. cbn [gstep] in Hx. destruct (proj2 Hp Hu) as [s Hs].
  rewrite (GetRepoStore_known sha256 _ _ _ Hs) in Hx.
  destruct (ingest_response _ _ _ _ _) as [s'|] eqn:Ei; injection Hx as <-.
  2:{ rewrite with_repos_id. by apply stays. }
  assert (Hg : grown st (with_repos (set_store (u_Path t) s' (g_repos st)) st)).
  { eapply set_store_grown; [done|by eapply ingest_keeps]. }
  split_and!; [done| |]; cbn [fst snd].
  - destruct Hi as [Hc Hgen]. split; [done|]. intros p s0. cbn. intros [[_ <-]|[_ Hp0]]%lookup_insert_Some; [|by eapply Hgen].
    eapply ingest_response_genuine; [by eapply Hgen|done].
  - case_bool_decide as Eu; cbn [thread_ok]; (split; [by eapply placed_grown|]); [by apply Ha|done].
Qed.

Lemma check_own_ok v q t b resp st x :
  inv st → thread_ok st q (CheckOwn t b resp) → step v q (CheckOwn t b resp) st = Some x → advances st q x.
Proof.
  intros Hi [Hp Hu] Hx. cbn [gstep] in Hx.
  destruct (ParseFetchRequest b) as [fq|e|e] eqn:Ep; [|injection Hx as <-; by apply stays, fail_done..].
  case_bool_decide; [injection Hx as <-; by apply stays, fail_done|].
  destruct (store_at t st) as [s|] eqn:Es; [|done]. injection Hx as <-.
  destruct (HasAllCommits (Wants fq) s) eqn:Eh; (apply stays; [done|]); [|by apply fail_done].
  split_and!; [done..|by exists s].
Qed.

Lemma collect_own_ok v q t b fq resp st x :
  inv st → thread_ok st q (CollectOwn t b fq resp) → step v q (CollectOwn t b fq resp) st = Some x → advances st q x.
Proof.
  intros Hi (Hp & Hf & Hst) Hx. cbn [gstep] in Hx. destruct (store_at t st) as [s|] eqn:Es; [|done].
  cbn [mbind option_bind] in Hx. destruct (CollectObjectsForCommits _ _ _ _) as [objs acks] eqn:Ec. injection Hx as <-.
  apply stays; [done|]. case_bool_decide as Eo; [by apply fail_done|]. eapply hit_justified; [apply Hp|].
  eapply genuine_hit; try done. apply Hf.
Qed.

Lemma store_and_reply_repos now k code h body w (st : State) :
  g_repos (store_and_reply encode cfg now k code h body w st).2 = g_repos st.
Proof. unfold store_and_reply. cbn. by repeat case_match. Qed.

Lemma storing_ok v q t b resp st x :
  inv st → thread_ok st q (Storing t b resp) → step v q (Storing t b resp) st = Some x → advances st q x.
Proof.
  intros Hi [Hp Ha] Hx. cbn [gstep] in Hx.
  destruct (store_and_reply_ok url_parse new_request_url sha1 sha256 deflate zlib_open zlib_read encode cfg
    (g_world st) q t b (ch_now' v) resp (miss_writer resp) st) as (Hl & Hi' & Hj); try done.
  change removeHopByHopHeaders with Own.removeHopByHopHeaders in Hl, Hi', Hj.
  pose proof (store_and_reply_repos (ch_now' v) (key q t b) (StatusCode resp)
    (Own.removeHopByHopHeaders (RespHeader resp)) (resp_body resp) (miss_writer resp) st) as Hr.
  destruct (store_and_reply _ _ _ _ _ _ _ _ _) as [w st']. injection Hx as <-. cbn [fst snd] in *.
  split_and!; [|done|by destruct w; [apply Hj|]].
  split; [done|]. intros t' s Hs. exists s. split; [|done]. unfold store_at. cbn [snd]. by rewrite Hr.
Qed.

Lemma gstep_ok v q c st x : inv st → thread_ok st q c → step v q c st = Some x → advances st q x.
Proof using decode_encode ttl_positive.
  destruct c; intros Hi Ht Hx.
  - by eapply arrived_ok.
  - by eapply check_ok.
  - by eapply collect_ok.
  - by eapply lookup_ok.
  - by eapply find_ok.
  - by eapply read_known_ok.
  - by eapply sending_ok.
  - by eapply ingesting_ok.
  - by eapply check_own_ok.
  - by eapply collect_own_ok.
  - by eapply storing_ok.
  - done.
Qed.

(** *** Runs of the system *)

Definition sys_ok (s : system) : Prop :=
  inv (sys_state s) ∧ Forall (λ th, thread_ok (sys_state s) th.1 th.2) (sys_threads s).

(** The proxy as it starts, with an empty response cache. *)
Definition start (c0 : C) (dir : gostring) : system :=
  mkSystem (mkGitState (Some c0) (NewRepoCacheManager dir) []) [].

Lemma start_ok c0 dir : (∀ k x, ¬ holds c0 k x) → sys_ok (start c0 dir).
Proof.
  intros Hc. split; [|done]. split; [|intros p s; cbn; by rewrite lookup_empty].
  exists c0. split; [done|]. intros k x Hk. by apply Hc in Hk.
Qed.

Lemma sys_step_ok s s' : sys_ok s → sys_step s s' → sys_ok s'.
Proof using decode_encode ttl_positive.
  intros [Hi Hf] Hs. destruct Hs as [q st ths|i v q c c' st st' ths Hth Hst|c c' st ths Hc Hh]; cbn in *.
  - split; [done|]. by apply Forall_app_2; [|apply Forall_singleton].
  - assert (Ht : thread_ok st q c) by exact (Forall_lookup_1 _ _ _ _ Hf Hth).
    destruct (gstep_ok v q c st (c', st') Hi Ht Hst) as (Hg & Hi' & Ht'). split; [done|].
    apply Forall_insert; [|done]. eapply Forall_impl; [exact Hf|]. intros th. by apply thread_ok_grown.
  - split; [|done]. destruct Hi as [(c1 & Hc1 & Hb) Hg]. split; [|done]. exists c'. split; [done|].
    intros k x Hk%Hh. assert (c1 = c) as -> by congruence. by apply Hb.
Qed.

Lemma sys_steps_ok s s' : rtc sys_step s s' → sys_ok s → sys_ok s'.
Proof using decode_encode ttl_positive. induction 1; [done|]. intros Hs. apply IHrtc. by eapply sys_step_ok. Qed.

Lemma reachable_ok c0 dir s :
  (∀ k x, ¬ holds c0 k x) → rtc sys_step (start c0 dir) s → sys_ok s.
Proof using decode_encode ttl_positive. intros Hc Hr. eapply sys_steps_ok; [done|by apply start_ok]. Qed.

Lemma reachable_thread c0 dir s q c :
  (∀ k x, ¬ holds c0 k x) → rtc sys_step (start c0 dir) s → (q, c) ∈ sys_threads s → thread_ok (sys_state s) q c.
Proof using decode_encode ttl_positive.
  intros Hc Hr Hin. destruct (reachable_ok _ _ _ Hc Hr) as [_ Hf]. exact (proj1 (Forall_forall _ _) Hf (q, c) Hin).
Qed.

Lemma gstep_progress v q c st :
  thread_ok st q c → gsteps_left c ≠ 0 →
  ∃ x, step v q c st = Some x ∧ gsteps_left x.1 < gsteps_left c.
Proof.
  intros Ht Hc. destruct c; cbn [gstep gsteps_left thread_ok] in *; try done.
  - eexists. split; [reflexivity|]. repeat case_match; cbn; lia.
  - destruct Ht as [[_ Hs] [Hu _]]. destruct (Hs Hu) as [s ->]. eexists. split; [reflexivity|]. cbn. case_match; cbn; lia.
  - destruct Ht as (_ & _ & s & -> & _). cbn [mbind option_bind]. destruct (CollectObjectsForCommits _ _ _ _).
    eexists. split; [reflexivity|]. cbn. case_bool_decide; cbn; lia.
  - destruct (if cacheable _ _ st then _ else _) as [hit st1]. eexists. split; [reflexivity|]. repeat case_match; cbn; lia.
  - eexists. split; [reflexivity|]. repeat case_match; cbn; lia.
  - destruct Ht as [[_ Hs] [Hu _]]. destruct (Hs Hu) as [s ->]. eexists. split; [reflexivity|]. cbn. lia.
  - eexists. split; [reflexivity|]. unfold answer. repeat case_match; cbn; lia.
  - destruct (GetRepoStore _ _ _) as [s m]. eexists. split; [reflexivity|]. repeat case_match; cbn; lia.
  - destruct Ht as [[_ Hs] Hu]. destruct (Hs Hu) as [s ->]. cbn [mbind option_bind].
    repeat case_match; eexists; (split; [reflexivity|cbn; lia]).
  - destruct Ht as (_ & _ & s & -> & _). cbn [mbind option_bind]. destruct (CollectObjectsForCommits _ _ _ _).
    eexists. split; [reflexivity|]. cbn. case_bool_decide; cbn; lia.
  - destruct (store_and_reply _ _ _ _ _ _ _ _ _) as [w st']. eexists. split; [reflexivity|]. cbn. lia.
Qed.

Abbreviation alone := (drive url_parse new_request_url errtext sha1 sha256 deflate zlib_open zlib_read encode decode
                         (git_upstream answers) write_ok cfg).

(** A request that runs alone for a while, as a run of the system. *)
Lemma drive_steps n v q c st i ths :
  ths !! i = Some (q, c) →
  rtc sys_step (mkSystem st ths)
    (mkSystem (alone n v q (c, st)).2 (<[i := (q, (alone n v q (c, st)).1)]> ths)).
Proof.
  revert c st ths. induction n as [|n IH]; intros c st ths Hth; cbn [drive fst snd].
  { by rewrite list_insert_id. }
  destruct (step v q c st) as [[c' st']|] eqn:E; cbn [fst snd]; [|by rewrite list_insert_id].
  eapply rtc_l; [by eapply sys_request|].
  replace (<[i := (q, (alone n v q (c', st')).1)]> ths) with (<[i := (q, (alone n v q (c', st')).1)]> (<[i := (q, c')]> ths))
    by apply list_insert_insert_eq.
  apply IH. apply list_lookup_insert_eq. by eapply lookup_lt_Some.
Qed.

(** ** Properties *)

(** C21: Under any interleaving of any number of requests, whatever the cache
    drops, the proxy never passes off an answer to a question the client did not
    ask: a cacheable request answered 200 gets a response made for its own wants
    and haves from a store of genuine objects that had every wanted commit, or the
    complete body of a 200 that the upstream gave to a request of the same cache
    slot sent on unchanged. *)
Theorem concurrent_responses_genuine c0 dir s q w :
  (∀ k x, ¬ holds c0 k x) → rtc sys_step (start c0 dir) s →
  (q, GDone (Some w)) ∈ sys_threads s →
  justified (g_world (sys_state s)) q w.
Proof using decode_encode ttl_positive. intros Hc Hr Hin. exact (reachable_thread c0 dir s q _ Hc Hr Hin). Qed.

(** C23: The packs the proxy asks for can be completed: when the upstream's answer
    is about to be ingested, however long it took and whatever other requests did
    meanwhile, every commit the proxy named to the upstream beyond the client's own
    is still in the store, so the objects a thin pack leaves out are there. *)
Theorem assisted_bases_kept c0 dir s q t b up resp :
  (∀ k x, ¬ holds c0 k x) → rtc sys_step (start c0 dir) s →
  (q, Ingesting t b up resp) ∈ sys_threads s →
  ∃ store, store_at t (sys_state s) = Some store ∧
    (up = b ∨ ∃ fq known, ParseFetchRequest b = Ok fq ∧
       up = BuildUpstreamFetchRequest (Wants fq) (dedup_from [] (Haves fq ++ known)) (IsV2 fq) ∧
       Forall (λ c, HasCommit c store = true) known).
Proof using decode_encode ttl_positive.
  intros Hc Hr Hin. destruct (reachable_thread c0 dir s q _ Hc Hr Hin) as ([_ Hs] & Ha & Hu & _).
  destruct (Hs Hu) as [store Hst]. exists store. split; [done|].
  destruct Ha as [->|(fq & known & s' & Hp & Hup & Hs' & Hk)]; [by left|]. right.
  assert (s' = store) as -> by congruence. by exists fq, known.
Qed.
End Many.

(** Without concurrency the steps are the sequential handler: a request whose steps
    nothing interrupts answers and leaves the state exactly as [ServeHTTP]
    does, from every state and for every upstream. *)
Lemma alone_is_ServeHTTP `{Unicode} {C W} `{CacheOps C} url_parse new_request_url errtext
    sha1 sha256 deflate zlib_open zlib_read encode decode RT write_ok cfg v q (st : GitState C W) :
  let res := ServeHTTP url_parse new_request_url errtext sha1 sha256 deflate zlib_open zlib_read encode decode RT
               write_ok cfg (ch_order v) (ch_order' v) (ch_now v) (ch_now' v) q st in
  drive url_parse new_request_url errtext sha1 sha256 deflate zlib_open zlib_read encode decode RT write_ok cfg
    10 v q (Arrived, st) = (GDone res.1, res.2).
Proof. apply arrived_ends. Qed.

(** ** The properties at concrete inputs

    Two clients fetch the same commit at the same time; a third asks for
    another commit once the store has the first. *)

Definition pack_answers (n : nat) (_ : GitRequest) : option Response :=
  Some (mkResponse 200 ∅ [FormatSidebandPackfile demo_pack true [] false] false ∅).
Definition demo_choices : choices := mkChoices (λ l, l) (λ l, l) 0 0.
Definition first_fetch : GitRequest := demo_fetch #"/https/git.example/repo/git-upload-pack".
Definition next_fetch : GitRequest :=
  mkGitRequest #"POST" (demo_url #"/https/git.example/repo/git-upload-pack") #"proxy:8080" ∅
    (Some (pkt_line (#"want " ++ repeat "a"%char 40 ++ nl) ++ flush_pkt ++ pkt_line (#"done" ++ nl))).

Abbreviation demo_step := (@sys_step ascii_unicode InMemoryCache.t _ _ (λ _, None) demo_new_request (λ _, #"error")
  demo_sha1 demo_sha1 demo_deflate demo_open demo_read demo_encode demo_decode pack_answers (λ _, true) demo_cfg).
Abbreviation demo_drive := (@drive ascii_unicode InMemoryCache.t _ _ (λ _, None) demo_new_request (λ _, #"error")
  demo_sha1 demo_sha1 demo_deflate demo_open demo_read demo_encode demo_decode (git_upstream pack_answers)
  (λ _, true) demo_cfg).
Definition demo_start : @system InMemoryCache.t := start (InMemoryCache.NewInMemoryCache 0) [].

(** The first request gets as far as its upstream call, the second runs to its
    end, then the first does. *)
Definition half_way := demo_drive 5 demo_choices first_fetch (Arrived, sys_state demo_start).
Definition second_done := demo_drive 10 demo_choices first_fetch (Arrived, half_way.2).
Definition first_done := demo_drive 10 demo_choices first_fetch (half_way.1, second_done.2).
Definition third_waits := demo_drive 6 demo_choices next_fetch (Arrived, first_done.2).

Definition both_served : @system InMemoryCache.t :=
  mkSystem first_done.2 [(first_fetch, first_done.1); (first_fetch, second_done.1)].
Definition third_asks : @system InMemoryCache.t :=
  mkSystem third_waits.2 [(first_fetch, first_done.1); (first_fetch, second_done.1); (next_fetch, third_waits.1)].

(** A run of one of the requests, from a given point of the system. *)
Lemma demo_steps n q c (st : GitState InMemoryCache.t _) i ths :
  ths !! i = Some (q, c) →
  rtc demo_step (mkSystem st ths)
    (mkSystem (demo_drive n demo_choices q (c, st)).2 (<[i := (q, (demo_drive n demo_choices q (c, st)).1)]> ths)).
Proof. apply drive_steps. Qed.

Lemma demo_arrival q (st : GitState InMemoryCache.t _) ths :
  rtc demo_step (mkSystem st ths) (mkSystem st (ths ++ [(q, Arrived)])).
Proof. apply rtc_once, sys_arrival. Qed.

Lemma both_served_reached : rtc demo_step demo_start both_served.
Proof.
  etrans; [apply (demo_arrival first_fetch)|]. etrans; [apply (demo_arrival first_fetch)|].
  etrans; [exact (demo_steps 5 first_fetch Arrived _ 0
    [(first_fetch, Arrived); (first_fetch, Arrived)] eq_refl)|].
  etrans; [exact (demo_steps 10 first_fetch Arrived half_way.2 1
    [(first_fetch, half_way.1); (first_fetch, Arrived)] eq_refl)|].
  exact (demo_steps 10 first_fetch half_way.1 second_done.2 0
    [(first_fetch, half_way.1); (first_fetch, second_done.1)] eq_refl).
Qed.

Lemma third_asks_reached : rtc demo_step demo_start third_asks.
Proof.
  etrans; [exact both_served_reached|]. etrans; [apply (demo_arrival next_fetch)|].
  exact (demo_steps 6 next_fetch Arrived first_done.2 2
    [(first_fetch, first_done.1); (first_fetch, second_done.1); (next_fetch, Arrived)] eq_refl).
Qed.

Definition reply_of (c : gpc) : option Writer := match c with GDone r => r | _ => None end.
Definition ingesting (c : gpc) : option (url * bytes * bytes * Response) :=
  match c with Ingesting t b up resp => Some (t, b, up, resp) | _ => None end.
Lemma reply_of_Some c w : reply_of c = Some w → c = GDone (Some w).
Proof. destruct c; by intros [= ->]. Qed.
Lemma ingesting_Some c t b up resp : ingesting c = Some (t, b, up, resp) → c = Ingesting t b up resp.
Proof. destruct c; by intros [= -> -> -> ->]. Qed.


Lemma no_holds k x : ¬ holds (InMemoryCache.NewInMemoryCache 0) k x.
Proof. intros Hk. cbn in Hk. by rewrite lookup_empty in Hk. Qed.

Lemma concurrent_responses_genuine_witness :
  ∃ w, (first_fetch, GDone (Some w)) ∈ sys_threads both_served ∧ w_body w ≠ [] ∧
    @git_justified ascii_unicode InMemoryCache.t _ _ (λ _, None) demo_new_request demo_sha1 demo_sha1 demo_deflate
      demo_cfg (g_world (sys_state both_served)) first_fetch w.
Proof.
  destruct (reply_of first_done.1) as [w|] eqn:E.
  2:{ exfalso. assert (H : bool_decide (is_Some (reply_of first_done.1)) = true) by (vm_compute; reflexivity).
      rewrite E in H. discriminate. }
  assert (Hin : (first_fetch, GDone (Some w)) ∈ sys_threads both_served).
  { cbn [both_served sys_threads]. rewrite (reply_of_Some _ _ E). left. }
  exists w. split; [exact Hin|]. split.
  - intros Hb. assert (H : bool_decide (w_body <$> reply_of first_done.1 = Some []) = false) by (vm_compute; reflexivity).
    rewrite E in H. cbn in H. rewrite Hb in H. discriminate.
  - exact (@concurrent_responses_genuine ascii_unicode InMemoryCache.t _ _ (λ _, None) demo_new_request (λ _, #"error")
      demo_sha1 demo_sha1 demo_deflate demo_open demo_read demo_encode demo_decode demo_codec pack_answers (λ _, true)
      demo_cfg eq_refl _ [] both_served first_fetch w no_holds both_served_reached Hin).
Defined.

Lemma third_waits_ingesting :
  ∃ t b up resp, third_waits.1 = Ingesting t b up resp ∧ up ≠ b.
Proof.
  assert (H : (match ingesting third_waits.1 with Some (_, b, up, _) => bool_decide (up ≠ b) | None => false end) = true)
    by (vm_compute; reflexivity).
  destruct (ingesting third_waits.1) as [[[[t b] up] resp]|] eqn:E; [|discriminate].
  exists t, b, up, resp. split; [by apply ingesting_Some|by apply bool_decide_eq_true in H].
Qed.

Lemma assisted_bases_kept_witness :
  ∃ t b up resp store, third_waits.1 = Ingesting t b up resp ∧ up ≠ b ∧
    store_at t (sys_state third_asks) = Some store ∧
    (up = b ∨ ∃ fq known, ParseFetchRequest b = Ok fq ∧
       up = BuildUpstreamFetchRequest (Wants fq) (dedup_from [] (Haves fq ++ known)) (IsV2 fq) ∧
       Forall (λ c, HasCommit c store = true) known).
Proof.
  destruct third_waits_ingesting as (t & b & up & resp & E & Hne).
  destruct (@assisted_bases_kept ascii_unicode InMemoryCache.t _ _ (λ _, None) demo_new_request (λ _, #"error")
      demo_sha1 demo_sha1 demo_deflate demo_open demo_read demo_encode demo_decode demo_codec pack_answers (λ _, true)
      demo_cfg eq_refl _ [] third_asks next_fetch t b up resp no_holds third_asks_reached) as (store & Hs & Hk).
  - cbn [third_asks sys_threads]. rewrite E. right. right. left.
  - exists t, b, up, resp, store. auto.
Defined.
