(* ===== verification/GitLocks.v ===== *)
(** * The locks of the Git proxy (pkg/gitproxy/repocache.go, pkg/cache/cache.go)

    [GitConcurrent.gstep] takes each access to shared data as one step. Here
    the accesses are what the code makes of them: [code] is the sequence of
    lock operations around the access that a request makes next, [sync] is what
    a [sync.RWMutex] does with each, and a request goes on only when its lock
    lets it. The upstream answers when it likes, or never. Every run of this
    system is one of [GitConcurrent.sys_step]; the properties are that shared
    data is touched under the right lock only and that the locks never hold a
    request up for good. What a request does with the outcome of a locked call
    (building a pack, writing the reply) is part of the access, so locks are held
    a little longer here than in the code; the disk cache, which reads its file
    after it has released its lock, is taken like the other. A request arrives
    with its body, an answer of the upstream comes with its body. *)

From stdpp Require Import functions.
From S2P Require Import Prelude GoStrings GoNet GoURL Http HTTPProxy Cache CachingTransport.
From S2P Require Import Target PktLine Packfile RepoStore GitServer GitServerSpec GitConcurrent.

(** ** sync.RWMutex *)

Inductive mode := Shared | Exclusive.
#[global] Instance mode_eq_dec : EqDecision mode.
Proof. solve_decision. Defined.

(** A writer that has called [Lock] keeps new readers out while it waits for
    the readers that are in. *)
Record RWMutex := mkRWMutex { rw_writer : bool; rw_readers : nat }.
Definition unlocked : RWMutex := mkRWMutex false 0.

Definition RLock (m : RWMutex) : option RWMutex :=
  if rw_writer m then None else Some (mkRWMutex false (S (rw_readers m))).
Definition RUnlock (m : RWMutex) : RWMutex := mkRWMutex (rw_writer m) (pred (rw_readers m)).
(** [Lock]: first of the writers, then alone. *)
Definition announce (m : RWMutex) : option RWMutex :=
  if rw_writer m then None else Some (mkRWMutex true (rw_readers m)).
Definition drained (m : RWMutex) : bool := rw_readers m =? 0.
Definition Unlock (m : RWMutex) : RWMutex := mkRWMutex false (rw_readers m).

(** The mutexes: of the manager, of the store of a repository, of the cache. *)
Inductive lock := ManagerMu | StoreMu (repoID : gostring) | CacheMu.
#[global] Instance lock_eq_dec : EqDecision lock.
Proof. solve_decision. Defined.

Abbreviation table := (lock → RWMutex).

(** ** What a request does with them *)

Inductive instr :=
  | Acquire (m : mode) (l : lock)
  | Await (l : lock)
  | Access
  | Release (m : mode) (l : lock).

#[global] Instance instr_eq_dec : EqDecision instr.
Proof. solve_decision. Defined.

(** What a lock operation does; [None] while it blocks. [Await] is the second
    half of [Lock]. *)
Definition sync (i : instr) (tbl : table) : option (list instr * table) :=
  match i with
  | Acquire Shared l => m ← RLock (tbl l); Some ([], <[l := m]> tbl)
  | Acquire Exclusive l => m ← announce (tbl l); Some ([Await l], <[l := m]> tbl)
  | Await l => if drained (tbl l) then Some ([], tbl) else None
  | Access => None
  | Release Shared l => Some ([], <[l := RUnlock (tbl l)]> tbl)
  | Release Exclusive l => Some ([], <[l := Unlock (tbl l)]> tbl)
  end.

(** A method that takes its lock and releases it when it returns, a panic
    included (every [Unlock] is deferred). *)
Definition locked (m : mode) (l : lock) : list instr := [Acquire m l; Access; Release m l].

Section Locks.
Context `{Unicode} {C : Type} `{CacheOps C}
        (url_parse : gostring → option url)
        (new_request_url : gostring → gostring → option url)
        (encode : CachedResponse → option bytes) (cfg : Config).

Abbreviation State := (GitState C (list (GitRequest * option Response))).

Definition is_fetch (q : GitRequest) (b : bytes) : bool :=
  bool_decide (request_type q b = RequestTypeUploadPackFetch).

(** The instructions of a request up to its next access and the release after
    it: [GetRepoStore] and [IngestPackfile] take the exclusive lock,
    [HasAllCommits] (unless nothing is wanted), [CollectObjectsForCommits] and
    [GetKnownCommits] the shared one, the cache's [Get] and [Set] its own. *)
Definition code (st : State) (q : GitRequest) (c : gpc) : list instr :=
  match c with
  | Arrived =>
      match ResolveUpstreamURL url_parse (g_URL q) (g_Host q) (DefaultTargetURL cfg), g_Body q with
      | Ok t, Some b => if is_fetch q b then locked Exclusive ManagerMu else [Access]
      | _, _ => [Access]
      end
  | CheckStore t b fq =>
      if bool_decide (Wants fq = []) then [Access] else locked Shared (StoreMu (u_Path t))
  | CollectHit t b fq => locked Shared (StoreMu (u_Path t))
  | LookUp t b => if cacheable cfg (request_type q b) st then locked Shared CacheMu else [Access]
  | FindStore t b =>
      match ParseFetchRequest b with
      | Ok fq => if bool_decide (Wants fq = []) then [Access] else locked Exclusive ManagerMu
      | _ => [Access]
      end
  | ReadKnown t b fq => locked Shared (StoreMu (u_Path t))
  | Sending t b up => [Access]
  | Ingesting t b up resp =>
      [Acquire Exclusive ManagerMu; Release Exclusive ManagerMu] ++
      match ExtractPackfileFromResponse (resp_body resp) with
      | None => [Access]
      | Some _ => locked Exclusive (StoreMu (u_Path t))
      end
  | CheckOwn t b resp =>
      match ParseFetchRequest b with
      | Ok fq => if bool_decide (Wants fq = []) then [Access] else locked Shared (StoreMu (u_Path t))
      | _ => [Access]
      end
  | CollectOwn t b fq resp => locked Shared (StoreMu (u_Path t))
  | Storing t b resp =>
      match encode (mkCachedResponse (StatusCode resp) (Own.removeHopByHopHeaders (RespHeader resp)) (resp_body resp)) with
      | Some _ => locked Exclusive CacheMu
      | None => [Access]
      end
  | GDone _ => []
  end.

(** The access is the call of the upstream. *)
Definition asks (q : GitRequest) (c : gpc) : bool :=
  match c with
  | Sending t b up => bool_decide (is_Some (git_outgoing new_request_url cfg q t up))
  | _ => false
  end.
End Locks.

(** A request, where it is, and the instructions left before it goes on. *)
Record lthread := mkThread { t_req : GitRequest; t_at : gpc; t_todo : list instr }.

(** What the request is inside of: the first release it comes to. *)
Fixpoint inside (rest : list instr) : option (mode * lock) :=
  match rest with
  | Access :: rest => inside rest
  | Release m l :: _ => Some (m, l)
  | _ => None
  end.

(** Under what the access ahead is made. *)
Fixpoint guard (rest : list instr) : option (mode * lock) :=
  match rest with
  | [] => None
  | Access :: rest => inside rest
  | _ :: rest => guard rest
  end.

Fixpoint accesses (rest : list instr) : nat :=
  match rest with [] => 0 | Access :: rest => S (accesses rest) | _ :: rest => accesses rest end.

(** Locks are taken one at a time and given back, and an access without one is
    the last instruction. *)
Fixpoint balanced (h : option (mode * lock)) (rest : list instr) : bool :=
  match rest, h with
  | [], None => true
  | Acquire m l :: rest, None => balanced (Some (m, l)) rest
  | Await l :: rest, None => balanced (Some (Exclusive, l)) rest
  | Access :: rest, Some _ => balanced h rest
  | Access :: rest, None => bool_decide (rest = [])
  | Release m l :: rest, Some ml =>
      bool_decide (ml = (m, l)) && match rest with Await _ :: _ => false | _ => balanced None rest end
  | _, _ => false
  end.

Fixpoint cost (rest : list instr) : nat :=
  match rest with [] => 0 | Acquire _ _ :: rest => 2 + cost rest | _ :: rest => 1 + cost rest end.

Definition holds_shared (l : lock) (th : lthread) : nat :=
  if decide (inside (t_todo th) = Some (Shared, l)) then 1 else 0.
Definition claims (l : lock) (th : lthread) : nat :=
  match t_todo th with
  | Await l' :: _ => if decide (l' = l) then 1 else 0
  | rest => if decide (inside rest = Some (Exclusive, l)) then 1 else 0
  end.

(** ** The system *)

Section System.
Context `{Unicode} {C : Type} `{CacheLaws C}
        (url_parse : gostring → option url)
        (new_request_url : gostring → gostring → option url)
        (errtext : git_err → gostring)
        (sha1 sha256 deflate : bytes → bytes) (zlib_open : bytes → bool)
        (zlib_read : bytes → Z → option (bytes * nat))
        (encode : CachedResponse → option bytes) (decode : bytes → option CachedResponse)
        (decode_encode : ∀ cr b, encode cr = Some b → decode b = Some cr)
        (answers : nat → GitRequest → option Response) (write_ok : nat → bool) (cfg : Config).
Hypothesis ttl_positive : (0 < CacheTTL cfg)%Z.

Abbreviation State := (GitState C (list (GitRequest * option Response))).
Abbreviation step := (gstep url_parse new_request_url errtext sha1 sha256 deflate zlib_open zlib_read encode decode
                        (git_upstream answers) write_ok cfg).
Abbreviation sys_step := (GitConcurrent.sys_step url_parse new_request_url errtext sha1 sha256 deflate zlib_open
                            zlib_read encode decode answers write_ok cfg).
Abbreviation thread_ok := (GitConcurrent.thread_ok url_parse new_request_url sha1 sha256 deflate cfg).
Abbreviation coded := (code (C := C) url_parse encode cfg).
Abbreviation asking := (asks new_request_url cfg).

Record lsystem := mkLocked { l_state : State; l_locks : table; l_threads : list lthread }.

(** A request moves on: it comes to its next instructions, a lock operation
    does not block, or it makes its access. Only the call of the upstream waits
    for something else, so it is apart ([upstream]). *)
Inductive request_step (upstream : bool) : lsystem → lsystem → Prop :=
  | step_next i q c st tbl ths :
      upstream = false → ths !! i = Some (mkThread q c []) → coded st q c ≠ [] →
      request_step upstream (mkLocked st tbl ths) (mkLocked st tbl (<[i := mkThread q c (coded st q c)]> ths))
  | step_sync i q c ins ins' rest st tbl tbl' ths :
      upstream = false → ths !! i = Some (mkThread q c (ins :: rest)) → sync ins tbl = Some (ins', tbl') →
      request_step upstream (mkLocked st tbl ths) (mkLocked st tbl' (<[i := mkThread q c (ins' ++ rest)]> ths))
  | step_access i v q c c' rest st st' tbl ths :
      ths !! i = Some (mkThread q c (Access :: rest)) → asking q c = upstream → step v q c st = Some (c', st') →
      request_step upstream (mkLocked st tbl ths) (mkLocked st' tbl (<[i := mkThread q c' rest]> ths)).

(** A request arrives with its body; the cache drops entries under its lock. *)
Inductive outside_step : lsystem → lsystem → Prop :=
  | step_arrival q st tbl ths :
      outside_step (mkLocked st tbl ths) (mkLocked st tbl (ths ++ [mkThread q Arrived []]))
  | step_cache c c' st tbl ths :
      tbl CacheMu = unlocked → g_cache st = Some c → (∀ k x, holds c' k x → holds c k x) →
      outside_step (mkLocked st tbl ths) (mkLocked (with_cache (Some c') st) tbl ths).

Definition lock_step (s s' : lsystem) : Prop :=
  (∃ upstream, request_step upstream s s') ∨ outside_step s s'.

Definition lstart (c0 : C) (dir : gostring) : lsystem :=
  mkLocked (sys_state (GitConcurrent.start c0 dir)) (λ _, unlocked) [].

(** What [GitConcurrent] sees of it. *)
Definition view (s : lsystem) : system :=
  mkSystem (l_state s) ((λ th, (t_req th, t_at th)) <$> l_threads s).

(** The request at [i] moves on, if its lock lets it; a schedule of such moves. *)
Definition advance (v : choices) (i : nat) (s : lsystem) : option lsystem :=
  th ← l_threads s !! i;
  let '(mkThread q c todo) := th in
  match todo with
  | [] => if decide (coded (l_state s) q c = []) then None
          else Some (mkLocked (l_state s) (l_locks s) (<[i := mkThread q c (coded (l_state s) q c)]> (l_threads s)))
  | Access :: rest =>
      x ← step v q c (l_state s);
      Some (mkLocked x.2 (l_locks s) (<[i := mkThread q x.1 rest]> (l_threads s)))
  | ins :: rest =>
      x ← sync ins (l_locks s);
      Some (mkLocked (l_state s) x.2 (<[i := mkThread q c (x.1 ++ rest)]> (l_threads s)))
  end.

Fixpoint schedule (v : choices) (who : list nat) (s : lsystem) : option lsystem :=
  match who with
  | [] => Some s
  | i :: who => advance v i s ≫= schedule v who
  end.

(** ** Lemmas: every run is a run of [GitConcurrent] *)

Lemma view_step s s' : lock_step s s' → rtc sys_step (view s) (view s').
Proof.
  intros [[up Hs]|Hs]; unfold view.
  - destruct Hs as [i q c st tbl ths _ Hi _|i q c ins ins' rest st tbl tbl' ths _ Hi _|i v q c c' rest st st' tbl ths Hi _ Hst];
      cbn [l_state l_threads]; rewrite list_fmap_insert; cbn [t_req t_at].
    1, 2: rewrite list_insert_id; [done|by rewrite list_lookup_fmap, Hi].
    apply rtc_once. eapply sys_request; [by rewrite list_lookup_fmap, Hi|done].
  - apply rtc_once. destruct Hs as [q st tbl ths|c c' st tbl ths _ Hc Hh]; cbn [l_state l_threads].
    + rewrite fmap_app. apply sys_arrival.
    + by eapply sys_cache.
Qed.

Lemma view_run s s' : rtc lock_step s s' → rtc sys_step (view s) (view s').
Proof. induction 1; [done|]. etrans; [by apply view_step|done]. Qed.

Lemma advance_step v i s s' : advance v i s = Some s' → lock_step s s'.
Proof.
  destruct s as [st tbl ths]. unfold advance. cbn [l_threads l_state l_locks].
  destruct (ths !! i) as [[q c [|ins rest]]|] eqn:Hi; cbn [mbind option_bind]; [..|done].
  { case_decide; [done|]. intros [= <-]. left. exists false. by apply step_next. }
  intros Hs. left. destruct ins as [m l|l| |m l];
    [| |destruct (step v q c st) as [[c' st']|] eqn:E; [injection Hs as <-; eexists; by eapply step_access|done]|];
    destruct (sync _ tbl) as [[ins' tbl']|] eqn:E; try done; injection Hs as <-; exists false; by eapply step_sync.
Qed.

Lemma schedule_run v who s s' : schedule v who s = Some s' → rtc lock_step s s'.
Proof.
  revert s. induction who as [|i who IH]; intros s; cbn [schedule]; [by intros [= ->]|].
  destruct (advance v i s) as [s1|] eqn:E; [|done]. intros Hs. eapply rtc_l; [by eapply advance_step|by apply IH].
Qed.

(** ** Lemmas: what the locks record *)

Definition table_ok (tbl : table) (ths : list lthread) : Prop :=
  ∀ l, rw_readers (tbl l) = sum_list_with (holds_shared l) ths ∧
    (if rw_writer (tbl l) then 1 else 0) = sum_list_with (claims l) ths ∧
    (∀ th, th ∈ ths → inside (t_todo th) = Some (Exclusive, l) → rw_readers (tbl l) = 0).

(** The instructions left belong to the place the request is at. *)
Definition sane (th : lthread) : Prop :=
  balanced (inside (t_todo th)) (t_todo th) = true ∧
  (accesses (t_todo th) = 0 ∨
   accesses (t_todo th) = 1 ∧ gsteps_left (t_at th) ≠ 0 ∧
   (∃ st, guard (t_todo th) = guard (coded st (t_req th) (t_at th))) ∧
   (asking (t_req th) (t_at th) = true → t_todo th = [Access])).

Definition locks_ok (s : lsystem) : Prop :=
  table_ok (l_locks s) (l_threads s) ∧ Forall sane (l_threads s).

Lemma balanced_outside rest : balanced None rest = true → inside rest = None.
Proof. destruct rest as [|[] rest]; try done. by intros ->%bool_decide_eq_true. Qed.

Lemma balanced_release ml m l rest :
  balanced (Some ml) (Release m l :: rest) = true →
  ml = (m, l) ∧ balanced None rest = true ∧ inside rest = None ∧ ∀ q c l', claims l' (mkThread q c rest) = 0.
Proof.
  cbn [balanced]. intros [->%bool_decide_eq_true Hb]%andb_prop. split; [done|].
  assert (Hi : balanced None rest = true) by by destruct rest as [|[] rest].
  split_and!; [done|by apply balanced_outside|]. apply balanced_outside in Hi. intros q c l'.
  unfold claims. cbn [t_todo]. destruct rest as [|[] rest]; try done; by rewrite Hi.
Qed.

Lemma balanced_inside ml rest : balanced (Some ml) rest = true → inside rest = Some ml.
Proof.
  induction rest as [|ins rest IH]; [done|]. intros Hb. destruct ins; try done; [by apply IH|].
  by destruct (balanced_release _ _ _ _ Hb) as [-> _].
Qed.

Lemma claims_inside q c ml rest l :
  balanced (Some ml) rest = true →
  claims l (mkThread q c rest) = if decide (ml = (Exclusive, l)) then 1 else 0.
Proof.
  intros Hb. pose proof (balanced_inside _ _ Hb) as Hi. unfold claims. cbn [t_todo].
  destruct rest as [|ins rest]; [done|]. destruct ins; try done; rewrite Hi; repeat case_decide; congruence.
Qed.

Lemma holds_inside q c ml rest l :
  balanced (Some ml) rest = true →
  holds_shared l (mkThread q c rest) = if decide (ml = (Shared, l)) then 1 else 0.
Proof.
  intros Hb. unfold holds_shared. cbn [t_todo]. rewrite (balanced_inside _ _ Hb). repeat case_decide; congruence.
Qed.

Lemma code_sane st q c : gsteps_left c ≠ 0 → sane (mkThread q c (coded st q c)).
Proof.
  intros Hc. unfold sane. cbn [t_req t_at t_todo]. split; [|right; split_and!; [|done|by exists st|]];
    destruct c; cbn [code asks] in *; try done; repeat case_match; cbn; repeat rewrite bool_decide_eq_true_2 by done; done.
Qed.

Lemma code_done st q c : coded st q c ≠ [] → gsteps_left c ≠ 0.
Proof. by destruct c. Qed.

Lemma code_inside st q c : inside (coded st q c) = None.
Proof. destruct c; cbn; repeat case_match; done. Qed.

Lemma table_update tbl tbl' l ths i th th' :
  ths !! i = Some th → table_ok tbl ths →
  (∀ l', l' ≠ l → tbl' l' = tbl l' ∧ holds_shared l' th' = holds_shared l' th ∧ claims l' th' = claims l' th ∧
     (inside (t_todo th') = Some (Exclusive, l') → inside (t_todo th) = Some (Exclusive, l'))) →
  rw_readers (tbl' l) + holds_shared l th = rw_readers (tbl l) + holds_shared l th' →
  (if rw_writer (tbl' l) then 1 else 0) + claims l th = (if rw_writer (tbl l) then 1 else 0) + claims l th' →
  (∀ x, x ∈ <[i := th']> ths → inside (t_todo x) = Some (Exclusive, l) → rw_readers (tbl' l) = 0) →
  table_ok tbl' (<[i := th']> ths).
Proof.
  intros Hi Ht Hne Hr Hw Hx l'. destruct (Ht l') as (Hrd & Hwr & Hex).
  pose proof (sum_list_with_insert (holds_shared l') ths i th th' Hi). pose proof (sum_list_with_insert (claims l') ths i th th' Hi).
  destruct (decide (l' = l)) as [->|Hl]; [split_and!; [lia|lia|done]|].
  destruct (Hne l' Hl) as (E & E1 & E2 & E3). rewrite E. split_and!; [lia|lia|].
  intros x [->|Hx']%elem_of_list_insert Hin.
  - apply (Hex th); [by eapply list_elem_of_lookup_2|by apply E3].
  - by apply (Hex x).
Qed.

Lemma shared_in th l : inside (t_todo th) = Some (Exclusive, l) → 0 < claims l th.
Proof. intros Hi. unfold claims. destruct (t_todo th) as [|[] rest]; try done; rewrite Hi, decide_True by done; lia. Qed.

Lemma no_claim tbl ths l x : table_ok tbl ths → rw_writer (tbl l) = false → x ∈ ths →
  inside (t_todo x) ≠ Some (Exclusive, l).
Proof.
  intros Ht Hw Hx Hin%shared_in. destruct (Ht l) as (_ & Hc & _). rewrite Hw in Hc.
  apply (sum_list_with_in _ (claims l)) in Hx. lia.
Qed.

(** What the lock operations record of a thread, and what it was before. *)
Ltac lock_records Hb :=
  unfold holds_shared, claims; cbn [t_todo inside app]; rewrite ?(balanced_inside _ _ Hb), ?(balanced_outside _ Hb);
  rewrite ?fn_lookup_insert; cbn [rw_readers rw_writer RUnlock Unlock];
  repeat match goal with E : rw_writer _ = _ |- _ => rewrite E end; repeat case_decide; try (congruence || lia).

Lemma release_table m l q c rest tbl tbl' i ths ins' :
  ths !! i = Some (mkThread q c (Release m l :: rest)) → table_ok tbl ths →
  balanced (Some (m, l)) (Release m l :: rest) = true → sync (Release m l) tbl = Some (ins', tbl') →
  table_ok tbl' (<[i := mkThread q c (ins' ++ rest)]> ths) ∧ balanced (inside (ins' ++ rest)) (ins' ++ rest) = true.
Proof.
  intros Hi Ht Hb Hs. destruct m; cbn [sync] in Hs.
  - injection Hs as <- <-. destruct (balanced_release _ _ _ _ Hb) as (_ & Hr & Hin & Hc).
    cbn [app]. rewrite Hin. split; [|done].
    assert (Hrd : 1 ≤ rw_readers (tbl l)).
    { destruct (Ht l) as (-> & _). apply list_elem_of_lookup_2, (sum_list_with_in _ (holds_shared l)) in Hi.
      etrans; [|exact Hi]. lock_records Hb. }
    apply (table_update tbl _ l _ _ _ _ Hi Ht); rewrite ?Hc.
    + intros l' Hl. rewrite fn_lookup_insert_ne, Hc by done. split; [done|]. split_and!; lock_records Hr.
    + lock_records Hr.
    + lock_records Hr.
    + intros x [->|Hx]%elem_of_list_insert; [lock_records Hr|]. intros Hx'.
      destruct (Ht l) as (_ & _ & Hex). pose proof (Hex x Hx Hx'). lia.
  - injection Hs as <- <-. destruct (balanced_release _ _ _ _ Hb) as (_ & Hr & Hin & Hc).
    cbn [app]. rewrite Hin. split; [|done].
    assert (Hw : rw_writer (tbl l) = true).
    { destruct (Ht l) as (_ & Hw & _). apply list_elem_of_lookup_2, (sum_list_with_in _ (claims l)) in Hi.
      destruct (rw_writer (tbl l)); [done|]. rewrite <- Hw in Hi. revert Hi. lock_records Hb. }
    apply (table_update tbl _ l _ _ _ _ Hi Ht); rewrite ?Hc.
    + intros l' Hl. rewrite fn_lookup_insert_ne, Hc by done. split; [done|]. split_and!; lock_records Hr.
    + lock_records Hr.
    + lock_records Hr.
    + intros x [->|Hx]%elem_of_list_insert; [lock_records Hr|]. intros Hx'. rewrite fn_lookup_insert.
      destruct (Ht l) as (_ & _ & Hex). exact (Hex x Hx Hx').
Qed.

Lemma sync_table ins ins' q c rest tbl tbl' i ths :
  ths !! i = Some (mkThread q c (ins :: rest)) → table_ok tbl ths →
  balanced (inside (ins :: rest)) (ins :: rest) = true → sync ins tbl = Some (ins', tbl') →
  table_ok tbl' (<[i := mkThread q c (ins' ++ rest)]> ths) ∧ balanced (inside (ins' ++ rest)) (ins' ++ rest) = true.
Proof.
  intros Hi Ht Hb Hs. destruct ins as [[] l|l| |m l]; [| | |done|exact (release_table _ _ _ _ _ _ _ _ _ _ Hi Ht Hb Hs)];
    cbn [sync inside] in *.
  - unfold RLock in Hs. destruct (rw_writer (tbl l)) eqn:Ew; [done|]. injection Hs as <- <-. cbn [balanced app] in *.
    rewrite (balanced_inside _ _ Hb). split; [|done]. apply (table_update tbl _ l _ _ _ _ Hi Ht).
    + intros l' Hl. rewrite fn_lookup_insert_ne by done. split; [done|].
      rewrite (claims_inside _ _ _ _ _ Hb), (holds_inside _ _ _ _ _ Hb). split_and!; lock_records Hb.
    + rewrite (holds_inside _ _ _ _ _ Hb). lock_records Hb.
    + rewrite (claims_inside _ _ _ _ _ Hb). lock_records Hb.
    + intros x [->|Hx]%elem_of_list_insert; [lock_records Hb|]. intros Hin. by destruct (no_claim _ _ _ _ Ht Ew Hx).
  - unfold announce in Hs. destruct (rw_writer (tbl l)) eqn:Ew; [done|]. injection Hs as <- <-. cbn [balanced app inside] in *.
    split; [|done]. apply (table_update tbl _ l _ _ _ _ Hi Ht).
    + intros l' Hl. rewrite fn_lookup_insert_ne by done. split; [done|]. split_and!; lock_records Hb.
    + lock_records Hb.
    + lock_records Hb.
    + intros x [->|Hx]%elem_of_list_insert; [done|]. intros Hin. by destruct (no_claim _ _ _ _ Ht Ew Hx).
  - destruct (drained (tbl l)) eqn:Ed; [|done]. injection Hs as <- <-. cbn [balanced app] in *. apply Nat.eqb_eq in Ed.
    rewrite (balanced_inside _ _ Hb). split; [|done]. apply (table_update tbl _ l _ _ _ _ Hi Ht).
    + intros l' Hl. split; [done|]. rewrite (claims_inside _ _ _ _ _ Hb), (holds_inside _ _ _ _ _ Hb).
      split_and!; lock_records Hb.
    + rewrite (holds_inside _ _ _ _ _ Hb). lock_records Hb.
    + rewrite (claims_inside _ _ _ _ _ Hb). lock_records Hb.
    + done.
Qed.

Lemma table_same tbl ths i th th' :
  ths !! i = Some th → table_ok tbl ths → inside (t_todo th') = inside (t_todo th) →
  (∀ l, claims l th' = claims l th) → table_ok tbl (<[i := th']> ths).
Proof.
  intros Hi Ht Hin Hc l. assert (Hh : ∀ l, holds_shared l th' = holds_shared l th) by (intros ?; unfold holds_shared; by rewrite Hin).
  destruct (Ht l) as (Hrd & Hwr & Hex).
  pose proof (sum_list_with_insert (holds_shared l) ths i th th' Hi). pose proof (sum_list_with_insert (claims l) ths i th th' Hi).
  specialize (Hc l). specialize (Hh l). split_and!; [lia|lia|].
  intros x [->|Hx]%elem_of_list_insert Hx'; [|by apply (Hex x)].
  apply (Hex th); [by eapply list_elem_of_lookup_2|congruence].
Qed.

Lemma sync_sane ins ins' q c rest tbl tbl' :
  sync ins tbl = Some (ins', tbl') → balanced (inside (ins' ++ rest)) (ins' ++ rest) = true →
  sane (mkThread q c (ins :: rest)) → sane (mkThread q c (ins' ++ rest)).
Proof.
  intros Hs Hb [_ Hsane]. split; [done|]. cbn [t_todo t_req t_at] in *.
  destruct ins as [[] l|l| |[] l]; cbn [sync] in Hs; try done;
    repeat (case_match; simplify_option_eq; try done); simplify_option_eq; cbn [accesses guard app] in *;
    (destruct Hsane as [Hn|(Ha & Hl & Hg & Hk)]; [by left|right; split_and!; [done..|by intros E%Hk]]).
Qed.

Lemma access_rest q c rest : sane (mkThread q c (Access :: rest)) → accesses rest = 0.
Proof. intros [_ [E|[E _]]]; cbn in E; lia. Qed.

Lemma access_sane q c c' rest : sane (mkThread q c (Access :: rest)) → sane (mkThread q c' rest).
Proof.
  intros Hs. split; [|left; by apply access_rest in Hs]. destruct Hs as [Hb _]. cbn [t_todo inside balanced] in *.
  destruct (inside rest) as [ml|] eqn:E; [done|]. by apply bool_decide_eq_true in Hb as ->.
Qed.

Lemma access_claims q c c' rest l :
  sane (mkThread q c (Access :: rest)) → claims l (mkThread q c' rest) = claims l (mkThread q c (Access :: rest)).
Proof.
  intros [Hb _]. cbn [t_todo inside balanced] in Hb. unfold claims. cbn [t_todo inside].
  destruct (inside rest) as [ml|] eqn:E; [|by apply bool_decide_eq_true in Hb as ->].
  destruct rest as [|ins rest]; [done|]. destruct ins; try done; cbn [inside] in *; by rewrite E.
Qed.

Lemma code_claims st q c l : claims l (mkThread q c (coded st q c)) = 0.
Proof.
  assert (Hw : ∀ l' rest, coded st q c ≠ Await l' :: rest) by (intros; destruct c; cbn; repeat case_match; done).
  pose proof (code_inside st q c) as Hi. unfold claims. cbn [t_todo].
  destruct (coded st q c) as [|[] rest]; try done; [by destruct (Hw l0 rest)|]. by rewrite Hi.
Qed.

Lemma request_step_locks up s s' : locks_ok s → request_step up s s' → locks_ok s'.
Proof.
  intros [Ht Hf] Hs. destruct Hs as [i q c st tbl ths _ Hi Hc|i q c ins ins' rest st tbl tbl' ths _ Hi Hs|
    i v q c c' rest st st' tbl ths Hi _ Hst]; cbn [l_locks l_threads] in *;
    pose proof (Forall_lookup_1 _ _ _ _ Hf Hi) as Hsane.
  - split; cbn [l_locks l_threads].
    + eapply table_same; [done..|apply code_inside|]. intros l. apply code_claims.
    + apply Forall_insert; [done|]. apply code_sane. by eapply code_done.
  - destruct (sync_table _ _ _ _ _ _ _ _ _ Hi Ht (proj1 Hsane) Hs) as [Ht' Hb]. split; [done|].
    apply Forall_insert; [done|]. by eapply sync_sane.
  - split; cbn [l_locks l_threads].
    + eapply table_same; [done..|]. intros l. by apply access_claims.
    + apply Forall_insert; [done|]. by eapply access_sane.
Qed.

Lemma lock_step_ok s s' : locks_ok s → lock_step s s' → locks_ok s'.
Proof.
  intros Hok [[up Hs]|Hs]; [by eapply request_step_locks|].
  destruct Hs as [q st tbl ths|]; [|done]. destruct Hok as [Ht Hf]. split; cbn [l_locks l_threads] in *.
  - intros l. destruct (Ht l) as (Hrd & Hwr & Hex). rewrite !sum_list_with_app.
    change (sum_list_with (holds_shared l) [mkThread q Arrived []]) with 0.
    change (sum_list_with (claims l) [mkThread q Arrived []]) with 0.
    split_and!; [rewrite Hrd; lia|rewrite Hwr; lia|]. intros x [Hx|Hx]%elem_of_app; [by apply Hex|]. by apply list_elem_of_singleton in Hx as ->.
  - apply Forall_app_2; [done|]. apply Forall_singleton. split; [done|by left].
Qed.

Lemma lock_steps_ok s s' : rtc lock_step s s' → locks_ok s → locks_ok s'.
Proof. induction 1; [done|]. intros Hs. apply IHrtc. by eapply lock_step_ok. Qed.

Lemma lstart_ok c0 dir : locks_ok (lstart c0 dir).
Proof. split; [|done]. intros l. split_and!; [done..|]. intros th Hth. cbn in Hth. by apply not_elem_of_nil in Hth. Qed.

Lemma reachable_locks c0 dir s : rtc lock_step (lstart c0 dir) s → locks_ok s.
Proof. intros Hr. eapply lock_steps_ok; [done|apply lstart_ok]. Qed.

Lemma reachable_sys c0 dir s : (∀ k x, ¬ holds c0 k x) → rtc lock_step (lstart c0 dir) s →
  sys_ok url_parse new_request_url sha1 sha256 deflate encode cfg (view s).
Proof using decode_encode ttl_positive.
  intros Hc Hr%view_run. eapply reachable_ok; [done..|]. exact Hr.
Qed.

(** ** Lemmas: someone can always move *)

(** An upper bound of what a request still does, lock operations included. *)
Definition steps_left (th : lthread) : nat :=
  16 * gsteps_left (t_at th) + cost (t_todo th) + (if accesses (t_todo th) =? 0 then 8 else 0).

(** Done, or waiting for the upstream with no lock in hand. *)
Definition at_rest (th : lthread) : Prop :=
  (∃ r, t_at th = GDone r ∧ t_todo th = []) ∨
  (asking (t_req th) (t_at th) = true ∧ t_todo th = [Access]).

Lemma cost_code st q c : cost (coded st q c) ≤ 7.
Proof. destruct c; cbn; repeat case_match; cbn; lia. Qed.

Lemma code_accesses st q c : gsteps_left c ≠ 0 → accesses (coded st q c) = 1.
Proof. intros Hc. destruct c; cbn in *; repeat case_match; cbn; done. Qed.

Lemma sync_cost ins ins' tbl tbl' rest : sync ins tbl = Some (ins', tbl') →
  cost (ins' ++ rest) < cost (ins :: rest) ∧ accesses (ins' ++ rest) = accesses (ins :: rest).
Proof.
  intros Hs. destruct ins as [[] l|l| |[] l]; cbn [sync] in Hs; try done;
    repeat (case_match; simplify_option_eq; try done); simplify_option_eq; cbn; lia.
Qed.

Lemma request_step_less up s s' :
  locks_ok s → sys_ok url_parse new_request_url sha1 sha256 deflate encode cfg (view s) → request_step up s s' →
  sum_list_with steps_left (l_threads s') < sum_list_with steps_left (l_threads s).
Proof using decode_encode ttl_positive.
  intros [_ Hf] [Hinv Hok] Hs. destruct Hs as [i q c st tbl ths _ Hi Hc|i q c ins ins' rest st tbl tbl' ths _ Hi Hs|
    i v q c c' rest st st' tbl ths Hi _ Hst]; cbn [l_threads view l_state sys_state sys_threads] in *;
    match goal with |- sum_list_with _ (<[_ := ?th]> _) < _ =>
      pose proof (sum_list_with_insert steps_left ths i _ th Hi) as Hsum end;
    unfold steps_left in Hsum at 2 4; cbn [t_at t_todo] in Hsum.
  - pose proof (cost_code st q c). rewrite (code_accesses st q c) in Hsum by by eapply code_done. cbn in Hsum. lia.
  - destruct (sync_cost _ _ _ _ rest Hs) as [Hlt Ha]. rewrite Ha in Hsum. lia.
  - pose proof (Forall_lookup_1 _ _ _ _ Hf Hi) as Hsane. rewrite (access_rest _ _ _ Hsane) in Hsum.
    assert (Hl : gsteps_left c ≠ 0) by (destruct Hsane as [_ [E|(_ & Hl & _)]]; [done|done]).
    apply Forall_fmap in Hok. pose proof (Forall_lookup_1 _ _ _ _ Hok Hi) as Ht. cbn in Ht.
    destruct (gstep_progress _ _ errtext _ _ _ zlib_open zlib_read encode decode answers write_ok _ v q c st Ht Hl)
      as (x & Hx & Hlt). rewrite Hst in Hx. injection Hx as <-. cbn in Hlt, Hsum. lia.
Qed.

(** A request that no other can hold up: it moves, or is at rest, or wants a lock. *)
Definition wants_lock (th : lthread) : Prop := ∃ m l rest, t_todo th = Acquire m l :: rest.
Definition waits_for (th : lthread) : Prop := ∃ l rest, t_todo th = Await l :: rest.

Lemma head_moves st tbl ths i th :
  ths !! i = Some th → sane th → thread_ok st (t_req th) (t_at th) →
  (∃ s', request_step false (mkLocked st tbl ths) s') ∨ waits_for th ∨ wants_lock th ∨ at_rest th.
Proof.
  intros Hi [Hb Hs] Ht. destruct th as [q c [|ins rest]]; cbn [t_req t_at t_todo] in *.
  { destruct (decide (gsteps_left c = 0)) as [E|E].
    - right. right. right. left. destruct c; cbn in E; try lia. by eexists.
    - left. eexists. eapply step_next; [done..|]. intros Hc. pose proof (code_accesses st q c E) as Ha.
      by rewrite Hc in Ha. }
  destruct ins as [m l|l| |m l].
  - right. right. left. by exists m, l, rest.
  - right. left. by exists l, rest.
  - destruct Hs as [?|(_ & Hl & _ & Hk)]; [done|]. destruct (asking q c) eqn:Ek; [right; right; right; right; by rewrite Hk|].
    left. destruct (gstep_progress _ _ errtext _ _ _ zlib_open zlib_read encode decode answers write_ok _
      (mkChoices id id 0 0) q c st Ht Hl) as ([c' st'] & Hx & _). eexists. by eapply step_access.
  - left. destruct m; eexists; (eapply step_sync; [done|done|reflexivity]).
Qed.

Lemma all_outside tbl ths l :
  table_ok tbl ths → (∀ th, th ∈ ths → inside (t_todo th) = None) → rw_readers (tbl l) = 0.
Proof.
  intros Ht Hn. destruct (Ht l) as (-> & _). apply sum_list_with_zero. intros th Hth. unfold holds_shared. by rewrite (Hn th Hth).
Qed.

Lemma none_claims tbl ths l :
  table_ok tbl ths → (∀ th, th ∈ ths → inside (t_todo th) = None ∧ ¬ waits_for th) → tbl l = unlocked.
Proof.
  intros Ht Hn. assert (Hr : rw_readers (tbl l) = 0) by (eapply all_outside; [done|]; intros th Hth; by apply Hn).
  destruct (Ht l) as (_ & Hw & _). rewrite sum_list_with_zero in Hw.
  { destruct (tbl l) as [[] r]; cbn in *; [done|]. by rewrite Hr. }
  intros th Hth. destruct (Hn th Hth) as [Hi Hwt]. unfold claims.
  destruct (t_todo th) as [|[] rest] eqn:E; try done; [by destruct Hwt; eexists _, _|]. by rewrite Hi.
Qed.

Lemma blocked_outside th : waits_for th ∨ wants_lock th ∨ at_rest th → inside (t_todo th) = None.
Proof. intros [(l & r & ->)|[(m & l & r & ->)|[(r & _ & ->)|[_ ->]]]]; done. Qed.

Lemma requests_progress s :
  locks_ok s → sys_ok url_parse new_request_url sha1 sha256 deflate encode cfg (view s) →
  (∃ s', request_step false s s') ∨ ((∀ th, th ∈ l_threads s → at_rest th) ∧ ∀ l, l_locks s l = unlocked).
Proof.
  destruct s as [st tbl ths]. intros [Ht Hf] [_ Hok]. cbn [l_locks l_threads view l_state sys_state sys_threads] in *.
  apply Forall_fmap in Hok. rewrite Forall_forall in Hf, Hok.
  destruct (some_or_all (λ _, ∃ s', request_step false (mkLocked st tbl ths) s')
    (λ th, waits_for th ∨ wants_lock th ∨ at_rest th) ths) as [(_ & _ & Hm)|Hb]; [|by left|].
  { intros th Hth. pose proof Hth as [i Hi]%list_elem_of_lookup.
    by destruct (head_moves st tbl ths i th Hi (Hf th Hth) (Hok th Hth)); [left|right]. }
  assert (Hout : ∀ l, rw_readers (tbl l) = 0).
  { intros l. eapply all_outside; [done|]. intros th Hth. by apply blocked_outside, Hb. }
  destruct (some_or_all waits_for (λ th, ¬ waits_for th) ths) as [([q c todo] & Hth & l & r & E)|Hnw].
  { intros th _. destruct (t_todo th) as [|[] rest] eqn:E; [right|right|left|right|right]; try (by intros (? & ? & ?); congruence).
    by eexists _, _. }
  { left. apply list_elem_of_lookup in Hth as [i Hi]. cbn in E. subst todo. eexists. eapply step_sync; [done..|].
    cbn [sync]. unfold drained. by rewrite Hout. }
  assert (Hu : ∀ l, tbl l = unlocked).
  { intros l. eapply none_claims; [done|]. intros th Hth. split; [by apply blocked_outside, Hb|by apply Hnw]. }
  destruct (some_or_all wants_lock at_rest ths) as [([q c todo] & Hth & m & l & r & E)|Hrest].
  { intros th Hth. destruct (Hb th Hth) as [Hw|[Hw|Hw]]; [by destruct (Hnw th Hth)|by left|by right]. }
  { left. apply list_elem_of_lookup in Hth as [i Hi]. cbn in E. subst todo.
    destruct m; eexists; (eapply step_sync; [done..|]; cbn [sync]; rewrite (Hu l); reflexivity). }
  by right.
Qed.

(** ** Lemmas: what is touched is held *)

Lemma exclusive_alone tbl ths i j th th' m l :
  table_ok tbl ths → ths !! i = Some th → ths !! j = Some th' → i ≠ j →
  inside (t_todo th) = Some (Exclusive, l) → inside (t_todo th') ≠ Some (m, l).
Proof.
  intros Ht Hi Hj Hne Hin Hm. destruct (Ht l) as (Hrd & Hwr & Hex). destruct m.
  - pose proof (Hex th (list_elem_of_lookup_2 _ _ _ Hi) Hin) as Hz. rewrite Hrd in Hz.
    apply list_elem_of_lookup_2, (sum_list_with_in _ (holds_shared l)) in Hj.
    unfold holds_shared at 1 in Hj. rewrite Hm, decide_True in Hj by done. lia.
  - apply shared_in in Hin, Hm. pose proof (sum_list_with_two (claims l) ths i j th th' Hne Hi Hj).
    destruct (rw_writer (tbl l)); lia.
Qed.

Lemma access_guard q c rest : sane (mkThread q c (Access :: rest)) → ∃ st, inside rest = guard (coded st q c).
Proof. intros [_ [?|(_ & _ & [st Hst] & _)]]; [done|]. by exists st. Qed.

Lemma GetRepoStore_adds t p (st : State) :
  stores (GetRepoStore sha256 t (g_repos st)).2 !! p = stores (g_repos st) !! p ∨
  stores (g_repos st) !! p = None.
Proof.
  unfold GetRepoStore. destruct (stores (g_repos st) !! t) eqn:E; [by left|]. cbn.
  destruct (decide (t = p)) as [->|Hne]; [by right|left]. by rewrite lookup_insert_ne.
Qed.

Lemma LookUp_repos v q t b st x : step v q (LookUp t b) st = Some x → g_repos x.2 = g_repos st.
Proof.
  cbn [gstep]. unfold cache_lookup. intros Hx. repeat (case_match; simplify_eq/=; try done).
Qed.

(** Only the table's lock covers a new store, only the store's own lock what is in it. *)
Lemma step_covered v q c st x st0 p :
  thread_ok st q c → step v q c st = Some x →
  stores (g_repos x.2) !! p = stores (g_repos st) !! p ∨
  (stores (g_repos st) !! p = None ∧ guard (coded st0 q c) = Some (Exclusive, ManagerMu)) ∨
  (is_Some (stores (g_repos st) !! p) ∧ guard (coded st0 q c) = Some (Exclusive, StoreMu p)).
Proof.
  intros Ht Hx. destruct c as [|t b fq|t b fq|t b|t b|t b fq|t b up|t b up resp|t b resp|t b fq resp|t b resp|r];
    cbn [thread_ok] in Ht; [| | |left; by erewrite LookUp_repos| | | | | | | |done]; cbn [gstep code] in *.
  - destruct (ResolveUpstreamURL _ _ _ _) as [t|e|e]; [|injection Hx as <-; by left..].
    destruct (g_Body q) as [b|]; [|injection Hx as <-; by left]. unfold is_fetch.
    case_bool_decide; injection Hx as <-; [|by left]. cbn. destruct (GetRepoStore_adds (u_Path t) p st); [by left|right; by left].
  - destruct (store_at t st); [|done]. injection Hx as <-. by left.
  - destruct (store_at t st) as [s|]; [|done]. cbn [mbind option_bind] in Hx. destruct (CollectObjectsForCommits _ _ _ _).
    injection Hx as <-. by left.
  - destruct (ParseFetchRequest b) as [fq|e|e]; [|injection Hx as <-; by left..].
    case_bool_decide; injection Hx as <-; [by left|]. cbn. destruct (GetRepoStore_adds (u_Path t) p st); [by left|right; by left].
  - destruct (store_at t st); [|done]. injection Hx as <-. by left.
  - injection Hx as <-. left. by repeat case_match.
  - destruct Ht as ([_ Hs] & _ & Hu & _). destruct (Hs Hu) as [s Hst]. unfold store_at in Hst.
    unfold GetRepoStore, ingest_response in Hx. rewrite Hst in Hx. destruct (ExtractPackfileFromResponse _) as [pk|].
    + destruct (decide (p = u_Path t)) as [->|Hne]; [right; right; by rewrite Hst|left].
      repeat case_match; simplify_eq; cbn; try done; by rewrite lookup_insert_ne.
    + injection Hx as <-. left. cbn. destruct (decide (u_Path t = p)) as [<-|Hne]; [by rewrite lookup_insert_eq|].
      by rewrite lookup_insert_ne.
  - left. repeat case_match; simplify_option_eq; done.
  - left. destruct (store_at t st) as [s|]; [|done]. cbn [mbind option_bind] in Hx. destruct (CollectObjectsForCommits _ _ _ _).
    injection Hx as <-. done.
  - left. unfold store_and_reply in Hx. repeat case_match; simplify_eq; done.
Qed.

(** The state with another store at [p]. *)
Definition restocked (p : gostring) (s : RepoStore) (st : State) : State := with_repos (set_store p s (g_repos st)) st.

Lemma restocked_at p s t (st : State) : p ≠ u_Path t → store_at t (restocked p s st) = store_at t st.
Proof. intros Hne. unfold store_at. cbn. by rewrite lookup_insert_ne. Qed.

Lemma restocked_known p s t (st : State) : is_Some (store_at t st) → is_Some (store_at t (restocked p s st)).
Proof.
  intros Hs. unfold store_at in *. cbn. destruct (decide (p = u_Path t)) as [->|Hne]; [by rewrite lookup_insert_eq|].
  by rewrite lookup_insert_ne.
Qed.

Lemma cache_lookup_repos now k m (st : State) :
  (cache_lookup decode now k (with_repos m st)).1 = (cache_lookup decode now k st).1.
Proof. unfold cache_lookup. cbn. destruct (g_cache st) as [c|]; [|done]. by destruct (cache_get now k c). Qed.

Ltac own_store p t s st :=
  destruct (decide (p = u_Path t)) as [->|Hne]; [by right; eexists|left];
  rewrite restocked_at by done; destruct (store_at t st); [|done]; cbn [mbind option_bind];
  try destruct (CollectObjectsForCommits _ _ _ _); done.

(** A step that goes another way when the store differs holds its lock. *)
Lemma step_informed v q c st st0 p s :
  thread_ok st q c → is_Some (stores (g_repos st) !! p) →
  fst <$> step v q c (restocked p s st) = fst <$> step v q c st ∨
  ∃ m, guard (coded st0 q c) = Some (m, StoreMu p).
Proof.
  intros Ht Hp.
  destruct c as [|t b fq|t b fq|t b|t b|t b fq|t b up|t b up resp|t b resp|t b fq resp|t b resp|r]; cbn [thread_ok] in Ht;
    cbn [gstep code].
  - left. by repeat case_match.
  - case_bool_decide as Ew; [left|by own_store p t s st].
    destruct Ht as [[_ Hs] [Hu _]]. destruct (Hs Hu) as [s1 H1'].
    destruct (restocked_known p s t st (Hs Hu)) as [s2 H2']. by rewrite H1', H2'.
  - own_store p t s st.
  - left. pose proof (cache_lookup_repos (ch_now v) (computeCacheKey sha256 q t b) (set_store p s (g_repos st)) st) as Hl.
    change (cacheable cfg (request_type q b) (restocked p s st)) with (cacheable cfg (request_type q b) st).
    destruct (cacheable _ _ _); [|done]. unfold restocked.
    destruct (cache_lookup _ _ _ (with_repos _ st)) as [hit1 st1], (cache_lookup _ _ _ st) as [hit2 st2]. cbn in Hl. by subst.
  - left. by repeat case_match.
  - own_store p t s st.
  - left. change (g_world (restocked p s st)) with (g_world st). by repeat case_match.
  - destruct Ht as ([_ Hs] & _ & Hu & _). specialize (Hs Hu). pose proof (restocked_known p s t st Hs) as [s2 H2'].
    destruct Hs as [s1 H1']. unfold ingest_response. unfold store_at in H1', H2'. rewrite (GetRepoStore_known _ _ _ _ H1').
    rewrite (GetRepoStore_known _ _ _ _ H2'). destruct (ExtractPackfileFromResponse _) as [pk|]; [|by left].
    destruct (decide (p = u_Path t)) as [->|Hne]; [by right; eexists|left]. cbn in H2'. rewrite lookup_insert_ne in H2' by done.
    assert (s2 = s1) as -> by congruence. by destruct (IngestPackfile _ _ _ _ _) as [[? ?]|?|?].
  - destruct (ParseFetchRequest b) as [fq|e|e]; [|by left..]. case_bool_decide; [by left|]. own_store p t s st.
  - own_store p t s st.
  - by left.
  - by left.
Qed.

(** ** Properties *)

Lemma reachable_at c0 dir s i th :
  (∀ k x, ¬ holds c0 k x) → rtc lock_step (lstart c0 dir) s → l_threads s !! i = Some th →
  thread_ok (l_state s) (t_req th) (t_at th) ∧ sane th.
Proof using decode_encode ttl_positive.
  intros Hc Hr Hi. destruct (reachable_sys _ _ _ Hc Hr) as [_ Hok]. destruct (reachable_locks _ _ _ Hr) as [_ Hf].
  cbn in Hok. apply Forall_fmap in Hok. split; [exact (Forall_lookup_1 _ _ _ _ Hok Hi)|exact (Forall_lookup_1 _ _ _ _ Hf Hi)].
Qed.

(** C22: The data that requests share is never touched without its lock. Whatever
    the interleaving, a request about to make an access that adds a store holds
    the manager's mutex for itself, one that changes a store holds that store's
    mutex for itself, and one whose outcome depends on what a store holds has that
    store's mutex at least shared; no other request is inside a mutex that one has
    for itself. *)
Theorem stores_never_race c0 dir s i v q c rest c' st' :
  (∀ k x, ¬ holds c0 k x) → rtc lock_step (lstart c0 dir) s →
  l_threads s !! i = Some (mkThread q c (Access :: rest)) → step v q c (l_state s) = Some (c', st') →
  let old := stores (g_repos (l_state s)) in
  (∀ p, stores (g_repos st') !! p ≠ old !! p →
     inside rest = Some (Exclusive, match old !! p with Some _ => StoreMu p | None => ManagerMu end)) ∧
  (∀ p x, is_Some (old !! p) → fst <$> step v q c (restocked p x (l_state s)) ≠ Some c' →
     ∃ m, inside rest = Some (m, StoreMu p)) ∧
  (∀ l j th m, inside rest = Some (Exclusive, l) → l_threads s !! j = Some th → j ≠ i →
     inside (t_todo th) ≠ Some (m, l)).
Proof using decode_encode ttl_positive.
  intros Hc Hr Hi Hst old. destruct (reachable_at _ _ _ _ _ Hc Hr Hi) as [Ht Hs]. cbn [t_req t_at] in Ht.
  destruct (access_guard _ _ _ Hs) as [st0 Hg]. destruct (reachable_locks _ _ _ Hr) as [Htbl _]. split_and!.
  - intros p Hp. destruct (step_covered v q c _ _ st0 p Ht Hst) as [E|[[E Hm]|[[x E] Hm]]]; [done|..];
      rewrite Hg, Hm; subst old; by rewrite E.
  - intros p x Hp Hne. rewrite Hg. destruct (step_informed v q c _ st0 p x Ht Hp) as [E|?]; [|done].
    by rewrite E, Hst in Hne.
  - intros l j th m Hin Hj Hne. by eapply (exclusive_alone _ _ i j _ th).
Qed.

(** C24: No request of the Git proxy is held up by another for good. Whatever the
    interleaving, the requests there are together make a bounded number of steps,
    lock operations included; unless every request is done or waiting for the
    upstream, one of them can move, and once none can no mutex is held; a request
    that waits for the upstream goes on when the answer comes, whatever the others
    do. *)
Theorem git_requests_finish c0 dir s :
  (∀ k x, ¬ holds c0 k x) → rtc lock_step (lstart c0 dir) s →
  (∀ n s', nsteps (λ a b, ∃ upstream, request_step upstream a b) n s s' → n ≤ sum_list_with steps_left (l_threads s)) ∧
  ((∃ s', request_step false s s') ∨
   (∀ th, th ∈ l_threads s → at_rest th) ∧ ∀ l, l_locks s l = unlocked) ∧
  (∀ th, th ∈ l_threads s → asking (t_req th) (t_at th) = true → t_todo th = [Access] →
   ∃ s', request_step true s s').
Proof using decode_encode ttl_positive.
  intros Hc Hr. pose proof (reachable_locks _ _ _ Hr) as Hl. pose proof (reachable_sys _ _ _ Hc Hr) as Hs. split_and!.
  - intros n s' Hn. assert (Hb : n + sum_list_with steps_left (l_threads s') ≤ sum_list_with steps_left (l_threads s)); [|lia].
    induction Hn as [s|n s s1 s' [up Hst] Hn IH]; [lia|].
    assert (Hr1 : rtc lock_step (lstart c0 dir) s1) by (eapply rtc_r; [exact Hr|left; by eexists]).
    specialize (IH Hr1 (reachable_locks _ _ _ Hr1) (reachable_sys _ _ _ Hc Hr1)).
    pose proof (request_step_less _ _ _ Hl Hs Hst). lia.
  - by apply requests_progress.
  - intros [q c todo] [i Hi]%list_elem_of_lookup Ha Htd. cbn in *. subst todo. destruct s as [st tbl ths].
    destruct (reachable_at _ _ _ _ _ Hc Hr Hi) as [Ht _]. cbn in Ht.
    assert (Hc0 : gsteps_left c ≠ 0) by by destruct c.
    destruct (gstep_progress _ _ errtext _ _ _ zlib_open zlib_read encode decode answers write_ok _
      (mkChoices id id 0 0) q c st Ht Hc0) as ([c' st'] & Hx & _). eexists. by eapply step_access.
Qed.
End System.

(** ** The properties at concrete inputs

    Two clients fetch at the same time: when the first is about to ingest the
    upstream's answer, the second waits to look into the store. *)

Abbreviation demo_lock_step := (@lock_step ascii_unicode InMemoryCache.t _ _ (λ _, None) demo_new_request (λ _, #"error")
  demo_sha1 demo_sha1 demo_deflate demo_open demo_read demo_encode demo_decode pack_answers (λ _, true) demo_cfg).
Abbreviation demo_schedule := (@schedule ascii_unicode InMemoryCache.t _ (λ _, None) demo_new_request (λ _, #"error")
  demo_sha1 demo_sha1 demo_deflate demo_open demo_read demo_encode demo_decode pack_answers (λ _, true) demo_cfg
  demo_choices).
Abbreviation demo_gstep := (@gstep ascii_unicode InMemoryCache.t _ _ (λ _, None) demo_new_request (λ _, #"error")
  demo_sha1 demo_sha1 demo_deflate demo_open demo_read demo_encode demo_decode (git_upstream pack_answers)
  (λ _, true) demo_cfg).
Definition demo_idle : @lsystem InMemoryCache.t := lstart (InMemoryCache.NewInMemoryCache 0) [].
Definition two_arrived : @lsystem InMemoryCache.t :=
  mkLocked (l_state demo_idle) (l_locks demo_idle) [mkThread first_fetch Arrived []; mkThread first_fetch Arrived []].
(** The first is inside [IngestPackfile], the second before [HasAllCommits]. *)
Definition at_ingest : @lsystem InMemoryCache.t :=
  default two_arrived (demo_schedule (repeat 0 30 ++ repeat 1 6) two_arrived).
(** The first is inside [IngestPackfile], the second waits for the upstream. *)
Definition one_asks : @lsystem InMemoryCache.t :=
  default two_arrived (demo_schedule (repeat 1 23 ++ repeat 0 30) two_arrived).
(** And all is answered. *)
Definition all_answered : @lsystem InMemoryCache.t :=
  default two_arrived (demo_schedule (repeat 0 7 ++ repeat 1 14) one_asks).

Lemma two_arrived_reached : rtc demo_lock_step demo_idle two_arrived.
Proof. do 2 (eapply rtc_l; [right; apply step_arrival with (q := first_fetch)|]). apply rtc_refl. Qed.

Lemma scheduled who : bool_decide (is_Some (demo_schedule who two_arrived)) = true →
  rtc demo_lock_step demo_idle (default two_arrived (demo_schedule who two_arrived)).
Proof.
  intros [s Hs]%bool_decide_eq_true. rewrite Hs. etrans; [apply two_arrived_reached|]. by eapply schedule_run.
Qed.

Lemma at_ingest_reached : rtc demo_lock_step demo_idle at_ingest.
Proof. apply scheduled. vm_compute. reflexivity. Qed.

Lemma one_asks_reached : rtc demo_lock_step demo_idle one_asks.
Proof. apply scheduled. vm_compute. reflexivity. Qed.

(** The request at [i] that is about to make its access. *)
Definition accessing (i : nat) (s : @lsystem InMemoryCache.t) : option (GitRequest * gpc * list instr) :=
  match l_threads s !! i with
  | Some (mkThread q c (Access :: rest)) => Some (q, c, rest)
  | _ => None
  end.

Lemma accessing_Some i s q c rest :
  accessing i s = Some (q, c, rest) → l_threads s !! i = Some (mkThread q c (Access :: rest)).
Proof. unfold accessing. destruct (l_threads s !! i) as [[q' c' [|[] r]]|]; try done. by intros [= -> -> ->]. Qed.

Example all_are_answered : (λ th, (gsteps_left (t_at th), t_todo th)) <$> l_threads all_answered = [(0, []); (0, [])].
Proof. vm_compute. reflexivity. Qed.

(** The second cannot look while the first ingests. *)
Example second_waits : match demo_schedule [1] at_ingest with None => true | Some _ => false end = true.
Proof. vm_compute. reflexivity. Qed.

Definition demo_repo : gostring := #"/repo/git-upload-pack".
Definition commits_at (st : GitState InMemoryCache.t (list (GitRequest * option Response))) : option nat :=
  (λ s, size (commits s)) <$> stores (g_repos st) !! demo_repo.

(** The access that is next is the first's, and it adds commits. *)
Lemma ingest_adds : match accessing 0 at_ingest with
  | Some (q, c, _) =>
      match demo_gstep demo_choices q c (l_state at_ingest) with
      | Some (_, st') => bool_decide (commits_at (l_state at_ingest) = Some 0 ∧ commits_at st' = Some 1)
      | None => false
      end
  | None => false
  end = true.
Proof. vm_compute. reflexivity. Qed.

Lemma stores_never_race_witness :
  ∃ q c rest c' st', accessing 0 at_ingest = Some (q, c, rest) ∧
    demo_gstep demo_choices q c (l_state at_ingest) = Some (c', st') ∧
    inside rest = Some (Exclusive, StoreMu demo_repo) ∧
    (∀ j th m, l_threads at_ingest !! j = Some th → j ≠ 0 → inside (t_todo th) ≠ Some (m, StoreMu demo_repo)).
Proof.
  pose proof ingest_adds as Hb. destruct (accessing 0 at_ingest) as [[[q c] rest]|] eqn:Ea; [|discriminate].
  destruct (demo_gstep demo_choices q c (l_state at_ingest)) as [[c' st']|] eqn:Es; [|discriminate].
  apply bool_decide_eq_true in Hb as [Hb Hb'].
  exists q, c, rest, c', st'. split; [done|]. split; [done|].
  destruct (@stores_never_race ascii_unicode InMemoryCache.t _ _ (λ _, None) demo_new_request (λ _, #"error")
    demo_sha1 demo_sha1 demo_deflate demo_open demo_read demo_encode demo_decode demo_codec pack_answers (λ _, true)
    demo_cfg eq_refl _ [] at_ingest 0 demo_choices q c rest c' st' no_holds at_ingest_reached
    (accessing_Some _ _ _ _ _ Ea) Es) as (Hw & _ & Hx).
  assert (Hin : inside rest = Some (Exclusive, StoreMu demo_repo)).
  { rewrite (Hw demo_repo); unfold commits_at in *; [by destruct (stores (g_repos (l_state at_ingest)) !! demo_repo)|].
    intros E. rewrite E in Hb'. congruence. }
  split; [done|]. intros j th m. by apply Hx.
Defined.

Lemma git_requests_finish_witness :
  (∃ th, th ∈ l_threads one_asks ∧ inside (t_todo th) = Some (Exclusive, StoreMu demo_repo)) ∧
  (∃ s', @request_step ascii_unicode InMemoryCache.t _ (λ _, None) demo_new_request (λ _, #"error")
     demo_sha1 demo_sha1 demo_deflate demo_open demo_read demo_encode demo_decode pack_answers (λ _, true) demo_cfg
     true one_asks s') ∧
  (∀ n s', nsteps (λ a b, ∃ upstream, @request_step ascii_unicode InMemoryCache.t _ (λ _, None) demo_new_request
     (λ _, #"error") demo_sha1 demo_sha1 demo_deflate demo_open demo_read demo_encode demo_decode pack_answers
     (λ _, true) demo_cfg upstream a b) n one_asks s' → n ≤ 115).
Proof.
  destruct (@git_requests_finish ascii_unicode InMemoryCache.t _ _ (λ _, None) demo_new_request (λ _, #"error")
    demo_sha1 demo_sha1 demo_deflate demo_open demo_read demo_encode demo_decode demo_codec pack_answers (λ _, true)
    demo_cfg eq_refl _ [] one_asks no_holds one_asks_reached) as (Hb & _ & Ha).
  assert (Hn : sum_list_with steps_left (l_threads one_asks) = 115) by (vm_compute; reflexivity).
  rewrite Hn in Hb. split_and!; [| |done].
  - assert (Hi : (match l_threads one_asks with th :: _ => inside (t_todo th) | [] => None end) =
      Some (Exclusive, StoreMu demo_repo)) by (vm_compute; reflexivity).
    destruct (l_threads one_asks) as [|th ths]; [done|]. exists th. split; [left|done].
  - assert (Hi : (match l_threads one_asks !! 1 with
      | Some th => asks demo_new_request demo_cfg (t_req th) (t_at th) && bool_decide (t_todo th = [Access])
      | None => false end) = true) by (vm_compute; reflexivity).
    destruct (l_threads one_asks !! 1) as [th|] eqn:Et; [|done].
    apply andb_prop in Hi as [Hi Htd%bool_decide_eq_true].
    by apply (Ha th); [eapply list_elem_of_lookup_2|..].
Defined.
