(* ===== verification/Dns.v ===== *)
(** * The DNS server (pkg/dns/server.go)

    [handleQuery] answers the names the rules match with the proxy's address;
    other names are denied or forwarded. The wire format is that of the
    dnsmessage package, a pair of parameters; the network is the world of the
    exchanges with the upstream servers. *)

From S2P Require Import Prelude GoStrings GoNet.

(** ** Messages (golang.org/x/net/dns/dnsmessage) *)

Record MsgHeader := mkMsgHeader {
  ID : Z;
  IsResponse : bool;
  OpCode : Z;
  Authoritative : bool;
  Truncated : bool;
  RecursionDesired : bool;
  RecursionAvailable : bool;
  AuthenticData : bool;
  CheckingDisabled : bool;
  RCode : Z;
}.

Record Question := mkQuestion { q_Name : gostring; q_Type : Z; q_Class : Z }.

Inductive ResourceBody :=
  | AResource (a : bytes)
  | AAAAResource (aaaa : bytes)
  | OtherResource (data : bytes).
Record Resource := mkResource {
  r_Name : gostring;
  r_Type : Z;
  r_Class : Z;
  r_TTL : Z;
  r_Body : ResourceBody;
}.

Record Message := mkMessage {
  MHeader : MsgHeader;
  Questions : list Question;
  Answers : list Resource;
  Authorities : list Resource;
  Additionals : list Resource;
}.

Definition TypeA : Z := 1.
Definition TypeAAAA : Z := 28.
Definition TypeOPT : Z := 41.
Definition ClassINET : Z := 1.
Definition RCodeSuccess : Z := 0.
Definition RCodeServerFailure : Z := 2.
Definition RCodeNameError : Z := 3.

(** ** Configuration *)

Record Config := mkConfig {
  BindAddr : gostring;
  ProxyIPv4 : option IP;
  ProxyIPv6 : option IP;
  Matcher : option (gostring → bool);
  DefaultAction : gostring;
  UpstreamServers : list gostring;
  ForwardTimeout : Z;
  TTL : Z;
}.

Definition NewServer (cfg : Config) : Config :=
  mkConfig (if bool_decide (BindAddr cfg = []) then #"127.0.0.1:53" else BindAddr cfg)
    (match ProxyIPv4 cfg with None => ParseIP #"127.0.0.2" | ip => ip end)
    (ProxyIPv6 cfg) (Matcher cfg) (DefaultAction cfg) (UpstreamServers cfg)
    (if (ForwardTimeout cfg <=? 0)%Z then 3 * 10 ^ 9 else ForwardTimeout cfg)%Z
    (if (TTL cfg =? 0)%Z then 60 else TTL cfg)%Z.

(** ** Framing over TCP: two bytes of length, then the message *)

Definition be16 (n : nat) : bytes := [z2b (Z.of_nat n `div` 256); z2b (Z.of_nat n)].
Definition frame (msg : bytes) : bytes := be16 (length msg) ++ msg.

(** Two [io.ReadFull]: the message and what follows it. *)
Definition read_frame (stream : bytes) : option (bytes * bytes) :=
  match stream with
  | h :: l :: rest =>
      let n := Z.to_nat (b2z h * 256 + b2z l) in
      if length rest <? n then None else Some (take n rest, drop n rest)
  | _ => None
  end.

Section Server.
Context `{Unicode} {W : Type}
        (unpack : bytes → option Message) (pack : Message → option bytes).

(** One exchange over UDP: dial, write, read a datagram; over TCP: dial,
    write, and what then arrives. [None] is an error. *)
Context (udp tcp : gostring → bytes → W → option bytes * W).

(** ** Forwarding *)

Definition tcp_exchange (target : gostring) (reqBytes : bytes) (s : W) : option bytes * W :=
  let '(r, s) := tcp target (frame reqBytes) s in ((stream ← r; fst <$> read_frame stream), s).

Definition truncated_reply (d : bytes) : bool :=
  (4 <=? length d) && match d !! 2 with Some b => negb (Z.land (b2z b) 2 =? 0)%Z | None => false end.

(** What one server answers; a datagram is read into 4096 bytes. *)
Definition exchange (clientIsTCP : bool) (reqBytes : bytes) (server : gostring) (s : W) : option bytes * W :=
  let target := if Contains server #":" then server else JoinHostPort server #"53" in
  if clientIsTCP then tcp_exchange target reqBytes s
  else
    match udp target reqBytes s with
    | (None, s) => (None, s)
    | (Some d, s) =>
        let d := take (Z.to_nat 4096) d in
        if truncated_reply d then tcp_exchange target reqBytes s else (Some d, s)
    end.

Fixpoint forward_loop (servers : list gostring) (reqBytes : bytes) (clientIsTCP : bool) (s : W)
    : option bytes * W :=
  match servers with
  | [] => (None, s)
  | server :: servers =>
      match exchange clientIsTCP reqBytes server s with
      | (Some r, s) => (Some r, s)
      | (None, s) => forward_loop servers reqBytes clientIsTCP s
      end
  end.
Definition forward (cfg : Config) (reqBytes : bytes) (clientIsTCP : bool) (s : W) : option bytes * W :=
  forward_loop (UpstreamServers cfg) reqBytes clientIsTCP s.

(** ** Queries *)

(** The header of an answer of this server's own. *)
Definition own_header (msg : Message) (rcode : Z) : MsgHeader :=
  mkMsgHeader (ID (MHeader msg)) true (OpCode (MHeader msg)) true false (RecursionDesired (MHeader msg))
    true false false rcode.
Definition bare_header (msg : Message) (rcode : Z) : MsgHeader :=
  mkMsgHeader (ID (MHeader msg)) true 0 false false false false false false rcode.

(** The records for a matched name. *)
Definition proxy_answers (cfg : Config) (q : Question) : list Resource :=
  if (q_Type q =? TypeA)%Z then
    match ProxyIPv4 cfg ≫= To4 with
    | Some ip4 => [mkResource (q_Name q) TypeA ClassINET (TTL cfg) (AResource ip4)]
    | None => []
    end
  else if (q_Type q =? TypeAAAA)%Z then
    match ProxyIPv6 cfg ≫= To16 with
    | Some ip6 => [mkResource (q_Name q) TypeAAAA ClassINET (TTL cfg) (AAAAResource ip6)]
    | None => []
    end
  else [].

Definition query_name (q : Question) : gostring := TrimSuffix (ToLower (q_Name q)) #".".
Definition matches (cfg : Config) (q : Question) : bool :=
  match Matcher cfg with Some m => m (query_name q) | None => false end.

(** A forwarded answer that does not fit a plain UDP client is emptied and
    marked as truncated, if it can be read. *)
Definition fit_udp (msg : Message) (isTCP : bool) (respBytes : bytes) : bytes :=
  if negb isTCP && (512 <? length respBytes)
     && negb (existsb (λ r, (r_Type r =? TypeOPT)%Z) (Additionals msg))
  then
    match unpack respBytes with
    | None => respBytes
    | Some m =>
        let h := MHeader m in
        let h := mkMsgHeader (ID h) (IsResponse h) (OpCode h) (Authoritative h) true (RecursionDesired h)
                   (RecursionAvailable h) (AuthenticData h) (CheckingDisabled h) (RCode h) in
        default respBytes (pack (mkMessage h (Questions m) [] [] []))
    end
  else respBytes.

(** The answer, or [None] when the query cannot be read or the answer cannot
    be packed. *)
Definition handleQuery (cfg : Config) (reqBytes : bytes) (isTCP : bool) (s : W) : option bytes * W :=
  match unpack reqBytes with
  | None => (None, s)
  | Some msg =>
      match Questions msg with
      | [] => (pack (mkMessage (bare_header msg RCodeSuccess) [] [] [] []), s)
      | q :: _ =>
          if matches cfg q then
            (pack (mkMessage (own_header msg RCodeSuccess) (Questions msg) (proxy_answers cfg q) [] []), s)
          else if EqualFold (DefaultAction cfg) #"Allow" then
            match forward cfg reqBytes isTCP s with
            | (None, s) => (pack (mkMessage (bare_header msg RCodeServerFailure) (Questions msg) [] [] []), s)
            | (Some respBytes, s) => (Some (fit_udp msg isTCP respBytes), s)
            end
          else (pack (mkMessage (own_header msg RCodeNameError) (Questions msg) [] [] []), s)
      end
  end.

(** A TCP connection: queries are answered one after the other until one is
    incomplete or cannot be answered. Every query takes two bytes or more, so
    the length of the stream is enough fuel. *)
Fixpoint tcp_loop (fuel : nat) (cfg : Config) (stream : bytes) (s : W) : bytes * W :=
  match fuel with
  | O => ([], s)
  | S fuel =>
      match read_frame stream with
      | None => ([], s)
      | Some (reqBuf, rest) =>
          match handleQuery cfg reqBuf true s with
          | (None, s) => ([], s)
          | (Some respBytes, s) =>
              let '(out, s) := tcp_loop fuel cfg rest s in (frame respBytes ++ out, s)
          end
      end
  end.
Definition serve_tcp (cfg : Config) (stream : bytes) (s : W) : bytes * W :=
  tcp_loop (length stream) cfg stream s.

(** The UDP loop: a datagram is read into a buffer of 4096 bytes (what is longer
    is cut off) and handled in its own goroutine; the replies and their
    addresses, for the order in which the goroutines run. *)
Definition udp_buffer : nat := 4096.
Fixpoint serve_udp (cfg : Config) (datagrams : list (gostring * bytes)) (s : W)
    : list (gostring * bytes) * W :=
  match datagrams with
  | [] => ([], s)
  | (addr, d) :: datagrams =>
      let '(r, s) := handleQuery cfg (take udp_buffer d) false s in
      let '(replies, s) := serve_udp cfg datagrams s in
      (match r with Some resp => (addr, resp) :: replies | None => replies end, s)
  end.
End Server.

(** ** Life cycle

    The sockets that are open, and the two the server remembers. [Start]
    listens on UDP, then on TCP; [Shutdown] is called by the owner and when
    the context of a [Start] ends. *)
Record Server := mkServer {
  started : bool;
  udpConn : option nat;
  tcpListener : option nat;
  open_sockets : gset nat;
}.
Definition fresh_server : Server := mkServer false None None ∅.

Inductive start_result := Started | AlreadyStarted | ListenFailed.

(** [udp_socket] and [tcp_socket] are what the two listens return. *)
Definition Start (udp_socket tcp_socket : option nat) (s : Server) : start_result * Server :=
  if started s then (AlreadyStarted, s) else
  match udp_socket with
  | None => (ListenFailed, s)
  | Some u =>
      match tcp_socket with
      | None => (ListenFailed, mkServer (started s) (udpConn s) (tcpListener s)
                                 (({[u]} ∪ open_sockets s) ∖ {[u]}))
      | Some t => (Started, mkServer true (Some u) (Some t) ({[u; t]} ∪ open_sockets s))
      end
  end.

Definition close (c : option nat) (open : gset nat) : gset nat :=
  match c with Some c => open ∖ {[c]} | None => open end.
Definition Shutdown (s : Server) : Server :=
  if negb (started s) then s
  else mkServer false (udpConn s) (tcpListener s) (close (tcpListener s) (close (udpConn s) (open_sockets s))).

(** The goroutine [Start] leaves behind shuts the server down when the context
    of that [Start] ends. *)
Definition context_done (s : Server) : Server := Shutdown s.

(** [UDPAddr] and [TCPAddr]: whether there is an address, of which socket. *)
Definition UDPAddr (s : Server) : option nat := udpConn s.
Definition TCPAddr (s : Server) : option nat := tcpListener s.

(** ** Lemmas *)

Lemma be16_read n msg rest : length msg = n → (Z.of_nat n < 2 ^ 16)%Z →
  read_frame (be16 n ++ msg ++ rest) = Some (msg, rest).
Proof.
  intros Hl Hn. unfold be16. cbn [app read_frame].
  assert (Z.to_nat (b2z (z2b (Z.of_nat n `div` 256)) * 256 + b2z (z2b (Z.of_nat n))) = n) as ->.
  { rewrite !b2z_z2b. rewrite (Z.mod_small (_ `div` _)) by (Z.to_euclidean_division_equations; lia).
    pose proof (Z.div_mod (Z.of_nat n) 256). lia. }
  rewrite length_app, (proj2 (Nat.ltb_ge _ _)) by lia.
  by rewrite take_app_length', drop_app_length'.
Qed.

Lemma read_frame_frame msg rest : (Z.of_nat (length msg) < 2 ^ 16)%Z →
  read_frame (frame msg ++ rest) = Some (msg, rest).
Proof. intros Hn. unfold frame. rewrite <- app_assoc. by apply be16_read. Qed.

(** What a TCP client reads: the messages up to the first incomplete one. *)
Fixpoint read_frames (fuel : nat) (stream : bytes) : list bytes :=
  match fuel with
  | O => []
  | S fuel => match read_frame stream with
              | Some (msg, rest) => msg :: read_frames fuel rest
              | None => []
              end
  end.

Lemma frame_length msg : length (frame msg) = 2 + length msg.
Proof. done. Qed.

Lemma read_frames_concat msgs fuel :
  Forall (λ m, (Z.of_nat (length m) < 2 ^ 16)%Z) msgs → length (concat (frame <$> msgs)) ≤ fuel →
  read_frames fuel (concat (frame <$> msgs)) = msgs.
Proof.
  intros Hm. revert fuel. induction Hm as [|m msgs Hm _ IH]; intros fuel Hf; [by destruct fuel|].
  cbn [fmap list_fmap concat] in *. rewrite length_app, frame_length in Hf.
  destruct fuel as [|fuel]; [lia|]. cbn [read_frames]. rewrite read_frame_frame by done.
  f_equal. apply IH. lia.
Qed.

Section Facts.
Context `{Unicode} {W : Type}
        (unpack : bytes → option Message) (pack : Message → option bytes)
        (udp tcp : gostring → bytes → W → option bytes * W) (cfg : Config).

Abbreviation handle := (handleQuery unpack pack udp tcp cfg).

(** The answers to a list of queries, up to the first that has none. *)
Fixpoint answer_all (queries : list bytes) (s : W) : list bytes * W :=
  match queries with
  | [] => ([], s)
  | q :: queries =>
      match handle q true s with
      | (None, s) => ([], s)
      | (Some r, s) => let '(rs, s) := answer_all queries s in (r :: rs, s)
      end
  end.

Lemma serve_tcp_frames queries partial fuel s :
  Forall (λ m, (Z.of_nat (length m) < 2 ^ 16)%Z) queries → read_frame partial = None →
  length (concat (frame <$> queries) ++ partial) ≤ fuel →
  tcp_loop unpack pack udp tcp fuel cfg (concat (frame <$> queries) ++ partial) s
  = (concat (frame <$> (answer_all queries s).1), (answer_all queries s).2).
Proof.
  intros Hq Hp. revert fuel s. induction Hq as [|q queries Hq _ IH]; intros fuel s Hf.
  { cbn. destruct fuel; cbn [tcp_loop]; by rewrite ?Hp. }
  cbn [fmap list_fmap concat] in *. rewrite <- app_assoc in *. rewrite length_app, frame_length in Hf.
  destruct fuel as [|fuel]; [lia|]. cbn [tcp_loop answer_all]. rewrite read_frame_frame by done.
  destruct (handle q true s) as [[r|] s1]; [|done]. rewrite IH by lia.
  by destruct (answer_all queries s1).
Qed.

(** [all_fail servers req isTCP s s']: no server answers, one after the other. *)
Inductive all_fail (req : bytes) (isTCP : bool) : list gostring → W → W → Prop :=
  | fail_nil s : all_fail req isTCP [] s s
  | fail_cons server servers s s1 s2 :
      exchange udp tcp isTCP req server s = (None, s1) → all_fail req isTCP servers s1 s2 →
      all_fail req isTCP (server :: servers) s s2.

Lemma forward_loop_spec servers req isTCP s :
  match forward_loop udp tcp servers req isTCP s with
  | (Some r, s') => ∃ pre server post s1, servers = pre ++ server :: post ∧
      all_fail req isTCP pre s s1 ∧ exchange udp tcp isTCP req server s1 = (Some r, s')
  | (None, s') => all_fail req isTCP servers s s'
  end.
Proof.
  revert s. induction servers as [|server servers IH]; intros s; cbn [forward_loop]; [constructor|].
  destruct (exchange udp tcp isTCP req server s) as [[r|] s1] eqn:E.
  - exists [], server, servers, s. split_and!; [done|constructor|done].
  - specialize (IH s1). destruct (forward_loop _ _ _ _ _ _) as [[r|] s2]; [|by econstructor].
    destruct IH as (pre & sv & post & s3 & -> & Hf & He).
    exists (server :: pre), sv, post, s3. split_and!; [done|by econstructor|done].
Qed.
End Facts.

(** ** Properties *)

(** A record that sends clients of [q] to the proxy. *)
Definition points_to_proxy (cfg : Config) (q : Question) (r : Resource) : Prop :=
  r_Name r = q_Name q ∧ r_Type r = q_Type q ∧ r_Class r = ClassINET ∧ r_TTL r = TTL cfg ∧
  ((q_Type q = TypeA ∧ ∃ ip ip4, ProxyIPv4 cfg = Some ip ∧ To4 ip = Some ip4 ∧ r_Body r = AResource ip4) ∨
   (q_Type q = TypeAAAA ∧ ∃ ip ip6, ProxyIPv6 cfg = Some ip ∧ To16 ip = Some ip6 ∧ r_Body r = AAAAResource ip6)).

Lemma proxy_answers_spec cfg q r : r ∈ proxy_answers cfg q ↔ points_to_proxy cfg q r.
Proof.
  unfold proxy_answers, points_to_proxy.
  destruct (q_Type q =? TypeA)%Z eqn:Ea; bools; [|destruct (q_Type q =? TypeAAAA)%Z eqn:E6; bools].
  - rewrite Ea. destruct (ProxyIPv4 cfg) as [ip|]; cbn [mbind option_bind];
      [destruct (To4 ip) as [ip4|] eqn:E4|]; rewrite ?list_elem_of_singleton, ?elem_of_nil;
      (split; [first [done|intros ->; cbn; naive_solver]|]); destruct r; cbn; naive_solver.
  - rewrite E6. destruct (ProxyIPv6 cfg) as [ip|]; cbn [mbind option_bind];
      [destruct (To16 ip) as [ip6|] eqn:E16|]; rewrite ?list_elem_of_singleton, ?elem_of_nil;
      (split; [first [done|intros ->; cbn; naive_solver]|]); destruct r; cbn; naive_solver.
  - rewrite elem_of_nil. naive_solver.
Qed.

(** C26: Names are answered by policy alone: a query for a name the rules match, or for any name unless
    unmatched names are allowed, never reaches an upstream server. Its answer carries the query's
    identifier and questions, NOERROR for a matched name and NXDOMAIN for another, and its records
    are exactly the one that points the name to the proxy when the name is matched, the type is A or
    AAAA and the proxy has an address of that family, and none otherwise. *)
Theorem dns_answers_by_policy `{Unicode} {W} unpack pack udp tcp cfg req isTCP (s : W) msg q qs :
  unpack req = Some msg → Questions msg = q :: qs →
  matches cfg q = true ∨ EqualFold (DefaultAction cfg) #"Allow" = false →
  ∃ resp, handleQuery unpack pack udp tcp cfg req isTCP s = (pack resp, s) ∧
    ID (MHeader resp) = ID (MHeader msg) ∧ IsResponse (MHeader resp) = true ∧ Questions resp = Questions msg ∧
    RCode (MHeader resp) = (if matches cfg q then RCodeSuccess else RCodeNameError) ∧
    length (Answers resp) ≤ 1 ∧
    ∀ r, r ∈ Answers resp ↔ matches cfg q = true ∧ points_to_proxy cfg q r.
Proof.
  intros Hu Hq Hor. unfold handleQuery. rewrite Hu, Hq. destruct (matches cfg q) eqn:Em.
  - eexists. split; [reflexivity|]. cbn [MHeader Answers Questions own_header ID IsResponse RCode].
    split_and!; [done..| |].
    + unfold proxy_answers. repeat case_match; cbn; lia.
    + intros r. rewrite proxy_answers_spec. naive_solver.
  - destruct Hor as [?|Ha]; [done|]. rewrite Ha. eexists. split; [reflexivity|].
    cbn [MHeader Answers Questions own_header ID IsResponse RCode length].
    split_and!; [done..|lia|]. intros r. rewrite elem_of_nil. naive_solver.
Qed.

(** Forwarding tries the servers in order: the client gets the answer of the first one that
    answers, after every earlier one failed (an empty, truncated copy when it is too long for a
    client that speaks plain UDP), and SERVFAIL only when every one failed. *)
Theorem dns_forwards_in_order `{Unicode} {W} unpack pack udp tcp cfg req isTCP (s : W) msg q qs :
  unpack req = Some msg → Questions msg = q :: qs →
  matches cfg q = false → EqualFold (DefaultAction cfg) #"Allow" = true →
  (∃ pre server post s1 r s', UpstreamServers cfg = pre ++ server :: post ∧
     all_fail udp tcp req isTCP pre s s1 ∧ exchange udp tcp isTCP req server s1 = (Some r, s') ∧
     handleQuery unpack pack udp tcp cfg req isTCP s = (Some (fit_udp unpack pack msg isTCP r), s')) ∨
  (∃ resp s', all_fail udp tcp req isTCP (UpstreamServers cfg) s s' ∧
     handleQuery unpack pack udp tcp cfg req isTCP s = (pack resp, s') ∧
     ID (MHeader resp) = ID (MHeader msg) ∧ RCode (MHeader resp) = RCodeServerFailure ∧ Answers resp = []).
Proof.
  intros Hu Hq Hm Ha. unfold handleQuery. rewrite Hu, Hq, Hm, Ha. unfold forward.
  pose proof (forward_loop_spec udp tcp (UpstreamServers cfg) req isTCP s) as Hf.
  destruct (forward_loop _ _ _ _ _ _) as [[r|] s'].
  - left. destruct Hf as (pre & server & post & s1 & ? & ? & ?). by exists pre, server, post, s1, r, s'.
  - right. eexists _, s'. by split_and!.
Qed.

(** Over TCP queries and answers stay paired: whatever queries a connection carries, cut off
    anywhere, the client that splits the output into messages reads the answers to the queries, in
    order, up to the first query that has none. *)
Theorem dns_tcp_framing `{Unicode} {W} unpack pack udp tcp cfg (queries : list bytes) partial (s : W) :
  Forall (λ m, (Z.of_nat (length m) < 2 ^ 16)%Z) queries → read_frame partial = None →
  let '(answers, s') := answer_all unpack pack udp tcp cfg queries s in
  let '(out, s'') := serve_tcp unpack pack udp tcp cfg (concat (frame <$> queries) ++ partial) s in
  Forall (λ m, (Z.of_nat (length m) < 2 ^ 16)%Z) answers →
  s'' = s' ∧ read_frames (length out) out = answers.
Proof.
  intros Hq Hp. unfold serve_tcp. rewrite serve_tcp_frames by done.
  destruct (answer_all _ _ _ _ _ _ _) as [answers s']. cbn [fst snd]. intros Ha.
  split; [done|]. by apply read_frames_concat.
Qed.

(** A reply over UDP goes to the address its query came from, one per datagram
    at most; a query that has none does not keep the others from theirs (over TCP it
    ends the connection). *)
Theorem dns_udp_replies `{Unicode} {W} unpack pack udp tcp cfg datagrams (s : W) :
  let '(replies, _) := serve_udp unpack pack udp tcp cfg datagrams s in
  ∃ answered, answered `sublist_of` datagrams ∧
    Forall2 (λ (q reply : gostring * bytes), reply.1 = q.1 ∧ ∃ s1 s2,
      handleQuery unpack pack udp tcp cfg (take udp_buffer q.2) false s1 = (Some reply.2, s2)) answered replies.
Proof.
  revert s. induction datagrams as [|[addr d] datagrams IH]; intros s; cbn [serve_udp].
  { exists []. split; [constructor|constructor]. }
  destruct (handleQuery _ _ _ _ _ _ _ s) as [r s1] eqn:Eh. specialize (IH s1).
  destruct (serve_udp _ _ _ _ _ datagrams s1) as [replies s2]. destruct IH as (answered & Hsub & Hall).
  destruct r as [resp|].
  - exists ((addr, d) :: answered). split; [by constructor|]. constructor; [|done].
    split; [done|]. by exists s, s1.
  - exists answered. split; [by apply sublist_cons|done].
Qed.

(** A server that has been shut down still tells the addresses it had. *)
Theorem addresses_survive_shutdown s :
  UDPAddr (Shutdown s) = UDPAddr s ∧ TCPAddr (Shutdown s) = TCPAddr s.
Proof. unfold Shutdown. by destruct (started s). Qed.

(** The calls of a server's life; the sockets a listen returns are new. *)
Inductive life_step : Server → Server → Prop :=
  | life_start u t s :
      (∀ x, u = Some x → x ∉ open_sockets s) → (∀ x, t = Some x → x ∉ open_sockets s) →
      life_step s (Start u t s).2
  | life_shutdown s : life_step s (Shutdown s).

(** The open sockets are those of a server that is started. *)
Definition sockets_inv (s : Server) : Prop :=
  if started s
  then ∃ u t, udpConn s = Some u ∧ tcpListener s = Some t ∧ open_sockets s = {[u; t]}
  else open_sockets s = ∅.

Lemma sockets_step s s' : life_step s s' → sockets_inv s → sockets_inv s'.
Proof.
  unfold sockets_inv. intros Hs IH. destruct Hs as [u t s Hu Ht|s].
  - unfold Start. destruct (started s) eqn:E; cbn [snd]; [by rewrite E|].
    destruct u as [u|], t as [t|]; cbn; rewrite ?E; try done.
    + exists u, t. rewrite IH. split_and!; [done..|]. by rewrite union_empty_r_L.
    + rewrite IH. set_solver.
  - unfold Shutdown. destruct (started s) eqn:E; cbn [negb]; [|by rewrite E].
    destruct IH as (u & t & -> & -> & ->). cbn. set_solver.
Qed.

(** No socket leaks: however often the server is started (also while it runs, also when one of the
    listens fails) and shut down, exactly the two sockets it remembers are open while it is started
    and none otherwise. *)
Theorem dns_sockets s :
  rtc life_step fresh_server s →
  if started s
  then ∃ u t, udpConn s = Some u ∧ tcpListener s = Some t ∧ open_sockets s = {[u; t]}
  else open_sockets s = ∅.
Proof.
  intros Hr. change (sockets_inv s). assert (Hi : sockets_inv fresh_server) by done.
  induction Hr as [|x y z Hxy _ IH]; [done|]. by apply IH, (sockets_step x).
Qed.

(** ** The properties at concrete inputs *)

(** A toy wire format: a query is the name asked for; an answer is the
    address, or a letter for the response code. *)
Definition demo_unpack (b : bytes) : option Message :=
  if bool_decide (b = []) then None
  else Some (mkMessage (mkMsgHeader 7 false 0 false false true false false false 0)
               [mkQuestion b TypeA ClassINET] [] [] []).
Definition demo_pack (m : Message) : option bytes :=
  Some (match Answers m with
        | [mkResource _ _ _ _ (AResource a)] => a
        | _ => if (RCode (MHeader m) =? RCodeNameError)%Z then #"N" else #"E"
        end).
Definition demo_dns (action : gostring) : Config :=
  NewServer (mkConfig [] None None (Some (λ h, bool_decide (h = #"api.example.com"))) action
               [ #"10.0.0.1"; #"10.0.0.2:53"] 0 0).
(** Only the second server answers; the world is the servers asked. *)
Definition demo_udp (target : gostring) (req : bytes) (s : list gostring) : option bytes * list gostring :=
  ((if bool_decide (target = #"10.0.0.2:53") then Some #"1111" else None), s ++ [target]).

Lemma dns_answers_by_policy_witness :
  ∃ resp, @handleQuery ascii_unicode _ demo_unpack demo_pack demo_udp demo_udp (demo_dns #"Deny")
            #"API.example.com." false [] = (demo_pack resp, []) ∧
    RCode (MHeader resp) = RCodeSuccess ∧ demo_pack resp = Some (z2b <$> [127; 0; 0; 2]%Z).
Proof.
  destruct (@dns_answers_by_policy ascii_unicode _ demo_unpack demo_pack demo_udp demo_udp (demo_dns #"Deny")
    #"API.example.com." false [] (mkMessage (mkMsgHeader 7 false 0 false false true false false false 0)
      [mkQuestion #"API.example.com." TypeA ClassINET] [] [] [])
    (mkQuestion #"API.example.com." TypeA ClassINET) []) as (resp & H1 & _ & _ & _ & H2 & _ & _).
  - reflexivity.
  - reflexivity.
  - left. vm_compute. reflexivity.
  - exists resp. split; [exact H1|]. split; [rewrite H2; vm_compute; reflexivity|].
    apply (f_equal fst) in H1. cbn [fst] in H1. rewrite <- H1. vm_compute. reflexivity.
Defined.

Lemma dns_forwards_in_order_witness :
  @handleQuery ascii_unicode _ demo_unpack demo_pack demo_udp demo_udp (demo_dns #"allow") #"example.org" false []
  = (Some #"1111", [ #"10.0.0.1:53"; #"10.0.0.2:53"]).
Proof.
  destruct (@dns_forwards_in_order ascii_unicode _ demo_unpack demo_pack demo_udp demo_udp (demo_dns #"allow")
    #"example.org" false [] (mkMessage (mkMsgHeader 7 false 0 false false true false false false 0)
      [mkQuestion #"example.org" TypeA ClassINET] [] [] [])
    (mkQuestion #"example.org" TypeA ClassINET) [])
    as [(pre & sv & post & s1 & r & s' & _ & _ & _ & H)|(resp & s' & _ & H & _)].
  - reflexivity.
  - reflexivity.
  - vm_compute. reflexivity.
  - vm_compute. reflexivity.
  - vm_compute. reflexivity.
  - vm_compute. reflexivity.
Defined.

Lemma dns_tcp_framing_witness :
  read_frames 100 (@serve_tcp ascii_unicode _ demo_unpack demo_pack demo_udp demo_udp (demo_dns #"Deny")
    (concat (frame <$> [ #"api.example.com"; #"example.org"]) ++ #"x") []).1
  = [z2b <$> [127; 0; 0; 2]%Z; #"N"].
Proof.
  pose proof (@dns_tcp_framing ascii_unicode _ demo_unpack demo_pack demo_udp demo_udp (demo_dns #"Deny")
    [ #"api.example.com"; #"example.org"] #"x" [] ltac:(repeat constructor) eq_refl) as H.
  assert (E : @answer_all ascii_unicode _ demo_unpack demo_pack demo_udp demo_udp (demo_dns #"Deny")
    [ #"api.example.com"; #"example.org"] [] = ([z2b <$> [127; 0; 0; 2]%Z; #"N"], []))
    by (vm_compute; reflexivity).
  rewrite E in H. destruct (serve_tcp _ _ _ _ _ _ _) as [out s''] eqn:Eo.
  destruct H as [_ H]; [repeat constructor|]. vm_compute in Eo. injection Eo as Eo _.
  rewrite <- Eo in *. rewrite <- H. vm_compute. reflexivity.
Defined.

Lemma dns_sockets_witness :
  open_sockets (Shutdown (Start (Some 1) (Some 2) (Start (Some 1) None fresh_server).2).2) = ∅.
Proof.
  assert (Hr : rtc life_step fresh_server
    (Shutdown (Start (Some 1) (Some 2) (Start (Some 1) None fresh_server).2).2)).
  { eapply rtc_l; [apply (life_start (Some 1) None); intros x ?; apply not_elem_of_empty|].
    eapply rtc_l; [apply (life_start (Some 1) (Some 2))|eapply rtc_l; [apply life_shutdown|apply rtc_refl]];
      intros x ?; cbn; set_solver. }
  exact (dns_sockets _ Hr).
Defined.
