(* ===== verification/Portal.v ===== *)
(** * The portal server (pkg/portals/server.go)

    [Run_plan] is what [Run] decides before it starts to serve: from the
    configuration, the environment and the rules directory, the handler of
    the proxy, the pod map with its admin listener, the DNS servers and the
    addresses; or the error it returns. *)

From S2P Require Import Prelude GoStrings GoNet Http HTTPProxy PodMap RuleRouter.
From S2P Require Dns.

Definition DefaultAdminSocketPath : gostring := #"/run/service-portal/portal.sock".

(** ** The admin address *)

Inductive admin_err :=
  | AdminNotHostPort (addr : gostring)
  | AdminAllInterfaces (addr : gostring)
  | AdminInvalidHost (addr host : gostring)
  | AdminNotLoopback (addr : gostring) (ip : IP).

Inductive admin_listener :=
  | UnixSocket (path : gostring)
  | TcpAddr (addr : gostring).

Section Run.
Context `{Unicode}.

(** [None] is no error. *)
Definition validateAdminAddr (addr : gostring) : option admin_err :=
  if HasPrefix addr #"unix:" || HasPrefix addr #"/" then None else
  match SplitHostPort addr with
  | Ok (host, _) =>
      if bool_decide (host = []) then Some (AdminAllInterfaces addr)
      else if EqualFold host #"localhost" then None
      else match ParseIP host with
           | None => Some (AdminInvalidHost addr host)
           | Some ip => if negb (IsLoopback ip) then Some (AdminNotLoopback addr ip) else None
           end
  | _ => Some (AdminNotHostPort addr)
  end.

Definition admin_listen (addr : gostring) : admin_listener :=
  if HasPrefix addr #"unix://" || HasPrefix addr #"/"
  then UnixSocket (TrimPrefix addr #"unix://") else TcpAddr addr.

(** ** Configuration *)

Record Config := mkConfig {
  DefaultTargetURL : gostring;
  DefaultAuthHeader : gostring;
  SetupProxy : option (HTTPProxy * transport → HTTPProxy * transport);
  CacheTTL : Z;
  RulesDir : gostring;
  cfg_PodMap : option PodMap;
  ServeDNS : bool;
  DNSBindAddr : gostring;
  ProxyDNSPort : gostring;
  ProxyBindAddrV6 : gostring;
  DefaultAction : gostring;
}.

Inductive run_err :=
  | InvalidTargetURL
  | CreateProxy
  | InvalidCacheTTL (ttl : gostring)
  | InvalidCleanupInterval (interval : gostring)
  | SecurityViolation (e : admin_err)
  | LoadRulesFailed (e : load_err).

Inductive handler :=
  | RulesHandler (rr : RuleRouter)
  | ProxyHandler (fallback : option (HTTPProxy * transport)).

Record Plan := mkPlan {
  pl_handler : handler;
  pl_podMap : option PodMap;
  pl_admin : option admin_listener;
  pl_dns : list Dns.Config;
  pl_addr : gostring;
  pl_httpsAddr : gostring;
}.

(** The environment, and of the libraries: the parsers, whether the CA files
    can be loaded when the target's proxy ([None]) or a rule's is made, and the
    node's IPv6 address. *)
Context (Getenv : gostring → gostring)
        (unmarshal : bytes → option PortalRule)
        (url_Parse : gostring → option URL)
        (ParseDuration : gostring → option Z)
        (ca_ok : option PortalRule → bool) (DiscoverNodeIPv6 : gostring).

(** The first string that is set. *)
Definition first_set (l : list gostring) : gostring := hd [] (filter (λ s, s ≠ []) l).

Definition target_of (cfg : Config) (rulesDir : gostring) : gostring :=
  let target := Getenv #"TARGET_URL" in
  if bool_decide (target = []) && bool_decide (rulesDir = [])
  then first_set [DefaultTargetURL cfg; #"https://generativelanguage.googleapis.com"]
  else target.

Definition make_fallback (cfg : Config) (target : gostring)
    : outcome run_err (option (HTTPProxy * transport)) :=
  if bool_decide (target = []) then Ok None else
  match url_Parse target with
  | None => Err InvalidTargetURL
  | Some u =>
      if negb (ca_ok None) then Err CreateProxy
      else Ok (Some (mkHTTPProxy u (Getenv #"UPSTREAM_AUTH_TOKEN")
                 (first_set [Getenv #"UPSTREAM_AUTH_HEADER"; DefaultAuthHeader cfg; #"Authorization"]),
               DefaultTransport))
  end.

Definition cache_ttl (cfg : Config) : outcome run_err Z :=
  let env := Getenv #"CACHE_TTL" in
  if bool_decide (env = []) then Ok (CacheTTL cfg) else
  match ParseDuration env with None => Err (InvalidCacheTTL env) | Some d => Ok d end.

(** With a positive TTL there is a cache, and the fallback goes through it. *)
Definition with_caching (ttl : Z) (fallback : option (HTTPProxy * transport))
    : outcome run_err (bool * option (HTTPProxy * transport)) :=
  if (0 <? ttl)%Z then
    let env := Getenv #"CACHE_CLEANUP_INTERVAL" in
    if negb (bool_decide (env = [])) && bool_decide (ParseDuration env = None)
    then Err (InvalidCleanupInterval env)
    else Ok (true, (λ f, (f.1, Caching ttl)) <$> fallback)
  else Ok (false, fallback).

Definition setup (cfg : Config) (fallback : option (HTTPProxy * transport)) :=
  match SetupProxy cfg, fallback with
  | Some f, Some p => Some (f p)
  | _, _ => fallback
  end.

Definition pod_map (cfg : Config) : option PodMap :=
  match cfg_PodMap cfg with
  | Some pm => Some pm
  | None => if bool_decide (Getenv #"ENABLE_POD_MAP" = #"true") then Some NewPodMap else None
  end.

Definition admin_of (pm : option PodMap) : outcome run_err (option admin_listener) :=
  match pm with
  | None => Ok None
  | Some _ =>
      let addr := first_set [Getenv #"ADMIN_ADDR"; DefaultAdminSocketPath] in
      match validateAdminAddr addr with
      | Some e => Err (SecurityViolation e)
      | None => Ok (Some (admin_listen addr))
      end
  end.

(** ** The handler *)

Definition make_handler (rulesDir : gostring) (fallback : option (HTTPProxy * transport))
    (has_cache : bool) (pm : option PodMap) (es : list walk_entry) : outcome run_err handler :=
  if bool_decide (rulesDir = []) then Ok (ProxyHandler fallback) else
  let rr := NewRuleRouter rulesDir fallback has_cache in
  let rr := match pm with Some _ => SetPodMap pm rr | None => rr end in
  match loadRules unmarshal url_Parse ParseDuration (ca_ok ∘ Some) es rr with
  | (Some e, _) => Err (LoadRulesFailed e)
  | (None, rr) => Ok (RulesHandler rr)
  end.

(** ** DNS *)

(** The matcher, from the handler as it is when the query comes. *)
Definition dns_matcher (h : handler) : option (gostring → bool) :=
  match h with
  | RulesHandler rr => Some (λ host, MatchHost host rr)
  | ProxyHandler (Some (p, _)) =>
      Some (λ h, let targetHost := ToLower (HostWithoutPort (URLHost (TargetURL p))) in
                 negb (bool_decide (targetHost = []))
                 && (bool_decide (targetHost = h) || HasPrefix h (targetHost ++ #".")))
  | ProxyHandler None => None
  end.

Definition bind_host : gostring := first_set [Getenv #"PROXY_HOST"; Getenv #"BIND_HOST"].

Definition dns_configs (cfg : Config) (h : handler) : list Dns.Config :=
  let env := Getenv #"SERVE_DNS" in
  let serveDNS := if bool_decide (env = []) then ServeDNS cfg
                  else bool_decide (env = #"true") || bool_decide (env = #"1") in
  if negb serveDNS then [] else
  let dnsPort := first_set [ProxyDNSPort cfg; Getenv #"DNS_PORT"; #"53"] in
  let defaultAction := first_set [DefaultAction cfg; Getenv #"DEFAULT_ACTION"; #"Deny"] in
  let proxyIPStr := if bool_decide (bind_host ∈ [ []; #"0.0.0.0"]) then Getenv #"PROXY_HOST" else bind_host in
  let proxyIPv4 := if bool_decide (proxyIPStr = []) then None else ParseIP proxyIPStr in
  let v6Str := first_set [ProxyBindAddrV6 cfg; Getenv #"PROXY_HOST_V6"; DiscoverNodeIPv6] in
  let proxyIPv6 := if bool_decide (v6Str = []) then None else ParseIP v6Str in
  let own ip := match ip with Some ip => [JoinHostPort (IP_String ip) dnsPort] | None => [] end in
  let bindAddrs :=
    if negb (bool_decide (DNSBindAddr cfg = [])) then Split (DNSBindAddr cfg) #","
    else if negb (bool_decide (Getenv #"DNS_BIND_ADDR" = [])) then Split (Getenv #"DNS_BIND_ADDR") #","
    else
      let l := own proxyIPv4 ++ own proxyIPv6 in
      if bool_decide (l = []) then [ #":" ++ dnsPort] else l in
  (λ addr, Dns.NewServer (Dns.mkConfig addr proxyIPv4 proxyIPv6 (dns_matcher h) defaultAction [] 0 0))
  <$> filter (λ a, a ≠ []) (TrimSpace <$> bindAddrs).

(** ** The plan *)

Definition Run_plan (cfg : Config) (es : list walk_entry) : outcome run_err Plan :=
  let rulesDir := first_set [RulesDir cfg; Getenv #"RULES_DIR"] in
  fallback ← make_fallback cfg (target_of cfg rulesDir);
  ttl ← cache_ttl cfg;
  '(has_cache, fallback) ← with_caching ttl fallback;
  let fallback := setup cfg fallback in
  let pm := pod_map cfg in
  admin ← admin_of pm;
  h ← make_handler rulesDir fallback has_cache pm es;
  Ok (mkPlan h pm admin (dns_configs cfg h)
        (JoinHostPort bind_host (first_set [Getenv #"PORT"; #"8080"]))
        (JoinHostPort bind_host (first_set [Getenv #"HTTPS_PORT"; #"8443"]))).
End Run.

(** ** Serving *)

Section Serve.
Context `{Unicode} {W : Type} (RoundTrip : transport → Request → W → option Response * W)
        (write_ok : nat → bool).

(** A request to the plan's handler; a nil proxy panics. *)
Definition serve (order : list (gostring * Rule)) (h : handler) (r : Request) (w : Writer) (s : W)
    : option (Writer * W) :=
  match h with
  | RulesHandler rr => Some (RuleRouter.ServeHTTP RoundTrip write_ok order rr r w s)
  | ProxyHandler (Some (p, t)) => Some (HTTPProxy.ServeHTTP (RoundTrip t) write_ok p r w s)
  | ProxyHandler None => None
  end.
End Serve.

(** ** Lemmas *)

(** The router of a plan knows the plan's pod map. *)
Lemma make_handler_podMap `{Unicode} um up pd ca dir fallback hc pm es rr :
  make_handler um up pd ca dir fallback hc pm es = Ok (RulesHandler rr) → podMap rr = pm.
Proof.
  unfold make_handler. case_bool_decide; [done|].
  set (rr0 := match pm with Some _ => _ | None => _ end).
  assert (Hpm : podMap rr0 = pm) by (subst rr0; by destruct pm). clearbody rr0.
  unfold loadRules. case_bool_decide; [by intros [= <-]|].
  destruct (walk_rules _ _ _ _ _ _) as [walked st]. destruct walked; cbn [negb]; [|done].
  destruct (errs st); [|done]. by intros [= <-].
Qed.

Lemma dns_configs_inv `{Unicode} env v6 cfg h d :
  d ∈ dns_configs env v6 cfg h → Dns.Matcher d = dns_matcher h ∧ Dns.UpstreamServers d = [].
Proof.
  unfold dns_configs. destruct (negb _); [by intros ?%elem_of_nil|].
  intros (addr & -> & _)%list_elem_of_fmap. done.
Qed.

(** Without rules there is a target, so the proxy that serves is not nil. *)
Lemma fallback_without_rules `{Unicode} env up ca cfg fb :
  make_fallback env up ca cfg (target_of env cfg []) = Ok fb → is_Some fb.
Proof.
  unfold make_fallback, target_of. rewrite (bool_decide_eq_true_2 ([] = [])), andb_true_r by done.
  assert (Ht : (if bool_decide (env #"TARGET_URL" = [])
    then first_set [DefaultTargetURL cfg; #"https://generativelanguage.googleapis.com"]
    else env #"TARGET_URL") ≠ []).
  { case_bool_decide; [|done]. unfold first_set. cbn [filter list_filter].
    case_decide as Hd; [done|]. cbn. done. }
  rewrite bool_decide_eq_false_2 by done. destruct (up _), (ca None); cbn; try done. intros [= <-]. by eexists.
Qed.

Lemma with_caching_some env pd ttl fb hc fb' :
  with_caching env pd ttl fb = Ok (hc, fb') → is_Some fb' ↔ is_Some fb.
Proof.
  unfold with_caching. case_match; [case_match; [done|]|]; intros [= <- <-]; [|done].
  by rewrite fmap_is_Some.
Qed.

Lemma setup_some cfg fb : is_Some (setup cfg fb) ↔ is_Some fb.
Proof. unfold setup. destruct (SetupProxy cfg), fb; cbn; naive_solver. Qed.

Lemma Run_plan_inv `{Unicode} env um up pd ca v6 cfg es plan :
  Run_plan env um up pd ca v6 cfg es = Ok plan →
  ∃ fallback has_cache,
    admin_of env (pl_podMap plan) = Ok (pl_admin plan) ∧
    pl_podMap plan = pod_map env cfg ∧
    make_handler um up pd ca (first_set [RulesDir cfg; env #"RULES_DIR"]) fallback has_cache
      (pl_podMap plan) es = Ok (pl_handler plan) ∧
    (first_set [RulesDir cfg; env #"RULES_DIR"] = [] → is_Some fallback) ∧
    pl_dns plan = dns_configs env v6 cfg (pl_handler plan).
Proof.
  unfold Run_plan. intros H1. apply outcome_bind_ok in H1 as (fb & Hf & H1).
  apply outcome_bind_ok in H1 as (ttl & _ & H1). apply outcome_bind_ok in H1 as ([hc fb'] & Hc & H1).
  repeat (apply outcome_bind_ok in H1 as (? & ? & H1)). injection H1 as <-. eexists _, hc.
  split_and!; [done..| |done]. intros Hr. rewrite Hr in Hf. apply fallback_without_rules in Hf.
  by apply setup_some, (with_caching_some _ _ _ _ _ _ Hc).
Qed.

(** ** Properties *)

(** The addresses [validateAdminAddr] lets through. *)
Definition admin_private `{Unicode} (l : admin_listener) : Prop :=
  match l with
  | UnixSocket _ => True
  | TcpAddr addr =>
      (∃ rest, addr = #"unix:" ++ rest ∧ HasPrefix rest #"//" = false) ∨
      ∃ host port, SplitHostPort addr = Ok (host, port) ∧
        (EqualFold host #"localhost" = true ∨ ∃ ip, ParseIP host = Some ip ∧ IsLoopback ip = true)
  end.

Lemma validated_private `{Unicode} addr : validateAdminAddr addr = None → admin_private (admin_listen addr).
Proof.
  unfold validateAdminAddr, admin_listen.
  destruct (HasPrefix addr #"/") eqn:E1; [by rewrite !orb_true_r|]. rewrite !orb_false_r.
  destruct (HasPrefix addr #"unix://") eqn:E2; [done|].
  destruct (HasPrefix addr #"unix:") eqn:E3.
  - intros _. left. apply HasPrefix_spec in E3 as [rest ->]. exists rest. split; [done|].
    destruct (HasPrefix rest #"//") eqn:E; [|done]. apply HasPrefix_spec in E as [t ->].
    by rewrite app_assoc, HasPrefix_app in E2.
  - destruct (SplitHostPort addr) as [[host port]| |] eqn:Es; [|done..].
    case_bool_decide; [done|]. intros Hv. right. exists host, port. split; [done|].
    destruct (EqualFold _ _); [by left|]. right. destruct (ParseIP host) as [ip|]; [|done].
    exists ip. split; [done|]. by destruct (IsLoopback ip).
Qed.

(** The admin API, which registers pods and grants them policies, is private to the node: a portal
    that starts serves it exactly when it keeps a pod map, and then on a Unix socket or on a TCP
    address whose host is localhost or a loopback IP; the one exception is an address that starts
    with unix: but not unix://, which is not looked at and used as a TCP address. *)
Theorem portal_admin_confined `{Unicode} env um up pd ca v6 cfg es plan :
  Run_plan env um up pd ca v6 cfg es = Ok plan →
  (is_Some (pl_admin plan) ↔ is_Some (pl_podMap plan)) ∧
  (∀ l, pl_admin plan = Some l → admin_private l).
Proof.
  intros (fb & hc & Ha & _)%Run_plan_inv. unfold admin_of in Ha.
  destruct (pl_podMap plan) as [pm|]; [|by injection Ha as <-].
  destruct (validateAdminAddr _) eqn:Ev; [done|]. injection Ha as <-.
  split; [by split; eexists|]. intros l [= <-]. by apply validated_private.
Qed.

(** C12: What a pod map protects: with a rules directory every request the portal serves passes the access
    control of the plan's own pod map (a caller that is not authorised gets a 403 and no upstream is
    contacted); without one the pod map is not consulted at all and every request of every caller is
    proxied. *)
Theorem portal_pod_map_scope `{Unicode} {W} (RT : transport → Request → W → option Response * W)
    write_ok env um up pd ca v6 cfg es plan pm :
  Run_plan env um up pd ca v6 cfg es = Ok plan → pl_podMap plan = Some pm →
  match first_set [RulesDir cfg; env #"RULES_DIR"] with
  | [] => ∃ p t, ∀ order r w s,
      serve RT write_ok order (pl_handler plan) r w s = Some (HTTPProxy.ServeHTTP (RT t) write_ok p r w s)
  | _ => ∃ rr, pl_handler plan = RulesHandler rr ∧ ∀ order r w s,
      ¬ authorized order rr pm r →
      ∃ d, serve RT write_ok order (pl_handler plan) r w s = Some (HttpError (denial_message d) 403 w, s)
  end.
Proof.
  intros (fb & hc & _ & _ & Hh & Hfb & _)%Run_plan_inv Hpm. rewrite Hpm in Hh.
  destruct (first_set _) as [|c dir].
  - destruct (Hfb eq_refl) as [[p t] ->]. injection Hh as <-. by exists p, t.
  - destruct (pl_handler plan) as [rr|fb'].
    2:{ unfold make_handler in Hh. case_bool_decide; [done|].
        destruct (loadRules _ _ _ _ _ _) as [[]]; done. }
    apply make_handler_podMap in Hh. exists rr. split; [done|]. intros order r w s Hno.
    rewrite (route_request_authorized order rr pm r Hh) in Hno. cbn [serve]. unfold RuleRouter.ServeHTTP.
    destruct (route_request order rr r) as [d| |]; [by exists d|by destruct Hno..].
Qed.

(** C28: DNS and routing agree in the portal as wired: the DNS servers of a portal with rules, with or
    without a fallback, answer a query for a name with the portal's own address exactly when the router
    has a route for a request to that name, whatever the order in which it ranges over its table, or
    the name is that of the fallback's target or starts with it; for every query whose name does not
    end in a dot but for the final one. No query is ever forwarded: the configuration names no upstream
    servers, so the action Allow makes all other names fail where Deny refuses them. *)
Theorem portal_dns_agrees_with_routes `{Unicode} {W} unpack pack udp tcp env um up pd ca v6 cfg es plan
    rr d order req isTCP (s : W) msg q qs r :
  Run_plan env um up pd ca v6 cfg es = Ok plan →
  pl_handler plan = RulesHandler rr → d ∈ pl_dns plan → order ≡ₚ map_to_list (routes rr) →
  unpack req = Some msg → Dns.Questions msg = q :: qs →
  ReqHost r = Dns.query_name q → Dns.query_name q ≠ [] → HasSuffix (request_host r) #"." = false →
  let routed := is_Some (find_route order (request_host r) (routes rr)) ∨ fallback_names rr (request_host r) in
  ∃ resp, Dns.handleQuery unpack pack udp tcp d req isTCP s = (pack resp, s) ∧
    (∀ a, a ∈ Dns.Answers resp ↔ routed ∧ Dns.points_to_proxy d q a) ∧
    (routed → Dns.RCode (Dns.MHeader resp) = Dns.RCodeSuccess) ∧
    (¬ routed → Dns.RCode (Dns.MHeader resp)
                = if EqualFold (Dns.DefaultAction d) #"Allow" then Dns.RCodeServerFailure
                  else Dns.RCodeNameError).
Proof.
  intros (fb & hc & _ & _ & _ & _ & Hd)%Run_plan_inv Hh Hin Ho Hu Hq Hr Hne Hdot routed.
  rewrite Hd, Hh in Hin. apply dns_configs_inv in Hin as [Hm Hup].
  assert (Hmatch : Dns.matches d q = true ↔ routed).
  { unfold Dns.matches, request_host in *. rewrite Hm. cbn [dns_matcher].
    rewrite bool_decide_eq_false_2, Hr in Hdot by (by rewrite Hr). rewrite (match_host_spec order) by done.
    subst routed. unfold request_host. by rewrite bool_decide_eq_false_2, Hr by (by rewrite Hr). }
  clearbody routed. unfold Dns.handleQuery. rewrite Hu, Hq. destruct (Dns.matches d q).
  - assert routed by by apply Hmatch. eexists. split; [done|]. split; [|by split].
    intros a. cbn [Dns.Answers]. rewrite Dns.proxy_answers_spec. naive_solver.
  - assert (¬ routed) by (intros ?%Hmatch; done). unfold Dns.forward. rewrite Hup. cbn [Dns.forward_loop].
    destruct (EqualFold _ _); (eexists; split; [done|]; split; [|by split]);
      intros a; cbn [Dns.Answers]; rewrite elem_of_nil; naive_solver.
Qed.

(** ** The properties at concrete inputs *)

Definition demo_env (vars : list (gostring * gostring)) (k : gostring) : gostring :=
  default [] (snd <$> head (filter (λ e, e.1 = k) vars)).
Definition demo_config : Config := mkConfig [] [] None 0 [] None true [] [] [] [].
Definition demo_run (vars : list (gostring * gostring)) : outcome run_err Plan :=
  @Run_plan ascii_unicode (demo_env vars) demo_unmarshal demo_parse (λ _, None) (λ _, true) [] demo_config
    [WalkFile #"/rules/a.yaml" (Some #"api.example.com")].
Definition demo_vars : list (gostring * gostring) :=
  [(#"ENABLE_POD_MAP", #"true"); (#"PROXY_HOST", #"10.0.0.1"); (#"RULES_DIR", #"/rules")].
Definition demo_plan (vars : list (gostring * gostring)) : Plan :=
  match demo_run vars with Ok p => p | _ => mkPlan (ProxyHandler None) None None [] [] [] end.
Definition plan_router (p : Plan) : RuleRouter :=
  match pl_handler p with RulesHandler rr => rr | _ => NewRuleRouter [] None false end.

Lemma demo_plan_ok vars : is_ok (demo_run vars) = true → demo_run vars = Ok (demo_plan vars).
Proof. unfold demo_plan. by destruct (demo_run vars). Qed.

Lemma plan_router_ok p :
  match pl_handler p with RulesHandler _ => true | _ => false end = true →
  pl_handler p = RulesHandler (plan_router p).
Proof. unfold plan_router. by destruct (pl_handler p). Qed.

Lemma hd_in {A} (x : A) l : (0 <? length l) = true → hd x l ∈ l.
Proof. destruct l; [done|]. intros _. by left. Qed.

Definition demo_dns_none : Dns.Config := Dns.mkConfig [] None None None [] [] 0 0.

(** The addresses [0.0.0.0] and a plain file name are refused. *)
Example demo_run_refused :
  (is_ok (demo_run ((#"ADMIN_ADDR", #"0.0.0.0:9000") :: demo_vars)),
   is_ok (demo_run ((#"ADMIN_ADDR", #"portal.sock") :: demo_vars)),
   is_ok (demo_run demo_vars)) = (false, false, true).
Proof. vm_compute. reflexivity. Qed.

Lemma portal_admin_confined_witness :
  pl_admin (demo_plan ((#"ADMIN_ADDR", #"127.0.0.1:9000") :: demo_vars)) = Some (TcpAddr #"127.0.0.1:9000") ∧
  @admin_private ascii_unicode (TcpAddr #"127.0.0.1:9000").
Proof.
  destruct (@portal_admin_confined ascii_unicode (demo_env ((#"ADMIN_ADDR", #"127.0.0.1:9000") :: demo_vars))
    demo_unmarshal demo_parse (λ _, None) (λ _, true) [] demo_config
    [WalkFile #"/rules/a.yaml" (Some #"api.example.com")]
    (demo_plan ((#"ADMIN_ADDR", #"127.0.0.1:9000") :: demo_vars))) as [_ H].
  - apply demo_plan_ok. vm_compute. reflexivity.
  - split; [vm_compute; reflexivity|]. apply H. vm_compute. reflexivity.
Defined.

Lemma portal_pod_map_scope_witness :
  ∃ d, @serve ascii_unicode (list Request) (λ _, recording (λ _, None)) (λ _, true) []
         (pl_handler (demo_plan demo_vars)) (demo_req #"api.example.com" #"10.0.0.7:99") new_writer []
       = Some (HttpError (denial_message d) 403 new_writer, []).
Proof.
  destruct (@portal_pod_map_scope ascii_unicode (list Request) (λ _, recording (λ _, None)) (λ _, true)
    (demo_env demo_vars) demo_unmarshal demo_parse (λ _, None) (λ _, true) [] demo_config
    [WalkFile #"/rules/a.yaml" (Some #"api.example.com")] (demo_plan demo_vars) NewPodMap)
    as (rr & _ & H).
  - apply demo_plan_ok. vm_compute. reflexivity.
  - vm_compute. reflexivity.
  - apply H. intros (pod & Hpod & _). vm_compute in Hpod. congruence.
Defined.

(** Rules and a fallback: a query for the fallback's host is answered, though no
    rule names it. *)
Definition demo_both : list (gostring * gostring) := (#"TARGET_URL", #"https://api.other.net") :: demo_vars.
Lemma portal_dns_agrees_with_routes_witness :
  let d := hd demo_dns_none (pl_dns (demo_plan demo_both)) in
  ∃ resp, @Dns.handleQuery ascii_unicode _ Dns.demo_unpack Dns.demo_pack Dns.demo_udp Dns.demo_udp d
      #"api.other.net." false [] = (Dns.demo_pack resp, []) ∧
    Dns.RCode (Dns.MHeader resp) = Dns.RCodeSuccess.
Proof.
  pose (rr := plan_router (demo_plan demo_both)).
  destruct (@portal_dns_agrees_with_routes ascii_unicode _ Dns.demo_unpack Dns.demo_pack Dns.demo_udp Dns.demo_udp
    (demo_env demo_both) demo_unmarshal demo_parse (λ _, None) (λ _, true) [] demo_config
    [WalkFile #"/rules/a.yaml" (Some #"api.example.com")] (demo_plan demo_both) rr
    (hd demo_dns_none (pl_dns (demo_plan demo_both))) (map_to_list (routes rr)) #"api.other.net." false []
    (Dns.mkMessage (Dns.mkMsgHeader 7 false 0 false false true false false false 0)
      [Dns.mkQuestion #"api.other.net." Dns.TypeA Dns.ClassINET] [] [] [])
    (Dns.mkQuestion #"api.other.net." Dns.TypeA Dns.ClassINET) [] (demo_req #"api.other.net" #"10.0.0.7:99"))
    as (resp & H1 & _ & H2 & _).
  - apply demo_plan_ok. vm_compute. reflexivity.
  - apply plan_router_ok. vm_compute. reflexivity.
  - apply hd_in. vm_compute. reflexivity.
  - reflexivity.
  - vm_compute. reflexivity.
  - reflexivity.
  - vm_compute. reflexivity.
  - vm_compute. discriminate.
  - vm_compute. reflexivity.
  - exists resp. split; [exact H1|]. apply H2. right. do 2 eexists. split; [vm_compute; reflexivity|].
    split; [vm_compute; discriminate|]. left. vm_compute. reflexivity.
Defined.
