(* ===== verification/Logging.v ===== *)
(** * The logging transports (gemini-portal, anthropic-portal, github-portal)

    Each of these portals puts a transport around the one of its proxy that
    writes every exchange to the log, with the credential headers redacted. The
    log is the list of the lines printed. Decoders of the payloads are
    parameters; a decoder that fails gives the text of its error. *)

From S2P Require Import Prelude GoStrings Http HTTPProxy CachingTransport.

(** What a transport returns: the text of an error, or a response. *)
Abbreviation reply := (gostring + Response)%type.

(** The body of a request to read: none, one that can be read, or one whose
    reading ends in an error. *)
Inductive body_state := NilBody | BodyReadable | BodyBroken (err : gostring).

(** What a portal logs, and how. *)
Record logger := mkLogger {
  portal_name : gostring;
  redacted : gostring → bool;
  log_request : option (Request → list gostring);      (** [None]: the body is not read *)
  leaves_stream : Response → option (list gostring);   (** [Some]: the body is not read *)
  log_response : Response → bytes → list gostring;
}.

Section RoundTrip.
Context `{Unicode} (p : logger).

(** [for k := range h] yields every key of the map once, in an order of its own
    choice: those named in [order] first, as they come there, then the rest. *)
Definition ranged (order : list gostring) (h : Header) : list gostring :=
  filter (λ k, k ∈ dom h) (remove_dups order) ++ elements (dom h ∖ list_to_set order).

Definition header_line (h : Header) (k : gostring) : gostring :=
  #"Header " ++ k ++ #": " ++
  (if redacted p k then #"[REDACTED]" else #"[" ++ Join (values k h) #" " ++ #"]").

Definition response_header_line (h : Header) (k : gostring) : gostring :=
  #"Header " ++ k ++ #": [" ++ Join (values k h) #" " ++ #"]".

Definition close_lines (what : gostring) (err : option gostring) : list gostring :=
  match err with Some e => [ #"Error closing " ++ what ++ #" body: " ++ e] | None => [] end.

(** Reading the request's body: the lines and, if it fails, the error returned. *)
Definition read_request (b : body_state) (close : option gostring) (r : Request) : list gostring * option gostring :=
  match log_request p, b with
  | None, _ | _, NilBody => ([], None)
  | Some _, BodyBroken err =>
      ([ #"Error reading request body: " ++ err], Some (#"reading request body for logging: " ++ err))
  | Some f, BodyReadable => (close_lines #"request" close ++ f r, None)
  end.

Definition request_lines (order : list gostring) (b : body_state) (close : option gostring) (r : Request) : list gostring :=
  [ #"--- " ++ portal_name p ++ #" Portal: Request Intercepted ---";
    #"URL: " ++ URL_String (ReqURL r);
    #"Method: " ++ Method r ]
  ++ (header_line (ReqHeader r) <$> ranged order (ReqHeader r)) ++ (read_request b close r).1.

(** Reading the response's body; [err] is the error a broken one ends with. *)
Definition read_response (err : gostring) (close : option gostring) (resp : Response) : list gostring * reply :=
  match leaves_stream p resp with
  | Some lines => (lines, inr resp)
  | None =>
      if BodyFails resp then
        ((#"Error reading response body: " ++ err) :: close_lines #"response" close,
         inl (#"reading response body for logging: " ++ err))
      else (close_lines #"response" close ++ log_response p resp (resp_body resp), inr (rewrapped resp))
  end.

Definition response_lines (status : gostring) (order : list gostring) (resp : Response) : list gostring :=
  [ #"--- " ++ portal_name p ++ #" Portal: Response Intercepted ---"; #"Status: " ++ status ]
  ++ (response_header_line (RespHeader resp) <$> ranged order (RespHeader resp)).

(** What an exchange depends on besides the messages: the orders in which the
    ranges over the headers yield their keys, the states of the bodies and what
    closing them returns, the status line. *)
Record circumstances := mkCircumstances {
  req_order : list gostring;
  resp_order : list gostring;
  req_body : body_state;
  req_close : option gostring;
  resp_err : gostring;
  resp_close : option gostring;
  status : Response → gostring;
}.

Context {W : Type} (Underlying : Request → W → reply * W).

(** The lines printed, the result, and the state of the underlying transport. *)
Definition RoundTrip (c : circumstances) (r : Request) (w : W) : list gostring * reply * W :=
  let lines := request_lines (req_order c) (req_body c) (req_close c) r in
  match (read_request (req_body c) (req_close c) r).2 with
  | Some err => (lines, inl err, w)
  | None =>
      match Underlying r w with
      | (inl err, w) => (lines ++ [ #"Error sending request: " ++ err], inl err, w)
      | (inr resp, w) =>
          let lines := lines ++ response_lines (status c resp) (resp_order c) resp in
          let '(more, result) := read_response (resp_err c) (resp_close c) resp in
          (lines ++ more, result, w)
      end
  end.

(** As a transport of the proxy, which only asks whether there is an error. *)
Definition to_option (r : reply) : option Response := match r with inl _ => None | inr resp => Some resp end.
Definition logged (c : circumstances) (r : Request) (st : W * list gostring) : option Response * (W * list gostring) :=
  let '(w, log) := st in
  let '(lines, result, w) := RoundTrip c r w in (to_option result, (w, log ++ lines)).
Definition unlogged (r : Request) (w : W) : option Response * W :=
  let '(result, w) := Underlying r w in (to_option result, w).
End RoundTrip.

(** ** The loggers *)

(** The role of a message and its text. *)
Definition content : Type := gostring * gostring.
Definition message_line (what : gostring) (c : content) : gostring :=
  #"Parsed " ++ what ++ #" [" ++ c.1 ++ #"]: " ++ c.2.
Definition size_line (what : gostring) (b : bytes) : gostring :=
  what ++ #" (" ++ fmt_d (Z.of_nat (length b)) ++ #" bytes)".

Section Gemini.
Context `{Unicode}.

(** The decoders: the contents of a JSON request and the texts of its system
    instruction; a content; a gRPC request; and the candidates of a response. *)
Context (json_payload : bytes → option (list bytes * list gostring))
        (json_content : bytes → gostring + content)
        (grpc_request : bytes → gostring + list content)
        (json_response : bytes → option (list (option content)))
        (grpc_response : bytes → gostring + list (option content)).

Definition redacts_gemini (k : gostring) : bool :=
  bool_decide (ToLower k = #"x-goog-api-key") || bool_decide (ToLower k = #"authorization").

Definition content_line (b : bytes) : gostring :=
  match json_content b with
  | inl err => #"Failed to unmarshal content: " ++ err
  | inr c => message_line #"Request Message" c
  end.

Definition logRequestBody (r : Request) : list gostring :=
  let contentType := Get #"Content-Type" (ReqHeader r) in
  if HasPrefix contentType #"application/json" then
    match json_payload (Body r) with
    | Some ((_ :: _) as contents, system) =>
        match system with text :: _ => [ #"Parsed Request System Prompt: " ++ text] | [] => [] end
        ++ (content_line <$> contents)
    | _ => [ #"Request Body: " ++ Body r]
    end
  else if HasPrefix contentType #"application/grpc" then
    if length (Body r) <? 5 then [] else
    match grpc_request (drop 5 (Body r)) with
    | inr contents => message_line #"GRPC Request Message" <$> contents
    | inl err => [ #"Failed to unmarshal GRPC GenerateContentRequest: " ++ err]
    end
  else [size_line #"Request Body" (Body r)].

Definition logResponseBody (resp : Response) (body : bytes) : list gostring :=
  let contentType := Get #"Content-Type" (RespHeader resp) in
  if HasPrefix contentType #"application/json" then
    match json_response body with
    | Some ((_ :: _) as candidates) => message_line #"Response Content" <$> omap id candidates
    | _ => [ #"Response Body: " ++ body]
    end
  else if HasPrefix contentType #"application/grpc" then
    if length body <? 5 then [] else
    match grpc_response (drop 5 body) with
    | inr candidates => message_line #"GRPC Response Content" <$> omap id candidates
    | inl err => [ #"Failed to unmarshal GRPC GenerateContentResponse: " ++ err]
    end
  else [size_line #"Response Body" body].

Definition leaves_grpc (resp : Response) : option (list gostring) :=
  if HasPrefix (Get #"Content-Type" (RespHeader resp)) #"application/grpc"
  then Some [ #"Bypassing body logging for gRPC streaming response."] else None.

Definition gemini : logger :=
  mkLogger #"Gemini" redacts_gemini (Some logRequestBody) leaves_grpc logResponseBody.
End Gemini.

(** What reading a gzip body gives. *)
Inductive gunzip_result :=
  | NoGzipReader (err : gostring)
  | GzipFails (err : gostring) (close : option gostring)
  | Gunzipped (b : bytes) (close : option gostring).

Section Anthropic.
Context `{Unicode}.

(** The system prompt and the messages of a request, the type and text of the
    contents of a response, printed. *)
Context (json_request : bytes → option (gostring * list content))
        (json_contents : bytes → option (list content))
        (gunzip : bytes → gunzip_result).

Definition redacts_anthropic (k : gostring) : bool :=
  bool_decide (k = #"X-Api-Key") || bool_decide (k = #"Authorization").

Definition anthropic_request (r : Request) : list gostring :=
  match json_request (Body r) with
  | Some (system, (_ :: _) as messages) =>
      (#"Parsed Request System Prompt: " ++ system) :: (message_line #"Request Message" <$> messages)
  | _ => [ #"Request Body: " ++ Body r]
  end.

(** The body to log, and the lines on the way to it. *)
Definition uncompressed (resp : Response) (body : bytes) : list gostring * bytes :=
  let closing c := match c with Some e => [ #"Error closing gzip reader: " ++ e] | None => [] end in
  if EqualFold (Get #"Content-Encoding" (RespHeader resp)) #"gzip" then
    match gunzip body with
    | NoGzipReader err => ([ #"Error creating gzip reader: " ++ err], body)
    | GzipFails err close => ((#"Error reading gzip body: " ++ err) :: closing close, body)
    | Gunzipped b close => (closing close, b)
    end
  else ([], body).

Definition anthropic_response (resp : Response) (body : bytes) : list gostring :=
  let '(lines, body) := uncompressed resp body in
  lines ++
  match json_contents body with
  | Some ((_ :: _) as contents) =>
      (λ c, #"Parsed Response Content [text]: " ++ c.2) <$> filter (λ c, c.1 = #"text") contents
  | _ => [ #"Response Body: " ++ body]
  end.

Definition anthropic : logger :=
  mkLogger #"Anthropic" redacts_anthropic (Some anthropic_request) (λ _, None) anthropic_response.
End Anthropic.

(** The GitHub portal logs no bodies. *)
Definition redacts_github (k : gostring) : bool := bool_decide (k = #"Authorization").
Definition github : logger := mkLogger #"GitHub" redacts_github None (λ _, Some []) (λ _ _, []).

(** The loggers of the repository. *)
Definition portal_logger `{Unicode} (p : logger) : Prop :=
  (∃ a b c d e, p = gemini a b c d e) ∨ (∃ a b c, p = anthropic a b c) ∨ p = github.

(** ** Lemmas *)

(** A range yields exactly the keys, each once, and every order of them is one it can yield. *)
Lemma ranged_keys (order : list gostring) (h : Header) : ranged order h ≡ₚ elements (dom h).
Proof.
  apply NoDup_Permutation; [|apply NoDup_elements|].
  - unfold ranged. apply NoDup_app. split_and!; [apply NoDup_filter, NoDup_remove_dups| |apply NoDup_elements].
    intros k [_ Hk]%list_elem_of_filter. rewrite elem_of_remove_dups in Hk. set_solver.
  - intros k. unfold ranged. rewrite elem_of_app, list_elem_of_filter, elem_of_remove_dups, !elem_of_elements.
    rewrite elem_of_difference, elem_of_list_to_set. destruct (decide (k ∈ order)); naive_solver.
Qed.

Lemma ranged_any (order : list gostring) (h : Header) : order ≡ₚ elements (dom h) → ranged order h = order.
Proof.
  intros Hp. assert (Hin : ∀ k, k ∈ order ↔ k ∈ dom h) by (intros k; rewrite Hp; apply elem_of_elements).
  assert (Hnd : NoDup order) by (rewrite Hp; apply NoDup_elements). unfold ranged.
  assert (dom h ∖ list_to_set order = ∅) as -> by (apply set_eq; intros k; rewrite elem_of_difference,
    elem_of_list_to_set, Hin; set_solver).
  rewrite elements_empty, app_nil_r.
  assert (remove_dups order = order) as ->.
  { clear Hp Hin. induction order as [|k order IH]; [done|]. apply NoDup_cons in Hnd as [Hk Hnd].
    cbn [remove_dups]. destruct (decide_rel _ k order); [done|]. by rewrite IH. }
  assert (Hall : Forall (λ k, k ∈ dom h) order) by (apply Forall_forall; intros k; by apply Hin).
  clear Hp Hin Hnd. induction Hall as [|k order Hk _ IH]; [done|]. by rewrite filter_cons, decide_True, IH.
Qed.

(** Two requests that differ at most in the values of headers that are redacted. *)
Definition same_but_redacted (p : logger) (r1 r2 : Request) : Prop :=
  Method r1 = Method r2 ∧ ReqURL r1 = ReqURL r2 ∧ Body r1 = Body r2 ∧ dom (ReqHeader r1) = dom (ReqHeader r2) ∧
  ∀ k, redacted p k = false → ReqHeader r1 !! k = ReqHeader r2 !! k.

Lemma redacted_plain `{Unicode} p :
  portal_logger p → redacted p #"Content-Type" = false ∧ redacted p #"Connection" = false.
Proof.
  intros [(? & ? & ? & ? & ? & ->)|[(? & ? & ? & ->)| ->]]; cbn; [|by split..].
  split; vm_compute; reflexivity.
Qed.

Lemma log_request_same `{Unicode} p f r1 r2 :
  portal_logger p → log_request p = Some f → same_but_redacted p r1 r2 → f r1 = f r2.
Proof.
  intros Hp Hf (_ & _ & Hb & _ & Hh).
  assert (Hct : Get #"Content-Type" (ReqHeader r1) = Get #"Content-Type" (ReqHeader r2)).
  { unfold Get, values. change (CanonicalKey #"Content-Type") with #"Content-Type".
    by rewrite Hh by (by destruct (redacted_plain p Hp)). }
  destruct Hp as [(? & ? & ? & ? & ? & ->)|[(? & ? & ? & ->)| ->]]; cbn in Hf; [..|done]; injection Hf as <-.
  - unfold logRequestBody. by rewrite Hct, Hb.
  - unfold anthropic_request. by rewrite Hb.
Qed.

Lemma request_lines_same `{Unicode} p order b close r1 r2 :
  portal_logger p → same_but_redacted p r1 r2 →
  request_lines p order b close r1 = request_lines p order b close r2.
Proof.
  intros Hp Hs. pose proof Hs as (Hm & Hu & _ & Hd & Hh). unfold request_lines. rewrite Hm, Hu. f_equal. f_equal.
  - assert (ranged order (ReqHeader r1) = ranged order (ReqHeader r2)) as -> by (unfold ranged; by rewrite Hd).
    apply list_fmap_ext. intros _ k _. unfold header_line. destruct (redacted p k) eqn:E; [done|].
    unfold values. by rewrite Hh.
  - unfold read_request. destruct (log_request p) as [f|] eqn:Ef; [|done]. destruct b; cbn; [done| |done].
    by rewrite (log_request_same p f r1 r2).
Qed.

Lemma read_request_error_same p b close r1 r2 : (read_request p b close r1).2 = (read_request p b close r2).2.
Proof. unfold read_request. by destruct (log_request p), b. Qed.

Lemma RoundTrip_same `{Unicode} {W} p (U : Request → W → reply * W) c r1 r2 w1 w2 :
  portal_logger p → same_but_redacted p r1 r2 → (U r1 w1).1 = (U r2 w2).1 →
  (RoundTrip p U c r1 w1).1 = (RoundTrip p U c r2 w2).1.
Proof.
  intros Hp Hs HU. unfold RoundTrip.
  rewrite (request_lines_same p _ _ _ r1 r2 Hp Hs), (read_request_error_same p _ _ r1 r2).
  destruct (read_request p _ _ r2).2; [done|].
  destruct (U r1 w1) as [re1 w1'], (U r2 w2) as [re2 w2']. cbn in HU. subst re2.
  destruct re1 as [err|resp]; [done|]. by destruct (read_response _ _ _ _).
Qed.

(** What the proxies of two portals send that differ in the credential only. *)
Lemma outgoing_same p px1 px2 r :
  (AuthToken px1 = [] ↔ AuthToken px2 = []) →
  CanonicalKey (AuthHeader px1) ≠ #"Connection" → redacted p (CanonicalKey (AuthHeader px1)) = true →
  TargetURL px1 = TargetURL px2 → AuthHeader px1 = AuthHeader px2 →
  same_but_redacted p (outgoing px1 r) (outgoing px2 r).
Proof.
  intros Htok Hc Hr Ht Ha. unfold same_but_redacted. split_and!; [done|cbn; by rewrite Ht|done| |].
  { apply set_eq. intros k. rewrite !elem_of_dom, !lookup_outgoing by (by rewrite <- ?Ha). rewrite <- Ha.
    case_decide; [done|]. destruct (decide (AuthToken px1 ≠ [] ∧ _)), (decide (AuthToken px2 ≠ [] ∧ _));
      try done; tauto. }
  intros k Hk. rewrite !lookup_outgoing by (by rewrite <- ?Ha). rewrite <- Ha.
  case_decide; [done|]. rewrite !decide_False; [done|..]; intros [_ ->]; congruence.
Qed.

Lemma relay_one_chunk write_ok resp w :
  (∀ i, write_ok i = true) → relay write_ok (rewrapped resp) w = relay write_ok resp w.
Proof.
  intros Hok. unfold relay, rewrapped. cbn [RespHeader Trailer StatusCode Chunks]. set (w1 := WriteHeader _ _).
  assert (Hs : is_Some (w_sent w1)) by (subst w1; unfold WriteHeader; case_match; by eexists).
  rewrite !relay_body_spec by done. unfold resp_body. cbn. by rewrite app_nil_r.
Qed.

Lemma read_request_ok p b close r :
  (log_request p = None ∨ ∀ err, b ≠ BodyBroken err) → (read_request p b close r).2 = None.
Proof. intros [Hn|Hb]; unfold read_request; [by rewrite Hn|]. destruct (log_request p), b; try done. by destruct (Hb err). Qed.

(** ** Properties *)

(** The credential the portal injects never reaches the log, whatever the workload sends: when the
    credential header is one its logger redacts, two portals of the same kind with different secrets
    print the same lines for the same request (and answer it alike), as long as both have a secret or
    none and the upstream gives both the same reply. *)
Theorem logs_hide_credential `{Unicode} {W} p (U : Request → W → reply * W) c px1 px2 r w1 w2 :
  portal_logger p → redacted p (CanonicalKey (AuthHeader px1)) = true →
  (AuthToken px1 = [] ↔ AuthToken px2 = []) →
  TargetURL px1 = TargetURL px2 → AuthHeader px1 = AuthHeader px2 →
  (U (outgoing px1 r) w1).1 = (U (outgoing px2 r) w2).1 →
  (RoundTrip p U c (outgoing px1 r) w1).1 = (RoundTrip p U c (outgoing px2 r) w2).1.
Proof.
  intros Hp Hr Htok Ht Ha HU. apply RoundTrip_same; [done| |done]. apply outgoing_same; [done| |done..].
  intros Hc. rewrite Hc in Hr. destruct (redacted_plain p Hp). congruence.
Qed.

(** The redaction goes by the names of the headers, not by the header the portal
    is configured to use: with another credential header the secret is printed. *)
Theorem other_header_logs_credential {W} p (U : Request → W → reply * W) c px r w :
  CanonicalKey (AuthHeader px) ≠ #"Connection" → redacted p (CanonicalKey (AuthHeader px)) = false →
  AuthToken px ≠ [] → CanonicalKey (AuthHeader px) ∉ dropped (ReqHeader r) →
  #"Header " ++ CanonicalKey (AuthHeader px) ++ #": [" ++ auth_value px ++ #"]"
    ∈ (RoundTrip p U c (outgoing px r) w).1.1.
Proof.
  intros Hc Hr Ht Hd.
  assert (Hk : ReqHeader (outgoing px r) !! CanonicalKey (AuthHeader px) = Some [auth_value px]).
  { rewrite lookup_outgoing by done. by rewrite decide_False, decide_True by done. }
  assert (Hl : header_line p (ReqHeader (outgoing px r)) (CanonicalKey (AuthHeader px))
    = #"Header " ++ CanonicalKey (AuthHeader px) ++ #": [" ++ auth_value px ++ #"]").
  { unfold header_line. rewrite Hr. unfold values. by rewrite Hk. }
  assert (Hline : header_line p (ReqHeader (outgoing px r)) (CanonicalKey (AuthHeader px))
    ∈ request_lines p (req_order c) (req_body c) (req_close c) (outgoing px r)).
  { unfold request_lines. apply elem_of_app. right. apply elem_of_app. left. apply list_elem_of_fmap.
    eexists. split; [done|]. rewrite ranged_keys, elem_of_elements, elem_of_dom. by rewrite Hk. }
  rewrite <- Hl. unfold RoundTrip. destruct (read_request _ _ _ _).2; [done|].
  destruct (U _ w) as [[err|resp] w']; [|destruct (read_response _ _ _ _)]; cbn [fst]; apply elem_of_app; left;
    [exact Hline|]. apply elem_of_app. left. exact Hline.
Qed.

(** Logging does not change what clients get: while the client's writes succeed and its request body
    can be read, a portal with a logging transport writes the same response, to the byte, as it would
    without, asks the upstream the same, and adds lines to its log; except that a response whose body
    breaks off, which would be passed on as far as it came, becomes a 502 where the body is logged. *)
Theorem logging_transparent {W} p (U : Request → W → reply * W) c px write_ok r wr (w : W) log :
  (∀ i, write_ok i = true) → (log_request p = None ∨ ∀ err, req_body c ≠ BodyBroken err) →
  let '(plain, w') := ServeHTTP (unlogged U) write_ok px r wr w in
  ∃ lines, ServeHTTP (logged p U c) write_ok px r wr (w, log)
    = (match (U (outgoing px r) w).1 with
       | inr resp => if BodyFails resp && negb (bool_decide (Method r = #"CONNECT"))
                        && bool_decide (leaves_stream p resp = None)
                     then WriteHeader 502 wr else plain
       | inl _ => plain
       end, (w', log ++ lines)).
Proof.
  intros Hok Hb. unfold ServeHTTP, proxyRequest, unlogged, logged, RoundTrip.
  rewrite (read_request_ok p _ _ (outgoing px r) Hb). case_bool_decide as Hm.
  { exists []. rewrite app_nil_r. destruct (U _ _).1; [done|]. by rewrite andb_false_r. }
  destruct (U (outgoing px r) w) as [[err|resp] w'] eqn:EU; cbn [fst to_option negb]; [by eexists|].
  rewrite andb_true_r. unfold read_response. destruct (leaves_stream p resp) as [l|].
  { rewrite andb_false_r. cbn [to_option]. by eexists. }
  rewrite bool_decide_eq_true_2, andb_true_r by done.
  destruct (BodyFails resp); cbn [to_option]; [by eexists|]. rewrite relay_one_chunk by done. by eexists.
Qed.

(** ** The properties at concrete inputs *)

Definition demo_gemini : logger :=
  @gemini ascii_unicode (λ b, Some ([b], [])) (λ b, inr (#"user", b)) (λ _, inl #"no protobuf")
    (λ b, Some [Some (#"model", b)]) (λ _, inl #"no protobuf").
Definition demo_circumstances : circumstances :=
  mkCircumstances [ #"Content-Type"; #"X-Goog-Api-Key"] [ #"Content-Type"] BodyReadable None #"unexpected EOF" None
    (λ _, #"200 OK").
Definition demo_portal (secret : gostring) : HTTPProxy :=
  mkHTTPProxy (mkURL #"https" #"api.example.com" [] []) secret #"x-goog-api-key".
Definition demo_json : Request := demo_request [(#"Content-Type", [ #"application/json"])].
Definition demo_upstream (fails : bool) (_ : Request) (n : nat) : reply * nat :=
  (inr (mkResponse 200 {[ #"Content-Type" := [ #"text/plain"] ]} [ #"hel"; #"lo"] fails ∅), S n).

(** What is printed with the credential redacted. *)
Example demo_lines :
  (RoundTrip demo_gemini (demo_upstream false) demo_circumstances (outgoing (demo_portal #"secret-a") demo_json) 0).1.1
  = [ #"--- Gemini Portal: Request Intercepted ---"; #"URL: https://api.example.com/v1/models?alt=sse"; #"Method: POST";
      #"Header Content-Type: [application/json]"; #"Header X-Goog-Api-Key: [REDACTED]";
      #"Parsed Request Message [user]: {}";
      #"--- Gemini Portal: Response Intercepted ---"; #"Status: 200 OK"; #"Header Content-Type: [text/plain]";
      #"Response Body (5 bytes)"].
Proof. vm_compute. reflexivity. Qed.

Lemma logs_hide_credential_witness :
  (RoundTrip demo_gemini (demo_upstream false) demo_circumstances (outgoing (demo_portal #"secret-a") demo_json) 0).1
  = (RoundTrip demo_gemini (demo_upstream false) demo_circumstances (outgoing (demo_portal #"secret-b") demo_json) 7).1.
Proof.
  apply (@logs_hide_credential ascii_unicode nat demo_gemini (demo_upstream false) demo_circumstances
    (demo_portal #"secret-a") (demo_portal #"secret-b") demo_json 0 7).
  - left. do 5 eexists. reflexivity.
  - vm_compute. reflexivity.
  - by split.
  - reflexivity.
  - reflexivity.
  - reflexivity.
Defined.

(** A portal set to send the key in another header prints it. *)
Lemma other_header_logs_credential_witness :
  #"Header X-Api-Key: [secret]" ∈
    (RoundTrip github (demo_upstream false)
      (mkCircumstances [ #"X-Api-Key"] [] BodyReadable None [] None (λ _, #"200 OK"))
      (outgoing (mkHTTPProxy (mkURL #"https" #"api.example.com" [] []) #"secret" #"x-api-key") demo_json) 0).1.1.
Proof.
  apply (other_header_logs_credential github (demo_upstream false)
    (mkCircumstances [ #"X-Api-Key"] [] BodyReadable None [] None (λ _, #"200 OK"))
    (mkHTTPProxy (mkURL #"https" #"api.example.com" [] []) #"secret" #"x-api-key") demo_json 0);
    apply (bool_decide_unpack _); vm_compute; exact I.
Defined.

Lemma logging_transparent_witness :
  (ServeHTTP (logged demo_gemini (demo_upstream false) demo_circumstances) (λ _, true) (demo_portal #"secret") demo_json
     new_writer (0, [])).1
  = (ServeHTTP (unlogged (demo_upstream false)) (λ _, true) (demo_portal #"secret") demo_json new_writer 0).1 ∧
  (ServeHTTP (logged demo_gemini (demo_upstream true) demo_circumstances) (λ _, true) (demo_portal #"secret") demo_json
     new_writer (0, [])).1 = WriteHeader 502 new_writer.
Proof.
  assert (Hb : ∀ err, req_body demo_circumstances ≠ BodyBroken err) by discriminate.
  split.
  - pose proof (logging_transparent demo_gemini (demo_upstream false) demo_circumstances (demo_portal #"secret")
      (λ _, true) demo_json new_writer 0 [] (λ _, eq_refl) (or_intror Hb)) as HT.
    destruct (ServeHTTP (unlogged (demo_upstream false)) _ _ _ _ _) as [plain w'].
    destruct HT as [lines ->]. reflexivity.
  - pose proof (logging_transparent demo_gemini (demo_upstream true) demo_circumstances (demo_portal #"secret")
      (λ _, true) demo_json new_writer 0 [] (λ _, eq_refl) (or_intror Hb)) as HT.
    destruct (ServeHTTP (unlogged (demo_upstream true)) _ _ _ _ _) as [plain w'].
    destruct HT as [lines ->]. reflexivity.
Defined.
