(* ===== verification/Binaries.v ===== *)
(** * The programs (the main packages)

    What each program passes to the server it runs: the configuration of the
    portal, with the transport its [SetupProxy] puts in place, and the options
    of the Git proxy. *)

From S2P Require Import Prelude GoStrings Http HTTPProxy RuleRouter Portal Logging.
From S2P Require GitServer.

(** ** The portals *)

Section Portals.
Context (Getenv : gostring → gostring).

Definition portal_config (target header : gostring)
    (setup : option (HTTPProxy * transport → HTTPProxy * transport)) : Config :=
  mkConfig target header setup 0 [] None false [] [] [] [].

(** gemini-portal: [&transport.LoggingTransport{}], over the default transport. *)
Definition gemini_config : Config :=
  portal_config #"https://generativelanguage.googleapis.com" #"x-goog-api-key"
    (Some (λ p, (p.1, Logged DefaultTransport))).

(** anthropic-portal: over [http.DefaultTransport]. *)
Definition anthropic_config : Config :=
  portal_config #"https://api.anthropic.com" #"x-api-key" (Some (λ p, (p.1, Logged DefaultTransport))).

(** github-portal: over the transport the proxy has. *)
Definition github_config : Config :=
  portal_config (first_set [Getenv #"TARGET_URL"; #"https://api.github.com/"]) #"Authorization"
    (Some (λ p, (p.1, Logged p.2))).

(** service-portal and all-in-one-portal, from their flags. *)
Definition service_config (rulesDir : gostring) : Config :=
  mkConfig [] [] None 0 rulesDir None false [] [] [] [].

Definition all_in_one_config (rulesDir : gostring) (serveDNS : bool) (dnsBindAddr dnsPort : gostring) : Config :=
  let env := Getenv #"SERVE_DNS" in
  mkConfig [] [] None 0 rulesDir None
    (if bool_decide (env = []) then serveDNS else bool_decide (env = #"true") || bool_decide (env = #"1"))
    dnsBindAddr dnsPort [] [].
End Portals.

(** ** The Git proxy *)

Definition minute : Z := 60 * 10 ^ 9.
Definition week : Z := 7 * 24 * 60 * minute.

Record git_flags := mkGitFlags {
  portFlag : gostring;
  targetURLFlag : gostring;
  cacheDirFlag : gostring;
  cacheTTLFlag : Z;
  cleanupIntervalFlag : Z;
  authTokenFlag : gostring;
  authHeaderFlag : gostring;
}.

Inductive git_start_err := ParsingCacheTTL | ParsingCleanupInterval | DiskCacheFailed (dir : gostring).

(** The cache that is created. *)
Inductive cache_choice :=
  | UseDisk (dir : gostring) (ttl cleanupInterval : Z)
  | UseMemory (cleanupInterval : Z).

Section GitProxy.
Context (Getenv : gostring → gostring) (ParseDuration : gostring → option Z) (disk_ok : gostring → bool).

Definition make_cache (dir : gostring) (ttl cleanupInterval : Z) : outcome git_start_err cache_choice :=
  if bool_decide (dir = []) then Ok (UseMemory cleanupInterval)
  else if disk_ok dir then Ok (UseDisk dir ttl cleanupInterval) else Err (DiskCacheFailed dir).

(** A duration from a flag, else from the environment, else its default. *)
Definition duration_option (flag : Z) (var : gostring) (err : git_start_err) (def : Z) : outcome git_start_err Z :=
  d ← (if (flag <=? 0)%Z && negb (bool_decide (Getenv var = []))
       then match ParseDuration (Getenv var) with Some d => Ok d | None => Err err end
       else Ok flag);
  Ok (if (d <=? 0)%Z then def else d).

(** [run] of cmd/gitproxy-server, up to the call of [gitproxy.Run]. *)
Definition git_options (f : git_flags) : outcome git_start_err (gostring * GitServer.Config * cache_choice) :=
  cacheTTL ← duration_option (cacheTTLFlag f) #"CACHE_TTL" ParsingCacheTTL week;
  cleanupInterval ← duration_option (cleanupIntervalFlag f) #"CACHE_CLEANUP_INTERVAL" ParsingCleanupInterval (10 * minute);
  c ← make_cache (first_set [cacheDirFlag f; Getenv #"CACHE_DIR"]) cacheTTL cleanupInterval;
  Ok (first_set [portFlag f; Getenv #"PORT"; #"8080"],
      GitServer.mkConfig (first_set [targetURLFlag f; Getenv #"TARGET_URL"])
        (first_set [authHeaderFlag f; Getenv #"UPSTREAM_AUTH_HEADER"; #"Authorization"])
        (first_set [authTokenFlag f; Getenv #"UPSTREAM_AUTH_TOKEN"]) cacheTTL,
      c).

(** A duration of the environment that cannot be parsed is ignored here. *)
Definition env_duration (var : gostring) (otherwise : Z) : Z :=
  if bool_decide (Getenv var = []) then otherwise else default otherwise (ParseDuration (Getenv var)).

(** [gitproxy.Run] before it listens: the address, the configuration and the
    cache of the server; [None] is a nil [config.Cache]. *)
Definition git_run (config : GitServer.Config) (c : option cache_choice) (port : gostring)
    : outcome git_start_err (gostring * GitServer.Config * cache_choice) :=
  let target := first_set [GitServer.DefaultTargetURL config; Getenv #"TARGET_URL"] in
  let token := first_set [GitServer.DefaultAuthToken config; Getenv #"UPSTREAM_AUTH_TOKEN"] in
  let header := first_set [GitServer.DefaultAuthHeader config; Getenv #"UPSTREAM_AUTH_HEADER"; #"Authorization"] in
  '(ttl, c) ← match c with
    | Some c => Ok (GitServer.CacheTTL config, c)
    | None =>
        let ttl := env_duration #"CACHE_TTL" (GitServer.CacheTTL config) in
        let ttl := if (ttl <=? 0)%Z then week else ttl in
        c ← make_cache (Getenv #"CACHE_DIR") ttl (env_duration #"CACHE_CLEANUP_INTERVAL" (10 * minute));
        Ok (ttl, c)
    end;
  Ok (#":" ++ first_set [port; Getenv #"PORT"; #"8080"],
      GitServer.NewServer (GitServer.mkConfig target header token ttl), c).

(** The program: the options, then the server. *)
Definition gitproxy_server (f : git_flags) : outcome git_start_err (gostring * GitServer.Config * cache_choice) :=
  '(port, config, c) ← git_options f; git_run config (Some c) port.
End GitProxy.

(** ** Lemmas *)

Definition plan_fallback (plan : Plan) : option (HTTPProxy * transport) :=
  match pl_handler plan with RulesHandler rr => fallback rr | ProxyHandler fb => fb end.

Lemma make_handler_fallback `{Unicode} um up pd ca dir fb hc pm es h :
  make_handler um up pd ca dir fb hc pm es = Ok h →
  match h with RulesHandler rr => fallback rr | ProxyHandler fb => fb end = fb.
Proof.
  unfold make_handler. case_bool_decide; [by intros [= <-]|].
  set (rr0 := match pm with Some _ => _ | None => _ end).
  assert (Hfb : fallback rr0 = fb) by (subst rr0; by destruct pm). clearbody rr0.
  unfold loadRules. case_bool_decide; [by intros [= <-]|].
  destruct (walk_rules _ _ _ _ _ _) as [walked st]. destruct walked; cbn [negb]; [|done].
  destruct (errs st); [|done]. by intros [= <-].
Qed.

(** The fallback of a plan: its target, its credential header and its transport
    before [SetupProxy]. *)
Lemma plan_fallback_inv `{Unicode} env um up pd ca v6 cfg es plan p t :
  Run_plan env um up pd ca v6 cfg es = Ok plan → plan_fallback plan = Some (p, t) →
  ∃ u ttl, up (target_of env cfg (first_set [RulesDir cfg; env #"RULES_DIR"])) = Some u ∧
    cache_ttl env pd cfg = Ok ttl ∧
    setup cfg (Some (mkHTTPProxy u (env #"UPSTREAM_AUTH_TOKEN")
                       (first_set [env #"UPSTREAM_AUTH_HEADER"; DefaultAuthHeader cfg; #"Authorization"]),
                     if (0 <? ttl)%Z then Caching ttl else DefaultTransport)) = Some (p, t).
Proof.
  unfold Run_plan. intros H1 Hp. apply outcome_bind_ok in H1 as (fb & Hf & H1).
  apply outcome_bind_ok in H1 as (ttl & Httl & H1). apply outcome_bind_ok in H1 as ([hc fb'] & Hc & H1).
  apply outcome_bind_ok in H1 as (admin & _ & H1). apply outcome_bind_ok in H1 as (h & Hh & [= <-]).
  unfold plan_fallback in Hp. cbn [pl_handler] in Hp. apply make_handler_fallback in Hh. rewrite Hh in Hp. clear Hh.
  unfold make_fallback in Hf. case_bool_decide.
  { injection Hf as <-. unfold with_caching in Hc. unfold setup in Hp. exfalso.
    destruct (0 <? ttl)%Z; [destruct (negb _ && _); [discriminate|]|]; injection Hc as _ <-; by destruct (SetupProxy cfg). }
  destruct (up _) as [u|]; [|done]. destruct ca; [|done]. injection Hf as <-. exists u, ttl. split_and!; [done..|].
  rewrite <- Hp. f_equal. unfold with_caching in Hc. destruct (0 <? ttl)%Z; [|by injection Hc].
  destruct (negb _ && _); [discriminate|]. by injection Hc.
Qed.

(** A logging program: its logger and its configuration. *)
Inductive logging_program `{Unicode} (env : gostring → gostring) : logger → Config → Prop :=
  | program_gemini a b c d e : logging_program env (gemini a b c d e) gemini_config
  | program_anthropic a b c : logging_program env (anthropic a b c) anthropic_config
  | program_github : logging_program env github (github_config env).

Lemma program_logger `{Unicode} env l cfg : logging_program env l cfg → portal_logger l.
Proof.
  intros [a b c d e|a b c|]; [left; by exists a, b, c, d, e|right; left; by exists a, b, c|by right; right].
Qed.

(** Unless it is told otherwise, a program uses a credential header its logger redacts. *)
Lemma program_redacts `{Unicode} env l cfg :
  logging_program env l cfg →
  redacted l (CanonicalKey (first_set [ []; DefaultAuthHeader cfg; #"Authorization"])) = true.
Proof. intros []; vm_compute; reflexivity. Qed.

Lemma target_of_same env1 env2 cfg dir :
  env1 #"TARGET_URL" = env2 #"TARGET_URL" → target_of env1 cfg dir = target_of env2 cfg dir.
Proof. unfold target_of. by intros ->. Qed.

Lemma program_same `{Unicode} env1 env2 l cfg1 cfg2 :
  env1 #"TARGET_URL" = env2 #"TARGET_URL" →
  logging_program env1 l cfg1 → logging_program env2 l cfg2 → cfg1 = cfg2.
Proof.
  intros He H1 H2. destruct H1; inversion H2; try done. unfold github_config. by rewrite He.
Qed.

(** ** Properties *)

(** C13: The secret of a logging portal never reaches its log in the default set-up: take one of the three
    programs that log (Gemini, Anthropic, GitHub), started in two environments that differ only in the
    value of UPSTREAM_AUTH_TOKEN, set in both or in neither, and do not set UPSTREAM_AUTH_HEADER. For
    every request of a workload to which the upstream gives both the same reply, every log the one can
    print, with whatever order its ranges over the headers take, the other can print too: with the
    same order they print the same lines, and their transports are the same. *)
Theorem secret_never_logged `{Unicode} env1 env2 um up pd ca v6 es l cfg1 cfg2 plan1 plan2 p1 p2 t1 t2 :
  logging_program env1 l cfg1 → logging_program env2 l cfg2 →
  (∀ k, k ≠ #"UPSTREAM_AUTH_TOKEN" → env1 k = env2 k) →
  (env1 #"UPSTREAM_AUTH_TOKEN" = [] ↔ env2 #"UPSTREAM_AUTH_TOKEN" = []) → env1 #"UPSTREAM_AUTH_HEADER" = [] →
  Run_plan env1 um up pd ca v6 cfg1 es = Ok plan1 → Run_plan env2 um up pd ca v6 cfg2 es = Ok plan2 →
  plan_fallback plan1 = Some (p1, t1) → plan_fallback plan2 = Some (p2, t2) →
  t1 = t2 ∧ (∃ t, t1 = Logged t) ∧
  ∀ W (U : Request → W → reply * W) c r w1 w2,
    (U (outgoing p1 r) w1).1 = (U (outgoing p2 r) w2).1 →
    (RoundTrip l U c (outgoing p1 r) w1).1 = (RoundTrip l U c (outgoing p2 r) w2).1.
Proof.
  intros Hl1 Hl2 He Htok Hh Hr1 Hr2 Hf1 Hf2.
  assert (cfg1 = cfg2) as -> by (eapply program_same; [|done..]; by apply He).
  destruct (plan_fallback_inv _ _ _ _ _ _ _ _ _ _ _ Hr1 Hf1) as (u1 & ttl1 & Hu1 & Ht1 & Hs1).
  destruct (plan_fallback_inv _ _ _ _ _ _ _ _ _ _ _ Hr2 Hf2) as (u2 & ttl2 & Hu2 & Ht2 & Hs2).
  rewrite (target_of_same env1 env2) in Hu1 by (by apply He). rewrite (He #"RULES_DIR") in Hu1 by done.
  rewrite Hu1 in Hu2. injection Hu2 as <-.
  assert (ttl1 = ttl2) as <- by (unfold cache_ttl in *; rewrite (He #"CACHE_TTL") in Ht1 by done; congruence).
  rewrite <- (He #"UPSTREAM_AUTH_HEADER"), Hh in Hs2 by done. rewrite Hh in Hs1.
  pose proof (program_redacts _ _ _ Hl2) as Hred. pose proof (program_logger _ _ _ Hl2) as Hpl.
  clear Hl1 Hr1 Hr2 Hf1 Hf2 Hu1 Ht1 Ht2.
  assert (Hp : t1 = t2 ∧ (∃ t, t1 = Logged t) ∧ TargetURL p1 = TargetURL p2 ∧ AuthHeader p1 = AuthHeader p2 ∧
    (AuthToken p1 = [] ↔ AuthToken p2 = []) ∧ AuthHeader p1 = first_set [ []; DefaultAuthHeader cfg2; #"Authorization"]).
  { inversion Hl2; subst; cbn in Hs1, Hs2; injection Hs1 as <- <-; injection Hs2 as <- <-; split_and!; eauto. }
  destruct Hp as (-> & Ht & Htarget & Hauth & Htokens & Hdef). split_and!; [done..|]. intros W U c r w1 w2 HU.
  apply RoundTrip_same; [done| |done]. rewrite <- Hdef in Hred. apply outgoing_same; [done| |done..].
  intros Hc. rewrite Hc in Hred. destruct (redacted_plain l Hpl). congruence.
Qed.

(** The transports of the programs: the global cache is lost where [SetupProxy]
    replaces the proxy's transport, and kept in github-portal, which wraps it. *)
Theorem cache_of_programs `{Unicode} env um up pd ca v6 es l cfg plan p t :
  logging_program env l cfg → Run_plan env um up pd ca v6 cfg es = Ok plan → plan_fallback plan = Some (p, t) →
  ∃ ttl, cache_ttl env pd cfg = Ok ttl ∧
    t = Logged (if bool_decide (portal_name l = #"GitHub") && (0 <? ttl)%Z then Caching ttl else DefaultTransport).
Proof.
  intros Hl Hr Hf. destruct (plan_fallback_inv _ _ _ _ _ _ _ _ _ _ _ Hr Hf) as (u & ttl & _ & Ht & Hs).
  exists ttl. split; [done|]. clear Hr Hf Ht. inversion Hl; subst; cbn in Hs; injection Hs as _ <-; done.
Qed.

(** ** The Git proxy's durations *)

Lemma duration_option_positive env pd flag var err def d :
  (0 < def)%Z → duration_option env pd flag var err def = Ok d → (0 < d)%Z.
Proof.
  intros Hd (d0 & _ & [= <-])%outcome_bind_ok. destruct (d0 <=? 0)%Z eqn:E; bools; lia.
Qed.

(** Whatever the flags and the environment, what the Git proxy stores expires
    and its janitor runs: both durations are positive in the program. *)
Theorem git_durations_positive env pd disk_ok f addr cfg c :
  gitproxy_server env pd disk_ok f = Ok (addr, cfg, c) →
  (0 < GitServer.CacheTTL cfg)%Z ∧
  match c with UseDisk _ ttl interval => ttl = GitServer.CacheTTL cfg ∧ (0 < interval)%Z
             | UseMemory interval => (0 < interval)%Z end.
Proof.
  unfold gitproxy_server, git_options.
  intros ([[port config] c0] & (ttl & Ht & (interval & Hi & (c1 & Hc & [= <- <- <-])%outcome_bind_ok)%outcome_bind_ok)%outcome_bind_ok
    & [= <- <- <-])%outcome_bind_ok.
  apply duration_option_positive in Ht, Hi; [|done..]. cbn [GitServer.CacheTTL GitServer.NewServer].
  split; [done|]. unfold make_cache in Hc. case_bool_decide; [by injection Hc as <-|].
  destruct (disk_ok _); [|done]. by injection Hc as <-.
Qed.

(** ** The properties at concrete inputs *)

Definition gemini_vars (secret : gostring) : list (gostring * gostring) :=
  [(#"UPSTREAM_AUTH_TOKEN", secret); (#"CACHE_TTL", #"10s")].
Definition gemini_run (secret : gostring) : outcome run_err Plan :=
  @Run_plan ascii_unicode (demo_env (gemini_vars secret)) demo_unmarshal
    (λ _, Some (mkURL #"https" #"api.example.com" [] [])) (λ _, Some 10%Z) (λ _, true) [] gemini_config [].
Definition run_fallback (m : outcome run_err Plan) : option (HTTPProxy * transport) :=
  match m with Ok plan => plan_fallback plan | _ => None end.

Lemma gemini_vars_differ a b k :
  k ≠ #"UPSTREAM_AUTH_TOKEN" → demo_env (gemini_vars a) k = demo_env (gemini_vars b) k.
Proof.
  intros Hk. unfold demo_env, gemini_vars. cbn [filter list_filter fst].
  rewrite !(decide_False (P := #"UPSTREAM_AUTH_TOKEN" = k)) by congruence. done.
Qed.

Lemma secret_never_logged_witness :
  ∃ p1 p2, run_fallback (gemini_run #"secret-a") = Some (p1, Logged DefaultTransport) ∧
    run_fallback (gemini_run #"secret-b") = Some (p2, Logged DefaultTransport) ∧
    AuthToken p1 = #"secret-a" ∧ AuthToken p2 = #"secret-b" ∧
    (RoundTrip demo_gemini (demo_upstream false) demo_circumstances (outgoing p1 demo_json) 0).1
    = (RoundTrip demo_gemini (demo_upstream false) demo_circumstances (outgoing p2 demo_json) 0).1.
Proof.
  destruct (gemini_run #"secret-a") as [plan1| |] eqn:E1; [|exfalso; vm_compute in E1; discriminate E1..].
  destruct (gemini_run #"secret-b") as [plan2| |] eqn:E2; [|exfalso; vm_compute in E2; discriminate E2..].
  assert (F1 : plan_fallback plan1 = Some (demo_portal #"secret-a", Logged DefaultTransport))
    by (vm_compute in E1; injection E1 as <-; vm_compute; reflexivity).
  assert (F2 : plan_fallback plan2 = Some (demo_portal #"secret-b", Logged DefaultTransport))
    by (vm_compute in E2; injection E2 as <-; vm_compute; reflexivity).
  assert (Htok : demo_env (gemini_vars #"secret-a") #"UPSTREAM_AUTH_TOKEN" = []
    ↔ demo_env (gemini_vars #"secret-b") #"UPSTREAM_AUTH_TOKEN" = [])
    by (split; intros E; vm_compute in E; discriminate E).
  exists (demo_portal #"secret-a"), (demo_portal #"secret-b").
  destruct (@secret_never_logged ascii_unicode (demo_env (gemini_vars #"secret-a")) (demo_env (gemini_vars #"secret-b"))
    demo_unmarshal (λ _, Some (mkURL #"https" #"api.example.com" [] [])) (λ _, Some 10%Z) (λ _, true) [] [] demo_gemini
    gemini_config gemini_config plan1 plan2 _ _ _ _
    (@program_gemini ascii_unicode _ _ _ _ _ _) (@program_gemini ascii_unicode _ _ _ _ _ _)
    (gemini_vars_differ _ _) Htok
    eq_refl E1 E2 F1 F2) as (_ & _ & HR).
  split; [exact F1|]. split; [exact F2|]. split; [reflexivity|]. split; [reflexivity|].
  apply (HR nat (demo_upstream false) demo_circumstances demo_json 0 0). reflexivity.
Defined.

Lemma cache_of_programs_witness : ∃ ttl, (0 < ttl)%Z ∧
  cache_ttl (demo_env (gemini_vars #"k")) (λ _, Some 10%Z) gemini_config = Ok ttl ∧
  snd <$> run_fallback (gemini_run #"k") = Some (Logged DefaultTransport).
Proof.
  destruct (gemini_run #"k") as [plan| |] eqn:E; [|exfalso; vm_compute in E; discriminate E..].
  assert (F : plan_fallback plan = Some (demo_portal #"k", Logged DefaultTransport))
    by (vm_compute in E; injection E as <-; vm_compute; reflexivity).
  destruct (@cache_of_programs ascii_unicode _ _ _ _ _ _ _ _ _ _ _ _
    (@program_gemini ascii_unicode _ (λ b, Some ([b], [])) (λ b, inr (#"user", b)) (λ _, inl []) (λ _, None) (λ _, inl []))
    E F) as (ttl & Ht & _).
  exists ttl. split; [injection Ht as <-; lia|]. split; [exact Ht|]. cbn [run_fallback]. rewrite F. reflexivity.
Defined.
