(* ===== verification/Networking.v ===== *)
(** * Network discovery (pkg/networking/ip.go)

    The addresses of a pod and the host side of its network interface, from
    what the pod sandbox says and from the output of the ip command, run in
    the pod's network namespace. The commands and the kernel's interface
    tables are parameters on a world [W]. *)

From S2P Require Import Prelude GoStrings GoNet.

Definition newline : gostring := ["010"%char].

(** ** Parsers of the output of ip *)

Definition is_lo (nameField : gostring) : bool :=
  bool_decide (nameField = #"lo") || HasPrefix nameField #"lo@".

(** What a line of "ip -o link show" says about the peer. *)
Definition line_peer (line : gostring) : option Z :=
  match Fields (TrimSpace line) with
  | _ :: name :: _ =>
      let nameField := TrimSuffix name #":" in
      if is_lo nameField then None else
      idx ← Index nameField #"@if";
      pIdx ← Atoi (drop (idx + 3) nameField);
      if (0 <? pIdx)%Z then Some pIdx else None
  | _ => None
  end.
Definition ParsePeerIndex (output : gostring) : option Z :=
  head (omap line_peer (Split output newline)).

(** The fields that follow a field [w]. *)
Fixpoint fields_after (w : gostring) (fields : list gostring) : list gostring :=
  match fields with
  | f :: (g :: _) as rest => if bool_decide (f = w) then g :: fields_after w rest else fields_after w rest
  | _ => []
  end.

Definition usable4 (ip : IP) : bool := negb (IsLoopback ip).
Definition usable6 (ip : IP) : bool := negb (IsLoopback ip) && negb (IsLinkLocalUnicast ip).

Definition cidr_address (usable : IP → bool) (cidr : gostring) : option gostring :=
  '(ip, _) ← ParseCIDR cidr; if usable ip then Some (IP_String ip) else None.

Definition line_ipv4 (line : gostring) : option gostring :=
  let fields := Fields line in
  if match fields with _ :: name :: _ => is_lo (TrimSuffix name #":") | _ => false end then None
  else head (omap (cidr_address usable4) (fields_after #"inet" fields)).
Definition ParsePodIPv4 (output : gostring) : gostring :=
  default [] (head (omap line_ipv4 (Split output newline))).

Definition line_ipv6 (line : gostring) : option gostring :=
  head (omap (cidr_address usable6) (fields_after #"inet6" (Fields line))).
Definition ParsePodIPv6 (output : gostring) : gostring :=
  default [] (head (omap line_ipv6 (Split output newline))).

(** A line of the host's links that names the namespace. *)
Definition line_host_interface (netnsBasename line : gostring) : option gostring :=
  if negb (Contains line (#"link-netns " ++ netnsBasename)) then None else
  match Fields line with
  | _ :: name :: _ =>
      let rawName := TrimSuffix name #":" in
      let rawName := match Index rawName #"@" with Some at_ => take at_ rawName | None => rawName end in
      if bool_decide (rawName = []) || bool_decide (rawName = #"lo") then None else Some rawName
  | _ => None
  end.
Definition ParseHostInterfaceFromHostLinks (output netnsBasename : gostring) : gostring :=
  default [] (head (omap (line_host_interface netnsBasename) (Split output newline))).

(** ** Discovery *)

Inductive cmd_result :=
  | CmdOk (out : bytes)
  | CmdNotFound                 (** the binary is not installed *)
  | CmdFailed (out : bytes).

Inductive net_err :=
  | LinkShowFailed
  | AddrShowFailed (v6 : bool)
  | NoHostInterface (netnsPath : gostring).

(** The addresses the sandbox gives: the first usable one of each family. *)
Fixpoint given_ips (podIPs : list gostring) (v4 v6 : gostring) : gostring * gostring :=
  match podIPs with
  | [] => (v4, v6)
  | s :: podIPs =>
      match ParseIP s with
      | None => given_ips podIPs v4 v6
      | Some ip =>
          if negb (usable6 ip) then given_ips podIPs v4 v6
          else if bool_decide (is_Some (To4 ip)) && bool_decide (v4 = []) then given_ips podIPs s v6
          else if bool_decide (To4 ip = None) && bool_decide (v6 = []) then given_ips podIPs v4 s
          else given_ips podIPs v4 v6
      end
  end.

Section Discover.
Context {W : Type}.

(** [exec.Command(bin, args...).CombinedOutput()]; the host's interfaces; the
    addresses of its interfaces, [None] where the entry is not an IP network. *)
Context (exec : gostring → list gostring → W → cmd_result * W)
        (InterfaceByIndex : Z → W → option gostring)
        (InterfaceAddrs : W → option (list (option IP))).

Definition ip_command (bin : gostring) (args : list gostring) (e : net_err) : io W net_err bytes := λ w,
  match exec bin args w with
  | (CmdOk out, w) => (Ok out, w)
  | (_, w) => (Err e, w)
  end.

Definition nsenter (netnsPath : gostring) (args : list gostring) (e : net_err) : io W net_err bytes :=
  ip_command #"nsenter" ((#"--net=" ++ netnsPath) :: args) e.

Definition DiscoverPodIPs (podIPs : list gostring) (netnsPath : gostring)
    : io W net_err (gostring * gostring) :=
  let '(podIPv4, podIPv6) := given_ips podIPs [] [] in
  if bool_decide (netnsPath = []) then mret (podIPv4, podIPv6) else
  podIPv4 ← (if bool_decide (podIPv4 = [])
             then out ← nsenter netnsPath [ #"ip"; #"-o"; #"-4"; #"addr"; #"show"] (AddrShowFailed false);
                  mret (ParsePodIPv4 out)
             else mret podIPv4);
  podIPv6 ← (if bool_decide (podIPv6 = [])
             then out ← nsenter netnsPath [ #"ip"; #"-o"; #"-6"; #"addr"; #"show"] (AddrShowFailed true);
                  mret (ParsePodIPv6 out)
             else mret podIPv6);
  mret (podIPv4, podIPv6).

Definition global_v6 (ip : IP) : bool :=
  bool_decide (To4 ip = None) && bool_decide (is_Some (To16 ip)) && usable6 ip.

Definition DiscoverNodeIPv6 : W → gostring * W := λ w,
  let '(r, w) := exec #"ip" [ #"-o"; #"-6"; #"addr"; #"show"; #"scope"; #"global"] w in
  let found := match r with CmdOk out => ParsePodIPv6 out | _ => [] end in
  if negb (bool_decide (found = [])) then (found, w) else
  match InterfaceAddrs w with
  | None => ([], w)
  | Some addrs => (from_option IP_String [] (head (filter (λ ip, global_v6 ip = true) (omap id addrs))), w)
  end.

Definition by_peer_index (out : bytes) (w : W) : gostring :=
  match ParsePeerIndex out with
  | Some peerIndex => default [] (InterfaceByIndex peerIndex w)
  | None => []
  end.

Definition FindHostInterface (podIPs : list gostring) (netnsPath : gostring)
    : io W net_err (gostring * gostring) :=
  out ← nsenter netnsPath [ #"ip"; #"-o"; #"link"; #"show"] LinkShowFailed;
  hostIface ← gets (by_peer_index out);
  hostIface ← (if bool_decide (hostIface = [])
               then r ← attempt (ip_command #"ip" [ #"-o"; #"link"; #"show"] LinkShowFailed);
                    match r with
                    | Ok hOut => mret (ParseHostInterfaceFromHostLinks hOut (Base netnsPath))
                    | _ => mret []
                    end
               else mret hostIface);
  if bool_decide (hostIface = []) then throw (NoHostInterface netnsPath) else
  '(podIPv4, _) ← DiscoverPodIPs podIPs netnsPath;
  mret (hostIface, podIPv4).
End Discover.

(** ** Lemmas *)

Lemma dec_number_app acc s t : dec_number acc (s ++ t) = dec_number acc s ≫= λ v, dec_number v t.
Proof.
  revert acc. induction s as [|c s IH]; intros acc; cbn [app dec_number]; [done|].
  destruct (_ && _); [apply IH|done].
Qed.

Lemma dec_digit_range n : (48 ≤ b2z (z2b (48 + n `mod` 10)) ≤ 57)%Z ∧
  (b2z (z2b (48 + n `mod` 10)) - 48 = n `mod` 10)%Z.
Proof. pose proof (Z.mod_pos_bound n 10). rewrite b2z_z2b_small by lia. lia. Qed.

Lemma dec_rev_value fuel n : (0 ≤ n < 10 ^ Z.of_nat fuel)%Z → dec_number 0 (rev (dec_rev fuel n)) = Some n.
Proof.
  revert n. induction fuel as [|fuel IH]; intros n Hn; [cbn in *; f_equal; lia|].
  cbn [dec_rev rev]. rewrite dec_number_app. destruct (dec_digit_range n) as [Hr He].
  assert (dec_number 0 (rev (if (n <? 10)%Z then [] else dec_rev fuel (n `div` 10))) = Some (n `div` 10)%Z) as ->.
  { destruct (n <? 10)%Z eqn:E; bools.
    - cbn. f_equal. symmetry. apply Z.div_small. lia.
    - apply IH. rewrite Nat2Z.inj_succ, Z.pow_succ_r in Hn by lia.
      Z.to_euclidean_division_equations; lia. }
  cbn [mbind option_bind dec_number].
  rewrite (proj2 (Z.leb_le 48 _)), (proj2 (Z.leb_le _ 57)) by lia. cbn [andb]. rewrite He. f_equal.
  pose proof (Z.div_mod n 10). lia.
Qed.

Lemma dec_rev_graphic fuel n : forallb graphic (dec_rev fuel n) = true.
Proof.
  revert n. induction fuel as [|fuel IH]; intros n; [done|]. cbn [dec_rev forallb].
  destruct (dec_digit_range n) as [Hr _]. unfold graphic at 1.
  rewrite (proj2 (Z.leb_le 33 _)), (proj2 (Z.leb_le _ 126)) by lia. destruct (n <? 10)%Z; [done|apply IH].
Qed.

Lemma forallb_rev {A} (f : A → bool) l : forallb f (rev l) = forallb f l.
Proof.
  induction l as [|x l IH]; [done|]. cbn [rev forallb]. rewrite forallb_app, IH. cbn. rewrite andb_true_r.
  apply andb_comm.
Qed.

Lemma fmt_d_graphic n : forallb graphic (fmt_d n) = true.
Proof. unfold fmt_d. rewrite forallb_rev. apply dec_rev_graphic. Qed.

(** The first digit. *)
Lemma fmt_d_cons n : ∃ c s, fmt_d n = c :: s ∧ (48 ≤ b2z c ≤ 57)%Z.
Proof.
  unfold fmt_d. destruct (rev (dec_rev 20 n)) as [|c s] eqn:E.
  { apply (f_equal length) in E. rewrite length_rev in E. discriminate E. }
  exists c, s. split; [done|].
  assert (Hin : c ∈ rev (dec_rev 20 n)) by (rewrite E; by left).
  rewrite list_elem_of_In, <- in_rev, <- list_elem_of_In in Hin. clear E. generalize dependent n.
  generalize 20 as fuel. induction fuel as [|fuel IH]; intros n; [by intros ?%elem_of_nil|]. cbn [dec_rev].
  intros [->|Hin]%elem_of_cons; [apply dec_digit_range|].
  destruct (n <? 10)%Z; [by apply elem_of_nil in Hin|by apply (IH (n `div` 10)%Z)].
Qed.

Lemma Atoi_fmt_d n : (0 ≤ n < 2 ^ 63)%Z → Atoi (fmt_d n) = Some n.
Proof.
  intros Hn. assert (Hb : (n < 10 ^ Z.of_nat 20)%Z) by (apply Z.lt_trans with (2 ^ 63)%Z; [lia|reflexivity]).
  pose proof (dec_rev_value 20 n ltac:(lia)) as Hv. fold (fmt_d n) in Hv.
  destruct (fmt_d_cons n) as (c & s & E & Hc). rewrite E in Hv |- *. unfold Atoi.
  rewrite (bool_decide_eq_false_2 (c = "+"%char)) by (intros ->; by destruct Hc as [Hc _]; apply Hc).
  rewrite (bool_decide_eq_false_2 (c = "-"%char)) by (intros ->; by destruct Hc as [Hc _]; apply Hc).
  rewrite bool_decide_eq_false_2 by done. rewrite Hv. cbn. by rewrite (proj2 (Z.ltb_lt _ _)) by lia.
Qed.

Lemma Index_first_byte c p s t : c ∉ s → Index (s ++ (c :: p) ++ t) (c :: p) = Some (length s).
Proof.
  induction s as [|d s IH]; intros Hc.
  - cbn [app]. rewrite Index_cons. by rewrite (HasPrefix_app (c :: p) t : HasPrefix (c :: p ++ t) (c :: p) = true).
  - apply not_elem_of_cons in Hc as [Hd Hc]. change ((d :: s) ++ (c :: p) ++ t) with (d :: s ++ (c :: p) ++ t).
    rewrite Index_cons, IH by done. cbn [HasPrefix]. by rewrite bool_decide_eq_false_2.
Qed.

Lemma omap_fmap_ext {A B C} (f : B → option C) (g : A → B) (h : A → option C) (l : list A) :
  (∀ x, x ∈ l → f (g x) = h x) → omap f (g <$> l) = omap h l.
Proof.
  induction l as [|x l IH]; intros He; [done|]. cbn [fmap list_fmap omap list_omap].
  rewrite He by (by left). rewrite IH; [done|]. intros y Hy. apply He. by right.
Qed.

(** ** Specifications *)

(** What "ip link show" prints after the name of an interface: nothing, the
    index of a peer in another namespace (eth0@if12), or the name of its lower
    device or NONE (eth0.5@eth0, tunl0@NONE). *)
Inductive link_parent := NoParent | InNetns (k : Z) | Named (name : gostring).

(** A line of "ip -o link show". *)
Record link := mkLink { l_index : Z; l_name : gostring; l_parent : link_parent; l_rest : gostring; }.
Definition l_peer (l : link) : option Z := match l_parent l with InNetns k => Some k | _ => None end.
Definition parent_field (p : link_parent) : gostring :=
  match p with NoParent => [] | InNetns k => #"@if" ++ fmt_d k | Named n => #"@" ++ n end.
Definition name_field (l : link) : gostring := l_name l ++ parent_field (l_parent l).
Definition link_line (l : link) : gostring :=
  fmt_d (l_index l) ++ #": " ++ name_field l ++ #": " ++ l_rest l.

(** The output: a line for each link, every line with its end. *)
Definition printed_links (links : list link) : gostring :=
  concat ((λ x, x ++ newline) <$> (link_line <$> links)).

(** A printed link: its name has no white space and no at sign, the index of a
    peer is positive, a named parent cannot be taken for one (it is not "if"
    and a positive number), and the rest is one line with something to see, of
    which spaces may follow. *)
Definition link_ok (l : link) : Prop :=
  l_name l ≠ [] ∧ forallb graphic (l_name l) = true ∧ "@"%char ∉ l_name l ∧
  match l_parent l with
  | NoParent => True
  | InNetns k => (0 < k < 2 ^ 63)%Z
  | Named n => forallb graphic n = true ∧ "@"%char ∉ n ∧
      ∀ d k, n = #"if" ++ d → Atoi d = Some k → (k ≤ 0)%Z
  end ∧
  (∃ r z sp, l_rest l = r ++ z :: replicate sp " "%char ∧ graphic z = true) ∧ "010"%char ∉ l_rest l.

Lemma graphic_not (s : gostring) c : forallb graphic s = true → graphic c = false → c ∉ s.
Proof.
  intros Hs Hc Hin. rewrite forallb_forall in Hs. apply list_elem_of_In, Hs in Hin. congruence.
Qed.

Lemma name_field_graphic l : link_ok l → forallb graphic (name_field l) = true.
Proof.
  intros (_ & Hg & _ & Hp & _). unfold name_field, parent_field. rewrite forallb_app, Hg.
  destruct (l_parent l) as [|k|n]; [done|by rewrite forallb_app, fmt_d_graphic|].
  rewrite forallb_app. by destruct Hp as [-> _].
Qed.

Lemma link_line_no_newline l : link_ok l → "010"%char ∉ link_line l.
Proof.
  intros Hok. pose proof (name_field_graphic l Hok) as Hg. destruct Hok as (_ & _ & _ & _ & _ & Hr).
  unfold link_line. rewrite !not_elem_of_app.
  split_and!; [by apply graphic_not; [apply fmt_d_graphic|]| | | |done].
  - apply (bool_decide_unpack _). exact I.
  - by apply graphic_not.
  - apply (bool_decide_unpack _). exact I.
Qed.

Lemma is_lo_name_field l : "@"%char ∉ l_name l → is_lo (name_field l) = bool_decide (l_name l = #"lo").
Proof.
  intros Ha. unfold is_lo, name_field.
  assert (Hnp : ∀ t, HasPrefix (l_name l ++ #"@" ++ t) #"lo@" = bool_decide (l_name l = #"lo")).
  { intros t. destruct (l_name l) as [|c1 [|c2 [|c3 m]]]; cbn [app gostr String.list_ascii_of_string HasPrefix].
    - by rewrite (bool_decide_eq_false_2 ("l"%char = "@"%char)).
    - destruct (bool_decide ("l"%char = c1)); [|symmetry; by apply bool_decide_eq_false_2].
      cbn [andb]. rewrite (bool_decide_eq_false_2 ("o"%char = "@"%char)) by done.
      symmetry. by apply bool_decide_eq_false_2.
    - rewrite (bool_decide_eq_true_2 ("@"%char = "@"%char)), HasPrefix_nil by done.
      destruct (decide (c1 = "l"%char)) as [->|]; [|rewrite (bool_decide_eq_false_2 (_ = c1)) by congruence;
        symmetry; apply bool_decide_eq_false_2; by intros [= ]].
      destruct (decide (c2 = "o"%char)) as [->|]; [done|].
      rewrite (bool_decide_eq_false_2 (_ = c2)) by congruence.
      symmetry. apply bool_decide_eq_false_2. by intros [= ].
    - rewrite (bool_decide_eq_false_2 ("@"%char = c3)) by (intros <-; apply Ha; do 2 right; by left).
      rewrite !andb_false_r. symmetry. by apply bool_decide_eq_false_2. }
  assert (Hat : ∀ t, bool_decide (l_name l ++ #"@" ++ t = #"lo") = false).
  { intros t. apply bool_decide_eq_false_2. intros E.
    assert (Hin : "@"%char ∈ #"lo") by (rewrite <- E; apply elem_of_app; right; by left).
    revert Hin. apply (bool_decide_unpack ("@"%char ∉ #"lo")). exact I. }
  destruct (l_parent l) as [|k|n]; cbn [parent_field].
  - rewrite app_nil_r. assert (HasPrefix (l_name l) #"lo@" = false) as ->; [|by rewrite orb_false_r].
    apply not_true_iff_false. intros [t Ht]%HasPrefix_spec. apply Ha. rewrite Ht. do 2 right. by left.
  - change (#"@if" ++ fmt_d k) with (#"@" ++ #"if" ++ fmt_d k). by rewrite (Hnp (#"if" ++ fmt_d k)), Hat.
  - by rewrite Hnp, Hat.
Qed.

Lemma TrimSpace_link_line l : link_ok l →
  ∃ t, TrimSpace (link_line l) = fmt_d (l_index l) ++ #": " ++ name_field l ++ #": " ++ t.
Proof.
  intros (_ & _ & _ & _ & (r & z & sp & Hr & Hz) & _). exists (r ++ [z]). unfold link_line. rewrite Hr.
  pose proof (fmt_d_graphic (l_index l)) as Hd.
  destruct (fmt_d_cons (l_index l)) as (c & s & E & _). rewrite E in Hd |- *.
  cbn [forallb] in Hd. apply andb_prop in Hd as [Hc _].
  rewrite !app_assoc. cbn [app]. by apply TrimSpace_graphic_spaces.
Qed.

(** What follows the name, where it is the index of a peer. *)
Lemma peer_of_name l : link_ok l →
  (idx ← Index (name_field l) #"@if"; pIdx ← Atoi (drop (idx + 3) (name_field l));
   if (0 <? pIdx)%Z then Some pIdx else None) = l_peer l.
Proof.
  intros (_ & _ & Ha & Hp & _). unfold name_field, l_peer.
  destruct (l_parent l) as [|k|n]; cbn [parent_field].
  - rewrite app_nil_r. assert (Index (l_name l) #"@if" = None) as ->; [|done].
    apply Index_None. intros u t E. apply Ha. rewrite E. apply elem_of_app. right. by left.
  - change (#"@if") with ("@"%char :: #"if"). rewrite Index_first_byte by done. cbn [mbind option_bind].
    rewrite app_assoc, drop_app_length' by (rewrite length_app; cbn; lia).
    rewrite Atoi_fmt_d by lia. cbn. by rewrite (proj2 (Z.ltb_lt _ _)) by lia.
  - destruct Hp as (_ & Hn & Hd). destruct (Index _ _) as [i|] eqn:E; [|done]. cbn [mbind option_bind].
    assert (∃ d, n = #"if" ++ d) as [d ->].
    { apply Index_Some in E as (t & E & _). revert E. generalize (take i (l_name l ++ #"@" ++ n)) as u.
      intros u E. cbn in E. apply app_eq_app in E as [w [[E1 E2]|[E1 E2]]].
      - destruct w as [|c w]; cbn in E2; [injection E2 as E2; by exists t|]. injection E2 as <- E2.
        destruct Ha. rewrite E1. apply elem_of_app. right. by left.
      - destruct w as [|c w]; cbn in E2; [injection E2 as E2; by exists t|]. injection E2 as <- E2.
        destruct Hn. rewrite E2. apply elem_of_app. right. by left. }
    change (#"@" ++ #"if" ++ d) with (("@"%char :: #"if") ++ d) in E |- *.
    rewrite (Index_first_byte "@"%char #"if" (l_name l) d Ha : Index (l_name l ++ ("@"%char :: #"if") ++ d) #"@if" = _) in E.
    injection E as <-. rewrite app_assoc, drop_app_length' by (rewrite length_app; cbn; lia).
    destruct (Atoi d) as [k|] eqn:Ek; [|done]. cbn. specialize (Hd d k eq_refl Ek).
    by rewrite (proj2 (Z.ltb_ge _ _)).
Qed.

Lemma line_peer_link l : link_ok l →
  line_peer (link_line l) = if bool_decide (l_name l = #"lo") then None else l_peer l.
Proof.
  intros Hok. unfold line_peer. destruct (TrimSpace_link_line l Hok) as [t ->].
  pose proof (name_field_graphic l Hok) as Hg. pose proof (peer_of_name l Hok) as Hpeer.
  destruct Hok as (Hne & _ & Ha & _).
  change (#": ") with (#":" ++ [" "%char]). rewrite <- !app_assoc. rewrite (app_assoc (fmt_d _)).
  cbn [app]. rewrite Fields_word_space; [|by destruct (fmt_d _)|by rewrite forallb_app, fmt_d_graphic].
  rewrite (app_assoc (name_field l)), Fields_word_space; [|by destruct (name_field l)|by rewrite forallb_app, Hg].
  cbn iota beta. rewrite TrimSuffix_app, is_lo_name_field by done. by case_bool_decide.
Qed.

Lemma parse_peer_links links : Forall link_ok links →
  ParsePeerIndex (printed_links links)
  = head (omap (λ l, if bool_decide (l_name l = #"lo") then None else l_peer l) links).
Proof.
  intros Hok. unfold ParsePeerIndex, printed_links, newline. rewrite Split_lines.
  - rewrite omap_app. cbn [omap list_omap]. rewrite app_nil_r. f_equal.
    apply omap_fmap_ext. intros x Hx. apply line_peer_link. by eapply Forall_forall.
  - apply Forall_fmap. eapply Forall_impl; [done|]. apply link_line_no_newline.
Qed.

(** An address read from the output of ip: printed from an address that is usable. *)
Definition printed (usable : IP → bool) (s : gostring) : Prop :=
  ∃ cidr ip n, ParseCIDR cidr = Some (ip, n) ∧ usable ip = true ∧ s = IP_String ip.

Lemma head_omap_elem {A B} (f : A → option B) (l : list A) b : head (omap f l) = Some b → ∃ a, a ∈ l ∧ f a = Some b.
Proof.
  intros Hh. assert (Hin : b ∈ omap f l) by (destruct (omap f l); [done|injection Hh as ->; by left]).
  by apply list_elem_of_omap in Hin.
Qed.

Lemma cidr_address_printed usable cidr s : cidr_address usable cidr = Some s → printed usable s.
Proof.
  unfold cidr_address. destruct (ParseCIDR cidr) as [[ip n]|] eqn:E; cbn; [|done].
  destruct (usable ip) eqn:Eu; [|done]. intros [= <-]. by exists cidr, ip, n.
Qed.

Lemma ParsePodIPv4_printed out : ParsePodIPv4 out = [] ∨ printed usable4 (ParsePodIPv4 out).
Proof.
  unfold ParsePodIPv4. destruct (head _) as [s|] eqn:E; [right|by left].
  apply head_omap_elem in E as (line & _ & E). unfold line_ipv4 in E.
  lazymatch type of E with (if ?b then _ else _) = _ => destruct b; [done|] end.
  apply head_omap_elem in E as (cidr & _ & E). by apply cidr_address_printed in E.
Qed.

Lemma ParsePodIPv6_printed out : ParsePodIPv6 out = [] ∨ printed usable6 (ParsePodIPv6 out).
Proof.
  unfold ParsePodIPv6. destruct (head _) as [s|] eqn:E; [right|by left].
  apply head_omap_elem in E as (line & _ & E). unfold line_ipv6 in E.
  apply head_omap_elem in E as (cidr & _ & E). by apply cidr_address_printed in E.
Qed.

(** An address the sandbox gives that can be used, of IPv4 or not. *)
Definition given (v4 : bool) (s : gostring) : bool :=
  match ParseIP s with
  | Some ip => usable6 ip && bool_decide (bool_decide (is_Some (To4 ip)) = v4)
  | None => false
  end.

Lemma given_nonempty v4 s : given v4 s = true → s ≠ [].
Proof. by intros Hg ->. Qed.

Lemma given_exclusive s : given true s = true → given false s = true → False.
Proof.
  unfold given. destruct (ParseIP s) as [ip|]; [|done]. destruct (usable6 ip); [|done].
  by destruct (bool_decide (is_Some (To4 ip))).
Qed.

Lemma given_ips_cons s podIPs v4 v6 :
  given_ips (s :: podIPs) v4 v6
  = if given true s && bool_decide (v4 = []) then given_ips podIPs s v6
    else if given false s && bool_decide (v6 = []) then given_ips podIPs v4 s
    else given_ips podIPs v4 v6.
Proof.
  cbn [given_ips]. unfold given. destruct (ParseIP s) as [ip|]; [|done].
  destruct (usable6 ip); [|done]. destruct (To4 ip) as [ip4|]; cbn [negb andb].
  - rewrite bool_decide_eq_true_2 by (by eexists). by rewrite (bool_decide_eq_false_2 (Some ip4 = None)).
  - rewrite bool_decide_eq_false_2 by (by intros []). by rewrite (bool_decide_eq_true_2 (None = None)).
Qed.

Lemma given_ips_spec podIPs v4 v6 :
  given_ips podIPs v4 v6
  = (if bool_decide (v4 = []) then default [] (head (filter (λ s, given true s = true) podIPs)) else v4,
     if bool_decide (v6 = []) then default [] (head (filter (λ s, given false s = true) podIPs)) else v6).
Proof.
  revert v4 v6. induction podIPs as [|s podIPs IH]; intros v4 v6.
  { cbn. f_equal; case_bool_decide; by subst. }
  rewrite given_ips_cons, !filter_cons, !IH. pose proof (given_exclusive s) as Hex.
  pose proof (given_nonempty true s) as H4. pose proof (given_nonempty false s) as H6.
  destruct (given true s), (given false s); cbn [andb]; [by destruct Hex| | |].
  - rewrite decide_True, decide_False by done. rewrite (bool_decide_eq_false_2 (s = [])) by auto.
    by case_bool_decide.
  - rewrite decide_False, decide_True by done. rewrite (bool_decide_eq_false_2 (s = [])) by auto.
    by case_bool_decide.
  - by rewrite !decide_False by done.
Qed.

(** ** Properties *)

Section Properties.
Context {W : Type} (exec : gostring → list gostring → W → cmd_result * W)
        (InterfaceByIndex : Z → W → option gostring).

(** The addresses registered for a pod cannot be the node's own: of each family discovery returns the
    first address of the sandbox that is neither loopback nor link-local, whatever the namespace
    shows; when the sandbox gives none, an address the namespace's interfaces show that is not
    loopback (for IPv6 not link-local either) or none; and without a namespace only the sandbox's. *)
Theorem discovered_addresses podIPs netnsPath w v4 v6 w' :
  DiscoverPodIPs exec podIPs netnsPath w = (Ok (v4, v6), w') →
  match head (filter (λ s, given true s = true) podIPs) with
  | Some s => v4 = s
  | None => v4 = [] ∨ netnsPath ≠ [] ∧ printed usable4 v4
  end ∧
  match head (filter (λ s, given false s = true) podIPs) with
  | Some s => v6 = s
  | None => v6 = [] ∨ netnsPath ≠ [] ∧ printed usable6 v6
  end.
Proof.
  assert (Hne : ∀ b s, head (filter (λ s, given b s = true) podIPs) = Some s → s ≠ []).
  { intros b s E. apply (given_nonempty b). assert (Hin : s ∈ filter (λ s, given b s = true) podIPs)
      by (destruct (filter _ podIPs); [done|injection E as ->; by left]).
    by apply list_elem_of_filter in Hin as [? _]. }
  pose proof (Hne true) as H4. pose proof (Hne false) as H6. clear Hne.
  unfold DiscoverPodIPs. rewrite given_ips_spec, !(bool_decide_eq_true_2 ([] = [])) by done.
  destruct (head (filter (λ s, given true s = true) podIPs)) as [s4|] eqn:E4;
    destruct (head (filter (λ s, given false s = true) podIPs)) as [s6|] eqn:E6; cbn [default];
    (case_bool_decide; [intros [= <- <- <-]; by auto|]);
    rewrite ?(bool_decide_eq_false_2 (s4 = [])), ?(bool_decide_eq_false_2 (s6 = [])) by auto.
  - intros [= <- <- <-]. done.
  - intros (? & ? & [= <- <-] & (? & ? & (out & ? & _ & [= <- <-])%io_bind_ok & [= <- <- <-])%io_bind_ok)%io_bind_ok.
    split; [done|]. destruct (ParsePodIPv6_printed out); auto.
  - intros (? & ? & (out & ? & _ & [= <- <-])%io_bind_ok & (? & ? & [= <- <-] & [= <- <- <-])%io_bind_ok)%io_bind_ok.
    split; [|done]. destruct (ParsePodIPv4_printed out); auto.
  - intros (? & ? & (out & ? & _ & [= <- <-])%io_bind_ok & (? & ? & (out6 & ? & _ & [= <- <-])%io_bind_ok
      & [= <- <- <-])%io_bind_ok)%io_bind_ok.
    split; [destruct (ParsePodIPv4_printed out)|destruct (ParsePodIPv6_printed out6)]; auto.
Qed.

(** C30: The rules go on the right interface: when ip prints the namespace's links, one line for each with
    its end, whatever their number and flags, with names without white space and at signs, alone or
    followed by a peer's index (eth0@if12) or the name of a lower device (tunl0@NONE) that does not
    read as such an index, the interface found is the host's interface with the index of the peer of
    the first link that is not loopback and has one; reading back the printed index is exact. *)
Theorem host_interface_of_peer podIPs netnsPath links k iface w w1 :
  exec #"nsenter" [ #"--net=" ++ netnsPath; #"ip"; #"-o"; #"link"; #"show"] w
    = (CmdOk (printed_links links), w1) →
  Forall link_ok links →
  head (omap (λ l, if bool_decide (l_name l = #"lo") then None else l_peer l) links) = Some k →
  InterfaceByIndex k w1 = Some iface → iface ≠ [] →
  FindHostInterface exec InterfaceByIndex podIPs netnsPath w
  = match DiscoverPodIPs exec podIPs netnsPath w1 with
    | (Ok (v4, _), w2) => (Ok (iface, v4), w2)
    | (Err e, w2) => (Err e, w2)
    | (Panic p, w2) => (Panic p, w2)
    end.
Proof.
  intros He Hok Hk Hi Hne. unfold FindHostInterface.
  assert (Hrun : nsenter exec netnsPath [ #"ip"; #"-o"; #"link"; #"show"] LinkShowFailed w
    = (Ok (printed_links links), w1)) by (unfold nsenter, ip_command; by rewrite He).
  rewrite (io_bind_run _ _ _ _ _ Hrun).
  assert (Hpeer : by_peer_index InterfaceByIndex (printed_links links) w1 = iface).
  { unfold by_peer_index. rewrite parse_peer_links, Hk by done. cbn iota. by rewrite Hi. }
  rewrite (io_bind_run _ _ w1 iface w1) by (unfold gets; by rewrite Hpeer).
  rewrite bool_decide_eq_false_2 by done. rewrite (io_bind_run _ _ w1 iface w1) by done.
  rewrite bool_decide_eq_false_2 by done.
  unfold mbind at 1, io_bind. by destruct (DiscoverPodIPs _ _ _ w1) as [[[v4 v6]| |] w2].
Qed.
End Properties.

(** The fallback looks for the namespace's name as a substring of the line: a
    link of a namespace whose name only starts with it is taken for the pod's. *)
Theorem host_links_match_prefix base suffix :
  "010"%char ∉ base ++ suffix →
  let line := #"7: veth7@if2: <UP> link-netns " ++ base ++ suffix in
  ParseHostInterfaceFromHostLinks line base = ParseHostInterfaceFromHostLinks line (base ++ suffix).
Proof.
  intros Hn line. subst line.
  unfold ParseHostInterfaceFromHostLinks, newline. rewrite Split_byte_none.
  2:{ apply not_elem_of_app. split; [apply (bool_decide_unpack _); exact I|done]. }
  cbn [omap list_omap]. unfold line_host_interface.
  assert (Hc : ∀ b t, b ++ t = base ++ suffix →
    Contains (#"7: veth7@if2: <UP> link-netns " ++ base ++ suffix) (#"link-netns " ++ b) = true).
  { intros b t E. apply Contains_spec. exists #"7: veth7@if2: <UP> ", t. rewrite <- E. by rewrite <- app_assoc. }
  rewrite (Hc base suffix), (Hc (base ++ suffix) []) by (by rewrite ?app_nil_r). done.
Qed.

(** ** The properties at concrete inputs *)

(** A host where the namespace shows one interface, peer of interface 12. *)
Definition demo_links : list link :=
  [mkLink 1 #"lo" NoParent #"<LOOPBACK,UP>"; mkLink 2 #"tunl0" (Named #"NONE") #"<NOARP> link/none ";
   mkLink 3 #"eth0" (InNetns 12) #"<BROADCAST,UP> link-netnsid 0"].
Definition demo_exec (bin : gostring) (args : list gostring) (w : unit) : cmd_result * unit :=
  (if bool_decide (args = [ #"--net=/run/netns/a"; #"ip"; #"-o"; #"link"; #"show"])
   then CmdOk (printed_links demo_links)
   else CmdOk #"3: eth0    inet 127.0.0.1/8 inet 10.244.0.6/24 brd 10.244.0.255", w).

Lemma discovered_addresses_witness :
  printed usable4 #"10.244.0.6" ∧
  DiscoverPodIPs demo_exec [ #"fd00::6"; #"127.0.0.1"] #"/run/netns/a" () = (Ok (#"10.244.0.6", #"fd00::6"), ()).
Proof.
  assert (E : DiscoverPodIPs demo_exec [ #"fd00::6"; #"127.0.0.1"] #"/run/netns/a" ()
    = (Ok (#"10.244.0.6", #"fd00::6"), ())) by (vm_compute; reflexivity).
  split; [|exact E]. destruct (discovered_addresses _ _ _ _ _ _ _ E) as [[H|[_ H]] _]; [|exact H].
  vm_compute in H. discriminate H.
Defined.

Lemma host_interface_of_peer_witness :
  FindHostInterface demo_exec (λ k _, if (k =? 12)%Z then Some #"veth12" else None) [] #"/run/netns/a" ()
  = (Ok (#"veth12", #"10.244.0.6"), ()).
Proof.
  rewrite (host_interface_of_peer demo_exec _ [] #"/run/netns/a" demo_links 12 #"veth12" () ()).
  - vm_compute. reflexivity.
  - vm_compute. reflexivity.
  - repeat constructor; try (apply (bool_decide_unpack _); exact I); try discriminate.
    + exists #"<LOOPBACK,UP", ">"%char, 0. split; reflexivity.
    + exists #"<NOARP> link/non", "e"%char, 1. split; reflexivity.
    + exists #"<BROADCAST,UP> link-netnsid ", "0"%char, 0. split; reflexivity.
  - vm_compute. reflexivity.
  - reflexivity.
  - discriminate.
Defined.
