(* ===== verification/Netfilter.v ===== *)
(** * The packet filter of the host (iptables and ip6tables)

    What the iptables manual documents of the commands the NRI plugin runs:
    their effect on the tables when they succeed, and the path of a packet
    through the chains. The program itself is not code of the repository: a
    host is any that keeps the laws of the class [Netfilter]. *)

From S2P Require Import Prelude GoStrings GoNet Networking.

(** ** Tables and commands *)

Abbreviation rule := (list gostring).

(** The rules of each chain, by table and chain name. *)
Abbreviation Tables := (gmap (gostring * gostring) (list rule)).

Inductive nf_cmd :=
  | NewChain (table chain : gostring)
  | Flush (table chain : gostring)
  | DeleteChain (table chain : gostring)
  | Append (table chain : gostring) (spec : rule)
  | InsertFirst (table chain : gostring) (spec : rule)
  | DeleteRule (table chain : gostring) (spec : rule).

#[global] Instance nf_cmd_eq_dec : EqDecision nf_cmd.
Proof. solve_decision. Defined.

(** The words of a command, for the commands the plugin runs. The rule of "-A",
    "-I" and "-D" is kept as its words; [spec_form] says which words make one. *)
Definition parse_cmd (args : list gostring) : option nf_cmd :=
  match args with
  | t :: table :: cmd :: chain :: spec =>
      if negb (bool_decide (t = #"-t")) then None
      else if bool_decide (cmd = #"-N") then if bool_decide (spec = []) then Some (NewChain table chain) else None
      else if bool_decide (cmd = #"-F") then if bool_decide (spec = []) then Some (Flush table chain) else None
      else if bool_decide (cmd = #"-X") then if bool_decide (spec = []) then Some (DeleteChain table chain) else None
      else if bool_decide (cmd = #"-A") then Some (Append table chain spec)
      else if bool_decide (cmd = #"-D") then Some (DeleteRule table chain spec)
      else if bool_decide (cmd = #"-I") then
        match spec with
        | n :: spec => if bool_decide (n = #"1") then Some (InsertFirst table chain spec) else None
        | [] => None
        end
      else None
  | _ => None
  end.

(** The words after "-j": the target and its options. *)
Fixpoint rule_target (spec : rule) : option (gostring * list gostring) :=
  match spec with
  | [] => None
  | o :: rest =>
      if bool_decide (o = #"-j") then match rest with [] => None | t :: opts => Some (t, opts) end
      else match rest with [] => None | _ :: rest => rule_target rest end
  end.

Definition builtin_targets : list gostring := [ #"ACCEPT"; #"DROP"; #"REJECT"; #"DNAT"; #"RETURN"].

(** *** The form of a rule

    What the manuals of iptables and iptables-extensions document of the
    options the plugin uses: the matches of a rule, each with its argument and
    after the option it belongs to, and then the target with its options.
    [chains] are the chains of the table a rule may jump to. *)
Definition decimal (max : Z) (s : gostring) : bool :=
  forallb (λ c, (48 <=? b2z c)%Z && (b2z c <=? 57)%Z) s
  && match Atoi s with Some n => (n <=? max)%Z | None => false end.

(** A name the kernel takes for an interface, in printable characters. *)
Definition iface_form (i : gostring) : bool :=
  negb (bool_decide (i = [])) && (length i <=? 15) && forallb graphic i && negb (contains_byte i "/"%char).

Section Grammar.
Context (v6 : bool) (table : gostring) (chains : list gostring).

Definition addr_form (host : gostring) : bool :=
  Bool.eqb v6 (contains_byte host ":"%char) && bool_decide (is_Some (ParseIP host))
  && forallb (λ c, is_hex c || bool_decide (c = ":"%char) || bool_decide (c = "."%char)) host.

(** ip:port, with an IPv6 address in brackets. *)
Definition dest_form (dest : gostring) : bool :=
  match SplitHostPort dest with
  | Ok (host, port) => addr_form host && decimal 65535 port
  | _ => false
  end.

Definition protocols : list gostring := [ #"tcp"; #"udp"; if v6 then #"ipv6-icmp" else #"icmp"].
Definition with_ports (proto : gostring) : bool := mem proto [ #"tcp"; #"udp"].
Definition ct_states : list gostring := [ #"INVALID"; #"NEW"; #"ESTABLISHED"; #"RELATED"; #"UNTRACKED"; #"SNAT"; #"DNAT"].
Definition reject_types : list gostring :=
  if v6 then [ #"icmp6-no-route"; #"icmp6-adm-prohibited"; #"icmp6-addr-unreachable"; #"icmp6-port-unreachable"]
  else [ #"icmp-net-unreachable"; #"icmp-host-unreachable"; #"icmp-port-unreachable"; #"icmp-proto-unreachable";
         #"icmp-net-prohibited"; #"icmp-host-prohibited"; #"icmp-admin-prohibited"].

Definition target_form (proto target : gostring) (opts : list gostring) : bool :=
  match opts with
  | [] => bool_decide (target = #"ACCEPT") || mem target chains
  | [o; v] =>
      if bool_decide (target = #"REJECT")
      then bool_decide (table = #"filter") && bool_decide (o = #"--reject-with") && mem v reject_types
      else bool_decide (target = #"DNAT") && bool_decide (table = #"nat") && with_ports proto
           && bool_decide (o = #"--to-destination") && dest_form v
  | _ => false
  end.

(** [proto] is the protocol given so far, [ct] whether connections are tracked. *)
Fixpoint spec_form (proto : gostring) (ct : bool) (spec : rule) : bool :=
  match spec with
  | [] => false
  | o :: rest =>
      if bool_decide (o = #"-j")
      then match rest with target :: opts => target_form proto target opts | [] => false end
      else match rest with
           | [] => false
           | v :: rest =>
               if bool_decide (o = #"-i") then iface_form v && spec_form proto ct rest
               else if bool_decide (o = #"-d") then addr_form v && spec_form proto ct rest
               else if bool_decide (o = #"-p")
               then bool_decide (proto = []) && mem v protocols && spec_form v ct rest
               else if bool_decide (o = #"--dport")
               then with_ports proto && decimal 65535 v && spec_form proto ct rest
               else if bool_decide (o = #"--icmpv6-type")
               then v6 && bool_decide (proto = #"ipv6-icmp") && decimal 255 v && spec_form proto ct rest
               else if bool_decide (o = #"-m") then bool_decide (v = #"conntrack") && spec_form proto true rest
               else if bool_decide (o = #"--ctstate")
               then ct && forallb (λ st, mem st ct_states) (Split v #",") && spec_form proto ct rest
               else false
           end
  end.
End Grammar.

Definition target_known (table : gostring) (spec : rule) (t : Tables) : bool :=
  match rule_target spec with
  | Some (target, _) => mem target builtin_targets || bool_decide (is_Some (t !! (table, target)))
  | None => true
  end.

Definition referenced (table chain : gostring) (t : Tables) : bool :=
  existsb (λ e, bool_decide (e.1.1 = table)
                && existsb (λ spec, bool_decide (fst <$> rule_target spec = Some chain)) e.2)
    (map_to_list t).

Fixpoint remove_first (spec : rule) (rules : list rule) : list rule :=
  match rules with
  | [] => []
  | r :: rules => if bool_decide (r = spec) then rules else r :: remove_first spec rules
  end.

(** The tables after a command that succeeds; [None]: it cannot succeed. *)
Definition nf_step (c : nf_cmd) (t : Tables) : option Tables :=
  match c with
  | NewChain table chain =>
      match t !! (table, chain) with
      | None => Some (<[(table, chain) := []]> t)
      | Some _ => None
      end
  | Flush table chain => _ ← t !! (table, chain); Some (<[(table, chain) := []]> t)
  | DeleteChain table chain =>
      rules ← t !! (table, chain);
      if bool_decide (rules = []) && negb (referenced table chain t)
      then Some (delete (table, chain) t) else None
  | Append table chain spec =>
      rules ← t !! (table, chain);
      if target_known table spec t then Some (<[(table, chain) := rules ++ [spec]]> t) else None
  | InsertFirst table chain spec =>
      rules ← t !! (table, chain);
      if target_known table spec t then Some (<[(table, chain) := spec :: rules]> t) else None
  | DeleteRule table chain spec =>
      rules ← t !! (table, chain);
      if mem spec rules then Some (<[(table, chain) := remove_first spec rules]> t) else None
  end.

Definition binary (v6 : bool) : gostring := if v6 then #"ip6tables" else #"iptables".

(** ** The interface

    [tables v6 w]: the IPv4 or IPv6 tables of the host. A command that
    succeeds has its documented effect, any other changes nothing; each binary
    has its own tables and no other command touches them. *)
Class Netfilter {W : Type} (exec : gostring → list gostring → W → cmd_result * W)
    (tables : bool → W → Tables) : Prop := {
  nf_ok v6 args w out w' :
    exec (binary v6) args w = (CmdOk out, w') →
    ∃ c, parse_cmd args = Some c ∧ nf_step c (tables v6 w) = Some (tables v6 w');
  nf_failed v6 args w out w' :
    exec (binary v6) args w = (CmdFailed out, w') → tables v6 w' = tables v6 w;
  nf_not_found v6 args w w' :
    exec (binary v6) args w = (CmdNotFound, w') → tables v6 w' = tables v6 w;
  nf_frame v6 args w r w' :
    exec (binary v6) args w = (r, w') → tables (negb v6) w' = tables (negb v6) w;
  nf_other bin args w r w' v6 :
    exec bin args w = (r, w') → bin ≠ binary true → bin ≠ binary false → tables v6 w' = tables v6 w;
}.

(** A host on which commands fail only for the reasons the manual gives, with
    its messages. *)
Class NetfilterLive `{Unicode} {W : Type} (exec : gostring → list gostring → W → cmd_result * W)
    (tables : bool → W → Tables) : Prop := {
  nf_succeeds v6 args c w t :
    parse_cmd args = Some c → nf_step c (tables v6 w) = Some t →
    ∃ out w', exec (binary v6) args w = (CmdOk out, w');
  nf_chain_exists v6 args table chain w :
    parse_cmd args = Some (NewChain table chain) → is_Some (tables v6 w !! (table, chain)) →
    ∃ out w', exec (binary v6) args w = (CmdFailed out, w') ∧ Contains (ToLower out) #"already exists" = true;
  nf_no_rule v6 args table chain spec w :
    parse_cmd args = Some (DeleteRule table chain spec) →
    nf_step (DeleteRule table chain spec) (tables v6 w) = None →
    ∃ out w', exec (binary v6) args w = (CmdFailed out, w') ∧
      (Contains (ToLower out) #"bad rule" = true ∨ Contains out #"No chain/target/match by that name" = true);
}.

(** ** Packets *)

Record Packet := mkPacket {
  p_iif : gostring;
  p_proto : gostring;
  p_dst : IP;
  p_dport : Z;
  p_icmp6 : Z;
  p_established : bool;
}.

(** A name that ends in "+" stands for all that start so. *)
Definition iface_matches (pat iif : gostring) : bool :=
  if HasSuffix pat #"+" then HasPrefix iif (TrimSuffix pat #"+") else bool_decide (pat = iif).

Inductive nf_verdict := Accept | Reject | Dnat (dest : gostring) | FallThrough.

#[global] Instance nf_verdict_eq_dec : EqDecision nf_verdict.
Proof. solve_decision. Defined.

Section Packets.
(** The options the plugin does not use. *)
Context (other : gostring → gostring → Packet → bool).

Definition option_matches (o v : gostring) (p : Packet) : bool :=
  if bool_decide (o = #"-i") then iface_matches v (p_iif p)
  else if bool_decide (o = #"-p") then bool_decide (v = p_proto p)
  else if bool_decide (o = #"-d") then bool_decide (ParseIP v = Some (p_dst p))
  else if bool_decide (o = #"--dport") then bool_decide (Atoi v = Some (p_dport p))
  else if bool_decide (o = #"--icmpv6-type") then bool_decide (Atoi v = Some (p_icmp6 p))
  else if bool_decide (o = #"-m") then true
  else if bool_decide (o = #"--ctstate") && bool_decide (v = #"ESTABLISHED,RELATED") then p_established p
  else other o v p.

Fixpoint rule_matches (spec : rule) (p : Packet) : bool :=
  match spec with
  | [] => true
  | o :: rest =>
      if bool_decide (o = #"-j") then true
      else match rest with [] => false | v :: rest => option_matches o v p && rule_matches rest p end
  end.

(** The verdict of a rule that matches; [enter] is that of a chain. *)
Definition apply_target (enter : gostring → nf_verdict) (spec : rule) : nf_verdict :=
  match rule_target spec with
  | None => FallThrough
  | Some (target, opts) =>
      if bool_decide (target = #"ACCEPT") then Accept
      else if bool_decide (target = #"DROP") || bool_decide (target = #"REJECT") then Reject
      else if bool_decide (target = #"DNAT") then
        match opts with [_; dest] => Dnat dest | _ => FallThrough end
      else enter target
  end.

(** The rules of a chain, in order, until one gives a verdict. *)
Fixpoint eval_rules (enter : gostring → nf_verdict) (rules : list rule) (p : Packet) : nf_verdict :=
  match rules with
  | [] => FallThrough
  | r :: rules =>
      if rule_matches r p then
        match apply_target enter r with FallThrough => eval_rules enter rules p | v => v end
      else eval_rules enter rules p
  end.

(** A chain, with [fuel] nested jumps. *)
Fixpoint eval_chain (fuel : nat) (t : Tables) (table : gostring) (p : Packet) (chain : gostring) : nf_verdict :=
  match fuel with
  | O => FallThrough
  | S fuel =>
      match t !! (table, chain) with
      | None => FallThrough
      | Some rules => eval_rules (eval_chain fuel t table p) rules p
      end
  end.
End Packets.

(** ** Lemmas *)

Lemma remove_first_ne spec r rules : r ≠ spec → r ∈ rules → r ∈ remove_first spec rules.
Proof.
  intros Hne. induction rules as [|x rules IH]; cbn; [done|]. rewrite !elem_of_cons.
  case_bool_decide; [naive_solver|]. rewrite elem_of_cons. naive_solver.
Qed.

Lemma remove_first_none spec rules : spec ∉ rules → remove_first spec rules = rules.
Proof.
  induction rules as [|x rules IH]; intros Hn; cbn; [done|].
  apply not_elem_of_cons in Hn as [Hne Hn]. rewrite bool_decide_eq_false_2 by done. by rewrite IH.
Qed.

Lemma remove_first_app spec pre r rest :
  r ≠ spec →
  remove_first spec (pre ++ r :: rest)
  = if decide (spec ∈ pre) then remove_first spec pre ++ r :: rest else pre ++ r :: remove_first spec rest.
Proof.
  intros Hr. induction pre as [|x pre IH]; cbn [app remove_first].
  - rewrite decide_False by apply not_elem_of_nil. by rewrite bool_decide_eq_false_2.
  - rewrite IH. case_bool_decide as Hx.
    + rewrite decide_True by (rewrite Hx; by left). done.
    + destruct (decide (spec ∈ pre)) as [Hin|Hni].
      * rewrite decide_True by (by right). done.
      * rewrite decide_False by (intros [->|?]%elem_of_cons; done). done.
Qed.

Lemma Forall_remove_first P spec rules : Forall P rules → Forall P (remove_first spec rules).
Proof.
  induction 1 as [|x rules Hx HF IH]; cbn; [constructor|]. case_bool_decide; [done|by constructor].
Qed.

Lemma eval_rules_skip other enter pre rules p :
  Forall (λ r, rule_matches other r p = false) pre →
  eval_rules other enter (pre ++ rules) p = eval_rules other enter rules p.
Proof. induction 1 as [|r pre Hr _ IH]; cbn; [done|]. by rewrite Hr. Qed.
