(* ===== verification/NriPlugin.v ===== *)
(** * The NRI plugin (cmd/portal-nri-plugin/main.go)

    For every pod that opts in, the plugin installs the rules that send the
    pod's traffic to the portal and refuse everything else, and registers the
    pod with the portal's admin API; it removes both when the pod stops. The
    host (commands, files, the HTTP transport) is a world [W]; the plugin's own
    state is the two maps its mutex guards. *)

From S2P Require Import Prelude GoStrings GoNet PodMap Networking.

(** ** Data *)

Definition interceptLabelKey : gostring := #"service-portal.gke.io/intercept".
Definition interceptLabelVal : gostring := #"true".

Record pluginConfig := mkPluginConfig {
  socketPath : gostring;
  pluginName : gostring;
  pluginIndex : gostring;
  proxyHost : gostring;
  proxyHostV6 : gostring;
  proxyPort : gostring;
  proxyHTTPSPort : gostring;
  proxyDNSPort : gostring;
  adminURL : gostring;
  caCertPath : gostring;
}.

Record podNetworkState := mkPodNetworkState {
  hostInterface : gostring;
  podIP : gostring;
  podIPv6 : gostring;
  isDualStack : bool;
  runtimeClass : gostring;
}.
(** The zero value, what a missing map entry reads as. *)
Definition no_state : podNetworkState := mkPodNetworkState [] [] [] false [].

(** The maps of [portalPlugin]. *)
Record plugin_state := mkPlugin {
  pods : gmap gostring podNetworkState;
  activePods : gmap gostring PodInfo;
}.

Record LinuxNamespace := mkNamespace { ns_Type : gostring; ns_Path : gostring }.

(** What the container runtime says of a pod sandbox. *)
Record PodSandbox := mkPodSandbox {
  Id : gostring;
  pod_Name : gostring;
  Uid : gostring;
  pod_Namespace : gostring;
  pod_Labels : gmap gostring gostring;
  pod_Annotations : gmap gostring gostring;
  RuntimeHandler : gostring;
  Linux : option (list LinuxNamespace);
  Ips : list gostring;
}.

Inductive nri_err :=
  | MissingProxyHost
  | InvalidProxyHost (host : gostring)
  | MissingCACertPath
  | UnsupportedRuntime (runtimeClass pod : gostring)
  | NoLinuxConfiguration (pod : gostring)
  | NoNetworkNamespace (pod : gostring)
  | StatFailed (path : gostring)
  | HostNetworkNamespace (pod path : gostring)
  | NetworkError (e : net_err)
  | NetfilterFailed (v6 : bool) (args : list gostring) (out : bytes)
  | NoIPv6Proxy
  | MarshalFailed
  | InvalidRequest (url : gostring)
  | ContextDone
  | AdminStatus (code : Z) (body : gostring)
  | NotifyFailed (url : gostring)
  | SyncErrors (errs : list nri_err)
  | CACertMissing (path : gostring).

(** ** Pods *)

Definition podID (pod : option PodSandbox) : gostring :=
  match pod with
  | None => #"<nil>"
  | Some pod =>
      if negb (bool_decide (pod_Namespace pod = [])) && negb (bool_decide (pod_Name pod = []))
      then pod_Namespace pod ++ #"/" ++ pod_Name pod
      else if negb (bool_decide (Id pod = [])) then Id pod else #"<unnamed>"
  end.

Definition matchesPod (pod : option PodSandbox) : bool :=
  match pod with
  | None => false
  | Some pod => bool_decide (pod_Labels pod !! interceptLabelKey = Some interceptLabelVal)
  end.

Definition getRuntimeClass (pod : option PodSandbox) : gostring :=
  match pod with
  | None => []
  | Some pod =>
      if negb (bool_decide (RuntimeHandler pod = [])) then RuntimeHandler pod
      else default [] (pod_Annotations pod !! #"io.kubernetes.cri.runtime-handler")
  end.

Section Runtime.
Context `{Unicode}.

Definition isSupportedRuntime (runtimeClass : gostring) : bool :=
  mem (ToLower (TrimSpace runtimeClass))
    [ []; #"runc"; #"gvisor"; #"runsc"; #"kata"; #"kata-qemu"; #"kata-clh"; #"kata-fc"; #"kata-containers"].

Definition validateRuntime (pod : option PodSandbox) : outcome nri_err () :=
  let runtimeClass := getRuntimeClass pod in
  if negb (isSupportedRuntime runtimeClass) then Err (UnsupportedRuntime runtimeClass (podID pod)) else Ok ().
End Runtime.

(** ** Rules *)

Definition prChain (hostIface : gostring) : gostring := #"PORTAL_PR_" ++ hostIface.
Definition egChain (hostIface : gostring) : gostring := #"PORTAL_EG_" ++ hostIface.

Definition buildHostNetfilterRules (isIPv6 : bool)
    (hostIface proxyHost proxyPort proxyHTTPSPort proxyDNSPort : gostring) : list (list gostring) :=
  let proxyDNSPort := if bool_decide (proxyDNSPort = []) then #"53" else proxyDNSPort in
  let prChain := prChain hostIface in
  let egChain := egChain hostIface in
  let dest p := JoinHostPort proxyHost p in
  let rejectTarget := if isIPv6 then #"icmp6-port-unreachable" else #"icmp-port-unreachable" in
  [ [ #"-t"; #"nat"; #"-N"; prChain];
    [ #"-t"; #"nat"; #"-F"; prChain];
    [ #"-t"; #"nat"; #"-D"; #"PREROUTING"; #"-i"; hostIface; #"-j"; prChain];
    [ #"-t"; #"nat"; #"-I"; #"PREROUTING"; #"1"; #"-i"; hostIface; #"-j"; prChain];
    [ #"-t"; #"nat"; #"-A"; prChain; #"-p"; #"tcp"; #"--dport"; #"80"; #"-j"; #"DNAT"; #"--to-destination"; dest proxyPort];
    [ #"-t"; #"nat"; #"-A"; prChain; #"-p"; #"tcp"; #"--dport"; #"443"; #"-j"; #"DNAT"; #"--to-destination"; dest proxyHTTPSPort];
    [ #"-t"; #"nat"; #"-A"; prChain; #"-p"; #"udp"; #"--dport"; #"53"; #"-j"; #"DNAT"; #"--to-destination"; dest proxyDNSPort];
    [ #"-t"; #"nat"; #"-A"; prChain; #"-p"; #"tcp"; #"--dport"; #"53"; #"-j"; #"DNAT"; #"--to-destination"; dest proxyDNSPort];
    [ #"-t"; #"filter"; #"-N"; egChain];
    [ #"-t"; #"filter"; #"-F"; egChain];
    [ #"-t"; #"filter"; #"-D"; #"INPUT"; #"-i"; hostIface; #"-j"; egChain];
    [ #"-t"; #"filter"; #"-I"; #"INPUT"; #"1"; #"-i"; hostIface; #"-j"; egChain];
    [ #"-t"; #"filter"; #"-D"; #"FORWARD"; #"-i"; hostIface; #"-j"; egChain];
    [ #"-t"; #"filter"; #"-I"; #"FORWARD"; #"1"; #"-i"; hostIface; #"-j"; egChain];
    [ #"-t"; #"filter"; #"-A"; egChain; #"-m"; #"conntrack"; #"--ctstate"; #"ESTABLISHED,RELATED"; #"-j"; #"ACCEPT"] ]
  ++ (if isIPv6
      then (λ icmpType, [ #"-t"; #"filter"; #"-A"; egChain; #"-p"; #"ipv6-icmp"; #"--icmpv6-type"; icmpType; #"-j"; #"ACCEPT"])
             <$> [ #"1"; #"2"; #"3"; #"4"; #"133"; #"135"; #"136"]
      else [])
  ++ [ [ #"-t"; #"filter"; #"-A"; egChain; #"-d"; proxyHost; #"-p"; #"tcp"; #"--dport"; proxyPort; #"-j"; #"ACCEPT"];
       [ #"-t"; #"filter"; #"-A"; egChain; #"-d"; proxyHost; #"-p"; #"tcp"; #"--dport"; proxyHTTPSPort; #"-j"; #"ACCEPT"];
       [ #"-t"; #"filter"; #"-A"; egChain; #"-d"; proxyHost; #"-p"; #"udp"; #"--dport"; proxyDNSPort; #"-j"; #"ACCEPT"];
       [ #"-t"; #"filter"; #"-A"; egChain; #"-d"; proxyHost; #"-p"; #"tcp"; #"--dport"; proxyDNSPort; #"-j"; #"ACCEPT"] ]
  ++ [ [ #"-t"; #"filter"; #"-A"; egChain; #"-p"; #"tcp"; #"-j"; #"REJECT"; #"--reject-with"; rejectTarget];
       [ #"-t"; #"filter"; #"-A"; egChain; #"-p"; #"udp"; #"-j"; #"REJECT"; #"--reject-with"; rejectTarget];
       [ #"-t"; #"filter"; #"-A"; egChain; #"-j"; #"REJECT"; #"--reject-with"; rejectTarget] ].

Definition buildHostIptablesRules := buildHostNetfilterRules false.
Definition buildHostIp6tablesRules := buildHostNetfilterRules true.

Definition buildHostCleanupRules (hostIface : gostring) : list (list gostring) :=
  let prChain := prChain hostIface in
  let egChain := egChain hostIface in
  [ [ #"-t"; #"nat"; #"-D"; #"PREROUTING"; #"-i"; hostIface; #"-j"; prChain];
    [ #"-t"; #"nat"; #"-F"; prChain];
    [ #"-t"; #"nat"; #"-X"; prChain];
    [ #"-t"; #"filter"; #"-D"; #"INPUT"; #"-i"; hostIface; #"-j"; egChain];
    [ #"-t"; #"filter"; #"-D"; #"FORWARD"; #"-i"; hostIface; #"-j"; egChain];
    [ #"-t"; #"filter"; #"-F"; egChain];
    [ #"-t"; #"filter"; #"-X"; egChain] ].

(** ** The host *)

(** The HTTP client of the admin API: the socket it dials, if any, and the base
    of its URLs. *)
Record admin_client := mkClient { c_socket : option gostring; c_base : gostring }.

Definition newAdminHTTPClient (adminURL : gostring) : admin_client :=
  if HasPrefix adminURL #"unix://" || (HasPrefix adminURL #"/" && negb (HasPrefix adminURL #"http"))
  then mkClient (Some (TrimPrefix adminURL #"unix://")) #"http://unix"
  else mkClient None (TrimRightByte adminURL "/"%char).

Record admin_call := mkCall {
  ac_socket : option gostring;
  ac_method : gostring;
  ac_url : gostring;
  ac_body : bytes;
}.

(** What is sent as JSON. *)
Inductive payload := OnePod (info : PodInfo) | AllPods (infos : list PodInfo).

Section Plugin.
Context `{Unicode} {W : Type}.

(** Commands and interface tables, as in pkg/networking; the file a path leads
    to, if any; an HTTP exchange: no response, or a status and a body, if it
    can be read; the wait between attempts: true if the context ends first.
    JSON in both directions, and the URLs net/http accepts. *)
Context (exec : gostring → list gostring → W → cmd_result * W)
        (InterfaceByIndex : Z → W → option gostring)
        (InterfaceAddrs : W → option (list (option IP)))
        (Stat : gostring → W → option Z)
        (Do : admin_call → W → option (Z * option bytes) * W)
        (Wait : W → bool * W)
        (Marshal : payload → option bytes)
        (Unmarshal : bytes → option (list PodInfo))
        (valid_url : gostring → bool).

(** The values of a map in the order a range yields them. *)
Context (range : gmap gostring PodInfo → list PodInfo).

(** ** Namespaces and interfaces *)

Definition findNetnsPath (pod : option PodSandbox) : io W nri_err gostring :=
  match pod ≫= Linux with
  | None => throw (NoLinuxConfiguration (podID pod))
  | Some namespaces =>
      match head (filter (λ ns, ns_Type ns = #"network" ∧ ns_Path ns ≠ []) namespaces) with
      | None => throw (NoNetworkNamespace (podID pod))
      | Some ns =>
          let netnsPath := ns_Path ns in
          λ w,
            match Stat netnsPath w with
            | None => (Err (StatFailed netnsPath), w)
            | Some target =>
                match Stat #"/proc/self/ns/net" w with
                | None => (Err (StatFailed #"/proc/self/ns/net"), w)
                | Some self =>
                    if (self =? target)%Z then (Err (HostNetworkNamespace (podID pod) netnsPath), w)
                    else (Ok netnsPath, w)
                end
            end
      end
  end.

Definition findHostInterface (pod : option PodSandbox) (netnsPath : gostring)
    : io W nri_err (gostring * gostring) :=
  map_err NetworkError (FindHostInterface exec InterfaceByIndex (from_option Ips [] pod) netnsPath).

(** ** Running iptables *)

Definition binary_name (v6 : bool) : gostring := if v6 then #"ip6tables" else #"iptables".

(** The failures that are as good as success. *)
Definition tolerated (args : list gostring) (msg : bytes) : bool :=
  match args with
  | _ :: _ :: cmd :: _ =>
      (bool_decide (cmd = #"-N") && Contains (ToLower msg) #"already exists")
      || ((bool_decide (cmd = #"-D") || bool_decide (cmd = #"-X"))
          && (Contains (ToLower msg) #"does not exist"
              || Contains msg #"No chain/target/match by that name"
              || Contains (ToLower msg) #"bad rule"
              || Contains (ToLower msg) #"too many links"))
  | _ => false
  end.

Fixpoint runNetfilter (v6 : bool) (ruleCmds : list (list gostring)) : io W nri_err () :=
  match ruleCmds with
  | [] => mret ()
  | args :: ruleCmds => λ w,
      match exec (binary_name v6) args w with
      | (CmdOk _, w) => runNetfilter v6 ruleCmds w
      | (CmdNotFound, w) => (Ok (), w)
      | (CmdFailed out, w) =>
          if tolerated args out then runNetfilter v6 ruleCmds w
          else (Err (NetfilterFailed v6 args out), w)
      end
  end.

Definition installHostIptablesRules (cfg : pluginConfig) (hostIface : gostring) : io W nri_err () :=
  runNetfilter false
    (buildHostIptablesRules hostIface (proxyHost cfg) (proxyPort cfg) (proxyHTTPSPort cfg) (proxyDNSPort cfg)).

Definition installHostIp6tablesRules (cfg : pluginConfig) (hostIface : gostring) : io W nri_err () :=
  v6 ← (if bool_decide (proxyHostV6 cfg = [])
        then λ w, let '(s, w) := DiscoverNodeIPv6 exec InterfaceAddrs w in (Ok s, w)
        else mret (proxyHostV6 cfg));
  if bool_decide (v6 = []) then throw NoIPv6Proxy else
  runNetfilter true
    (buildHostIp6tablesRules hostIface v6 (proxyPort cfg) (proxyHTTPSPort cfg) (proxyDNSPort cfg)).

Definition removeHostIptablesRules (hostIface : gostring) : io W nri_err () :=
  runNetfilter false (buildHostCleanupRules hostIface);;
  runNetfilter true (buildHostCleanupRules hostIface).

(** ** The admin API of the proxy *)

Definition ok_status (code : Z) : bool := (200 <=? code)%Z && (code <? 300)%Z.

Fixpoint notify_attempts (attempts : nat) (call : admin_call) : io W nri_err () :=
  match attempts with
  | O => throw (NotifyFailed (ac_url call))
  | S attempts => λ w,
      if negb (valid_url (ac_url call)) then (Err (InvalidRequest (ac_url call)), w) else
      match Do call w with
      | (None, w) =>
          let '(ended, w) := Wait w in
          if ended then (Err ContextDone, w) else notify_attempts attempts call w
      | (Some (code, body), w) =>
          if ok_status code then (Ok (), w)
          else (Err (AdminStatus code (TrimSpace (default [] body))), w)
      end
  end.

Definition notifyPodUpdate (cfg : pluginConfig) (method path : gostring) (p : option payload)
    : io W nri_err () :=
  if bool_decide (adminURL cfg = []) then mret () else
  match match p with None => Some [] | Some p => Marshal p end with
  | None => throw MarshalFailed
  | Some data =>
      let client := newAdminHTTPClient (adminURL cfg) in
      notify_attempts 3 (mkCall (c_socket client) method (c_base client ++ path) data)
  end.

(** ** Reconciliation with the proxy

    A tick of the loop copies the active pods under the lock; without it, it
    asks the proxy how many pods it has, and if they are fewer sends the copy. *)
Definition sync_snapshot (s : plugin_state) : option (list PodInfo) :=
  if bool_decide (activePods s = ∅) then None else Some (range (activePods s)).

Definition sync_ask (cfg : pluginConfig) (infos : list PodInfo) : W → bool * W := λ w,
  let client := newAdminHTTPClient (adminURL cfg) in
  let url := c_base client ++ #"/api/v1/pods" in
  if negb (valid_url url) then (false, w) else
  match Do (mkCall (c_socket client) #"GET" url []) w with
  | (Some (_, Some body), w) =>
      (match Unmarshal body with
       | None => false
       | Some existing => length existing <? length infos
       end, w)
  | (_, w) => (false, w)
  end.

Definition sync_push (cfg : pluginConfig) (infos : list PodInfo) : W → W := λ w,
  let '(fewer, w) := sync_ask cfg infos w in
  if fewer then (notifyPodUpdate cfg #"PUT" #"/api/v1/pods" (Some (AllPods infos)) w).2 else w.

Definition syncActivePodsWithProxy (cfg : pluginConfig) (st : W * plugin_state) : W * plugin_state :=
  match sync_snapshot st.2 with
  | None => st
  | Some infos => (sync_push cfg infos st.1, st.2)
  end.

(** ** Events *)

Abbreviation event := (io (W * plugin_state) nri_err).

Definition on_host {A} (m : io W nri_err A) : event A := λ '(w, s),
  let '(r, w) := m w in (r, (w, s)).
Definition on_state {A} (f : plugin_state → A * plugin_state) : event A := λ '(w, s),
  let '(a, s) := f s in (Ok a, (w, s)).

Definition set_pod (id : gostring) (st : podNetworkState) (s : plugin_state) : plugin_state :=
  mkPlugin (<[id := st]> (pods s)) (activePods s).
Definition set_active (uid : gostring) (info : PodInfo) (s : plugin_state) : plugin_state :=
  mkPlugin (pods s) (<[uid := info]> (activePods s)).

Context (cfg : pluginConfig).

Definition configurePod (pod : PodSandbox) : event () :=
  lift (validateRuntime (Some pod));;
  netnsPath ← on_host (findNetnsPath (Some pod));
  '(hostIface, _) ← on_host (findHostInterface (Some pod) netnsPath);
  '(podIPv4, podIPv6) ← on_host (map_err NetworkError (DiscoverPodIPs exec (Ips pod) netnsPath));
  let isDualStack := negb (bool_decide (podIPv6 = [])) in
  on_host (installHostIptablesRules cfg hostIface);;
  (if isDualStack then on_host (installHostIp6tablesRules cfg hostIface) else mret ());;
  on_state (λ s, ((), set_pod (Id pod)
    (mkPodNetworkState hostIface podIPv4 podIPv6 isDualStack (getRuntimeClass (Some pod))) s)).

(** The state of the pod is forgotten before its rules are removed. *)
Definition forget (pod : PodSandbox) (s : plugin_state) : option podNetworkState * plugin_state :=
  (pods s !! Id pod, mkPlugin (delete (Id pod) (pods s)) (delete (Uid pod) (activePods s))).

Definition cleanup_interface (pod : PodSandbox) (found : option podNetworkState) : io W nri_err gostring :=
  match found with
  | Some state => mret (hostInterface state)
  | None =>
      r ← attempt (netnsPath ← findNetnsPath (Some pod); findHostInterface (Some pod) netnsPath);
      match r with
      | Ok (hostIface, _) => mret hostIface
      | _ => mret []
      end
  end.

Definition cleanupPod (pod : PodSandbox) : event () :=
  found ← on_state (forget pod);
  hostIface ← on_host (cleanup_interface pod found);
  (if bool_decide (hostIface = []) then mret () else on_host (removeHostIptablesRules hostIface));;
  if bool_decide (Uid pod = []) then mret ()
  else on_host (notifyPodUpdate cfg #"DELETE" (#"/api/v1/pods/" ++ Uid pod) None).

Definition StopPodSandbox (pod : PodSandbox) : event () :=
  if negb (matchesPod (Some pod)) then mret () else cleanupPod pod.

Definition RemovePodSandbox (pod : PodSandbox) : event () :=
  if negb (matchesPod (Some pod)) then mret () else cleanupPod pod.

(** The pod as it is registered with the proxy. *)
Definition pod_info (pod : PodSandbox) (state : podNetworkState) : PodInfo :=
  let ips := if negb (bool_decide (Ips pod = [])) then Ips pod
             else (if bool_decide (podIP state = []) then [] else [podIP state])
                  ++ (if bool_decide (podIPv6 state = []) then [] else [podIPv6 state]) in
  mkPodInfo (Uid pod) (pod_Namespace pod) (pod_Name pod) ips (pod_Annotations pod) (pod_Labels pod) [] [] false.

Definition read_pod (pod : PodSandbox) : event podNetworkState :=
  on_state (λ s, (default no_state (pods s !! Id pod), s)).

Definition RunPodSandbox (pod : PodSandbox) : event () :=
  if negb (matchesPod (Some pod)) then mret () else
  lift (validateRuntime (Some pod));;
  configurePod pod;;
  state ← read_pod pod;
  let info := pod_info pod state in
  r ← attempt (on_host (notifyPodUpdate cfg #"POST" #"/api/v1/pods" (Some (OnePod info))));
  match r with
  | Ok _ => on_state (λ s, ((), set_active (Uid pod) info s))
  | Err e => attempt (F := nri_err) (cleanupPod pod);; throw e
  | Panic p => lift (Panic p)
  end.

(** The pods that could be configured, and the errors of the others. *)
Fixpoint sync_pods (l : list PodSandbox) : event (list PodInfo * list nri_err) :=
  match l with
  | [] => mret ([], [])
  | pod :: l =>
      if negb (matchesPod (Some pod)) then sync_pods l else
      r ← attempt (configurePod pod);
      match r with
      | Ok _ =>
          state ← read_pod pod;
          let info := pod_info pod state in
          on_state (λ s, ((), set_active (Uid pod) info s));;
          '(infos, errs) ← sync_pods l;
          mret (info :: infos, errs)
      | Err e => '(infos, errs) ← sync_pods l; mret (infos, e :: errs)
      | Panic p => lift (Panic p)
      end
  end.

Definition Synchronize (l : list PodSandbox) : event () :=
  on_state (λ s, ((), mkPlugin (pods s) ∅));;
  '(syncedPods, syncErrors) ← sync_pods l;
  (if bool_decide (syncedPods = []) then mret ()
   else on_host (notifyPodUpdate cfg #"PUT" #"/api/v1/pods" (Some (AllPods syncedPods))));;
  if bool_decide (syncErrors = []) then mret () else throw (SyncErrors syncErrors).

(** ** Containers *)

Record Mount := mkMount { m_Destination : gostring; m_Source : gostring; m_Type : gostring; m_Options : list gostring }.
Record ContainerAdjustment := mkAdjustment { adj_env : list (gostring * gostring); adj_mounts : list Mount }.

Definition CreateContainer (pod : PodSandbox) : event (option ContainerAdjustment) :=
  if negb (matchesPod (Some pod)) then mret None else
  lift (validateRuntime (Some pod));;
  found ← on_host (gets (Stat (caCertPath cfg)));
  match found with
  | None => throw (CACertMissing (caCertPath cfg))
  | Some _ =>
      mret (Some (mkAdjustment [(#"SSL_CERT_FILE", #"/etc/service-portal/ca/tls.crt")]
        [mkMount #"/etc/service-portal/ca/tls.crt" (caCertPath cfg) #"bind" [ #"rbind"; #"ro"]]))
  end.
End Plugin.

(** ** Configuration and the bind commands *)

Section Commands.
Context `{Unicode} {W : Type} (exec : gostring → list gostring → W → cmd_result * W)
        (InterfaceAddrs : W → option (list (option IP)))
        (Do : admin_call → W → option (Z * option bytes) * W)
        (valid_url : gostring → bool).

(** The environment, and the values given on the command line. *)
Context (Getenv : gostring → gostring) (flag : gostring → option gostring).

Definition envOrDefault (key fallback : gostring) : gostring :=
  if negb (bool_decide (Getenv key = [])) then Getenv key else fallback.
Definition StringVar (name value : gostring) : gostring := default value (flag name).

Definition parsed_flags : pluginConfig :=
  mkPluginConfig
    (StringVar #"socket-path" (envOrDefault #"NRI_SOCKET_PATH" #"/var/run/nri/nri.sock"))
    (StringVar #"plugin-name" (envOrDefault #"NRI_PLUGIN_NAME" #"service-portal"))
    (StringVar #"plugin-index" (envOrDefault #"NRI_PLUGIN_INDEX" (envOrDefault #"NRI_PLUGIN_IDX" #"01")))
    (StringVar #"proxy-host" (envOrDefault #"PROXY_HOST" []))
    (StringVar #"proxy-host-v6" (envOrDefault #"PROXY_HOST_V6" []))
    (StringVar #"proxy-port" (envOrDefault #"PROXY_PORT" #"8080"))
    (StringVar #"proxy-https-port" (envOrDefault #"PROXY_HTTPS_PORT" #"8443"))
    (StringVar #"proxy-dns-port" (envOrDefault #"PROXY_DNS_PORT" (envOrDefault #"DNS_PORT" #"53")))
    (StringVar #"admin-url" (envOrDefault #"ADMIN_URL" #"unix:///run/service-portal/portal.sock"))
    (StringVar #"ca-cert-path" (envOrDefault #"CA_CERT_PATH" #"/etc/service-portal/ca/tls.crt")).

Definition with_proxy_hosts (v4 v6 : gostring) (c : pluginConfig) : pluginConfig :=
  mkPluginConfig (socketPath c) (pluginName c) (pluginIndex c) v4 v6 (proxyPort c) (proxyHTTPSPort c)
    (proxyDNSPort c) (adminURL c) (caCertPath c).

Definition parseFlags : io W nri_err pluginConfig := λ w,
  let cfg := parsed_flags in
  let host := TrimSpace (proxyHost cfg) in
  if bool_decide (host = []) then (Err MissingProxyHost, w)
  else if bool_decide (ParseIP host = None) then (Err (InvalidProxyHost (proxyHost cfg)), w)
  else
    let '(v6, w) :=
      let v6 := TrimSpace (proxyHostV6 cfg) in
      if bool_decide (v6 = []) then DiscoverNodeIPv6 exec InterfaceAddrs w else (v6, w) in
    let cfg := with_proxy_hosts host v6 cfg in
    if bool_decide (TrimSpace (caCertPath cfg) = []) then (Err MissingCACertPath, w) else (Ok cfg, w).

(** What a command prints, or why it exits with status 1. *)
Inductive exit :=
  | Printed (body : bytes)
  | UIDRequired
  | MarshalError
  | RequestFailed
  | StatusFailed (code : Z) (body : bytes).

(** [client.Post], then the body when it can be read. *)
Definition post_command (socket path : gostring) (data : option bytes) : W → exit * W := λ w,
  let client := newAdminHTTPClient socket in
  match data with
  | None => (MarshalError, w)
  | Some data =>
      let url := c_base client ++ path in
      if negb (valid_url url) then (RequestFailed, w) else
      match Do (mkCall (c_socket client) #"POST" url data) w with
      | (None, w) => (RequestFailed, w)
      | (Some (code, body), w) =>
          (if ok_status code then Printed (default [] body) else StatusFailed code (default [] body), w)
      end
  end.

Context (Marshal_bind : BindRequest → option bytes) (Marshal_unbind : gostring → option bytes).

Definition runBindCommand (socket uid identity policy : gostring) : W → exit * W := λ w,
  if bool_decide (uid = []) then (UIDRequired, w)
  else post_command socket #"/bind" (Marshal_bind (mkBindRequest uid identity policy)) w.

Definition runUnbindCommand (socket uid : gostring) : W → exit * W := λ w,
  if bool_decide (uid = []) then (UIDRequired, w)
  else post_command socket #"/unbind" (Marshal_unbind uid) w.
End Commands.
