(* ===== verification/NriSpec.v ===== *)
(** * Confinement of pods by the NRI plugin: specifications and properties

    The rules the plugin builds, run on any host that keeps the laws of
    [Netfilter], against the path of a packet; the events of a pod, with the
    proxy's admin API as modelled in [PodMap]. *)

From S2P Require Import Prelude GoStrings GoNet PodMap PodMapSpec Networking Netfilter NriPlugin.

(** ** The commands the plugin runs *)

Definition jump (chain : gostring → gostring) (i : gostring) : rule := [ #"-i"; i; #"-j"; chain i].
Definition dnat (proto port dest : gostring) : rule :=
  [ #"-p"; proto; #"--dport"; port; #"-j"; #"DNAT"; #"--to-destination"; dest].
Definition allow (host proto port : gostring) : rule :=
  [ #"-d"; host; #"-p"; proto; #"--dport"; port; #"-j"; #"ACCEPT"].
Definition allow_icmp6 (n : gostring) : rule := [ #"-p"; #"ipv6-icmp"; #"--icmpv6-type"; n; #"-j"; #"ACCEPT"].
Definition established : rule := [ #"-m"; #"conntrack"; #"--ctstate"; #"ESTABLISHED,RELATED"; #"-j"; #"ACCEPT"].
Definition reject_with (v6 : bool) : rule :=
  [ #"-j"; #"REJECT"; #"--reject-with"; if v6 then #"icmp6-port-unreachable" else #"icmp-port-unreachable"].
Definition icmp6_types : list gostring := [ #"1"; #"2"; #"3"; #"4"; #"133"; #"135"; #"136"].

Section Rules.
Context (v6 : bool) (host http https dns : gostring).

Definition dns_port : gostring := if bool_decide (dns = []) then #"53" else dns.

(** The contents of the two chains of a pod. *)
Definition pr_rules : list rule :=
  [dnat #"tcp" #"80" (JoinHostPort host http); dnat #"tcp" #"443" (JoinHostPort host https);
   dnat #"udp" #"53" (JoinHostPort host dns_port); dnat #"tcp" #"53" (JoinHostPort host dns_port)].
Definition eg_rules : list rule :=
  established :: (if v6 then allow_icmp6 <$> icmp6_types else [])
  ++ [allow host #"tcp" http; allow host #"tcp" https; allow host #"udp" dns_port; allow host #"tcp" dns_port]
  ++ [ [ #"-p"; #"tcp"] ++ reject_with v6; [ #"-p"; #"udp"] ++ reject_with v6; reject_with v6].

Definition reset_cmds (k : gostring * gostring) : list nf_cmd := [NewChain k.1 k.2; Flush k.1 k.2].
Definition hook_cmds (k : gostring * gostring) (spec : rule) : list nf_cmd :=
  [DeleteRule k.1 k.2 spec; InsertFirst k.1 k.2 spec].
Definition fill_cmds (k : gostring * gostring) (specs : list rule) : list nf_cmd := Append k.1 k.2 <$> specs.

Definition pr_key (i : gostring) : gostring * gostring := (#"nat", prChain i).
Definition eg_key (i : gostring) : gostring * gostring := (#"filter", egChain i).
Definition PREROUTING : gostring * gostring := (#"nat", #"PREROUTING").
Definition INPUT : gostring * gostring := (#"filter", #"INPUT").
Definition FORWARD : gostring * gostring := (#"filter", #"FORWARD").

Definition install_cmds (i : gostring) : list nf_cmd :=
  reset_cmds (pr_key i) ++ hook_cmds PREROUTING (jump prChain i) ++ fill_cmds (pr_key i) pr_rules
  ++ reset_cmds (eg_key i) ++ hook_cmds INPUT (jump egChain i) ++ hook_cmds FORWARD (jump egChain i)
  ++ fill_cmds (eg_key i) eg_rules.

Definition cleanup_cmds (i : gostring) : list nf_cmd :=
  [DeleteRule #"nat" #"PREROUTING" (jump prChain i); Flush #"nat" (prChain i); DeleteChain #"nat" (prChain i);
   DeleteRule #"filter" #"INPUT" (jump egChain i); DeleteRule #"filter" #"FORWARD" (jump egChain i);
   Flush #"filter" (egChain i); DeleteChain #"filter" (egChain i)].

End Rules.

Lemma install_parsed v6 host http https dns i :
  mapM parse_cmd (buildHostNetfilterRules v6 i host http https dns)
  = Some (install_cmds v6 host http https dns i).
Proof. by destruct v6. Qed.

Lemma cleanup_parsed i : mapM parse_cmd (buildHostCleanupRules i) = Some (cleanup_cmds i).
Proof. done. Qed.

(** The commands a run may pass over when they fail. *)
Definition skippable (c : nf_cmd) : Prop :=
  match c with NewChain _ _ | DeleteChain _ _ | DeleteRule _ _ _ => True | _ => False end.

(** [nf_runs cs t t']: the commands, each with its effect or passed over. *)
Inductive nf_runs : list nf_cmd → Tables → Tables → Prop :=
  | runs_nil t : nf_runs [] t t
  | runs_step c cs t t1 t2 : nf_step c t = Some t1 → nf_runs cs t1 t2 → nf_runs (c :: cs) t t2
  | runs_skip c cs t t2 : skippable c → nf_runs cs t t2 → nf_runs (c :: cs) t t2.

Lemma nf_runs_app cs cs' t t2 :
  nf_runs (cs ++ cs') t t2 ↔ ∃ t1, nf_runs cs t t1 ∧ nf_runs cs' t1 t2.
Proof.
  revert t. induction cs as [|c cs IH]; intros t; cbn [app]; split.
  - intros. exists t. split; [constructor|done].
  - intros (t1 & H1 & H2). by inversion H1; subst.
  - intros Hr. inversion Hr as [|? ? ? t1 ? Hs Hr'|? ? ? ? Hs Hr']; subst;
      apply IH in Hr' as (t3 & Ha & Hb); exists t3; (split; [|done]); [by eapply runs_step|by apply runs_skip].
  - intros (t1 & H1 & H2). inversion H1; subst; [eapply runs_step; [done|]|apply runs_skip; [done|]];
      apply IH; eauto.
Qed.

Lemma reset_effect k t t' : nf_runs (reset_cmds k) t t' → t' = <[k := []]> t.
Proof.
  destruct k as [table chain]. unfold reset_cmds. cbn [fst snd]. intros Hr.
  assert (Hf : ∀ t1, nf_runs [Flush table chain] t1 t' → t' = <[(table, chain) := []]> t1).
  { intros t1 H1. inversion H1 as [|? ? ? t2 ? Hs Hn|? ? ? ? Hs Hn]; subst; [|done]. inversion Hn; subst.
    cbn in Hs. destruct (t1 !! (table, chain)); [|done]. by injection Hs as <-. }
  inversion Hr as [|? ? ? t2 ? Hs Hn|? ? ? ? Hs Hn]; subst; apply Hf in Hn; [|done].
  cbn in Hs. destruct (t !! (table, chain)); [done|]. injection Hs as <-. by rewrite Hn, insert_insert_eq.
Qed.

Lemma fill_effect k specs t t' l :
  nf_runs (fill_cmds k specs) t t' → t !! k = Some l → t' = <[k := l ++ specs]> t.
Proof.
  destruct k as [table chain]. unfold fill_cmds. cbn [fst snd]. revert t l.
  induction specs as [|spec specs IH]; intros t l; cbn [fmap list_fmap]; intros Hr Hl.
  - inversion Hr; subst. rewrite app_nil_r. by rewrite insert_id.
  - inversion Hr as [|? ? ? t1 ? Hs Hn|? ? ? ? Hs Hn]; subst; [|done].
    cbn in Hs. rewrite Hl in Hs. cbn in Hs. destruct (target_known _ _ _); [|done]. injection Hs as <-.
    apply (IH _ (l ++ [spec])) in Hn; [|by rewrite lookup_insert_eq].
    by rewrite Hn, insert_insert_eq, <- app_assoc.
Qed.

(** The jump is put first; an older copy may be removed. *)
Lemma hook_effect k spec t t' :
  nf_runs (hook_cmds k spec) t t' →
  ∃ l l', t !! k = Some l ∧ (l' = l ∨ l' = remove_first spec l) ∧ t' = <[k := spec :: l']> t.
Proof.
  destruct k as [table chain]. unfold hook_cmds. cbn [fst snd]. intros Hr.
  assert (Hi : ∀ t1, nf_runs [InsertFirst table chain spec] t1 t' →
    ∃ l, t1 !! (table, chain) = Some l ∧ t' = <[(table, chain) := spec :: l]> t1).
  { intros t1 H1. inversion H1 as [|? ? ? t2 ? Hs Hn|? ? ? ? Hs Hn]; subst; [|done]. inversion Hn; subst.
    cbn in Hs. destruct (t1 !! (table, chain)) as [l|]; [|done]. cbn in Hs.
    destruct (target_known _ _ _); [|done]. injection Hs as <-. by exists l. }
  inversion Hr as [|? ? ? t2 ? Hs Hn|? ? ? ? Hs Hn]; subst; apply Hi in Hn as (l & Hl & ->).
  - cbn in Hs. destruct (t !! (table, chain)) as [l0|] eqn:E; [|done]. cbn in Hs.
    destruct (mem spec l0); [|done]. injection Hs as <-. rewrite lookup_insert_eq in Hl. injection Hl as <-.
    exists l0, (remove_first spec l0). split_and!; [done|by right|]. by rewrite insert_insert_eq.
  - exists l, l. split_and!; [done|by left|done].
Qed.

(** ** Keys *)

Lemma prChain_inj i j : prChain i = prChain j → i = j.
Proof. unfold prChain. by intros ?%app_inv_head. Qed.
Lemma egChain_inj i j : egChain i = egChain j → i = j.
Proof. unfold egChain. by intros ?%app_inv_head. Qed.
Lemma jump_pr_inj i j : jump prChain i = jump prChain j → i = j.
Proof. by intros [= ?]. Qed.
Lemma jump_eg_inj i j : jump egChain i = jump egChain j → i = j.
Proof. by intros [= ?]. Qed.

Lemma pr_key_inj i j : pr_key i = pr_key j → i = j.
Proof. intros E. by apply prChain_inj, (f_equal snd E). Qed.
Lemma eg_key_inj i j : eg_key i = eg_key j → i = j.
Proof. intros E. by apply egChain_inj, (f_equal snd E). Qed.

(** The chains of the pods are not the hooks. *)
Lemma keys_distinct i j :
  pr_key i ≠ eg_key j ∧ pr_key i ≠ PREROUTING ∧ pr_key i ≠ INPUT ∧ pr_key i ≠ FORWARD ∧
  eg_key i ≠ PREROUTING ∧ eg_key i ≠ INPUT ∧ eg_key i ≠ FORWARD ∧
  PREROUTING ≠ INPUT ∧ PREROUTING ≠ FORWARD ∧ INPUT ≠ FORWARD.
Proof. split_and!; intros E; vm_compute in E; discriminate E. Qed.

(** ** Rules in force *)

(** Not a name that stands for others. *)
Definition plain (i : gostring) : Prop := HasSuffix i #"+" = false.

(** A hook sends the packets of [i] to its chain before any other rule but the
    jumps of other interfaces. *)
Definition first_jump (chain : gostring → gostring) (i : gostring) (o : option (list rule)) : Prop :=
  ∃ pre rest, o = Some (pre ++ jump chain i :: rest) ∧
    Forall (λ r, ∃ j, j ≠ i ∧ plain j ∧ r = jump chain j) pre.

Record installed (v6 : bool) (host http https dns i : gostring) (t : Tables) : Prop := {
  in_pr : t !! pr_key i = Some (pr_rules host http https dns);
  in_eg : t !! eg_key i = Some (eg_rules v6 host http https dns);
  in_prerouting : first_jump prChain i (t !! PREROUTING);
  in_input : first_jump egChain i (t !! INPUT);
  in_forward : first_jump egChain i (t !! FORWARD);
}.

(** The commands of the plugin for the interface [i]. *)
Definition own_cmd (i : gostring) (c : nf_cmd) : Prop :=
  match c with
  | NewChain table chain | Flush table chain | DeleteChain table chain | Append table chain _ =>
      (table, chain) = pr_key i ∨ (table, chain) = eg_key i
  | InsertFirst table chain spec | DeleteRule table chain spec =>
      ((table, chain) = PREROUTING ∧ spec = jump prChain i) ∨
      (((table, chain) = INPUT ∨ (table, chain) = FORWARD) ∧ spec = jump egChain i)
  end.

Lemma own_fill i k specs : k = pr_key i ∨ k = eg_key i → Forall (own_cmd i) (fill_cmds k specs).
Proof. intros Hk. apply Forall_fmap, Forall_forall. intros spec _. by destruct k. Qed.

Ltac own_cmds :=
  repeat (apply Forall_cons; split;
          [first [by left|by right|by right; split; [left|]|by right; split; [right|]]|]); by apply Forall_nil.

Lemma own_install v6 host http https dns i : Forall (own_cmd i) (install_cmds v6 host http https dns i).
Proof.
  unfold install_cmds, reset_cmds, hook_cmds. rewrite !Forall_app.
  split_and!; first [apply own_fill; by (left + right)|own_cmds].
Qed.

Lemma own_cleanup i : Forall (own_cmd i) (cleanup_cmds i).
Proof. own_cmds. Qed.

Definition cmd_key (c : nf_cmd) : gostring * gostring :=
  match c with
  | NewChain table chain | Flush table chain | DeleteChain table chain | Append table chain _
  | InsertFirst table chain _ | DeleteRule table chain _ => (table, chain)
  end.

Lemma nf_step_frame c t t' k : nf_step c t = Some t' → k ≠ cmd_key c → t' !! k = t !! k.
Proof.
  intros Hs Hk. assert (Hk' : cmd_key c ≠ k) by done.
  destruct c as [table chain|table chain|table chain|table chain spec|table chain spec|table chain spec]; cbn in Hs, Hk';
    destruct (t !! (table, chain)) as [l|]; cbn in Hs; try done;
    repeat (case_match; try done); injection Hs as <-; rewrite ?lookup_insert_ne, ?lookup_delete_ne by done; done.
Qed.

(** What a hook command does to the rules of the hook. *)
Lemma nf_step_hook c t t' i :
  nf_step c t = Some t' → own_cmd i c → cmd_key c ≠ pr_key i → cmd_key c ≠ eg_key i →
  ∃ chain l, (cmd_key c = PREROUTING ∧ chain = prChain ∨ (cmd_key c = INPUT ∨ cmd_key c = FORWARD) ∧ chain = egChain) ∧
    t !! cmd_key c = Some l ∧
    (t' !! cmd_key c = Some (jump chain i :: l) ∨ t' !! cmd_key c = Some (remove_first (jump chain i) l)).
Proof.
  intros Hs Ho Hp He.
  destruct c as [table chain|table chain|table chain|table chain spec|table chain spec|table chain spec];
    cbn [cmd_key own_cmd] in *; try (by destruct Ho).
  - cbn in Hs. destruct (t !! (table, chain)) as [l|] eqn:El; cbn in Hs; [|done].
    destruct (target_known _ _ _); [|done]. injection Hs as <-.
    destruct Ho as [[Hk ->]|[Hk ->]]; [exists prChain, l|exists egChain, l];
      (split; [by auto|]); (split; [done|]); left; by rewrite lookup_insert_eq.
  - cbn in Hs. destruct (t !! (table, chain)) as [l|] eqn:El; cbn in Hs; [|done].
    destruct (mem _ _); [|done]. injection Hs as <-.
    destruct Ho as [[Hk ->]|[Hk ->]]; [exists prChain, l|exists egChain, l];
      (split; [by auto|]); (split; [done|]); right; by rewrite lookup_insert_eq.
Qed.

Definition jump_inj (chain : gostring → gostring) : Prop := ∀ i j, jump chain i = jump chain j → i = j.

Lemma first_jump_cons chain i j l :
  i ≠ j → plain i → first_jump chain j (Some l) → first_jump chain j (Some (jump chain i :: l)).
Proof.
  intros Hne Hpl (pre & rest & [= ->] & Hpre). exists (jump chain i :: pre), rest. split; [done|].
  constructor; [|done]. by exists i.
Qed.

Lemma first_jump_remove chain i j l :
  jump_inj chain → i ≠ j → first_jump chain j (Some l) → first_jump chain j (Some (remove_first (jump chain i) l)).
Proof.
  intros Hinj Hne (pre & rest & [= ->] & Hpre).
  rewrite remove_first_app by (intros E; by apply Hne; symmetry; apply Hinj).
  case_decide.
  - exists (remove_first (jump chain i) pre), rest. split; [done|]. by apply Forall_remove_first.
  - by exists pre, (remove_first (jump chain i) rest).
Qed.

Lemma first_jump_step chain i j l o' :
  jump_inj chain → i ≠ j → plain i → first_jump chain j (Some l) →
  o' = Some (jump chain i :: l) ∨ o' = Some (remove_first (jump chain i) l) → first_jump chain j o'.
Proof. intros ? ? ? ? [-> | ->]; [by apply first_jump_cons|by apply first_jump_remove]. Qed.

(** The rules of one pod do not disturb those of another. *)
Lemma own_step_installed v6 host http https dns i j c t t' :
  nf_step c t = Some t' → own_cmd i c → i ≠ j → plain i →
  installed v6 host http https dns j t → installed v6 host http https dns j t'.
Proof.
  intros Hs Ho Hne Hpl [H1 H2 H3 H4 H5].
  destruct (keys_distinct i j) as (D1 & D2 & D3 & D4 & D5 & D6 & D7 & D8 & D9 & D10).
  destruct (keys_distinct j i) as (E1 & E2 & E3 & E4 & E5 & E6 & E7 & _).
  assert (Hpp : pr_key i ≠ pr_key j) by (intros ?%pr_key_inj; done).
  assert (Hee : eg_key i ≠ eg_key j) by (intros ?%eg_key_inj; done).
  pose proof (nf_step_frame c t t') as Hf.
  destruct (decide (cmd_key c = pr_key i)) as [Ek|Hp];
    [|destruct (decide (cmd_key c = eg_key i)) as [Ek|He]].
  - rewrite Ek in Hf. constructor; rewrite Hf by done; done.
  - rewrite Ek in Hf. constructor; rewrite Hf by done; done.
  - destruct (nf_step_hook c t t' i Hs Ho Hp He) as (chain & l & Hk & Hl & Hl').
    assert (Hjp : jump_inj prChain) by (intros ??; apply jump_pr_inj).
    assert (Hje : jump_inj egChain) by (intros ??; apply jump_eg_inj).
    destruct Hk as [[Ek ->]|[[Ek|Ek] ->]]; rewrite Ek in *.
    + constructor; try (rewrite Hf by done; done). rewrite Hl in H3. by eapply first_jump_step.
    + constructor; try (rewrite Hf by done; done). rewrite Hl in H4. by eapply first_jump_step.
    + constructor; try (rewrite Hf by done; done). rewrite Hl in H5. by eapply first_jump_step.
Qed.

Lemma own_runs_installed v6 host http https dns i j cs t t' :
  nf_runs cs t t' → Forall (own_cmd i) cs → i ≠ j → plain i →
  installed v6 host http https dns j t → installed v6 host http https dns j t'.
Proof.
  intros Hr. induction Hr as [t|c cs t t1 t2 Hs Hr IH|c cs t t2 Hs Hr IH]; intros Ho Hne Hpl Hin.
  - done.
  - inversion Ho; subst. apply IH; [done..|]. by eapply own_step_installed.
  - inversion Ho; subst. by apply IH.
Qed.

(** A complete run puts the rules in force. *)
Lemma install_installed v6 host http https dns i t t' :
  nf_runs (install_cmds v6 host http https dns i) t t' → installed v6 host http https dns i t'.
Proof.
  unfold install_cmds. intros Hr.
  apply nf_runs_app in Hr as (t1 & H1%reset_effect & Hr).
  apply nf_runs_app in Hr as (t2 & (l1 & l1' & Hl1 & _ & ->)%hook_effect & Hr).
  apply nf_runs_app in Hr as (t3 & H3 & Hr).
  apply nf_runs_app in Hr as (t4 & H4%reset_effect & Hr).
  apply nf_runs_app in Hr as (t5 & (l2 & l2' & Hl2 & _ & ->)%hook_effect & Hr).
  apply nf_runs_app in Hr as (t6 & (l3 & l3' & Hl3 & _ & ->)%hook_effect & H7).
  destruct (keys_distinct i i) as (D1 & D2 & D3 & D4 & D5 & D6 & D7 & D8 & D9 & D10).
  apply (fill_effect _ _ _ _ []) in H3 as ->.
  2:{ rewrite lookup_insert_ne by done. by rewrite H1, lookup_insert_eq. }
  apply (fill_effect _ _ _ _ []) in H7 as ->.
  2:{ rewrite !lookup_insert_ne by done. by rewrite H4, lookup_insert_eq. }
  subst t4. cbn [app].
  assert (Hj : ∀ chain l, first_jump chain i (Some (jump chain i :: l))) by (intros; by exists [], l).
  constructor; repeat first [rewrite lookup_insert_eq|rewrite lookup_insert_ne by done]; done.
Qed.

(** ** The path of a packet *)

Section Verdicts.
Context (other : gostring → gostring → Packet → bool) (v6 : bool) (host http https dns : gostring).

(** To the portal: its address, and one of its ports. *)
Definition to_portal (p : Packet) : bool :=
  let port s := bool_decide (Atoi s = Some (p_dport p)) in
  bool_decide (ParseIP host = Some (p_dst p)) &&
  ((bool_decide (p_proto p = #"tcp") && (port http || port https || port (dns_port dns)))
   || (bool_decide (p_proto p = #"udp") && port (dns_port dns))).

(** Neighbour and path discovery of IPv6. *)
Definition neighbour (p : Packet) : bool :=
  v6 && bool_decide (p_proto p = #"ipv6-icmp") &&
  existsb (λ n, bool_decide (Atoi n = Some (p_icmp6 p))) icmp6_types.

Definition egress_verdict (p : Packet) : nf_verdict :=
  if p_established p || neighbour p || to_portal p then Accept else Reject.

(** Where a new connection is sent instead. *)
Definition redirected (p : Packet) : option gostring :=
  if bool_decide (p_proto p = #"tcp") && bool_decide (p_dport p = 80%Z) then Some (JoinHostPort host http)
  else if bool_decide (p_proto p = #"tcp") && bool_decide (p_dport p = 443%Z) then Some (JoinHostPort host https)
  else if (bool_decide (p_proto p = #"udp") || bool_decide (p_proto p = #"tcp")) && bool_decide (p_dport p = 53%Z)
  then Some (JoinHostPort host (dns_port dns))
  else None.

Lemma matches_allow h proto port p :
  rule_matches other (allow h proto port) p
  = bool_decide (ParseIP h = Some (p_dst p)) && (bool_decide (proto = p_proto p)
    && (bool_decide (Atoi port = Some (p_dport p)) && true)).
Proof. reflexivity. Qed.
Lemma matches_dnat proto port dest p :
  rule_matches other (dnat proto port dest) p
  = bool_decide (proto = p_proto p) && (bool_decide (Atoi port = Some (p_dport p)) && true).
Proof. reflexivity. Qed.
Lemma matches_icmp6 n p :
  rule_matches other (allow_icmp6 n) p
  = bool_decide (#"ipv6-icmp" = p_proto p) && (bool_decide (Atoi n = Some (p_icmp6 p)) && true).
Proof. reflexivity. Qed.
Lemma matches_jump chain i p : rule_matches other (jump chain i) p = iface_matches i (p_iif p) && true.
Proof. reflexivity. Qed.

(** The rules that accept, as one test. *)
Lemma eval_accepts enter accepts rules p :
  Forall (λ r, apply_target enter r = Accept) accepts →
  eval_rules other enter (accepts ++ rules) p
  = if existsb (λ r, rule_matches other r p) accepts then Accept else eval_rules other enter rules p.
Proof.
  induction 1 as [|r accepts Hr _ IH]; cbn [app eval_rules existsb]; [done|].
  destruct (rule_matches other r p); cbn [orb]; [by rewrite Hr|done].
Qed.

(** The rules that end the chain. *)
Lemma eval_rejects enter p :
  eval_rules other enter [ [ #"-p"; #"tcp"] ++ reject_with v6; [ #"-p"; #"udp"] ++ reject_with v6; reject_with v6] p
  = Reject.
Proof.
  assert (Ht : ∀ pre, pre ∈ [ []; [ #"-p"; #"tcp"]; [ #"-p"; #"udp"]] →
    apply_target enter (pre ++ reject_with v6) = Reject).
  { intros pre. rewrite !elem_of_cons, elem_of_nil. intros [->|[->|[->|[]]]]; reflexivity. }
  cbn [eval_rules]. rewrite (Ht [ #"-p"; #"tcp"]), (Ht [ #"-p"; #"udp"]) by (rewrite !elem_of_cons; auto).
  rewrite (Ht [] ltac:(by left) : apply_target enter (reject_with v6) = Reject).
  assert (rule_matches other (reject_with v6) p = true) as -> by reflexivity.
  by do 2 (match goal with |- context [rule_matches other ?r p] => destruct (rule_matches other r p) end; [done|]).
Qed.

Lemma eval_eg enter p : eval_rules other enter (eg_rules v6 host http https dns) p = egress_verdict p.
Proof.
  unfold eg_rules. rewrite app_comm_cons, app_assoc, eval_accepts.
  2:{ destruct v6; repeat constructor. }
  assert (existsb (λ r, rule_matches other r p)
    ((established :: (if v6 then allow_icmp6 <$> icmp6_types else [])) ++
     [allow host #"tcp" http; allow host #"tcp" https; allow host #"udp" (dns_port dns); allow host #"tcp" (dns_port dns)])
    = p_established p || neighbour p || to_portal p) as ->.
  { rewrite existsb_app. f_equal.
    - cbn [existsb]. f_equal; [apply andb_true_r|]. unfold neighbour. destruct v6; [|done].
      assert (Hmap : ∀ ns, existsb (λ r, rule_matches other r p) (allow_icmp6 <$> ns)
        = bool_decide (#"ipv6-icmp" = p_proto p) && existsb (λ n, bool_decide (Atoi n = Some (p_icmp6 p))) ns).
      { induction ns as [|n ns IH]; [by rewrite andb_false_r|]. cbn [fmap list_fmap existsb].
        rewrite matches_icmp6, andb_true_r. fold (fmap (M := list) allow_icmp6 ns).
        rewrite IH. by destruct (bool_decide (#"ipv6-icmp" = _)). }
      rewrite Hmap. cbn [andb]. f_equal. apply bool_decide_ext. done.
    - cbn [existsb]. rewrite !matches_allow, !andb_true_r, orb_false_r. unfold to_portal.
      rewrite (bool_decide_ext (#"tcp" = p_proto p) (p_proto p = #"tcp")) by done.
      rewrite (bool_decide_ext (#"udp" = p_proto p) (p_proto p = #"udp")) by done.
      destruct (bool_decide (ParseIP host = _)), (bool_decide (p_proto p = #"tcp")), (bool_decide (p_proto p = #"udp")),
        (bool_decide (Atoi http = _)), (bool_decide (Atoi https = _)), (bool_decide (Atoi (dns_port dns) = _)); done. }
  unfold egress_verdict. destruct (_ || _ || to_portal p); [done|]. apply eval_rejects.
Qed.

Lemma eval_pr enter p :
  eval_rules other enter (pr_rules host http https dns) p
  = match redirected p with Some dest => Dnat dest | None => FallThrough end.
Proof.
  unfold pr_rules. cbn [eval_rules]. rewrite !matches_dnat, !andb_true_r. unfold redirected.
  assert (Hd : ∀ proto port dest, apply_target enter (dnat proto port dest) = Dnat dest) by reflexivity.
  rewrite !Hd.
  assert (Hport : ∀ s n, Atoi s = Some n → bool_decide (Atoi s = Some (p_dport p)) = bool_decide (p_dport p = n)).
  { intros s n ->. apply bool_decide_ext. split; [by intros [= ->]|by intros ->]. }
  rewrite (Hport #"80" 80%Z), (Hport #"443" 443%Z), (Hport #"53" 53%Z) by reflexivity.
  rewrite (bool_decide_ext (#"tcp" = p_proto p) (p_proto p = #"tcp")) by done.
  rewrite (bool_decide_ext (#"udp" = p_proto p) (p_proto p = #"udp")) by done.
  destruct (bool_decide (p_proto p = #"tcp")), (bool_decide (p_proto p = #"udp")),
    (bool_decide (p_dport p = 80%Z)), (bool_decide (p_dport p = 443%Z)), (bool_decide (p_dport p = 53%Z)); done.
Qed.

Lemma eval_hook fuel t table hook (chain : gostring → gostring) i rules p :
  first_jump chain i (t !! (table, hook)) → plain i → p_iif p = i →
  t !! (table, chain i) = Some rules →
  (∀ enter, apply_target enter (jump chain i) = enter (chain i)) →
  eval_rules other (eval_chain other fuel t table p) rules p ≠ FallThrough →
  eval_chain other (S (S fuel)) t table p hook = eval_rules other (eval_chain other fuel t table p) rules p.
Proof.
  intros (pre & rest & Hk & Hpre) Hpl <- Hr Ht Hv. cbn [eval_chain]. rewrite Hk, eval_rules_skip.
  - cbn [eval_rules]. rewrite matches_jump. unfold iface_matches. rewrite Hpl, bool_decide_eq_true_2 by done.
    cbn [andb]. rewrite Ht, Hr. by destruct (eval_rules _ _ rules p).
  - eapply Forall_impl; [done|]. intros r (j & Hne & Hj & ->). rewrite matches_jump. unfold iface_matches.
    rewrite Hj. by rewrite bool_decide_eq_false_2.
Qed.

Lemma egress_verdict_final p : egress_verdict p ≠ FallThrough.
Proof. unfold egress_verdict. by destruct (_ || _). Qed.

(** With the rules in force the hooks treat the packets of the interface as
    specified. *)
Lemma installed_verdicts fuel i t p :
  installed v6 host http https dns i t → plain i → p_iif p = i →
  eval_chain other (S (S fuel)) t #"filter" p #"INPUT" = egress_verdict p ∧
  eval_chain other (S (S fuel)) t #"filter" p #"FORWARD" = egress_verdict p ∧
  ∀ dest, redirected p = Some dest → eval_chain other (S (S fuel)) t #"nat" p #"PREROUTING" = Dnat dest.
Proof.
  intros [H1 H2 H3 H4 H5] Hpl Hi. pose proof (egress_verdict_final p) as Hf. split_and!.
  - rewrite (eval_hook fuel t #"filter" #"INPUT" egChain i _ p H4 Hpl Hi H2); rewrite ?eval_eg; done.
  - rewrite (eval_hook fuel t #"filter" #"FORWARD" egChain i _ p H5 Hpl Hi H2); rewrite ?eval_eg; done.
  - intros dest Hd.
    rewrite (eval_hook fuel t #"nat" #"PREROUTING" prChain i _ p H3 Hpl Hi H1); rewrite ?eval_pr, ?Hd; done.
Qed.
End Verdicts.

(** ** Effects on the host *)

Lemma tolerated_skippable `{Unicode} args c out :
  parse_cmd args = Some c → tolerated args out = true → skippable c.
Proof.
  unfold parse_cmd, tolerated. destruct args as [|t [|table [|cmd [|chain spec]]]]; try done.
  destruct (negb _); [done|].
  destruct (decide (cmd = #"-N")) as [->|Hn]; [destruct spec; [cbn; by intros [= <-]|done]|rewrite (bool_decide_eq_false_2 _ Hn)].
  destruct (decide (cmd = #"-F")) as [->|Hf]; [done|rewrite (bool_decide_eq_false_2 _ Hf)].
  destruct (decide (cmd = #"-X")) as [->|Hx]; [destruct spec; [cbn; by intros [= <-]|done]|rewrite (bool_decide_eq_false_2 _ Hx)].
  destruct (decide (cmd = #"-A")) as [->|Ha]; [done|rewrite (bool_decide_eq_false_2 _ Ha)].
  destruct (decide (cmd = #"-D")) as [->|Hd]; [cbn; by intros [= <-]|rewrite (bool_decide_eq_false_2 _ Hd)].
  by cbn.
Qed.

Section Host.
Context `{Unicode} {W : Type} (exec : gostring → list gostring → W → cmd_result * W)
        (tables : bool → W → Tables) `{!Netfilter exec tables}.

(** The program is installed. *)
Definition present (v6 : bool) : Prop := ∀ args w, (exec (binary v6) args w).1 ≠ CmdNotFound.

(** Nothing changes in the packet filter. *)
Definition same_tables (w w' : W) : Prop := ∀ v6, tables v6 w' = tables v6 w.
#[global] Instance same_tables_refl : Reflexive same_tables.
Proof. by intros w v6. Qed.
#[global] Instance same_tables_trans : Transitive same_tables.
Proof. intros w1 w2 w3 H1 H2 v6. by rewrite H2, H1. Qed.

(** Any run, complete or not, has the effects of the commands it got to, on
    its own tables. *)
Lemma run_effects v6 cmds cs w :
  mapM parse_cmd cmds = Some cs →
  let '(r, w') := runNetfilter exec v6 cmds w in
  ∃ cs1 cs2, cs = cs1 ++ cs2 ∧ nf_runs cs1 (tables v6 w) (tables v6 w') ∧
    tables (negb v6) w' = tables (negb v6) w ∧ (present v6 → is_ok r = true → cs2 = []).
Proof.
  revert cs w. induction cmds as [|args cmds IH]; intros cs w.
  { intros [= <-]. exists [], []. split_and!; [done|constructor|done|done]. }
  intros (c & cs' & Hc & Hcs%mapM_Some_2 & ->)%mapM_Some_1%Forall2_cons_inv_l. cbn [runNetfilter].
  change (binary_name v6) with (binary v6).
  destruct (exec (binary v6) args w) as [r w1] eqn:Ee. pose proof (nf_frame v6 args w r w1 Ee) as Hfr.
  destruct r as [out| |out].
  - destruct (nf_ok v6 args w out w1 Ee) as (c' & Hc' & Hs). replace c' with c in * by congruence.
    specialize (IH cs' w1 Hcs). destruct (runNetfilter exec v6 cmds w1) as [r w'].
    destruct IH as (cs1 & cs2 & -> & Hr & Hf & Hp). exists (c :: cs1), cs2.
    split_and!; [done|by eapply runs_step|congruence|done].
  - exists [], (c :: cs'). split_and!; [done| |done|].
    + rewrite (nf_not_found v6 args w w1 Ee). constructor.
    + intros Hp. exfalso. apply (Hp args w). by rewrite Ee.
  - rewrite <- (nf_failed v6 args w out w1 Ee). destruct (tolerated args out) eqn:Et.
    + specialize (IH cs' w1 Hcs). destruct (runNetfilter exec v6 cmds w1) as [r w'].
      destruct IH as (cs1 & cs2 & -> & Hr & Hf & Hp). exists (c :: cs1), cs2.
      split_and!; [done| |congruence|done]. apply runs_skip; [|done]. by eapply tolerated_skippable.
    + exists [], (c :: cs'). split_and!; [done|constructor|done|done].
Qed.

(** A run for one interface leaves the rules of another in force, even when it
    fails half way. *)
Definition keeps_installed (host : bool → gostring) (http https dns j : gostring) (w w' : W) : Prop :=
  ∀ v6, installed v6 (host v6) http https dns j (tables v6 w) →
        installed v6 (host v6) http https dns j (tables v6 w').
#[global] Instance keeps_installed_refl host http https dns j : Reflexive (keeps_installed host http https dns j).
Proof. by intros w v6. Qed.
#[global] Instance keeps_installed_trans host http https dns j : Transitive (keeps_installed host http https dns j).
Proof. intros w1 w2 w3 H1 H2 v6 Hin. by apply H2, H1. Qed.

Lemma run_keeps host http https dns i j v6 cmds cs :
  mapM parse_cmd cmds = Some cs → Forall (own_cmd i) cs → i ≠ j → plain i →
  io_step (keeps_installed host http https dns j) (runNetfilter exec v6 cmds).
Proof.
  intros Hcs Ho Hne Hpl w. pose proof (run_effects v6 cmds cs w Hcs) as Hr.
  destruct (runNetfilter exec v6 cmds w) as [r w']. destruct Hr as (cs1 & cs2 & -> & Hr & Hfr & _).
  intros v Hin. cbn [snd]. destruct (decide (v = v6)) as [->|Hv].
  - apply Forall_app in Ho as [Ho _]. by eapply own_runs_installed.
  - assert (v = negb v6) as -> by (by destruct v, v6). by rewrite Hfr.
Qed.

Lemma same_keeps host http https dns j w w' : same_tables w w' → keeps_installed host http https dns j w w'.
Proof. intros Hs v6. by rewrite Hs. Qed.
End Host.

Lemma on_host_ok {W A} (m : io W nri_err A) w s a w' s' :
  on_host m (w, s) = (Ok a, (w', s')) ↔ m w = (Ok a, w') ∧ s' = s.
Proof. unfold on_host. destruct (m w). naive_solver. Qed.

(** ** What the host sees of each function

    Any relation the commands, the exchanges and the waits respect is
    respected by the functions made of them. *)
Section Frames.
Context `{Unicode} {W : Type} (exec : gostring → list gostring → W → cmd_result * W)
        (InterfaceByIndex : Z → W → option gostring)
        (InterfaceAddrs : W → option (list (option IP)))
        (Stat : gostring → W → option Z)
        (Do : admin_call → W → option (Z * option bytes) * W)
        (Wait : W → bool * W)
        (Marshal : payload → option bytes)
        (valid_url : gostring → bool) (cfg : pluginConfig).
Context (R : W → W → Prop) `{!Reflexive R} `{!Transitive R}.

(** The commands that are not iptables. *)
Definition queries_respect : Prop :=
  ∀ bin args w, bin ≠ binary true → bin ≠ binary false → R w (exec bin args w).2.

Lemma ip_command_step bin args e :
  queries_respect → bin ≠ binary true → bin ≠ binary false → io_step R (ip_command exec bin args e).
Proof.
  intros Hq H1 H2 w. unfold ip_command. specialize (Hq bin args w H1 H2).
  destruct (exec bin args w) as [[] w']; exact Hq.
Qed.

Ltac io_steps :=
  repeat first [apply io_step_if|apply io_step_ret|apply io_step_gets|apply io_step_throw|apply io_step_lift
               |apply io_step_attempt|apply io_step_map_err|apply ip_command_step; done
               |apply io_step_bind; [..|intros]|progress case_match|typeclasses eauto].

Lemma DiscoverPodIPs_step ips netns : queries_respect → io_step R (DiscoverPodIPs exec ips netns).
Proof.
  intros Hq. unfold DiscoverPodIPs. destruct (given_ips ips [] []) as [v4 v6]. unfold nsenter. io_steps.
Qed.

Lemma FindHostInterface_step ips netns : queries_respect → io_step R (FindHostInterface exec InterfaceByIndex ips netns).
Proof.
  intros Hq. unfold FindHostInterface, nsenter. repeat first [apply DiscoverPodIPs_step; done|progress io_steps].
Qed.

Lemma findNetnsPath_step pod : io_step R (findNetnsPath Stat pod).
Proof.
  unfold findNetnsPath. destruct (pod ≫= Linux) as [nss|]; [|io_steps].
  destruct (head _) as [ns|]; [|io_steps]. intros w. repeat case_match; reflexivity.
Qed.

Lemma findHostInterface_step pod netns :
  queries_respect → io_step R (findHostInterface exec InterfaceByIndex pod netns).
Proof. intros Hq. by apply io_step_map_err, FindHostInterface_step. Qed.

Lemma DiscoverNodeIPv6_step w : queries_respect → R w (DiscoverNodeIPv6 exec InterfaceAddrs w).2.
Proof.
  intros Hq. unfold DiscoverNodeIPv6.
  specialize (Hq #"ip" [ #"-o"; #"-6"; #"addr"; #"show"; #"scope"; #"global"] w ltac:(done) ltac:(done)).
  destruct (exec #"ip" _ w) as [r w']. cbn [snd] in Hq. destruct (negb _); [done|]. by destruct (InterfaceAddrs w').
Qed.

Lemma cleanup_interface_step pod found :
  queries_respect → io_step R (cleanup_interface exec InterfaceByIndex Stat pod found).
Proof.
  intros Hq. unfold cleanup_interface. destruct found; [io_steps|].
  apply io_step_bind; [done..| |intros _ r _ _; repeat case_match; io_steps].
  apply io_step_attempt, io_step_bind; [done..|apply findNetnsPath_step|].
  intros _ netns _ _. by apply findHostInterface_step.
Qed.

Lemma notify_step method path p :
  (∀ c w, R w (Do c w).2) → (∀ w, R w (Wait w).2) →
  io_step R (notifyPodUpdate Do Wait Marshal valid_url cfg method path p).
Proof.
  intros Do_R Wait_R. unfold notifyPodUpdate. apply io_step_if; [io_steps|].
  destruct (match p with None => _ | _ => _ end) as [data|]; [|io_steps].
  generalize 3 as n. intros n. set (call := mkCall _ _ _ _). clearbody call.
  induction n as [|n IH]; intros w; [done|]. cbn [notify_attempts].
  destruct (negb _); [done|]. pose proof (Do_R call w) as Hd.
  destruct (Do call w) as [[[code body]|] w1]; cbn [snd] in Hd; [by destruct (ok_status code)|].
  pose proof (Wait_R w1) as Hw. destruct (Wait w1) as [ended w2]; cbn [snd] in Hw.
  destruct ended; [by etrans|]. etrans; [|apply IH]. by etrans.
Qed.

Lemma runNetfilter_step v6 cmds : (∀ bin args w, R w (exec bin args w).2) → io_step R (runNetfilter exec v6 cmds).
Proof.
  intros He. induction cmds as [|args cmds IH]; intros w; [done|]. cbn [runNetfilter].
  specialize (He (binary_name v6) args w). destruct (exec _ args w) as [r w1]. cbn [snd] in He.
  destruct r; [etrans; [done|apply IH]|done|]. destruct (tolerated _ _); [etrans; [done|apply IH]|done].
Qed.

Lemma configure_step pod :
  (∀ bin args w, R w (exec bin args w).2) →
  ∀ w s, R w (configurePod exec InterfaceByIndex InterfaceAddrs Stat cfg pod (w, s)).2.1.
Proof.
  intros He. set (R' := λ x y : W * plugin_state, R x.1 y.1).
  assert (Reflexive R') by (intros x; unfold R'; reflexivity).
  assert (Transitive R') by (intros x y z H1 H2; by apply (transitivity (R := R) (y := y.1))).
  assert (Hq : queries_respect) by (by intros bin args w _ _).
  assert (Hh : ∀ {A} (m : io W nri_err A), io_step R m → io_step R' (on_host m)).
  { intros A m Hm [w s]. specialize (Hm w). unfold on_host, R'. by destruct (m w). }
  assert (Hs : ∀ {A} (f : plugin_state → A * plugin_state), io_step R' (on_state f)).
  { intros A f [w s]. unfold on_state, R'. destruct (f s). reflexivity. }
  intros w s. change (R' (w, s) (configurePod exec InterfaceByIndex InterfaceAddrs Stat cfg pod (w, s)).2).
  generalize (w, s) as x. clear w s. change (io_step R' (configurePod exec InterfaceByIndex InterfaceAddrs Stat cfg pod)).
  assert (H6 : ∀ i, io_step R (installHostIp6tablesRules exec InterfaceAddrs cfg i)).
  { intros i. unfold installHostIp6tablesRules. apply io_step_bind; [done..| |].
    - apply io_step_if; [|io_steps]. intros w. pose proof (DiscoverNodeIPv6_step w Hq). by destruct (DiscoverNodeIPv6 _ _ w).
    - intros _ host6 _ _. apply io_step_if; [io_steps|by apply runNetfilter_step]. }
  unfold configurePod.
  repeat first [apply Hs|apply Hh, findNetnsPath_step|apply Hh, findHostInterface_step; done
               |apply Hh, io_step_map_err, DiscoverPodIPs_step; done|apply Hh, runNetfilter_step; done|apply Hh, H6
               |apply io_step_if|apply io_step_ret|apply io_step_lift
               |apply io_step_bind; [..|intros]|progress case_match|done].
Qed.
End Frames.

(** ** Events *)

Section Events.
Context `{Unicode} {W : Type} (exec : gostring → list gostring → W → cmd_result * W)
        (tables : bool → W → Tables) `{!Netfilter exec tables}.
Context (InterfaceByIndex : Z → W → option gostring)
        (InterfaceAddrs : W → option (list (option IP)))
        (Stat : gostring → W → option Z)
        (Do : admin_call → W → option (Z * option bytes) * W)
        (Wait : W → bool * W)
        (Marshal : payload → option bytes)
        (valid_url : gostring → bool) (cfg : pluginConfig).

(** The admin API is not the packet filter. *)
Hypothesis Do_same : ∀ c w, same_tables tables w (Do c w).2.
Hypothesis Wait_same : ∀ w, same_tables tables w (Wait w).2.

Abbreviation same := (same_tables tables).
Abbreviation configure := (configurePod exec InterfaceByIndex InterfaceAddrs Stat cfg).
Abbreviation cleanup := (cleanupPod exec InterfaceByIndex Stat Do Wait Marshal valid_url cfg).
Abbreviation run_pod := (RunPodSandbox exec InterfaceByIndex InterfaceAddrs Stat Do Wait Marshal valid_url cfg).
Abbreviation stop_pod := (StopPodSandbox exec InterfaceByIndex Stat Do Wait Marshal valid_url cfg).

Lemma queries_same : queries_respect exec same.
Proof.
  intros bin args w H1 H2 v6. destruct (exec bin args w) as [r w'] eqn:E. by eapply nf_other.
Qed.

Lemma DiscoverPodIPs_same ips netns : io_step same (DiscoverPodIPs exec ips netns).
Proof. apply DiscoverPodIPs_step; [typeclasses eauto..|apply queries_same]. Qed.
Lemma findNetnsPath_same pod : io_step same (findNetnsPath Stat pod).
Proof. apply findNetnsPath_step. typeclasses eauto. Qed.
Lemma findHostInterface_same pod netns : io_step same (findHostInterface exec InterfaceByIndex pod netns).
Proof. apply findHostInterface_step; [typeclasses eauto..|apply queries_same]. Qed.
Lemma DiscoverNodeIPv6_same w : same w (DiscoverNodeIPv6 exec InterfaceAddrs w).2.
Proof. apply DiscoverNodeIPv6_step; [typeclasses eauto..|apply queries_same]. Qed.
Lemma cleanup_interface_same pod found : io_step same (cleanup_interface exec InterfaceByIndex Stat pod found).
Proof. apply cleanup_interface_step; [typeclasses eauto..|apply queries_same]. Qed.
Lemma notify_same method path p : io_step same (notifyPodUpdate Do Wait Marshal valid_url cfg method path p).
Proof. apply notify_step; [typeclasses eauto..|apply Do_same|apply Wait_same]. Qed.

(** Running the rules of one interface. *)
Lemma install4_ok i w w' :
  present exec false → installHostIptablesRules exec cfg i w = (Ok (), w') →
  installed false (proxyHost cfg) (proxyPort cfg) (proxyHTTPSPort cfg) (proxyDNSPort cfg) i (tables false w') ∧
  tables true w' = tables true w.
Proof.
  intros Hp Hrun. unfold installHostIptablesRules, buildHostIptablesRules in Hrun.
  pose proof (run_effects exec tables false _ _ w (install_parsed false (proxyHost cfg) (proxyPort cfg)
    (proxyHTTPSPort cfg) (proxyDNSPort cfg) i)) as He.
  rewrite Hrun in He. destruct He as (cs1 & cs2 & Heq & Hr & Hf & Hc).
  rewrite (Hc Hp eq_refl), app_nil_r in Heq. subst cs1. split; [by eapply install_installed|done].
Qed.

Lemma install6_ok i w w' :
  present exec true → installHostIp6tablesRules exec InterfaceAddrs cfg i w = (Ok (), w') →
  (∃ host6, host6 ≠ [] ∧ (proxyHostV6 cfg ≠ [] → host6 = proxyHostV6 cfg) ∧
    installed true host6 (proxyPort cfg) (proxyHTTPSPort cfg) (proxyDNSPort cfg) i (tables true w')) ∧
  tables false w' = tables false w.
Proof.
  intros Hp Hrun. unfold installHostIp6tablesRules in Hrun.
  apply io_bind_ok in Hrun as (host6 & w1 & Hhost & Hrun).
  assert (Hw : same w w1 ∧ (proxyHostV6 cfg ≠ [] → host6 = proxyHostV6 cfg)).
  { clear Hrun. case_bool_decide.
    - pose proof (DiscoverNodeIPv6_same w) as Hs. destruct (DiscoverNodeIPv6 _ _ w). by injection Hhost as <- <-.
    - by injection Hhost as <- <-. }
  destruct Hw as [Hw Hh]. case_bool_decide; [done|]. unfold buildHostIp6tablesRules in Hrun.
  pose proof (run_effects exec tables true _ _ w1 (install_parsed true host6 (proxyPort cfg)
    (proxyHTTPSPort cfg) (proxyDNSPort cfg) i)) as He.
  rewrite Hrun in He. destruct He as (cs1 & cs2 & Heq & Hr & Hf & Hc).
  rewrite (Hc Hp eq_refl), app_nil_r in Heq. subst cs1. cbn [negb] in Hf.
  split; [|by rewrite Hf, Hw].
  exists host6. split_and!; [done..|]. by eapply install_installed.
Qed.

(** What the state remembers of a pod holds of the host. *)
Definition confined (st : podNetworkState) (w : W) : Prop :=
  installed false (proxyHost cfg) (proxyPort cfg) (proxyHTTPSPort cfg) (proxyDNSPort cfg) (hostInterface st)
    (tables false w) ∧
  (isDualStack st = true → ∃ host6, host6 ≠ [] ∧ (proxyHostV6 cfg ≠ [] → host6 = proxyHostV6 cfg) ∧
    installed true host6 (proxyPort cfg) (proxyHTTPSPort cfg) (proxyDNSPort cfg) (hostInterface st) (tables true w)).

Lemma confined_same st w w' : same w w' → confined st w → confined st w'.
Proof. unfold confined. intros Hs. by rewrite !Hs. Qed.

Lemma configure_ok pod w s w' s' :
  present exec false → present exec true →
  configure pod (w, s) = (Ok (), (w', s')) →
  ∃ st, s' = set_pod (Id pod) st s ∧ confined st w'.
Proof.
  intros Hp4 Hp6 Hrun. unfold configurePod in Hrun.
  apply io_bind_ok in Hrun as (? & [w0 s0] & [= _ <- <-] & Hrun).
  apply io_bind_ok in Hrun as (netns & [w1 s1] & (Hn & ->)%on_host_ok & Hrun).
  apply io_bind_ok in Hrun as ([i v4'] & [w2 s2] & (Hi & ->)%on_host_ok & Hrun).
  apply io_bind_ok in Hrun as ([v4 v6] & [w3 s3] & (Hd & ->)%on_host_ok & Hrun).
  apply io_bind_ok in Hrun as ([] & [w4 s4] & (Hinst & ->)%on_host_ok & Hrun).
  apply io_bind_ok in Hrun as ([] & [w5 s5] & Hinst6 & [= <- <-]).
  apply install4_ok in Hinst as [H4 _]; [|done].
  destruct (bool_decide (v6 = [])) eqn:E6; cbn [negb] in Hinst6.
  - injection Hinst6 as <- <-. eexists. split; [reflexivity|]. by split.
  - apply on_host_ok in Hinst6 as [H6 ->]. apply install6_ok in H6 as [H6 Hs]; [|done].
    eexists. split; [reflexivity|]. split; [|by intros _]. by rewrite Hs.
Qed.

(** *** Other pods

    The pod with identifier [id], whose state is [st], against the events of
    pods whose interface is another. *)
Section Others.
Context (id : gostring) (st : podNetworkState).

Definition other_interface (i : gostring) : Prop := i ≠ hostInterface st ∧ plain i.
Definition elsewhere (pod : PodSandbox) : Prop :=
  Id pod ≠ id ∧ ∀ netns w0 w1 w i v4 w',
    findNetnsPath Stat (Some pod) w0 = (Ok netns, w1) →
    findHostInterface exec InterfaceByIndex (Some pod) netns w = (Ok (i, v4), w') → other_interface i.

Definition state_inv (s : plugin_state) : Prop :=
  pods s !! id = Some st ∧ ∀ id' st', id' ≠ id → pods s !! id' = Some st' → other_interface (hostInterface st') .
Definition pod_inv (x : W * plugin_state) : Prop := confined st x.1 ∧ state_inv x.2.

Definition io_inv {A} (m : io (W * plugin_state) nri_err A) : Prop := ∀ x, pod_inv x → pod_inv (m x).2.

Lemma io_inv_bind {A B} (m : io (W * plugin_state) nri_err A) (f : A → io (W * plugin_state) nri_err B) :
  io_inv m → (∀ x a x', pod_inv x → m x = (Ok a, x') → io_inv (f a)) → io_inv (m ≫= f).
Proof.
  intros Hm Hf x Hx. specialize (Hm x Hx). unfold mbind, io_bind.
  destruct (m x) as [[a|e|p] x'] eqn:Em; cbn [snd] in *; try done. by apply (Hf x a x').
Qed.
Lemma io_inv_ret {A} (a : A) : io_inv (mret a).
Proof. by intros x. Qed.
Lemma io_inv_throw {A} e : io_inv (throw (A := A) e).
Proof. by intros x. Qed.
Lemma io_inv_lift {A} (m : outcome nri_err A) : io_inv (lift m).
Proof. by intros x. Qed.
Lemma io_inv_attempt {A} (m : io (W * plugin_state) nri_err A) : io_inv m → io_inv (attempt (F := nri_err) m).
Proof. intros Hm x Hx. specialize (Hm x Hx). unfold attempt. by destruct (m x) as [[] ?]. Qed.
Lemma io_inv_if {A} (b : bool) (m1 m2 : io (W * plugin_state) nri_err A) :
  io_inv m1 → io_inv m2 → io_inv (if b then m1 else m2).
Proof. by destruct b. Qed.

Definition keeps (w w' : W) : Prop := confined st w → confined st w'.
#[local] Instance keeps_refl : Reflexive keeps.
Proof. intros w Hc. exact Hc. Qed.
#[local] Instance keeps_trans : Transitive keeps.
Proof. intros w1 w2 w3 H1 H2 Hc. by apply H2, H1. Qed.

Lemma io_inv_host {A} (m : io W nri_err A) : io_step keeps m → io_inv (on_host m).
Proof.
  intros Hm [w s] [Hc Hs]. specialize (Hm w Hc). unfold on_host. destruct (m w) as [r w']. by split.
Qed.
Lemma io_inv_same {A} (m : io W nri_err A) : io_step same m → io_inv (on_host m).
Proof. intros Hm. apply io_inv_host. intros w Hc. eapply confined_same; [apply Hm|done]. Qed.
Lemma io_inv_state {A} (f : plugin_state → A * plugin_state) :
  (∀ s, state_inv s → state_inv (f s).2) → io_inv (on_state f).
Proof. intros Hf [w s] [Hc Hs]. specialize (Hf s Hs). unfold on_state. by destruct (f s). Qed.

Lemma run_confined i v6 cmds cs :
  mapM parse_cmd cmds = Some cs → Forall (own_cmd i) cs → other_interface i →
  io_step keeps (runNetfilter exec v6 cmds).
Proof.
  intros Hcs Ho [Hne Hpl] w [H4 H6].
  assert (Hk : ∀ host, keeps_installed tables host (proxyPort cfg) (proxyHTTPSPort cfg) (proxyDNSPort cfg)
    (hostInterface st) w (runNetfilter exec v6 cmds w).2) by (intros host; by eapply run_keeps).
  split.
  - by apply (Hk (λ _, proxyHost cfg) false).
  - intros Hd. destruct (H6 Hd) as (host6 & ? & ? & Hin). exists host6. split_and!; [done..|].
    by apply (Hk (λ _, host6) true).
Qed.

Lemma install4_keeps i : other_interface i → io_step keeps (installHostIptablesRules exec cfg i).
Proof. intros Hi. eapply run_confined; [apply install_parsed|apply own_install|done]. Qed.

Lemma install6_keeps i : other_interface i → io_step keeps (installHostIp6tablesRules exec InterfaceAddrs cfg i).
Proof.
  intros Hi. unfold installHostIp6tablesRules. apply io_step_bind; [typeclasses eauto..| |].
  - apply io_step_if; [|apply io_step_ret; typeclasses eauto]. intros w. pose proof (DiscoverNodeIPv6_same w) as Hs.
    destruct (DiscoverNodeIPv6 _ _ w). intros Hc. by eapply confined_same.
  - intros _ host6 _ _. apply io_step_if; [apply io_step_throw; typeclasses eauto|].
    eapply run_confined; [apply install_parsed|apply own_install|done].
Qed.

Lemma remove_keeps i : other_interface i → io_step keeps (removeHostIptablesRules exec i).
Proof.
  intros Hi. apply io_step_bind; [typeclasses eauto..| |intros _ _ _ _];
    (eapply run_confined; [apply cleanup_parsed|apply own_cleanup|done]).
Qed.

Lemma set_pod_inv id' st' s : id' ≠ id → other_interface (hostInterface st') → state_inv s → state_inv (set_pod id' st' s).
Proof.
  intros Hne Ho [H1 H2]. split; cbn [pods set_pod].
  - by rewrite lookup_insert_ne.
  - intros id'' st''. rewrite lookup_insert. case_decide; [by intros _ [= <-]|]. apply H2.
Qed.

Lemma configure_inv pod : elsewhere pod → io_inv (configure pod).
Proof.
  intros [Hid He]. unfold configurePod.
  apply io_inv_bind; [apply io_inv_lift|intros _ _ _ _ _].
  apply io_inv_bind; [apply io_inv_same, findNetnsPath_same|intros [w0 s0] netns [w1 s1] _ Hn].
  apply on_host_ok in Hn as [Hn _].
  apply io_inv_bind; [apply io_inv_same, findHostInterface_same|intros [w s] [i v4'] [w' s'] _ Hrun].
  apply on_host_ok in Hrun as [Hi _]. apply (He _ _ _ _ _ _ _ Hn) in Hi.
  apply io_inv_bind; [apply io_inv_same, io_step_map_err, DiscoverPodIPs_same|intros _ [v4 v6] _ _ _].
  apply io_inv_bind; [by apply io_inv_host, install4_keeps|intros _ _ _ _ _].
  apply io_inv_bind; [apply io_inv_if; [by apply io_inv_host, install6_keeps|apply io_inv_ret]|intros _ _ _ _ _].
  apply io_inv_state. intros s3. by apply set_pod_inv.
Qed.

Lemma forget_inv pod s : Id pod ≠ id → state_inv s → state_inv (forget pod s).2.
Proof.
  intros Hne [H1 H2]. split; cbn.
  - by rewrite lookup_delete_ne.
  - intros id' st' Hid [_ Hl]%lookup_delete_Some. by apply (H2 id').
Qed.

Lemma cleanup_interface_other pod found w i w' :
  elsewhere pod → (∀ st', found = Some st' → other_interface (hostInterface st')) →
  cleanup_interface exec InterfaceByIndex Stat pod found w = (Ok i, w') → i = [] ∨ other_interface i.
Proof.
  intros [_ He] Hf. unfold cleanup_interface. destruct found as [st'|]; [intros [= <- _]; right; by apply Hf|].
  intros (r & w1 & Ha%attempt_ok & Hr)%io_bind_ok.
  destruct r as [[i' v4']|e|p]; injection Hr as <- _; [|by left..]. right.
  apply io_bind_ok in Ha as (netns & w3 & Hn & Hi). by apply (He _ _ _ _ _ _ _ Hn) in Hi.
Qed.

Lemma cleanup_inv pod : elsewhere pod → io_inv (cleanup pod).
Proof.
  intros Hel. destruct (Hel) as [Hid _]. unfold cleanupPod.
  apply io_inv_bind; [apply io_inv_state; intros s; by apply forget_inv|].
  intros [w s] found x' [_ [_ Hoth]] Hf. injection Hf as <- _.
  apply io_inv_bind; [apply io_inv_same, cleanup_interface_same|]. intros [w1 s1] i [w2 s2] _ Hi.
  apply on_host_ok in Hi as [Hi _].
  apply cleanup_interface_other in Hi; [|done|intros st'; by apply Hoth].
  apply io_inv_bind.
  - case_bool_decide; [apply io_inv_ret|]. apply io_inv_host, remove_keeps. by destruct Hi.
  - intros _ _ _ _ _. apply io_inv_if; [apply io_inv_ret|]. apply io_inv_same, notify_same.
Qed.

Lemma read_pod_inv pod : io_inv (read_pod pod).
Proof. by apply io_inv_state. Qed.

Lemma run_pod_inv pod : elsewhere pod → io_inv (run_pod pod).
Proof.
  intros Hel. unfold RunPodSandbox. apply io_inv_if; [apply io_inv_ret|].
  apply io_inv_bind; [apply io_inv_lift|intros _ _ _ _ _].
  apply io_inv_bind; [by apply configure_inv|intros _ _ _ _ _].
  apply io_inv_bind; [apply read_pod_inv|intros _ pst _ _ _].
  apply io_inv_bind; [apply io_inv_attempt, io_inv_same, notify_same|intros _ r _ _ _].
  destruct r; [by apply io_inv_state| |apply io_inv_lift].
  apply io_inv_bind; [apply io_inv_attempt; by apply cleanup_inv|intros _ _ _ _ _; apply io_inv_throw].
Qed.

Lemma stop_pod_inv pod : elsewhere pod → io_inv (stop_pod pod).
Proof. intros Hel. apply io_inv_if; [apply io_inv_ret|by apply cleanup_inv]. Qed.
End Others.
End Events.
