(* ===== verification/NriHost.v ===== *)
(** * The proxy's admin API as the NRI plugin reaches it, and a reference host

    The class [AdminServer] states what a call of the plugin does to the
    proxy's pod map, through the handlers of [PodMap]. The reference host keeps
    all the laws: its packet filter is the one the manual documents, its
    proxy is the model's, its commands print fixed answers. *)

From S2P Require Import Prelude GoStrings GoNet PodMap PodMapSpec Networking Netfilter NriPlugin NriSpec.

(** ** The admin API *)

Definition admin_status (r : admin_response) : Z := match r with ErrorStatus code => Z.of_nat code | _ => 200 end.

Definition admin_request (method path : gostring) (body : bytes) : AdminRequest :=
  mkAdminRequest method path (λ _, []) body.

(** The call the plugin makes for a path. *)
Definition plugin_call (cfg : pluginConfig) (method path : gostring) (body : bytes) : admin_call :=
  let client := newAdminHTTPClient (adminURL cfg) in
  mkCall (c_socket client) method (c_base client ++ path) body.

Definition pods_path : gostring := #"/api/v1/pods".
Definition pod_path (uid : gostring) : gostring := #"/api/v1/pods/" ++ uid.

(** Identifiers that need no escaping in a URL. *)
Definition uid_byte (b : byte) : bool :=
  let z := b2z b in
  ((48 <=? z)%Z && (z <=? 57)%Z) || ((65 <=? z)%Z && (z <=? 90)%Z) || ((97 <=? z)%Z && (z <=? 122)%Z) || (z =? 45)%Z.

(** A call that is answered ran the handler of its path once; one that is not
    ran it once or not at all. The list is answered with as many pods as there
    are; what the plugin sends is decoded as it was; nothing else on the host
    touches the pod map. *)
Class AdminServer {W : Type} (cfg : pluginConfig)
    (exec : gostring → list gostring → W → cmd_result * W)
    (Do : admin_call → W → option (Z * option bytes) * W) (Wait : W → bool * W)
    (Marshal : payload → option bytes) (Unmarshal : bytes → option (list PodInfo))
    (registry : W → PodMap) : Type := {
  decode_bind : bytes → option BindRequest;
  decode_unbind : bytes → option gostring;
  decode_pod : bytes → option PodInfo;
  decode_pods : bytes → option (list PodInfo);
  serve_admin := AdminHandler decode_bind decode_unbind decode_pod decode_pods;
  pods_answered method body w code out w' :
    Do (plugin_call cfg method pods_path body) w = (Some (code, out), w') →
    let '(resp, pm) := serve_admin EpPods (admin_request method pods_path body) (registry w) in
    registry w' = pm ∧ code = admin_status resp ∧
    ∀ l b ex, resp = PodList l → out = Some b → Unmarshal b = Some ex → length ex = length l;
  pods_lost method body w w' :
    Do (plugin_call cfg method pods_path body) w = (None, w') →
    registry w' = registry w ∨
    registry w' = (serve_admin EpPods (admin_request method pods_path body) (registry w)).2;
  pod_answered method uid body w code out w' :
    forallb uid_byte uid = true → Do (plugin_call cfg method (pod_path uid) body) w = (Some (code, out), w') →
    let '(resp, pm) := serve_admin EpPod (admin_request method (pod_path uid) body) (registry w) in
    registry w' = pm ∧ code = admin_status resp;
  pod_lost method uid body w w' :
    forallb uid_byte uid = true → Do (plugin_call cfg method (pod_path uid) body) w = (None, w') →
    registry w' = registry w ∨
    registry w' = (serve_admin EpPod (admin_request method (pod_path uid) body) (registry w)).2;
  sent_pod info data : Marshal (OnePod info) = Some data → decode_pod data = Some info;
  sent_pods infos data : Marshal (AllPods infos) = Some data → decode_pods data = Some infos;
  wait_registry w : registry (Wait w).2 = registry w;
  exec_registry bin args w : registry (exec bin args w).2 = registry w;
}.

(** ** A reference host *)

Record host := mkHost {
  h_tables4 : Tables;
  h_tables6 : Tables;
  h_registry : PodMap;
  h_proxy_up : bool;
}.

Definition host_tables (v6 : bool) (w : host) : Tables := if v6 then h_tables6 w else h_tables4 w.
Definition set_tables (v6 : bool) (t : Tables) (w : host) : host :=
  if v6 then mkHost (h_tables4 w) t (h_registry w) (h_proxy_up w)
  else mkHost t (h_tables6 w) (h_registry w) (h_proxy_up w).
Definition set_registry (pm : PodMap) (w : host) : host :=
  mkHost (h_tables4 w) (h_tables6 w) pm (h_proxy_up w).

Definition failure_message (c : nf_cmd) : bytes :=
  match c with
  | NewChain _ _ => #"iptables: Chain already exists."
  | DeleteRule _ _ _ => #"iptables: Bad rule (does a matching rule exist in that chain?)."
  | _ => #"iptables: No chain/target/match by that name."
  end.

Definition host_filter (v6 : bool) (args : list gostring) (w : host) : cmd_result * host :=
  match parse_cmd args with
  | None => (CmdFailed #"iptables: Bad argument", w)
  | Some c =>
      match nf_step c (host_tables v6 w) with
      | Some t => (CmdOk [], set_tables v6 t w)
      | None => (CmdFailed (failure_message c), w)
      end
  end.

(** Every namespace shows one interface with an IPv4 address, peer of interface
    13 in the namespace sb2 and of interface 12 elsewhere. *)
Definition host_links (args : list gostring) : list link :=
  [mkLink 1 #"lo" NoParent #"<LOOPBACK,UP>";
   mkLink 2 #"eth0" (InNetns (if mem #"--net=/run/netns/sb2" args then 13%Z else 12%Z)) #"<BROADCAST,UP> link-netnsid 0"].
Definition host_exec (bin : gostring) (args : list gostring) (w : host) : cmd_result * host :=
  if bool_decide (bin = binary false) then host_filter false args w
  else if bool_decide (bin = binary true) then host_filter true args w
  else (if mem #"link" args then CmdOk (printed_links (host_links args))
        else if mem #"-4" args then CmdOk #"2: eth0    inet 10.244.0.6/24 brd 10.244.0.255 scope global eth0"
        else CmdOk [], w).
Definition host_interface (k : Z) (w : host) : option gostring := 
  if (k =? 12)%Z then Some #"veth12" else if (k =? 13)%Z then Some #"veth13" else None.

#[global] Instance host_netfilter : Netfilter host_exec host_tables.
Proof.
  assert (Hb : ∀ v6 args w, host_exec (binary v6) args w = host_filter v6 args w).
  { intros v6 args w. by destruct v6. }
  assert (Hs : ∀ v6 t w, host_tables v6 (set_tables v6 t w) = t ∧
    host_tables (negb v6) (set_tables v6 t w) = host_tables (negb v6) w) by (by intros [] t w).
  constructor.
  - intros v6 args w out w'. rewrite Hb. unfold host_filter. destruct (parse_cmd args) as [c|]; [|done].
    destruct (nf_step c _) as [t|] eqn:E; [|done]. intros [= <- <-]. exists c. by rewrite (proj1 (Hs v6 t w)).
  - intros v6 args w out w'. rewrite Hb. unfold host_filter. repeat case_match; by intros [= ? <-].
  - intros v6 args w w'. rewrite Hb. unfold host_filter. by repeat case_match.
  - intros v6 args w r w'. rewrite Hb. unfold host_filter.
    repeat case_match; intros [= <- <-]; first [done|apply Hs].
  - intros bin args w r w' v6 He H1 H2. unfold host_exec in He.
    rewrite !bool_decide_eq_false_2 in He by done. by injection He as _ <-.
Qed.

#[global] Instance host_netfilter_live : @NetfilterLive ascii_unicode host host_exec host_tables.
Proof.
  assert (Hb : ∀ v6 args w, host_exec (binary v6) args w = host_filter v6 args w).
  { intros v6 args w. by destruct v6. }
  constructor.
  - intros v6 args c w t Hc Hs. rewrite Hb. unfold host_filter. rewrite Hc, Hs. eauto.
  - intros v6 args table chain w Hc [l Hl]. rewrite Hb. unfold host_filter. rewrite Hc. cbn [nf_step].
    rewrite Hl. eexists _, w. split; [done|]. vm_compute. reflexivity.
  - intros v6 args table chain spec w Hc Hs. rewrite Hb. unfold host_filter. rewrite Hc, Hs.
    eexists _, w. split; [done|]. left. vm_compute. reflexivity.
Qed.

(** ** Its proxy *)

#[global] Instance PodInfo_eq_dec : EqDecision PodInfo.
Proof. solve_decision. Defined.
#[global] Instance PodInfo_countable : Countable PodInfo.
Proof.
  apply (inj_countable'
    (λ p, (UID p, Namespace p, PodMap.Name p, IPs p, (map_to_list (Annotations p), map_to_list (Labels p)),
           (Identity p, Policy p, Bound p)))
    (λ '(u, n, m, i, (a, l), (d, p, b)), mkPodInfo u n m i (list_to_map a) (list_to_map l) d p b)).
  intros []. cbn. by rewrite !list_to_map_to_list.
Defined.

Definition host_marshal (p : payload) : option bytes :=
  Some (match p with OnePod info => bits (encode info) | AllPods infos => bits (encode infos) end).
Definition host_decode_pod (b : bytes) : option PodInfo := decode (from_bits b).
Definition host_decode_pods (b : bytes) : option (list PodInfo) := decode (from_bits b).

Definition host_admin (e : Endpoint) : AdminRequest → PodMap → admin_response * PodMap :=
  AdminHandler (λ _, None) (λ _, None) host_decode_pod host_decode_pods e.

Definition host_reply (r : admin_response) : option (Z * option bytes) :=
  Some (admin_status r, match r with PodList l => host_marshal (AllPods l) | _ => Some [] end).

Definition host_call (e : Endpoint) (path : gostring) (c : admin_call) (w : host) : option (Z * option bytes) * host :=
  let '(resp, pm) := host_admin e (admin_request (ac_method c) path (ac_body c)) (h_registry w) in
  (host_reply resp, set_registry pm w).

Definition host_Do (c : admin_call) (w : host) : option (Z * option bytes) * host :=
  let path := TrimPrefix (ac_url c) #"http://unix" in
  if negb (h_proxy_up w) then (None, w)
  else if bool_decide (path = pods_path) then host_call EpPods path c w
  else if HasPrefix path (pod_path []) then host_call EpPod path c w
  else (Some (404%Z, Some []), w).
Definition host_Wait (w : host) : bool * host := (false, w).

Definition host_cfg : pluginConfig :=
  mkPluginConfig #"/var/run/nri/nri.sock" #"service-portal" #"01" #"10.0.0.1" [] #"8080" #"8443" #"53"
    #"unix:///run/service-portal/portal.sock" #"/etc/service-portal/ca/tls.crt".

#[global] Instance host_admin_server :
  AdminServer host_cfg host_exec host_Do host_Wait host_marshal host_decode_pods h_registry.
Proof.
  assert (Hpods : ∀ method body w, h_proxy_up w = true →
    host_Do (plugin_call host_cfg method pods_path body) w
    = host_call EpPods pods_path (plugin_call host_cfg method pods_path body) w).
  { intros method body w Hup. unfold host_Do. rewrite Hup. done. }
  assert (Hpod : ∀ method uid body w, h_proxy_up w = true →
    host_Do (plugin_call host_cfg method (pod_path uid) body) w
    = host_call EpPod (pod_path uid) (plugin_call host_cfg method (pod_path uid) body) w).
  { intros method uid body w Hup. unfold host_Do. rewrite Hup. cbn [negb].
    assert (TrimPrefix (ac_url (plugin_call host_cfg method (pod_path uid) body)) #"http://unix" = pod_path uid) as ->
      by apply TrimPrefix_app.
    rewrite bool_decide_eq_false_2 by (intros E; apply (f_equal length) in E;
      unfold pod_path, pods_path in E; rewrite length_app in E; cbn in E; lia).
    by rewrite (HasPrefix_app (pod_path []) uid : HasPrefix (pod_path uid) (pod_path []) = true). }
  assert (Hdown : ∀ c w r w', h_proxy_up w = false → host_Do c w = (r, w') → r = None ∧ w' = w).
  { intros c w r w' Hup. unfold host_Do. rewrite Hup. by intros [= <- <-]. }
  refine {| decode_bind := λ _, None; decode_unbind := λ _, None;
            decode_pod := host_decode_pod; decode_pods := host_decode_pods |}.
  - intros method body w code out w' Hd. destruct (h_proxy_up w) eqn:Hup;
      [|by destruct (Hdown _ _ _ _ Hup Hd)]. rewrite Hpods in Hd by done. unfold host_call in Hd.
    change (AdminHandler _ _ _ _ EpPods) with (host_admin EpPods). cbn [plugin_call ac_method ac_body] in Hd.
    destruct (host_admin EpPods _ (h_registry w)) as [resp pm]. unfold host_reply in Hd.
    injection Hd as <- Hout <-. split_and!; [done..|]. intros l b ex -> Hb Hex. rewrite Hb in Hout.
    injection Hout as <-. unfold host_decode_pods in Hex. rewrite from_bits_bits, decode_encode in Hex.
    by injection Hex as <-.
  - intros method body w w' Hd. destruct (h_proxy_up w) eqn:Hup; [|left; by destruct (Hdown _ _ _ _ Hup Hd) as [_ ->]].
    rewrite Hpods in Hd by done. unfold host_call in Hd. by destruct (host_admin EpPods _ _).
  - intros method uid body w code out w' _ Hd. destruct (h_proxy_up w) eqn:Hup;
      [|by destruct (Hdown _ _ _ _ Hup Hd)]. rewrite Hpod in Hd by done. unfold host_call in Hd.
    change (AdminHandler _ _ _ _ EpPod) with (host_admin EpPod). cbn [plugin_call ac_method ac_body] in Hd.
    destruct (host_admin EpPod _ (h_registry w)) as [resp pm]. unfold host_reply in Hd. by injection Hd as <- _ <-.
  - intros method uid body w w' _ Hd. destruct (h_proxy_up w) eqn:Hup; [|left; by destruct (Hdown _ _ _ _ Hup Hd) as [_ ->]].
    rewrite Hpod in Hd by done. unfold host_call in Hd. by destruct (host_admin EpPod _ _).
  - intros info data [= <-]. unfold host_decode_pod. by rewrite from_bits_bits, decode_encode.
  - intros infos data [= <-]. unfold host_decode_pods. by rewrite from_bits_bits, decode_encode.
  - done.
  - intros bin args w. unfold host_exec, host_filter, set_tables. by repeat case_match.
Defined.

(** ** Pods and packets for the concrete runs *)

Definition base_tables : Tables :=
  {[ PREROUTING := []; INPUT := [ [ #"-j"; #"ACCEPT"] ]; FORWARD := [ [ #"-j"; #"ACCEPT"] ] ]}.
Definition base_host : host := mkHost base_tables base_tables NewPodMap true.
Definition base_state : plugin_state := mkPlugin ∅ ∅.

Definition demo_sandbox (id uid : gostring) : PodSandbox :=
  mkPodSandbox id #"worker" uid #"default" {[ interceptLabelKey := interceptLabelVal ]} ∅ #"runc"
    (Some [mkNamespace #"network" (#"/run/netns/" ++ id)]) [].
Definition host_stat (path : gostring) (w : host) : option Z :=
  Some (if bool_decide (path = #"/proc/self/ns/net") then 1 else 2)%Z.

Definition host_run (pod : PodSandbox) (x : host * plugin_state) : outcome nri_err () * (host * plugin_state) :=
  @RunPodSandbox ascii_unicode host host_exec host_interface (λ _, None) host_stat host_Do host_Wait host_marshal
    (λ _, true) host_cfg pod x.
Definition host_stop (pod : PodSandbox) (x : host * plugin_state) : outcome nri_err () * (host * plugin_state) :=
  @StopPodSandbox ascii_unicode host host_exec host_interface host_stat host_Do host_Wait host_marshal
    (λ _, true) host_cfg pod x.

(** The host and the plugin once a pod runs. *)
Definition running : host * plugin_state := (host_run (demo_sandbox #"sb1" #"uid-1") (base_host, base_state)).2.

Lemma host_run_ok pod x :
  is_ok (host_run pod x).1 = true →
  host_run pod x = (Ok (), ((host_run pod x).2.1, (host_run pod x).2.2)).
Proof. destruct (host_run pod x) as [[[]| |] [w s]]; done. Qed.

Lemma host_Do_same c w : same_tables host_tables w (host_Do c w).2.
Proof.
  intros v6. unfold host_Do, host_call. destruct (negb _); [done|].
  destruct (bool_decide _); [by destruct (host_admin _ _ _), v6|].
  destruct (HasPrefix _ _); [by destruct (host_admin _ _ _), v6|done].
Qed.
Lemma host_Wait_same w : same_tables host_tables w (host_Wait w).2.
Proof. done. Qed.
Lemma host_present v6 : present host_exec v6.
Proof.
  intros args w. unfold host_exec, host_filter. destruct v6; repeat case_match; done.
Qed.

(** A new connection from the pod. *)
Definition demo_packet (dst : gostring) (port : Z) : Packet :=
  mkPacket #"veth12" #"tcp" (default [] (ParseIP dst)) port 0 false.
