(* ===== verification/NriSafety.v ===== *)
(** * Properties of the NRI plugin: confinement

    That the packets of a pod are sent to the portal or refused, that this
    outlives the events of other pods, and that rules are removed without a
    trace. *)

From S2P Require Import Prelude GoStrings GoNet PodMap PodMapSpec Networking Netfilter NriPlugin NriSpec NriHost.

(** The hooks treat every packet of the interface as specified. *)
Definition confines (other : gostring → gostring → Packet → bool) (v6 : bool)
    (host http https dns i : gostring) (t : Tables) : Prop :=
  ∀ fuel p, p_iif p = i →
    eval_chain other (S (S fuel)) t #"filter" p #"INPUT" = egress_verdict v6 host http https dns p ∧
    eval_chain other (S (S fuel)) t #"filter" p #"FORWARD" = egress_verdict v6 host http https dns p ∧
    ∀ dest, redirected host http https dns p = Some dest →
      eval_chain other (S (S fuel)) t #"nat" p #"PREROUTING" = Dnat dest.

Lemma installed_confines other v6 host http https dns i t :
  installed v6 host http https dns i t → plain i → confines other v6 host http https dns i t.
Proof. intros Hin Hpl fuel p Hp. by apply (installed_verdicts other v6 host http https dns fuel i t p). Qed.

(** The packets of the pod's interface, of both families as far as it has them. *)
Definition pod_confined {W} (tables : bool → W → Tables) (cfg : pluginConfig)
    (other : gostring → gostring → Packet → bool) (st : podNetworkState) (w : W) : Prop :=
  confines other false (proxyHost cfg) (proxyPort cfg) (proxyHTTPSPort cfg) (proxyDNSPort cfg)
    (hostInterface st) (tables false w) ∧
  (isDualStack st = true → ∃ host6, host6 ≠ [] ∧ (proxyHostV6 cfg ≠ [] → host6 = proxyHostV6 cfg) ∧
    confines other true host6 (proxyPort cfg) (proxyHTTPSPort cfg) (proxyDNSPort cfg)
      (hostInterface st) (tables true w)).

Lemma confined_confines {W} (tables : bool → W → Tables) cfg other st w :
  confined tables cfg st w → plain (hostInterface st) → pod_confined tables cfg other st w.
Proof.
  intros [H4 H6] Hpl. split; [by apply installed_confines|]. intros Hd.
  destruct (H6 Hd) as (host6 & ? & ? & Hin). exists host6. split_and!; [done..|by apply installed_confines].
Qed.

Section Confinement.
Context `{Unicode} {W : Type} (exec : gostring → list gostring → W → cmd_result * W)
        (tables : bool → W → Tables) `{!Netfilter exec tables}.
Context (InterfaceByIndex : Z → W → option gostring)
        (InterfaceAddrs : W → option (list (option IP)))
        (Stat : gostring → W → option Z)
        (Do : admin_call → W → option (Z * option bytes) * W)
        (Wait : W → bool * W)
        (Marshal : payload → option bytes) (Unmarshal : bytes → option (list PodInfo))
        (valid_url : gostring → bool) (range : gmap gostring PodInfo → list PodInfo) (cfg : pluginConfig).
Hypothesis Do_same : ∀ c w, same_tables tables w (Do c w).2.
Hypothesis Wait_same : ∀ w, same_tables tables w (Wait w).2.

Abbreviation run_pod := (RunPodSandbox exec InterfaceByIndex InterfaceAddrs Stat Do Wait Marshal valid_url cfg).
Abbreviation stop_pod := (StopPodSandbox exec InterfaceByIndex Stat Do Wait Marshal valid_url cfg).
Abbreviation remove_pod := (RemovePodSandbox exec InterfaceByIndex Stat Do Wait Marshal valid_url cfg).
Abbreviation sync_tick := (syncActivePodsWithProxy Do Wait Marshal Unmarshal valid_url range cfg).

Lemma run_pod_confined pod w s w' s' :
  present exec false → present exec true → matchesPod (Some pod) = true →
  run_pod pod (w, s) = (Ok (), (w', s')) →
  ∃ st, pods s' !! Id pod = Some st ∧ activePods s' !! Uid pod = Some (pod_info pod st) ∧ confined tables cfg st w'.
Proof.
  intros Hp4 Hp6 Hm Hrun. unfold RunPodSandbox in Hrun. rewrite Hm in Hrun. cbn [negb] in Hrun.
  apply io_bind_ok in Hrun as (? & [w0 s0] & [= _ <- <-] & Hrun).
  apply io_bind_ok in Hrun as ([] & [w1 s1] & Hc & Hrun).
  apply (configure_ok exec tables) in Hc as (st & -> & Hc); [|done..].
  apply io_bind_ok in Hrun as (st' & [w2 s2] & [= <- <- <-] & Hrun).
  cbn [set_pod pods] in Hrun. rewrite lookup_insert_eq in Hrun. cbn [default from_option id] in Hrun.
  apply io_bind_ok in Hrun as (r & [w3 s3] & Hn%attempt_ok & Hrun).
  destruct r as [[]|e|p]; [|by apply io_bind_ok in Hrun as (? & [] & _ & ?)|done].
  apply on_host_ok in Hn as [Hn ->]. injection Hrun as <- <-. exists st. split_and!.
  - cbn. by rewrite lookup_insert_eq.
  - cbn. by rewrite lookup_insert_eq.
  - eapply confined_same; [|done].
    pose proof (notify_same tables Do Wait Marshal valid_url cfg Do_same Wait_same
      #"POST" #"/api/v1/pods" (Some (OnePod (pod_info pod st))) w1) as Hs. by rewrite Hn in Hs.
Qed.

(** C6: An opted-in pod that starts is confined: when RunPodSandbox succeeds on a node where iptables and
    ip6tables are installed, every packet that comes from the pod's interface, to the node or through
    it, is accepted if it belongs to an established connection or goes to one of the portal's ports,
    and is rejected otherwise, whatever rules the host had; new connections to ports 80, 443 and 53
    are redirected to the portal. For a pod with an IPv6 address the same holds of its IPv6 packets,
    of which ICMPv6 of the types 1 to 4, 133, 135 and 136 (errors, router solicitation, neighbour
    solicitation and advertisement) is accepted too. The plugin remembers the pod's state and lists it
    as active. *)
Theorem pod_traffic_confined other pod w s w' s' :
  present exec false → present exec true → matchesPod (Some pod) = true →
  run_pod pod (w, s) = (Ok (), (w', s')) →
  ∃ st, pods s' !! Id pod = Some st ∧ activePods s' !! Uid pod = Some (pod_info pod st) ∧
    (plain (hostInterface st) → pod_confined tables cfg other st w').
Proof.
  intros Hp4 Hp6 Hm Hrun. destruct (run_pod_confined pod w s w' s' Hp4 Hp6 Hm Hrun) as (st & H1 & H2 & Hc).
  exists st. split_and!; [done..|]. by apply confined_confines.
Qed.

(** A router advertisement (134) or a redirect (137) from a confined pod is
    rejected, on its way to the node and through it. *)
Theorem router_advertisements_rejected other host http https dns i t fuel p :
  confines other true host http https dns i t → p_iif p = i → p_established p = false →
  p_proto p = #"ipv6-icmp" → p_icmp6 p = 134%Z ∨ p_icmp6 p = 137%Z →
  eval_chain other (S (S fuel)) t #"filter" p #"INPUT" = Reject ∧
  eval_chain other (S (S fuel)) t #"filter" p #"FORWARD" = Reject.
Proof.
  intros Hc Hi He Hp Ht. destruct (Hc fuel p Hi) as (-> & -> & _).
  assert (egress_verdict true host http https dns p = Reject) as ->; [|done].
  unfold egress_verdict, neighbour, to_portal. rewrite He, Hp.
  assert (existsb (λ n, bool_decide (Atoi n = Some (p_icmp6 p))) icmp6_types = false) as ->
    by (destruct Ht as [-> | ->]; vm_compute; reflexivity).
  by destruct (bool_decide (ParseIP host = Some (p_dst p))).
Qed.

(** The events of the runtime, and a tick of the reconciliation loop. *)
Inductive nri_event := EvRun (pod : PodSandbox) | EvStop (pod : PodSandbox) | EvRemove (pod : PodSandbox) | EvTick.

Definition nri_step (x : W * plugin_state) (e : nri_event) : W * plugin_state :=
  match e with
  | EvRun pod => (run_pod pod x).2
  | EvStop pod => (stop_pod pod x).2
  | EvRemove pod => (remove_pod pod x).2
  | EvTick => sync_tick x
  end.

(** An event of another pod, on another interface. *)
Definition other_event (id : gostring) (st : podNetworkState) (e : nri_event) : Prop :=
  match e with
  | EvRun pod | EvStop pod | EvRemove pod => elsewhere exec InterfaceByIndex Stat id st pod
  | EvTick => True
  end.

Lemma tick_same x : same_tables tables x.1 (sync_tick x).1 ∧ (sync_tick x).2 = x.2.
Proof.
  destruct x as [w s]. unfold syncActivePodsWithProxy. cbn [fst snd].
  destruct (sync_snapshot range s) as [infos|]; [|done]. split; [|done]. cbn [fst]. unfold sync_push, sync_ask.
  destruct (negb _); [done|].
  pose proof (Do_same (mkCall (c_socket (newAdminHTTPClient (adminURL cfg))) #"GET"
    (c_base (newAdminHTTPClient (adminURL cfg)) ++ #"/api/v1/pods") []) w) as Hd.
  destruct (Do _ w) as [[[code [body|]]|] w1]; cbn [snd] in Hd; try done.
  destruct (match Unmarshal body with Some _ => _ | None => _ end); [|done].
  etrans; [done|]. by apply notify_same.
Qed.

(** C7: Confinement does not depend on what happens to other pods: once a pod is confined it stays so under
    any sequence of starts, stops, removals (successful or failing at any command) of pods with other
    host interfaces, and of reconciliation ticks. *)
Theorem confinement_survives other id st es w s :
  confined tables cfg st w → plain (hostInterface st) → state_inv id st s → Forall (other_event id st) es →
  pod_confined tables cfg other st (foldl nri_step (w, s) es).1.
Proof.
  intros Hc Hpl Hs Hes.
  assert (Hinv : pod_inv tables cfg id st (foldl nri_step (w, s) es)).
  { assert (H0 : pod_inv tables cfg id st (w, s)) by done. clear Hc Hs. revert H0. generalize (w, s) as x.
    induction Hes as [|e es He _ IH]; intros x Hx; [done|]. cbn [foldl]. apply IH.
    destruct e as [pod|pod|pod|]; cbn [nri_step other_event] in *.
    - by eapply (run_pod_inv exec tables).
    - by eapply (stop_pod_inv exec tables).
    - by eapply (stop_pod_inv exec tables).
    - destruct (tick_same x) as [Ht Hst], Hx as [Hx1 Hx2]. split; [by eapply confined_same|by rewrite Hst]. }
  apply confined_confines; [apply Hinv|done].
Qed.
End Confinement.

(** ** Exact effects *)

(** The tables after a run on a host that keeps the laws of [NetfilterLive]. *)
Fixpoint nf_exec (cs : list nf_cmd) (t : Tables) : option Tables :=
  match cs with
  | [] => Some t
  | c :: cs =>
      match nf_step c t with
      | Some t1 => nf_exec cs t1
      | None => match c with NewChain _ _ | DeleteRule _ _ _ => nf_exec cs t | _ => None end
      end
  end.

Lemma parse_tolerated `{Unicode} args c out :
  parse_cmd args = Some c →
  match c with
  | NewChain _ _ => Contains (ToLower out) #"already exists" = true
  | DeleteRule _ _ _ =>
      Contains (ToLower out) #"bad rule" = true ∨ Contains out #"No chain/target/match by that name" = true
  | _ => False
  end → tolerated args out = true.
Proof.
  unfold parse_cmd, tolerated. destruct args as [|t [|table [|cmd [|chain spec]]]]; try done.
  destruct (negb _); [done|].
  destruct (decide (cmd = #"-N")) as [->|Hn].
  { rewrite !(bool_decide_eq_true_2 (#"-N" = #"-N")) by done. case_bool_decide; [|done]. by intros [= <-] ->. }
  rewrite !(bool_decide_eq_false_2 _ Hn).
  repeat (case_bool_decide; [subst cmd; try (by intros [= <-]); try (case_bool_decide; by intros [= <-])|]).
  - intros [= <-] [-> | ->]; by rewrite ?orb_true_r.
  - destruct spec; [done|]. by case_bool_decide; [intros [= <-]|].
  - done.
Qed.

Lemma run_live `{Unicode} {W} (exec : gostring → list gostring → W → cmd_result * W) tables
    `{!Netfilter exec tables} `{!NetfilterLive exec tables} v6 cmds cs w t' :
  mapM parse_cmd cmds = Some cs → nf_exec cs (tables v6 w) = Some t' →
  ∃ w', runNetfilter exec v6 cmds w = (Ok (), w') ∧ tables v6 w' = t' ∧ tables (negb v6) w' = tables (negb v6) w.
Proof.
  revert cs w. induction cmds as [|args cmds IH]; intros cs w.
  { intros [= <-] [= <-]. by exists w. }
  intros (c & cs' & Hc & Hcs%mapM_Some_2 & ->)%mapM_Some_1%Forall2_cons_inv_l. cbn [runNetfilter nf_exec].
  change (binary_name v6) with (binary v6). destruct (nf_step c (tables v6 w)) as [t1|] eqn:Es.
  - intros He. destruct (nf_succeeds v6 args c w t1 Hc Es) as (out & w1 & Hrun). rewrite Hrun.
    destruct (nf_ok v6 args w out w1 Hrun) as (c' & Hc' & Hs). replace c' with c in Hs by congruence.
    replace t1 with (tables v6 w1) in He by congruence. apply (IH cs' w1 Hcs) in He as (w' & -> & Ht & Hf).
    exists w'. split_and!; [done..|]. rewrite Hf. by eapply nf_frame.
  - intros He.
    assert (∃ out w1, exec (binary v6) args w = (CmdFailed out, w1) ∧ tolerated args out = true ∧
      nf_exec cs' (tables v6 w) = Some t') as (out & w1 & Hrun & Htol & He').
    { destruct c as [table chain| | | | |table chain spec]; try done.
      - destruct (nf_chain_exists v6 args table chain w Hc) as (out & w1 & Hrun & Hm).
        { cbn in Es. destruct (tables v6 w !! (table, chain)); [by eexists|done]. }
        exists out, w1. split_and!; [done| |done]. by eapply parse_tolerated.
      - destruct (nf_no_rule v6 args table chain spec w Hc Es) as (out & w1 & Hrun & Hm).
        exists out, w1. split_and!; [done| |done]. by eapply parse_tolerated. }
    rewrite Hrun, Htol. rewrite <- (nf_failed v6 args w out w1 Hrun) in He'.
    apply (IH cs' w1 Hcs) in He' as (w' & -> & Ht & Hf). exists w'. split_and!; [done..|].
    rewrite Hf. by eapply nf_frame.
Qed.

Lemma nf_exec_runs cs t t' : nf_exec cs t = Some t' → nf_runs cs t t'.
Proof.
  revert t. induction cs as [|c cs IH]; intros t; cbn [nf_exec]; [intros [= <-]; constructor|].
  destruct (nf_step c t) as [t1|] eqn:E; [intros; eapply runs_step; [done|by apply IH]|].
  destruct c; first [done|intros; apply runs_skip; [exact I|by apply IH]].
Qed.

Lemma nf_exec_app cs cs' t : nf_exec (cs ++ cs') t = nf_exec cs t ≫= nf_exec cs'.
Proof.
  revert t. induction cs as [|c cs IH]; intros t; [done|]. cbn [app nf_exec].
  destruct (nf_step c t); [apply IH|]. destruct c; first [apply IH|done].
Qed.

Lemma exec_reset k t : nf_exec (reset_cmds k) t = Some (<[k := []]> t).
Proof.
  destruct k as [table chain]. cbn [reset_cmds fst snd nf_exec nf_step].
  destruct (t !! (table, chain)) as [l|] eqn:E; cbn [nf_exec nf_step].
  - done.
  - rewrite lookup_insert_eq. cbn. by rewrite insert_insert_eq.
Qed.

Lemma target_known_insert table spec t k l :
  target_known table spec t = true → target_known table spec (<[k := l]> t) = true.
Proof.
  unfold target_known. destruct (rule_target spec) as [[target ?]|]; [|done].
  rewrite !orb_true_iff, !bool_decide_eq_true. intros [?|?]; [by left|right].
  rewrite lookup_insert. case_decide; [by eexists|done].
Qed.

Lemma exec_hook k spec t l :
  t !! k = Some l → target_known k.1 spec t = true →
  nf_exec (hook_cmds k spec) t = Some (<[k := spec :: remove_first spec l]> t).
Proof.
  destruct k as [table chain]. cbn [hook_cmds fst snd nf_exec nf_step]. intros Hl Ht.
  rewrite Hl. cbn [mbind option_bind]. destruct (mem spec l) eqn:E; cbn [nf_step].
  - rewrite lookup_insert_eq. cbn [mbind option_bind]. rewrite target_known_insert by done.
    by rewrite insert_insert_eq.
  - rewrite Ht, remove_first_none; [done|]. by apply mem_false.
Qed.

Lemma exec_fill k specs t l :
  t !! k = Some l → Forall (λ spec, target_known k.1 spec ∅ = true) specs →
  nf_exec (fill_cmds k specs) t = Some (<[k := l ++ specs]> t).
Proof.
  destruct k as [table chain]. unfold fill_cmds. cbn [fst snd]. intros Hl Hs. revert t l Hl.
  induction Hs as [|spec specs Hk _ IH]; intros t l Hl; cbn [fmap list_fmap nf_exec nf_step].
  - by rewrite app_nil_r, insert_id.
  - rewrite Hl. cbn [mbind option_bind].
    assert (target_known table spec t = true) as ->.
    { unfold target_known in *. destruct (rule_target spec) as [[target ?]|]; [|done].
      rewrite orb_true_iff in *. destruct Hk as [?|Hk]; [by left|]. rewrite lookup_empty in Hk. done. }
    unfold fmap in IH. rewrite (IH _ (l ++ [spec])) by (by rewrite lookup_insert_eq).
    by rewrite insert_insert_eq, <- app_assoc.
Qed.

(** The hooks of the host. *)
Definition hooks_exist (t : Tables) : Prop :=
  is_Some (t !! PREROUTING) ∧ is_Some (t !! INPUT) ∧ is_Some (t !! FORWARD).

Definition hook_first (chain : gostring → gostring) (i : gostring) (o : option (list rule)) : list rule :=
  jump chain i :: remove_first (jump chain i) (default [] o).

(** The tables with the rules of an interface in force. *)
Definition with_rules (v6 : bool) (host http https dns i : gostring) (t : Tables) : Tables :=
  <[eg_key i := eg_rules v6 host http https dns]> (<[FORWARD := hook_first egChain i (t !! FORWARD)]>
  (<[INPUT := hook_first egChain i (t !! INPUT)]> (<[pr_key i := pr_rules host http https dns]>
  (<[PREROUTING := hook_first prChain i (t !! PREROUTING)]> t)))).

Ltac lookups := repeat first [rewrite lookup_insert_eq|rewrite lookup_insert_ne by done
                             |rewrite lookup_delete_eq|rewrite lookup_delete_ne by done].

(** Whether [k] is one of the keys of the interface. *)
Ltac split_key k i tac :=
  destruct (decide (k = eg_key i)) as [->|]; [tac|]; destruct (decide (k = FORWARD)) as [->|]; [tac|];
  destruct (decide (k = INPUT)) as [->|]; [tac|]; destruct (decide (k = pr_key i)) as [->|]; [tac|];
  destruct (decide (k = PREROUTING)) as [->|]; tac.

Lemma jump_known (chain : gostring → gostring) i table t l :
  t !! (table, chain i) = Some l → target_known table (jump chain i) t = true.
Proof.
  intros Hl. unfold target_known. change (rule_target (jump chain i)) with (Some (chain i, @nil gostring)).
  cbv iota beta. apply orb_true_iff. right. apply bool_decide_eq_true. by exists l.
Qed.

Lemma eg_rules_known v6 host http https dns :
  Forall (λ spec, target_known #"filter" spec ∅ = true) (eg_rules v6 host http https dns).
Proof. destruct v6; repeat (apply Forall_cons; split; [reflexivity|]); by apply Forall_nil. Qed.
Lemma pr_rules_known host http https dns :
  Forall (λ spec, target_known #"nat" spec ∅ = true) (pr_rules host http https dns).
Proof. repeat (apply Forall_cons; split; [reflexivity|]); by apply Forall_nil. Qed.

Lemma exec_install v6 host http https dns i t :
  hooks_exist t → nf_exec (install_cmds v6 host http https dns i) t = Some (with_rules v6 host http https dns i t).
Proof.
  intros ([l1 H1] & [l2 H2] & [l3 H3]).
  destruct (keys_distinct i i) as (D1 & D2 & D3 & D4 & D5 & D6 & D7 & D8 & D9 & D10).
  unfold install_cmds. rewrite nf_exec_app, exec_reset. cbn [mbind option_bind].
  rewrite nf_exec_app, (exec_hook PREROUTING _ _ l1); cbn [mbind option_bind]; [|by lookups|].
  2:{ apply (jump_known _ _ _ _ []). change (#"nat", prChain i) with (pr_key i). by lookups. }
  rewrite nf_exec_app, (exec_fill (pr_key i) _ _ []); [|by lookups|apply pr_rules_known]. cbn [mbind option_bind].
  rewrite nf_exec_app, exec_reset. cbn [mbind option_bind].
  rewrite nf_exec_app, (exec_hook INPUT _ _ l2); cbn [mbind option_bind]; [|by lookups|].
  2:{ apply (jump_known _ _ _ _ []). change (#"filter", egChain i) with (eg_key i). by lookups. }
  rewrite nf_exec_app, (exec_hook FORWARD _ _ l3); cbn [mbind option_bind]; [|by lookups|].
  2:{ apply (jump_known _ _ _ _ []). change (#"filter", egChain i) with (eg_key i). by lookups. }
  rewrite (exec_fill (eg_key i) _ _ []); [|by lookups|apply eg_rules_known].
  f_equal. unfold with_rules, hook_first. rewrite H1, H2, H3. cbn [app default from_option id].
  apply map_eq. intros k.
  split_key k i ltac:(by lookups).
Qed.

Lemma remove_first_head spec l : remove_first spec (spec :: l) = l.
Proof. cbn. by rewrite bool_decide_eq_true_2. Qed.

Lemma with_rules_hooks v6 host http https dns i t : hooks_exist (with_rules v6 host http https dns i t).
Proof.
  destruct (keys_distinct i i) as (D1 & D2 & D3 & D4 & D5 & D6 & D7 & D8 & D9 & D10).
  unfold hooks_exist, with_rules. split_and!; lookups; by eexists.
Qed.

Lemma with_rules_idemp v6 host http https dns i t :
  with_rules v6 host http https dns i (with_rules v6 host http https dns i t)
  = with_rules v6 host http https dns i t.
Proof.
  destruct (keys_distinct i i) as (D1 & D2 & D3 & D4 & D5 & D6 & D7 & D8 & D9 & D10).
  assert (Hh : ∀ chain o, hook_first chain i (Some (hook_first chain i o)) = hook_first chain i o).
  { intros chain o. unfold hook_first. cbn [default from_option id]. by rewrite remove_first_head. }
  unfold with_rules. apply map_eq. intros k.
  split_key k i ltac:(by lookups; rewrite ?Hh).
Qed.

(** No rule of the table jumps to the chain. *)
Definition unused (table chain : gostring) (t : Tables) : Prop :=
  ∀ k rules spec, t !! k = Some rules → k.1 = table → spec ∈ rules → fst <$> rule_target spec ≠ Some chain.

Lemma map_Forall_unused (table chain : gostring) (t : Tables) :
  map_Forall (λ k rules, k.1 = table → Forall (λ spec, fst <$> rule_target spec ≠ Some chain) rules) t →
  unused table chain t.
Proof. intros Ht k rules spec Hk Hkt. apply (proj1 (Forall_forall _ _) (Ht k rules Hk Hkt)). Qed.

Lemma unused_referenced table chain t : unused table chain t → referenced table chain t = false.
Proof.
  intros Hu. apply not_true_iff_false. unfold referenced. rewrite existsb_exists.
  intros ([k rules] & Hin%list_elem_of_In%elem_of_map_to_list & He). cbn [fst snd] in He.
  apply andb_prop in He as [Hk He]. apply bool_decide_eq_true in Hk. apply existsb_exists in He as (spec & Hs & Ht).
  apply bool_decide_eq_true in Ht. by apply (Hu k rules spec Hin Hk (proj2 (list_elem_of_In _ _) Hs)).
Qed.

Lemma unused_jump table chain i t rules k :
  unused table (chain i) t → t !! k = Some rules → k.1 = table → jump chain i ∉ rules.
Proof. intros Hu Hk Ht Hin. by apply (Hu k rules (jump chain i) Hk Ht Hin). Qed.

(** The tables before any pod of the interface: its chains do not exist and
    nothing refers to them. *)
Definition untouched (i : gostring) (t : Tables) : Prop :=
  hooks_exist t ∧ t !! pr_key i = None ∧ t !! eg_key i = None ∧
  unused #"nat" (prChain i) t ∧ unused #"filter" (egChain i) t.

Lemma hook_first_untouched (chain : gostring → gostring) i o :
  (∀ l, o = Some l → jump chain i ∉ l) → hook_first chain i o = jump chain i :: default [] o.
Proof.
  intros Hn. unfold hook_first. destruct o as [l|]; cbn [default from_option]; [|done].
  by rewrite remove_first_none by (by apply Hn).
Qed.

(** Deleting the jump of a hook, and an emptied chain. *)
Lemma exec_unhook k spec cs t l :
  t !! k = Some (spec :: l) →
  nf_exec (DeleteRule k.1 k.2 spec :: cs) t = nf_exec cs (<[k := l]> t).
Proof.
  destruct k as [table chain]. cbn [fst snd nf_exec nf_step]. intros ->. cbn [mbind option_bind].
  rewrite (proj2 (mem_true spec (spec :: l))) by (by left). by rewrite remove_first_head.
Qed.

Lemma exec_drop k cs t l :
  t !! k = Some l → unused k.1 k.2 (<[k := []]> t) →
  nf_exec (Flush k.1 k.2 :: DeleteChain k.1 k.2 :: cs) t = nf_exec cs (delete k t).
Proof.
  destruct k as [table chain]. cbn [fst snd nf_exec nf_step]. intros -> Hu. cbn [mbind option_bind].
  rewrite lookup_insert_eq. cbn [mbind option_bind]. rewrite unused_referenced by done.
  by rewrite delete_insert_eq.
Qed.

Lemma exec_cleanup v6 host http https dns i t :
  untouched i t → nf_exec (cleanup_cmds i) (with_rules v6 host http https dns i t) = Some t.
Proof.
  intros (([l1 H1] & [l2 H2] & [l3 H3]) & Hp & He & Hup & Hue).
  destruct (keys_distinct i i) as (D1 & D2 & D3 & D4 & D5 & D6 & D7 & D8 & D9 & D10).
  unfold with_rules.
  rewrite !hook_first_untouched by (intros l E; first [by apply (unused_jump _ _ _ _ _ _ Hup E)
                                                      |by apply (unused_jump _ _ _ _ _ _ Hue E)]).
  rewrite H1, H2, H3. cbn [default from_option id]. unfold cleanup_cmds.
  rewrite (exec_unhook PREROUTING _ _ _ l1) by (by lookups).
  rewrite (exec_drop (pr_key i) _ _ (pr_rules host http https dns)); [|by lookups|].
  2:{ intros k rules spec. cbn [fst snd]. intros Hk Ht Hin. revert Hk.
      split_key k i ltac:(lookups; try done; intros Hk; simplify_eq;
        first [by apply elem_of_nil in Hin|by eapply (Hup _ rules); [eassumption|..]]). }
  rewrite (exec_unhook INPUT _ _ _ l2) by (by lookups).
  rewrite (exec_unhook FORWARD _ _ _ l3) by (by lookups).
  rewrite (exec_drop (eg_key i) _ _ (eg_rules v6 host http https dns)); [|by lookups|].
  2:{ intros k rules spec. cbn [fst snd]. intros Hk Ht Hin. revert Hk.
      split_key k i ltac:(lookups; try done; intros Hk; simplify_eq;
        first [by apply elem_of_nil in Hin|by eapply (Hue _ rules); [eassumption|..]]). }
  cbn [nf_exec]. f_equal. apply map_eq. intros k.
  split_key k i ltac:(by lookups).
Qed.

Section Exact.
Context `{Unicode} {W : Type} (exec : gostring → list gostring → W → cmd_result * W)
        (tables : bool → W → Tables) `{!Netfilter exec tables} `{!NetfilterLive exec tables}.

(** C27: Rules are installed and removed without a trace, on a host where commands fail only for documented
    reasons: installing succeeds and has its effect however often it is repeated (a repetition
    changes nothing), and removing afterwards succeeds and gives back exactly the tables there were
    before the interface had rules, in both families. *)
Theorem rules_leave_no_trace v6 host http https dns i w :
  untouched i (tables v6 w) →
  let install := runNetfilter exec v6 (buildHostNetfilterRules v6 i host http https dns) in
  let remove := runNetfilter exec v6 (buildHostCleanupRules i) in
  ∃ w1 w2 w3, install w = (Ok (), w1) ∧ installed v6 host http https dns i (tables v6 w1) ∧
    install w1 = (Ok (), w2) ∧ tables v6 w2 = tables v6 w1 ∧
    remove w2 = (Ok (), w3) ∧ ∀ v, tables v w3 = tables v w.
Proof.
  intros Hu install remove. pose proof (proj1 Hu) as Hh.
  destruct (run_live exec tables v6 _ _ w _ (install_parsed v6 host http https dns i)
    (exec_install v6 host http https dns i _ Hh)) as (w1 & Hr1 & Ht1 & Hf1).
  destruct (run_live exec tables v6 _ _ w1 (with_rules v6 host http https dns i (tables v6 w))
    (install_parsed v6 host http https dns i)) as (w2 & Hr2 & Ht2 & Hf2).
  { rewrite Ht1, exec_install by apply with_rules_hooks. f_equal. apply with_rules_idemp. }
  destruct (run_live exec tables v6 _ _ w2 (tables v6 w) (cleanup_parsed i)) as (w3 & Hr3 & Ht3 & Hf3).
  { rewrite Ht2. by apply exec_cleanup. }
  exists w1, w2, w3. split_and!; [done| |done|congruence|done|].
  - apply (install_installed v6 host http https dns i (tables v6 w)). rewrite Ht1.
    apply nf_exec_runs, exec_install, Hh.
  - intros v. destruct (decide (v = v6)) as [->|Hv]; [done|].
    assert (v = negb v6) as -> by (by destruct v, v6). congruence.
Qed.
End Exact.

(** ** The form of the commands *)

(** What [JoinHostPort] joins, [SplitHostPort] splits, also an IPv6 address. *)
Lemma SplitHostPort_JoinHostPort (host port : gostring) :
  "["%char ∉ host → "]"%char ∉ host → plain_host port = true →
  SplitHostPort (JoinHostPort host port) = Ok (host, port).
Proof.
  intros Hl Hr Hp. unfold JoinHostPort. destruct (contains_byte host ":"%char) eqn:Ec.
  2:{ apply SplitHostPort_Join; [|done]. unfold plain_host. rewrite Ec.
      by rewrite (proj2 (contains_byte_false host _) Hl), (proj2 (contains_byte_false host _) Hr). }
  unfold plain_host in Hp. bools. destruct Hp as [[P1 P2] P3].
  assert (E : #"[" ++ host ++ #"]:" ++ port = ("["%char :: host ++ ["]"%char]) ++ ":"%char :: port)
    by (cbn; by rewrite <- app_assoc).
  unfold SplitHostPort. rewrite E at 1. rewrite LastIndexByte_app by done.
  rewrite (HasPrefix_app #"[" (host ++ #"]:" ++ port)).
  assert (Hi : IndexByte (#"[" ++ host ++ #"]:" ++ port) "]"%char = Some (S (length host))).
  { change (#"[" ++ host ++ #"]:" ++ port) with (("["%char :: host) ++ "]"%char :: ":"%char :: port).
    rewrite IndexByte_app; [done|]. by apply not_elem_of_cons. }
  rewrite Hi. rewrite (proj2 (Nat.eqb_neq _ _)) by (rewrite E, !length_app; cbn; rewrite length_app; cbn; lia).
  rewrite (proj2 (Nat.eqb_eq _ _)) by (cbn; rewrite length_app; cbn; lia).
  unfold check_brackets.
  assert (drop 1 (#"[" ++ host ++ #"]:" ++ port) = host ++ #"]:" ++ port) as -> by done.
  assert (drop (S (S (length host))) (#"[" ++ host ++ #"]:" ++ port) = #":" ++ port) as ->.
  { change (drop (S (length host)) (host ++ "]"%char :: ":"%char :: port) = ":"%char :: port).
    rewrite drop_app_ge by lia. by replace (S (length host) - length host) with 1 by lia. }
  rewrite (proj2 (contains_byte_false (host ++ #"]:" ++ port) _)) by
    (rewrite !not_elem_of_app; split_and!; [done|apply (bool_decide_unpack _); exact I|done]).
  rewrite (proj2 (contains_byte_false (#":" ++ port) _)) by
    (rewrite !not_elem_of_app; split; [apply (bool_decide_unpack _); exact I|done]).
  assert (slice 1 (S (length host)) (#"[" ++ host ++ #"]:" ++ port) = host) as ->.
  { change (take (length host - 0) (host ++ #"]:" ++ port) = host). by rewrite Nat.sub_0_r, take_app_length. }
  rewrite E, drop_app_ge by (cbn; lia).
  by replace (S (length ("["%char :: host ++ ["]"%char])) - length ("["%char :: host ++ ["]"%char])) with 1 by lia.
Qed.

Definition cmd_spec (c : nf_cmd) : rule := match c with Append _ _ spec => spec | _ => [] end.

(** The chains of the interface in a table, and the rules of a command in the
    form the manuals document. *)
Definition own_chains (i table : gostring) : list gostring :=
  if bool_decide (table = #"nat") then [prChain i] else [egChain i].
Definition cmd_form (v6 : bool) (i : gostring) (c : nf_cmd) : bool :=
  match c with
  | Append table _ spec | InsertFirst table _ spec | DeleteRule table _ spec =>
      spec_form v6 table (own_chains i table) [] false spec
  | _ => true
  end.

Lemma rules_parsed v6 i host http https dns :
  mapM parse_cmd (buildHostNetfilterRules v6 i host http https dns ++ buildHostCleanupRules i)
  = Some (install_cmds v6 host http https dns i ++ cleanup_cmds i).
Proof. apply mapM_Some, Forall2_app; apply mapM_Some; [apply install_parsed|apply cleanup_parsed]. Qed.

Section Forms.
Context (v6 : bool) (i host http https dns : gostring).
Hypothesis Hi : iface_form i = true.
Hypothesis Hhost : addr_form v6 host = true.
Hypothesis Hports : Forall (λ port, decimal 65535 port = true) [http; https; dns_port dns].

Lemma port_form port : port ∈ [http; https; dns_port dns] → decimal 65535 port = true.
Proof. intros Hin. by apply (proj1 (Forall_forall _ _) Hports). Qed.

Lemma iface_length : length i ≤ 15.
Proof. unfold iface_form in Hi. bools. lia. Qed.

(** Digits are no part of an address. *)
Lemma decimal_plain max s : decimal max s = true → plain_host s = true.
Proof.
  intros [Hd _]%andb_prop. assert (Hno : ∀ c, (b2z c < 48 ∨ 57 < b2z c)%Z → contains_byte s c = false).
  { intros c Hc. apply contains_byte_false. intros Hin%list_elem_of_In.
    rewrite forallb_forall in Hd. apply Hd in Hin. bools. lia. }
  unfold plain_host. rewrite !Hno; [done|..]; vm_compute; (left + right); reflexivity.
Qed.

Lemma host_no_bracket c : c = "["%char ∨ c = "]"%char → c ∉ host.
Proof.
  intros Hc Hin%list_elem_of_In. unfold addr_form in Hhost. apply andb_prop in Hhost as [_ Hf].
  rewrite forallb_forall in Hf. apply Hf in Hin. destruct Hc as [-> | ->]; vm_compute in Hin; discriminate.
Qed.

Lemma dest_reads_back port : port ∈ [http; https; dns_port dns] →
  SplitHostPort (JoinHostPort host port) = Ok (host, port).
Proof.
  intros Hin. apply SplitHostPort_JoinHostPort; [apply host_no_bracket; auto..|].
  by apply (decimal_plain 65535), port_form.
Qed.

Lemma dnat_form proto port dst : mem proto [ #"tcp"; #"udp"] = true → decimal 65535 port = true →
  dst ∈ [http; https; dns_port dns] →
  spec_form v6 #"nat" [prChain i] [] false (dnat proto port (JoinHostPort host dst)) = true.
Proof.
  intros Hp Hd Hin.
  assert (Hf : dest_form v6 (JoinHostPort host dst) = true).
  { unfold dest_form. rewrite dest_reads_back by done. rewrite Hhost. by apply port_form. }
  change (mem proto (protocols v6) && (mem proto [ #"tcp"; #"udp"] && decimal 65535 port
    && (true && true && mem proto [ #"tcp"; #"udp"] && true && dest_form v6 (JoinHostPort host dst))) = true).
  rewrite Hp, Hd, Hf, !andb_true_r. unfold protocols, mem in *. bools. set_solver.
Qed.

Lemma allow_form proto port : mem proto [ #"tcp"; #"udp"] = true → port ∈ [http; https; dns_port dns] →
  spec_form v6 #"filter" [egChain i] [] false (allow host proto port) = true.
Proof.
  intros Hp Hin.
  change (addr_form v6 host && (mem proto (protocols v6) && (mem proto [ #"tcp"; #"udp"] && decimal 65535 port
    && true)) = true).
  rewrite Hp, Hhost, port_form, !andb_true_r by done. unfold protocols, mem in *. cbn [andb]. bools. set_solver.
Qed.

Lemma jump_form table chain : chain i ∈ own_chains i table →
  spec_form v6 table (own_chains i table) [] false (jump chain i) = true.
Proof.
  intros Hin. change (iface_form i && (bool_decide (chain i = #"ACCEPT") || mem (chain i) (own_chains i table)) = true).
  rewrite Hi. cbn [andb]. unfold mem. rewrite (bool_decide_eq_true_2 _ Hin). apply orb_true_r.
Qed.

(** The rules of the two chains, and the jumps to them. *)
Lemma filter_form : Forall (λ spec, spec_form v6 #"filter" [egChain i] [] false spec = true)
  (eg_rules v6 host http https dns).
Proof.
  unfold eg_rules. apply Forall_cons. split; [by destruct v6|]. rewrite !Forall_app. split_and!.
  - destruct v6; [|by apply Forall_nil]. by repeat constructor.
  - repeat (apply Forall_cons; split; [apply allow_form; [done|set_solver]|]). by apply Forall_nil.
  - by destruct v6; repeat constructor.
Qed.

Lemma nat_form : Forall (λ spec, spec_form v6 #"nat" [prChain i] [] false spec = true)
  (pr_rules host http https dns).
Proof.
  unfold pr_rules.
  repeat (apply Forall_cons; split; [apply dnat_form; [done..|set_solver]|]). by apply Forall_nil.
Qed.

Lemma install_form : Forall (λ c, cmd_form v6 i c = true) (install_cmds v6 host http https dns i).
Proof.
  assert (Hj : ∀ table chain, chain i ∈ own_chains i table → ∀ k, k = table →
    Forall (λ c, cmd_form v6 i c = true) [DeleteRule k #"" (jump chain i); InsertFirst k #"" (jump chain i)]).
  { intros table chain Hin k ->. repeat constructor; cbn [cmd_form]; by apply jump_form. }
  unfold install_cmds, reset_cmds, hook_cmds, fill_cmds. rewrite !Forall_app, !Forall_fmap. split_and!;
    try (by repeat constructor);
    try (repeat constructor; cbn [cmd_form fst PREROUTING INPUT FORWARD]; apply jump_form; by left).
  - exact nat_form.
  - exact filter_form.
Qed.

Lemma cleanup_form : Forall (λ c, cmd_form v6 i c = true) (cleanup_cmds i).
Proof. repeat constructor; cbn [cmd_form]; apply jump_form; by left. Qed.
End Forms.

(** C39: Every command the plugin builds to install or remove a pod's rules is one iptables understands, for
    every interface name of printable characters the kernel allows, an address of the family and
    decimal ports: it is of the forms the manuals give, down to the words of a rule (each match after
    the protocol or module it belongs to, with an argument of its kind, and a target of the table);
    it names only the interface's own chains, inside the 28 characters of a chain name, and jumps
    only to them; and each address a connection is redirected to reads back as the portal's host, IPv4
    or IPv6, and one of its ports. *)
Theorem rules_well_formed v6 i host http https dns :
  iface_form i = true → addr_form v6 host = true →
  Forall (λ port, decimal 65535 port = true) [http; https; dns_port dns] →
  ∃ cs, mapM parse_cmd (buildHostNetfilterRules v6 i host http https dns ++ buildHostCleanupRules i) = Some cs ∧
    Forall (λ c, own_cmd i c ∧ length (cmd_key c).2 ≤ 28 ∧ cmd_form v6 i c = true) cs ∧
    Forall (λ c, ∀ opt dest, rule_target (cmd_spec c) = Some (#"DNAT", [opt; dest]) →
      ∃ port, port ∈ [http; https; dns_port dns] ∧ SplitHostPort dest = Ok (host, port)) cs.
Proof.
  intros Hi Hhost Hports. pose proof (iface_length i Hi) as Hlen.
  exists (install_cmds v6 host http https dns i ++ cleanup_cmds i).
  split; [apply rules_parsed|]. rewrite !Forall_app. split.
  - assert (Hown : ∀ cs, Forall (own_cmd i) cs → Forall (λ c, cmd_form v6 i c = true) cs →
      Forall (λ c, own_cmd i c ∧ length (cmd_key c).2 ≤ 28 ∧ cmd_form v6 i c = true) cs).
    { intros cs Ho Hf. apply Forall_forall. intros c Hc.
      pose proof (proj1 (Forall_forall _ _) Ho c Hc) as Hoc. split_and!; [done| |exact (proj1 (Forall_forall _ _) Hf c Hc)].
      assert (Hk : ∀ k, k ∈ [pr_key i; eg_key i; PREROUTING; INPUT; FORWARD] → length k.2 ≤ 28).
      { intros k. rewrite !elem_of_cons, elem_of_nil.
        intros [->|[->|[->|[->|[->|[]]]]]]; cbn; lia. }
      apply Hk. rewrite !elem_of_cons. destruct c; cbn [own_cmd cmd_key] in *; naive_solver. }
    split; apply Hown; [apply own_install|by apply install_form|apply own_cleanup|by apply cleanup_form].
  - assert (Hno : ∀ cs, Forall (λ c, cmd_spec c = []) cs → Forall (λ c, ∀ opt dest,
      rule_target (cmd_spec c) = Some (#"DNAT", [opt; dest]) →
      ∃ port, port ∈ [http; https; dns_port dns] ∧ SplitHostPort dest = Ok (host, port)) cs).
    { intros cs Hcs. eapply Forall_impl; [done|]. by intros c ->. }
    unfold install_cmds. rewrite !Forall_app. split_and!; try (apply Hno; by repeat constructor).
    + unfold fill_cmds. apply Forall_fmap. unfold pr_rules.
      repeat (apply Forall_cons; split; [intros opt dest [= <- <-]; eexists; split;
        [|by apply (dest_reads_back v6 host http https dns); rewrite ?elem_of_cons; auto];
        rewrite !elem_of_cons; auto|]). by apply Forall_nil.
    + unfold fill_cmds. apply Forall_fmap.
      assert (Heg : Forall (λ spec, fst <$> rule_target spec ≠ Some #"DNAT") (eg_rules v6 host http https dns)).
      { destruct v6; repeat (apply Forall_cons; split; [by vm_compute|]); by apply Forall_nil. }
      eapply Forall_impl; [exact Heg|]. intros spec Hs opt dest Ht. cbv beta in Hs.
      change (rule_target spec = Some (#"DNAT", [opt; dest])) in Ht. by rewrite Ht in Hs.
Qed.

(** Installing the rules again empties the pod's chains first: from the flush on,
    and for good if a later command fails, the packets of a running pod meet
    only the rules the host has behind the jump. *)
Theorem reinstall_opens other host http https dns i t t' rest fuel p :
  t !! FORWARD = Some (jump egChain i :: rest) →
  nf_runs (reset_cmds (pr_key i) ++ hook_cmds PREROUTING (jump prChain i)
           ++ fill_cmds (pr_key i) (pr_rules host http https dns) ++ reset_cmds (eg_key i)) t t' →
  eval_chain other (S (S fuel)) t' #"filter" p #"FORWARD"
  = eval_rules other (eval_chain other (S fuel) t' #"filter" p) rest p.
Proof.
  intros Hf Hr. destruct (keys_distinct i i) as (D1 & D2 & D3 & D4 & D5 & D6 & D7 & D8 & D9 & D10).
  apply nf_runs_app in Hr as (t1 & H1%reset_effect & Hr).
  apply nf_runs_app in Hr as (t2 & (l1 & l1' & Hl1 & _ & ->)%hook_effect & Hr).
  apply nf_runs_app in Hr as (t3 & H3 & H4%reset_effect).
  apply (fill_effect _ _ _ _ []) in H3 as ->; [|subst; by lookups]. subst t1 t'.
  set (t' := <[eg_key i := []]> _).
  assert (Hf' : t' !! (#"filter", #"FORWARD") = Some (jump egChain i :: rest)).
  { change (#"filter", #"FORWARD") with FORWARD. subst t'. by lookups. }
  assert (He : t' !! (#"filter", egChain i) = Some []).
  { change (#"filter", egChain i) with (eg_key i). subst t'. by lookups. }
  cbn [eval_chain]. rewrite Hf'. cbn [eval_rules].
  destruct (rule_matches other (jump egChain i) p); [|done].
  assert (∀ enter, apply_target enter (jump egChain i) = enter (egChain i)) as -> by done.
  cbn [eval_chain]. by rewrite He.
Qed.

(** ** The properties at concrete inputs *)

Lemma pod_traffic_confined_witness :
  eval_chain (λ _ _ _, false) 2 (h_tables4 running.1) #"filter" (demo_packet #"1.1.1.1" 22) #"FORWARD" = Reject ∧
  eval_chain (λ _ _ _, false) 2 (h_tables4 running.1) #"nat" (demo_packet #"1.1.1.1" 443) #"PREROUTING"
  = Dnat #"10.0.0.1:8443".
Proof.
  destruct (@pod_traffic_confined ascii_unicode host host_exec host_tables host_netfilter host_interface (λ _, None)
    host_stat host_Do host_Wait host_marshal (λ _, true) host_cfg host_Do_same host_Wait_same
    (λ _ _ _, false) (demo_sandbox #"sb1" #"uid-1") base_host base_state running.1 running.2)
    as (st & Hst & _ & Hc).
  - apply host_present.
  - apply host_present.
  - vm_compute. reflexivity.
  - apply host_run_ok. vm_compute. reflexivity.
  - assert (Hi : hostInterface <$> pods running.2 !! #"sb1" = Some #"veth12") by (vm_compute; reflexivity).
    rewrite (Hst : pods running.2 !! #"sb1" = Some st) in Hi. injection Hi as Hi.
    destruct Hc as [Hc _]; [unfold plain; rewrite Hi; vm_compute; reflexivity|].
    destruct (Hc 0 (demo_packet #"1.1.1.1" 22)) as (_ & H1 & _); [exact (eq_sym Hi)|].
    destruct (Hc 0 (demo_packet #"1.1.1.1" 443)) as (_ & _ & H2); [exact (eq_sym Hi)|].
    split; [exact (eq_trans H1 ltac:(vm_compute; reflexivity))|].
    apply (H2 #"10.0.0.1:8443"). vm_compute. reflexivity.
Defined.

(** The second pod's interface is its own. *)
Lemma demo_elsewhere st :
  hostInterface st = #"veth12" → elsewhere host_exec host_interface host_stat #"sb1" st (demo_sandbox #"sb2" #"uid-2").
Proof.
  intros Hi. split; [vm_compute; discriminate|]. intros netns w0 w1 w i v4 w' Hn Hf.
  vm_compute in Hn. injection Hn as <- _. vm_compute in Hf. injection Hf as <- _ _.
  split; [rewrite Hi; discriminate|vm_compute; reflexivity].
Qed.

Lemma running_confined :
  ∃ st, pods running.2 !! #"sb1" = Some st ∧ hostInterface st = #"veth12" ∧ confined host_tables host_cfg st running.1.
Proof.
  destruct (@run_pod_confined ascii_unicode host host_exec host_tables host_netfilter host_interface (λ _, None)
    host_stat host_Do host_Wait host_marshal (λ _, true) host_cfg host_Do_same host_Wait_same
    (demo_sandbox #"sb1" #"uid-1") base_host base_state running.1 running.2) as (st & Hst & _ & Hc).
  - apply host_present.
  - apply host_present.
  - vm_compute. reflexivity.
  - apply host_run_ok. vm_compute. reflexivity.
  - exists st. split; [exact Hst|]. split; [|exact Hc].
    assert (Hi : hostInterface <$> pods running.2 !! #"sb1" = Some #"veth12") by (vm_compute; reflexivity).
    rewrite (Hst : pods running.2 !! #"sb1" = Some st) in Hi. by injection Hi.
Qed.

Definition demo_events : list nri_event :=
  [EvRun (demo_sandbox #"sb2" #"uid-2"); EvTick; EvStop (demo_sandbox #"sb2" #"uid-2")].
Definition host_events (es : list nri_event) (x : host * plugin_state) : host * plugin_state :=
  foldl (@nri_step ascii_unicode host host_exec host_interface (λ _, None) host_stat host_Do host_Wait
    host_marshal host_decode_pods (λ _, true) (λ m, (map_to_list m).*2) host_cfg) x es.

Lemma confinement_survives_witness :
  eval_chain (λ _ _ _, false) 2 (host_tables false (host_events demo_events (running.1, running.2)).1) #"filter"
    (demo_packet #"1.1.1.1" 22) #"INPUT" = Reject.
Proof.
  assert (Hv : egress_verdict false (proxyHost host_cfg) (proxyPort host_cfg) (proxyHTTPSPort host_cfg)
    (proxyDNSPort host_cfg) (demo_packet #"1.1.1.1" 22) = Reject) by (vm_compute; reflexivity).
  destruct running_confined as (st & Hst & Hi & Hc).
  destruct (@confinement_survives ascii_unicode host host_exec host_tables host_netfilter host_interface (λ _, None)
    host_stat host_Do host_Wait host_marshal host_decode_pods (λ _, true) (λ m, (map_to_list m).*2) host_cfg
    host_Do_same host_Wait_same (λ _ _ _, false) #"sb1" st demo_events running.1 running.2) as [H _].
  - exact Hc.
  - unfold plain. rewrite Hi. vm_compute. reflexivity.
  - split; [exact Hst|]. intros id' st' Hne Hl. exfalso.
    assert (Hd : dom (pods running.2) = {[ #"sb1" ]}) by (vm_compute; reflexivity).
    apply elem_of_dom_2 in Hl. rewrite Hd in Hl.
    exact (Hne (proj1 (elem_of_singleton _ _) Hl)).
  - apply Forall_cons. split; [exact (demo_elsewhere st Hi)|]. apply Forall_cons. split; [exact I|].
    apply Forall_cons. split; [exact (demo_elsewhere st Hi)|]. apply Forall_nil. exact I.
  - destruct (H 0 (demo_packet #"1.1.1.1" 22)) as (H1 & _); [exact (eq_sym Hi)|].
    unfold host_events. rewrite H1. exact Hv.
Defined.

Lemma rules_leave_no_trace_witness :
  ∃ w1 w2 w3,
    @runNetfilter ascii_unicode host host_exec true (buildHostNetfilterRules true #"veth12" #"fd00::1" #"8080" #"8443" #"53") base_host
    = (Ok (), w1) ∧ h_tables6 w2 = h_tables6 w1 ∧
    @runNetfilter ascii_unicode host host_exec true (buildHostCleanupRules #"veth12") w2 = (Ok (), w3) ∧ h_tables6 w3 = base_tables.
Proof.
  destruct (@rules_leave_no_trace ascii_unicode host host_exec host_tables host_netfilter host_netfilter_live
    true #"fd00::1" #"8080" #"8443" #"53" #"veth12" base_host) as (w1 & w2 & w3 & H1 & _ & _ & H2 & H3 & H4).
  - split_and!; first [by eexists|by vm_compute|apply map_Forall_unused, (bool_decide_unpack _); vm_compute; exact I].
  - exists w1, w2, w3. split; [exact H1|]. split; [exact H2|]. split; [exact H3|]. exact (H4 true).
Defined.

Lemma rules_well_formed_witness :
  SplitHostPort (JoinHostPort #"fd00::1" #"8443") = Ok (#"fd00::1", #"8443") ∧
  spec_form true #"nat" [prChain #"veth12"] [] false (dnat #"tcp" #"443" #"[fd00::1]:8443") = true ∧
  spec_form true #"nat" [prChain #"veth12"] [] false (dnat #"tcp" #"443" #"fd00::1:8443") = false.
Proof.
  destruct (rules_well_formed true #"veth12" #"fd00::1" #"8080" #"8443" #"53") as (cs & H & Hf & Hd).
  - vm_compute. reflexivity.
  - vm_compute. reflexivity.
  - apply (bool_decide_unpack _). vm_compute. exact I.
  - rewrite rules_parsed in H. injection H as <-.
    assert (Hin : Append #"nat" (prChain #"veth12") (dnat #"tcp" #"443" (JoinHostPort #"fd00::1" #"8443"))
      ∈ install_cmds true #"fd00::1" #"8080" #"8443" #"53" #"veth12" ++ cleanup_cmds #"veth12")
      by (apply (bool_decide_unpack _); vm_compute; exact I).
    destruct (proj1 (Forall_forall _ _) Hf _ Hin) as (_ & _ & Hform).
    destruct (proj1 (Forall_forall _ _) Hd _ Hin #"--to-destination" (JoinHostPort #"fd00::1" #"8443") eq_refl)
      as (port & _ & Hs).
    split; [|split; [exact Hform|vm_compute; reflexivity]].
    vm_compute in Hs. injection Hs as <-. vm_compute. reflexivity.
Defined.
