(* ===== verification/NriRegistry.v ===== *)
(** * Properties of the NRI plugin: registration with the proxy

    What the events of the plugin do to the proxy's pod map, through the admin
    API: the composition of this component with [PodMap]. *)

From S2P Require Import Prelude GoStrings GoNet PodMap PodMapSpec Networking Netfilter NriPlugin NriSpec NriHost.

Section Registry.
Context `{Unicode} {W : Type} (exec : gostring → list gostring → W → cmd_result * W)
        (InterfaceByIndex : Z → W → option gostring)
        (InterfaceAddrs : W → option (list (option IP)))
        (Stat : gostring → W → option Z)
        (Do : admin_call → W → option (Z * option bytes) * W)
        (Wait : W → bool * W)
        (Marshal : payload → option bytes) (Unmarshal : bytes → option (list PodInfo))
        (valid_url : gostring → bool) (range : gmap gostring PodInfo → list PodInfo)
        (cfg : pluginConfig) (registry : W → PodMap).
Context `{A : !AdminServer cfg exec Do Wait Marshal Unmarshal registry}.

Abbreviation run_pod := (RunPodSandbox exec InterfaceByIndex InterfaceAddrs Stat Do Wait Marshal valid_url cfg).
Abbreviation cleanup := (cleanupPod exec InterfaceByIndex Stat Do Wait Marshal valid_url cfg).
Abbreviation notify := (notifyPodUpdate Do Wait Marshal valid_url cfg).
Abbreviation push := (sync_push Do Wait Marshal Unmarshal valid_url cfg).
Abbreviation tick := (syncActivePodsWithProxy Do Wait Marshal Unmarshal valid_url range cfg).

(** ** Attempts *)

(** [tries call n w w']: [n] attempts without a response, each waited for. *)
Inductive tries (call : admin_call) : nat → W → W → Prop :=
  | tries_0 w : tries call 0 w w
  | tries_S n w w1 w2 w' :
      Do call w = (None, w1) → Wait w1 = (false, w2) → tries call n w2 w' → tries call (S n) w w'.

Lemma notify_attempts_spec n call w :
  valid_url (ac_url call) = true →
  ∃ k w1, k ≤ n ∧ tries call k w w1 ∧
    ((k = n ∧ notify_attempts Do Wait valid_url n call w = (Err (NotifyFailed (ac_url call)), w1)) ∨
     (k < n ∧ ∃ code body w', Do call w1 = (Some (code, body), w') ∧
        notify_attempts Do Wait valid_url n call w
        = (if ok_status code then Ok () else Err (AdminStatus code (TrimSpace (default [] body))), w')) ∨
     (k < n ∧ ∃ w2 w', Do call w1 = (None, w2) ∧ Wait w2 = (true, w') ∧
        notify_attempts Do Wait valid_url n call w = (Err ContextDone, w'))).
Proof.
  intros Hv. revert w. induction n as [|n IH]; intros w.
  { exists 0, w. split_and!; [done|constructor|]. by left. }
  cbn [notify_attempts]. rewrite Hv. cbn [negb]. destruct (Do call w) as [[[code body]|] w1] eqn:Ed.
  { exists 0, w. split_and!; [lia|constructor|]. right. left. split; [lia|]. exists code, body, w1.
    split; [done|]. by destruct (ok_status code). }
  destruct (Wait w1) as [[] w2] eqn:Ew.
  { exists 0, w. split_and!; [lia|constructor|]. right. right. split; [lia|]. by exists w1, w2. }
  destruct (IH w2) as (k & w3 & Hk & Ht & Hcases). exists (S k), w3. split_and!; [lia|by econstructor|].
  destruct Hcases as [[-> Hr]|[[Hlt Hr]|[Hlt Hr]]]; [by left|right; left; split; [lia|done]|right; right; split; [lia|done]].
Qed.

(** Notifying the proxy ends: after at most three attempts that got no response the call gives up with
    an error; otherwise it returns with the first response, an error exactly when its status is not
    in 200-299, or when the context ends during a wait. *)
Theorem notify_terminates method path p data w :
  adminURL cfg ≠ [] → valid_url (ac_url (plugin_call cfg method path data)) = true →
  match p with None => data = [] | Some p => Marshal p = Some data end →
  let call := plugin_call cfg method path data in
  ∃ k w1, k ≤ 3 ∧ tries call k w w1 ∧
    ((k = 3 ∧ notify method path p w = (Err (NotifyFailed (ac_url call)), w1)) ∨
     (k < 3 ∧ ∃ code body w', Do call w1 = (Some (code, body), w') ∧
        notify method path p w
        = (if ok_status code then Ok () else Err (AdminStatus code (TrimSpace (default [] body))), w')) ∨
     (k < 3 ∧ ∃ w2 w', Do call w1 = (None, w2) ∧ Wait w2 = (true, w') ∧
        notify method path p w = (Err ContextDone, w'))).
Proof.
  intros Ha Hv Hp call. unfold notifyPodUpdate. rewrite bool_decide_eq_false_2 by done.
  assert (match p with None => Some [] | Some p => Marshal p end = Some data) as ->
    by (destruct p; [done|by subst]).
  by apply notify_attempts_spec.
Qed.

(** ** What a call does to the registry *)

Definition pods_request (method : gostring) (body : bytes) (pm : PodMap) : admin_response * PodMap :=
  serve_admin EpPods (admin_request method pods_path body) pm.

Lemma tries_registry method body (P : PodMap → Prop) n w w' :
  (∀ pm, P pm → P (pods_request method body pm).2) →
  tries (plugin_call cfg method pods_path body) n w w' → P (registry w) → P (registry w').
Proof.
  intros Hstep. induction 1 as [w|n w w1 w2 w' Hd Hw _ IH]; [done|]. intros HP. apply IH.
  pose proof (wait_registry w1) as Hr. rewrite Hw in Hr. cbn in Hr. rewrite Hr.
  apply pods_lost in Hd as [-> | ->]; [done|by apply Hstep].
Qed.

(** A notification of the list of pods that succeeds has been handled last by
    the handler, with a status of success. *)
Lemma notify_pods_ok method p data (P : PodMap → Prop) w w' :
  adminURL cfg ≠ [] → Marshal p = Some data →
  (∀ pm, P pm → P (pods_request method data pm).2) → P (registry w) →
  notify method pods_path (Some p) w = (Ok (), w') →
  ∃ pm, P pm ∧ registry w' = (pods_request method data pm).2 ∧
        ok_status (admin_status (pods_request method data pm).1) = true.
Proof.
  intros Ha Hm Hstep HP Hn. unfold notifyPodUpdate in Hn. rewrite bool_decide_eq_false_2, Hm in Hn by done.
  change (mkCall _ method _ data) with (plugin_call cfg method pods_path data) in Hn.
  destruct (valid_url (ac_url (plugin_call cfg method pods_path data))) eqn:Ev; [|by cbn [notify_attempts] in Hn; rewrite Ev in Hn].
  destruct (notify_attempts_spec 3 (plugin_call cfg method pods_path data) w Ev)
    as (k & w1 & _ & Ht & [[_ Hr]|[(_ & code & body & w2 & Hd & Hr)|(_ & w2 & w3 & _ & _ & Hr)]]);
    rewrite Hr in Hn; [done| |done].
  destruct (ok_status code) eqn:Eo; [|done]. injection Hn as <-.
  apply pods_answered in Hd. unfold pods_request.
  destruct (serve_admin _ _ (registry w1)) as [resp pm] eqn:Es. destruct Hd as (Hpm & -> & _).
  exists (registry w1). split; [by eapply tries_registry|]. by rewrite Es.
Qed.

Lemma post_handled info data pm :
  Marshal (OnePod info) = Some data →
  pods_request #"POST" data pm = (StatusOK, AddOrUpdatePod info pm).
Proof.
  intros Hm%sent_pod. transitivity (match decode_pod data with
    | None => (ErrorStatus 400, pm) | Some info => (StatusOK, AddOrUpdatePod info pm) end); [done|by rewrite Hm].
Qed.

Lemma put_handled infos data pm :
  Marshal (AllPods infos) = Some data →
  pods_request #"PUT" data pm = (StatusOK, SynchronizePods infos pm).
Proof.
  intros Hm%sent_pods. transitivity (match decode_pods data with
    | None => (ErrorStatus 400, pm) | Some pods => (StatusOK, SynchronizePods pods pm) end); [done|by rewrite Hm].
Qed.

Lemma get_handled pm :
  pods_request #"GET" [] pm = (PodList (omap (λ l, heap pm !! l) (map_to_list (byUID pm)).*2), pm).
Proof. done. Qed.

(** ** Registration *)

Definition same_registry (w w' : W) : Prop := registry w' = registry w.
#[global] Instance same_registry_refl : Reflexive same_registry.
Proof. by intros w. Qed.
#[global] Instance same_registry_trans : Transitive same_registry.
Proof. unfold same_registry. intros w1 w2 w3 H1 H2. congruence. Qed.

(** A pod that runs has been posted last, from a pod map with whatever holds of
    the first one and is kept by the posts of this pod. *)
Lemma run_pod_posts (P : PodMap → Prop) pod w s w' s' :
  adminURL cfg ≠ [] → matchesPod (Some pod) = true → (∀ info, is_Some (Marshal (OnePod info))) →
  (∀ st pm, P pm → P (AddOrUpdatePod (pod_info pod st) pm)) → P (registry w) →
  run_pod pod (w, s) = (Ok (), (w', s')) →
  ∃ st pm, P pm ∧ registry w' = AddOrUpdatePod (pod_info pod st) pm ∧
    pods s' !! Id pod = Some st ∧ activePods s' !! Uid pod = Some (pod_info pod st).
Proof.
  intros Ha Hm Hmar Hkeep HP Hrun. unfold RunPodSandbox in Hrun. rewrite Hm in Hrun. cbn [negb] in Hrun.
  apply io_bind_ok in Hrun as (? & [w0 s0] & [= _ <- <-] & Hrun).
  apply io_bind_ok in Hrun as ([] & [w1 s1] & Hc & Hrun).
  assert (Hr1 : registry w1 = registry w).
  { pose proof (configure_step exec InterfaceByIndex InterfaceAddrs Stat cfg same_registry pod exec_registry w s) as Hcr.
    by rewrite Hc in Hcr. }
  apply io_bind_ok in Hrun as (st & [w2 s2] & Hread & Hrun).
  apply io_bind_ok in Hrun as (r & [w3 s3] & Hn%attempt_ok & Hrun).
  destruct r as [[]|e|p]; [|by apply io_bind_ok in Hrun as (? & [] & _ & ?)|done].
  apply on_host_ok in Hn as [Hn ->]. injection Hrun as <- <-. injection Hread as <- <- <-.
  assert (Hst : pods s1 !! Id pod = Some (default no_state (pods s1 !! Id pod))).
  { unfold configurePod in Hc. apply io_bind_ok in Hc as (? & ? & _ & Hc).
    apply io_bind_ok in Hc as (? & ? & _ & Hc). apply io_bind_ok in Hc as ([] & ? & _ & Hc).
    apply io_bind_ok in Hc as ([] & ? & _ & Hc). apply io_bind_ok in Hc as (? & ? & _ & Hc).
    apply io_bind_ok in Hc as (? & [] & _ & [= _ <-]). cbn. by rewrite lookup_insert_eq. }
  set (st := default no_state _) in *. set (info := pod_info pod st) in *.
  exists st. destruct (Hmar info) as [data Hd].
  apply (notify_pods_ok _ _ data P) in Hn as (pm & Hpm & Hreg & _); [|done..| |by rewrite Hr1].
  2:{ intros pm Hpm. rewrite (post_handled info) by done. by apply Hkeep. }
  rewrite (post_handled info) in Hreg by done. exists pm. split_and!; [done..|].
  cbn. by rewrite lookup_insert_eq.
Qed.

(** The node proxy knows every opted-in pod that starts: when RunPodSandbox succeeds (with an admin URL
    and a UID), the proxy has registered the pod as its last change, so that each address the plugin
    found resolves to a pod with this UID, namespace, name and addresses, whatever the attempts and
    lost responses before. *)
Theorem run_pod_registers pod w s w' s' ip :
  adminURL cfg ≠ [] → Uid pod ≠ [] → matchesPod (Some pod) = true → (∀ info, is_Some (Marshal (OnePod info))) →
  pod_reachable (registry w) → run_pod pod (w, s) = (Ok (), (w', s')) →
  ∃ info, activePods s' !! Uid pod = Some info ∧ pod_reachable (registry w') ∧
    (ip ∈ IPs info → ip ≠ [] → ∃ p, pod_at ip (registry w') = Some p ∧
       UID p = Uid pod ∧ Namespace p = pod_Namespace pod ∧ PodMap.Name p = pod_Name pod ∧ IPs p = IPs info).
Proof.
  intros Ha Hu Hm Hmar Hreach Hrun.
  destruct (run_pod_posts pod_reachable pod w s w' s') as (st & pm & Hpm & Hreg & _ & Hact);
    [done..| |done|done|]; [intros; by apply reach_add|].
  exists (pod_info pod st). split_and!; [done|rewrite Hreg; by apply reach_add|].
  intros Hin Hne. rewrite Hreg. eexists. split; [apply registered_at; [by apply reachable_wf|done..]|].
  rewrite rebind_UID, rebind_IPs. split_and!; [done| | |done]; unfold rebind; repeat case_match; done.
Qed.

(** ** Reconciliation *)

Definition valid_pods_url : Prop := valid_url (c_base (newAdminHTTPClient (adminURL cfg)) ++ pods_path) = true.

(** An update that the proxy takes synchronises it with the pods it carries. *)
Lemma put_effect infos data w :
  adminURL cfg ≠ [] → valid_pods_url → Marshal (AllPods infos) = Some data →
  (Do (plugin_call cfg #"PUT" pods_path data) w).1 ≠ None →
  registry (notify #"PUT" pods_path (Some (AllPods infos)) w).2 = SynchronizePods infos (registry w).
Proof.
  intros Ha Hv Hm Hput. unfold notifyPodUpdate. rewrite bool_decide_eq_false_2, Hm by done.
  change (mkCall _ #"PUT" _ data) with (plugin_call cfg #"PUT" pods_path data).
  cbn [notify_attempts]. rewrite (Hv : valid_url (ac_url (plugin_call cfg #"PUT" pods_path data)) = true).
  cbn [negb]. destruct (Do _ w) as [[[code out]|] w2] eqn:Ep; [|done].
  apply pods_answered in Ep. change (serve_admin EpPods _ (registry w)) with (pods_request #"PUT" data (registry w)) in Ep.
  rewrite (put_handled infos) in Ep by done. destruct Ep as (Hw2 & -> & _). cbn. by rewrite Hw2.
Qed.

(** A push acts on the copy it is given: if the proxy answers with fewer pods
    and takes the update, it then has what a synchronisation with the copy
    gives; if it has as many pods or more, whichever they are, nothing changes. *)
Lemma push_effect infos data w code body w1 existing :
  adminURL cfg ≠ [] → valid_pods_url → Marshal (AllPods infos) = Some data →
  Do (plugin_call cfg #"GET" pods_path []) w = (Some (code, Some body), w1) → Unmarshal body = Some existing →
  registry w1 = registry w ∧
  length existing = length (omap (λ l, heap (registry w) !! l) (map_to_list (byUID (registry w))).*2) ∧
  (length existing < length infos →
   (Do (plugin_call cfg #"PUT" pods_path data) w1).1 ≠ None →
   registry (push infos w) = SynchronizePods infos (registry w)) ∧
  (length infos ≤ length existing → registry (push infos w) = registry w).
Proof.
  intros Ha Hv Hm Hget Hdec. pose proof (pods_answered _ _ _ _ _ _ Hget) as Hans.
  rewrite (get_handled (registry w) : serve_admin EpPods (admin_request #"GET" pods_path []) (registry w) = _) in Hans.
  destruct Hans as (Hreg & _ & Hlen). specialize (Hlen _ _ existing eq_refl eq_refl Hdec).
  assert (Hpush : push infos w = if length existing <? length infos
    then (notify #"PUT" pods_path (Some (AllPods infos)) w1).2 else w1).
  { unfold sync_push, sync_ask. change (c_base (newAdminHTTPClient (adminURL cfg)) ++ #"/api/v1/pods")
      with (c_base (newAdminHTTPClient (adminURL cfg)) ++ pods_path).
    rewrite Hv. cbn [negb]. change (mkCall _ #"GET" _ []) with (plugin_call cfg #"GET" pods_path []).
    by rewrite Hget, Hdec. }
  split_and!; [done|done| |].
  - intros Hlt Hput. rewrite Hpush, (proj2 (Nat.ltb_lt _ _)) by done.
    rewrite (put_effect infos data w1) by done. by rewrite Hreg.
  - intros Hle. by rewrite Hpush, (proj2 (Nat.ltb_ge _ _)).
Qed.

(** C29: A proxy that restarts gets its pods back: within one tick of the reconciliation loop in which the
    proxy answers, an empty pod map holds exactly the pods that are active. *)
Theorem restart_recovery data w s code body w1 existing uid :
  adminURL cfg ≠ [] → valid_pods_url → activePods s ≠ ∅ →
  range (activePods s) ≡ₚ (map_to_list (activePods s)).*2 →
  (∀ u info, activePods s !! u = Some info → UID info = u) → uid ≠ [] →
  registry w = NewPodMap → Marshal (AllPods (range (activePods s))) = Some data →
  Do (plugin_call cfg #"GET" pods_path []) w = (Some (code, Some body), w1) → Unmarshal body = Some existing →
  (Do (plugin_call cfg #"PUT" pods_path data) w1).1 ≠ None →
  (tick (w, s)).2 = s ∧
  (is_Some (byUID (registry (tick (w, s)).1) !! uid) ↔ is_Some (activePods s !! uid)).
Proof.
  intros Ha Hv Hne Hrange Huid Hu Hnew Hm Hget Hdec Hput.
  unfold syncActivePodsWithProxy, sync_snapshot. cbn [fst snd]. rewrite bool_decide_eq_false_2 by done.
  cbn [fst snd]. split; [done|].
  destruct (push_effect _ _ _ _ _ _ _ Ha Hv Hm Hget Hdec) as (_ & Hlen & Hpush & _).
  rewrite Hnew in Hlen. assert (Hz : length existing = 0) by (rewrite Hlen; reflexivity).
  rewrite Hpush, Hnew; [|rewrite Hz|done].
  - rewrite sync_registers_aux by constructor. rewrite Hrange. split.
    + intros [(info & -> & ([u v] & Hi & Hin%elem_of_map_to_list)%list_elem_of_fmap)%list_elem_of_fmap _].
      cbn in Hi. subst v. exists info. by rewrite (Huid _ _ Hin).
    + intros [info Hi]. split; [|by left]. apply list_elem_of_fmap. exists info. rewrite (Huid _ _ Hi).
      split; [done|]. apply list_elem_of_fmap. exists (uid, info). split; [done|]. by apply elem_of_map_to_list.
  - rewrite (Permutation_length Hrange), length_fmap.
    destruct (map_to_list (activePods s)) as [|e l] eqn:E; [|cbn; lia].
    by apply map_to_list_empty_iff in E.
Qed.

(** Reconciliation acts on the copy of the active pods it took at the start of the tick, and compares
    only numbers. If the proxy then has fewer pods than the copy, it ends with exactly the pods of the
    copy, also those that were stopped and unregistered since; if it has as many, nothing is
    repaired, whichever pods they are. *)
Theorem reconcile_by_count infos data w code body w1 existing :
  adminURL cfg ≠ [] → valid_pods_url → pod_reachable (registry w) → Marshal (AllPods infos) = Some data →
  Do (plugin_call cfg #"GET" pods_path []) w = (Some (code, Some body), w1) → Unmarshal body = Some existing →
  (Do (plugin_call cfg #"PUT" pods_path data) w1).1 ≠ None →
  if length existing <? length infos
  then ∀ uid, uid ≠ [] → is_Some (byUID (registry (push infos w)) !! uid) ↔ uid ∈ UID <$> infos
  else registry (push infos w) = registry w.
Proof.
  intros Ha Hv Hr Hm Hget Hdec Hput.
  destruct (push_effect _ _ _ _ _ _ _ Ha Hv Hm Hget Hdec) as (_ & _ & Hpush & Hkeep).
  destruct (length existing <? length infos) eqn:E; bools; [|by apply Hkeep].
  intros uid Hu. rewrite Hpush, sync_registers_aux by done.
  split; [by intros [? _]|intros Hin; split; [done|by left]].
Qed.

(** ** Pods of one family *)

Lemma flush_step k t t1 : nf_step (Flush k.1 k.2) t = Some t1 → t !! k ≠ None.
Proof. destruct k as [table chain]. cbn. intros Hs E. by rewrite E in Hs. Qed.

(** The cleanup rules cannot all run on tables without the pod's chain. *)
Lemma cleanup_needs_chain i t t' : nf_runs (cleanup_cmds i) t t' → t !! pr_key i ≠ None.
Proof.
  assert (Hf : ∀ cs t0, nf_runs (Flush #"nat" (prChain i) :: cs) t0 t' → t0 !! pr_key i ≠ None).
  { intros cs t0 Hr. inversion Hr as [|? ? ? t1 ? Hs _|? ? ? ? Hs _]; subst; [|done].
    exact (flush_step (pr_key i) t0 t1 Hs). }
  intros Hr. unfold cleanup_cmds in Hr. inversion Hr as [|? ? ? t1 ? Hs Hn|? ? ? ? Hs Hn]; subst; apply Hf in Hn; [|done].
  rewrite (nf_step_frame _ _ _ _ Hs) in Hn; [done|]. destruct (keys_distinct i i) as (_ & D2 & _). exact D2.
Qed.

(** A pod without IPv6 rules is not unregistered when it stops: its IPv4 rules are removed, but flushing
    the chain it never had in ip6tables fails, this error is not among those let pass, and cleanup
    returns it before it tells the proxy; the plugin has already forgotten the pod. *)
Theorem single_stack_cleanup_fails (tables : bool → W → Tables) `{!Netfilter exec tables} pod st w s :
  present exec true → pods s !! Id pod = Some st → hostInterface st ≠ [] →
  tables true w !! pr_key (hostInterface st) = None →
  let '(r, (w', s')) := cleanup pod (w, s) in
  is_ok r = false ∧ registry w' = registry w ∧ s' = (forget pod s).2.
Proof.
  intros Hp Hst Hi Ht. unfold cleanupPod.
  rewrite (io_bind_run _ _ (w, s) (Some st) (w, (forget pod s).2)) by (unfold on_state, forget; by rewrite Hst).
  rewrite (io_bind_run _ _ (w, (forget pod s).2) (hostInterface st) (w, (forget pod s).2)) by done.
  rewrite (bool_decide_eq_false_2 (hostInterface st = [])) by done. unfold mbind at 1, io_bind at 1. unfold on_host at 1.
  assert (Hstep : io_step same_registry (removeHostIptablesRules exec (hostInterface st))).
  { apply io_step_bind; [typeclasses eauto..| |intros _ _ _ _]; apply runNetfilter_step;
      first [typeclasses eauto|exact exec_registry]. }
  specialize (Hstep w). destruct (removeHostIptablesRules exec (hostInterface st) w) as [r w'] eqn:Er.
  cbn [snd] in Hstep. destruct r as [[]|e|p]; [|by split_and!..]. exfalso.
  apply io_bind_ok in Er as ([] & w1 & H4 & H6).
  pose proof (run_effects exec tables false _ _ w (cleanup_parsed (hostInterface st))) as He4.
  rewrite H4 in He4. destruct He4 as (_ & _ & _ & _ & Hfr & _). cbn [negb] in Hfr.
  pose proof (run_effects exec tables true _ _ w1 (cleanup_parsed (hostInterface st))) as He6.
  rewrite H6 in He6. destruct He6 as (cs1 & cs2 & Heq & Hr & _ & Hc).
  rewrite (Hc Hp eq_refl), app_nil_r in Heq. subst cs1.
  apply cleanup_needs_chain in Hr. by rewrite Hfr in Hr.
Qed.
End Registry.

(** ** What is taken for success *)

(** Without the iptables program the rules count as installed. *)
Theorem missing_iptables_is_success `{Unicode} {W} (exec : gostring → list gostring → W → cmd_result * W) v6 cmds w :
  (∀ args w, exec (binary v6) args w = (CmdNotFound, w)) → runNetfilter exec v6 cmds w = (Ok (), w).
Proof. intros Hn. destruct cmds as [|args cmds]; [done|]. cbn [runNetfilter]. by rewrite (Hn args w : exec (binary_name v6) args w = _). Qed.

(** When the runtime lists no pod that opts in, the proxy is told nothing: the
    pods it knows stay registered. *)
Theorem synchronize_none_keeps_proxy `{Unicode} {W} (exec : gostring → list gostring → W → cmd_result * W)
    ibi ia stat Do Wait mar vu cfg l w s :
  Forall (λ pod, matchesPod (Some pod) = false) l →
  Synchronize exec ibi ia stat Do Wait mar vu cfg l (w, s) = (Ok (), (w, mkPlugin (pods s) ∅)).
Proof.
  intros Hl. unfold Synchronize. rewrite (io_bind_run _ _ (w, s) () (w, mkPlugin (pods s) ∅)) by done.
  assert (Hs : sync_pods exec ibi ia stat cfg l (w, mkPlugin (pods s) ∅) = (Ok ([], []), (w, mkPlugin (pods s) ∅))).
  { induction Hl as [|pod l Hp _ IH]; [done|]. cbn [sync_pods]. by rewrite Hp. }
  by rewrite (io_bind_run _ _ _ _ _ Hs).
Qed.

(** ** The properties at concrete inputs *)

Definition host_range (m : gmap gostring PodInfo) : list PodInfo := (map_to_list m).*2.

Lemma notify_terminates_witness :
  (@notifyPodUpdate host host_Do host_Wait host_marshal (λ _, true) host_cfg #"DELETE" (pod_path #"uid-9") None
     (mkHost ∅ ∅ NewPodMap false)).1 = Err (NotifyFailed (#"http://unix" ++ pod_path #"uid-9")).
Proof.
  destruct (@notify_terminates host host_Do host_Wait host_marshal (λ _, true) host_cfg #"DELETE" (pod_path #"uid-9")
    None [] (mkHost ∅ ∅ NewPodMap false)) as (k & w1 & Hk & Ht & [[_ H]|[(_ & code & body & w2 & Hd & _)|(_ & w2 & w3 & _ & Hw & _)]]).
  - vm_compute. discriminate.
  - reflexivity.
  - reflexivity.
  - rewrite H. reflexivity.
  - exfalso. assert (Hup : h_proxy_up w1 = false).
    { clear -Ht. remember (mkHost ∅ ∅ NewPodMap false) as w0 eqn:E. assert (H0 : h_proxy_up w0 = false) by (by rewrite E).
      clear E. induction Ht as [w|n w w1 w2 w' Hd Hw _ IH]; [done|]. apply IH. injection Hw as <-.
      unfold host_Do in Hd. rewrite H0 in Hd. by injection Hd as <-. }
    unfold host_Do in Hd. rewrite Hup in Hd. discriminate Hd.
  - discriminate Hw.
Defined.

Lemma run_pod_registers_witness :
  ∃ p, pod_at #"10.244.0.6" (h_registry running.1) = Some p ∧ UID p = #"uid-1" ∧ PodMap.Name p = #"worker".
Proof.
  destruct (@run_pod_registers ascii_unicode host host_exec host_interface (λ _, None) host_stat host_Do host_Wait
    host_marshal host_decode_pods (λ _, true) host_cfg h_registry host_admin_server
    (demo_sandbox #"sb1" #"uid-1") base_host base_state running.1 running.2 #"10.244.0.6") as (info & Hi & _ & H).
  - vm_compute. discriminate.
  - vm_compute. discriminate.
  - vm_compute. reflexivity.
  - intros info. eexists. reflexivity.
  - constructor.
  - apply host_run_ok. vm_compute. reflexivity.
  - assert (Hips : IPs <$> activePods running.2 !! #"uid-1" = Some [ #"10.244.0.6"]) by (vm_compute; reflexivity).
    rewrite (Hi : activePods running.2 !! #"uid-1" = Some info) in Hips. injection Hips as Hips.
    destruct H as (p & Hp & Hu & _ & Hn & _).
    + rewrite Hips. by left.
    + discriminate.
    + exists p. split; [exact Hp|]. split; [exact Hu|exact Hn].
Defined.

(** The proxy has restarted: its pod map is empty. *)
Definition restarted : host := set_registry NewPodMap running.1.
Definition active_data : bytes := bits (encode (host_range (activePods running.2))).

Lemma restart_recovery_witness :
  is_Some (byUID (h_registry (@syncActivePodsWithProxy host host_Do host_Wait host_marshal host_decode_pods
    (λ _, true) host_range host_cfg (restarted, running.2)).1) !! #"uid-1").
Proof.
  destruct (@restart_recovery host host_exec host_Do host_Wait
    host_marshal host_decode_pods (λ _, true) host_range host_cfg h_registry host_admin_server active_data
    restarted running.2 200 (bits (encode ([] : list PodInfo)))
    (host_Do (plugin_call host_cfg #"GET" pods_path []) restarted).2 [] #"uid-1") as [_ H].
  - vm_compute. discriminate.
  - reflexivity.
  - intros E. apply (f_equal size) in E. vm_compute in E. discriminate E.
  - reflexivity.
  - intros u info Hi. assert (Hd : map_Forall (λ u info, UID info = u) (activePods running.2))
      by (apply (bool_decide_unpack _); vm_compute; exact I).
    exact (Hd u info Hi).
  - discriminate.
  - vm_compute. reflexivity.
  - reflexivity.
  - vm_compute. reflexivity.
  - vm_compute. reflexivity.
  - vm_compute. discriminate.
  - apply H. vm_compute. eexists. reflexivity.
Defined.

(** The pod was stopped and unregistered after the copy was taken. *)
Lemma reconcile_by_count_witness :
  is_Some (byUID (h_registry (@sync_push host host_Do host_Wait host_marshal host_decode_pods (λ _, true) host_cfg
    (host_range (activePods running.2)) restarted)) !! #"uid-1").
Proof.
  pose proof (@reconcile_by_count host host_exec host_Do host_Wait
    host_marshal host_decode_pods (λ _, true) host_cfg h_registry host_admin_server
    (host_range (activePods running.2)) active_data restarted 200 (bits (encode ([] : list PodInfo)))
    (host_Do (plugin_call host_cfg #"GET" pods_path []) restarted).2 []) as H.
  assert (E : (length (@nil PodInfo) <? length (host_range (activePods running.2))) = true) by (vm_compute; reflexivity).
  rewrite E in H. apply H.
  - vm_compute. discriminate.
  - reflexivity.
  - vm_compute. constructor.
  - reflexivity.
  - vm_compute. reflexivity.
  - vm_compute. reflexivity.
  - vm_compute. discriminate.
  - discriminate.
  - apply (bool_decide_unpack _). vm_compute. exact I.
Defined.

Lemma single_stack_cleanup_fails_witness :
  is_ok (@cleanupPod ascii_unicode host host_exec host_interface host_stat host_Do host_Wait host_marshal (λ _, true)
    host_cfg (demo_sandbox #"sb1" #"uid-1") (running.1, running.2)).1 = false.
Proof.
  destruct (pods running.2 !! #"sb1") as [st|] eqn:E; [|vm_compute in E; discriminate].
  assert (Hi : hostInterface <$> pods running.2 !! #"sb1" = Some #"veth12") by (vm_compute; reflexivity).
  rewrite E in Hi. injection Hi as Hi.
  pose proof (@single_stack_cleanup_fails ascii_unicode host host_exec host_interface host_stat host_Do host_Wait
    host_marshal host_decode_pods (λ _, true) host_cfg h_registry host_admin_server host_tables host_netfilter
    (demo_sandbox #"sb1" #"uid-1") st running.1 running.2 (host_present true) E) as H.
  destruct (cleanupPod _ _ _ _ _ _ _ _ _ _) as [r [w' s']]. apply H.
  - rewrite Hi. discriminate.
  - rewrite Hi. vm_compute. reflexivity.
Defined.

