(* ===== verification/EndToEnd.v ===== *)
(** * A pod's way to the network, from its sandbox to the upstream

    The plugin (pkg cmd/portal-nri-plugin), the pod map with its admin API and
    the rule router, composed: the packets of a pod that starts go to the
    portal or nowhere, the portal's pod map has its addresses, and the router
    answers its requests by its binding. [node_step] is one event of the node:
    of the container runtime, of the reconciliation loop, of the operator who
    binds and unbinds, of the portal's restarts. *)

From S2P Require Import Prelude GoStrings GoNet Http HTTPProxy PodMap PodMapSpec RuleRouter Networking Netfilter NriPlugin NriSpec NriHost NriSafety NriRegistry.

(** ** What the router tells a caller *)

Section Router.
Context `{Unicode}.

(** The requests and handshakes of an address, whatever the rules. *)
Definition turned_away (ip : gostring) (pm : PodMap) : Prop :=
  ∀ order rr, podMap rr = Some pm →
    (∀ r, HostWithoutPort (RemoteAddr r) = ip →
       ∃ d, route_request order rr r = Denied d ∧ d ≠ HostDenied) ∧
    (∀ name addr, HostWithoutPort addr = ip →
       is_ok (GetCertificate order rr name (Some addr)) = false).

Lemma unbound_turned_away ip pm :
  (∀ pod, pod_at ip pm = Some pod → Bound pod = false) → turned_away ip pm.
Proof.
  intros Hun order rr Hp. split.
  - intros r <-. unfold route_request. rewrite Hp. destruct (pod_at _ pm) as [pod|] eqn:E.
    + rewrite (Hun _ eq_refl). by exists PodUnbound.
    + by exists CallerUnknown.
  - intros name addr <-. unfold GetCertificate. rewrite Hp. cbn [from_option].
    destruct (pod_at _ pm) as [pod|] eqn:E; [|done]. by rewrite (Hun _ eq_refl).
Qed.

(** What the router does for a bound pod: what its policy names, in its name. *)
Definition served_by_policy (ip : gostring) (pod : PodInfo) (pm : PodMap) : Prop :=
  ∀ order rr r, podMap rr = Some pm → HostWithoutPort (RemoteAddr r) = ip →
    route_request order rr r =
    match find_route order (request_host r) (routes rr), fallback rr with
    | Some rule, _ =>
        if IsRuleAllowed (Some pod) (Name rule) (request_host r)
        then ToRule rule (Some pod) else Denied PolicyDenied
    | None, Some (p, t) =>
        if IsRuleAllowed (Some pod) #"fallback" (request_host r)
        then ToFallback p t else Denied PolicyDenied
    | None, None => Denied HostDenied
    end.

Lemma bound_served ip pod pm :
  pod_at ip pm = Some pod → Bound pod = true → served_by_policy ip pod pm.
Proof.
  intros Hp Hb order rr r Hpm <-. unfold route_request. rewrite Hpm, Hp, Hb. cbn [negb].
  destruct (find_route _ _ _); [done|]. by destruct (fallback rr) as [[]|].
Qed.
End Router.

(** The pod an address resolves to is the one its UID names. *)
Lemma pod_at_registered ip pm pod :
  wf pm → pod_at ip pm = Some pod → PodMapSpec.pods (abs pm) !! UID pod = Some pod ∧ ip ∈ IPs pod.
Proof.
  intros Hwf Hp. unfold pod_at, GetPodByIP in Hp. apply bind_Some in Hp as (l & Hl & Hh).
  destruct (wf_ip _ Hwf _ _ Hl) as (pod' & Hh' & Hin & _ & Hu).
  assert (pod' = pod) as -> by congruence. by rewrite abs_pods, Hu.
Qed.

(** An address of a registration resolves to it, and a binding of that UID is
    what the address then has. *)
Lemma registered_pod ip info pm :
  wf pm → UID info ≠ [] → ip ∈ IPs info → ip ≠ [] →
  ∃ p, pod_at ip (AddOrUpdatePod info pm) = Some p ∧ UID p = UID info ∧
    Namespace p = Namespace info ∧ PodMap.Name p = PodMap.Name info.
Proof.
  intros Hwf Hu Hin Hne. eexists. split; [by apply registered_at|].
  rewrite rebind_UID. split_and!; [done|..]; unfold rebind; repeat case_match; done.
Qed.

Lemma bind_by_ip pm ip pod i p :
  wf pm → pod_at ip pm = Some pod →
  pod_at ip (Bind (UID pod) i p pm) = Some (set_binding i p true pod) ∧
  ∃ pm', Unbind (UID pod) (Bind (UID pod) i p pm) = Ok pm' ∧
    pod_at ip pm' = Some (set_binding [] [] false (set_binding i p true pod)).
Proof.
  intros Hwf Hpod. unfold pod_at, GetPodByIP in Hpod. apply bind_Some in Hpod as (l & Hl & Hh).
  destruct (wf_ip _ Hwf _ _ Hl) as (pod' & Hh' & _ & _ & Hu). assert (pod' = pod) as -> by congruence.
  unfold Bind, Unbind. rewrite Hu. cbn [byUID bind_at]. rewrite Hu. unfold pod_at, GetPodByIP. cbn.
  rewrite Hl. cbn. rewrite lookup_alter_eq, Hh. split; [done|]. eexists. split; [done|].
  cbn. rewrite Hl. cbn. by rewrite lookup_alter_eq, lookup_alter_eq, Hh.
Qed.

(** ** The node *)

Section Node.
Context `{Unicode} {W : Type} (exec : gostring → list gostring → W → cmd_result * W)
        (tables : bool → W → Tables) `{!Netfilter exec tables}
        (InterfaceByIndex : Z → W → option gostring)
        (InterfaceAddrs : W → option (list (option IP)))
        (Stat : gostring → W → option Z)
        (Do : admin_call → W → option (Z * option bytes) * W)
        (Wait : W → bool * W)
        (Marshal : payload → option bytes) (Unmarshal : bytes → option (list PodInfo))
        (valid_url : gostring → bool) (range : gmap gostring PodInfo → list PodInfo)
        (cfg : pluginConfig) (registry : W → PodMap).
Context `{A : !AdminServer cfg exec Do Wait Marshal Unmarshal registry}.
Hypothesis Do_same : ∀ c w, same_tables tables w (Do c w).2.
Hypothesis Wait_same : ∀ w, same_tables tables w (Wait w).2.
Hypothesis range_values : ∀ m, range m ≡ₚ (map_to_list m).*2.

Abbreviation configure := (configurePod exec InterfaceByIndex InterfaceAddrs Stat cfg).
Abbreviation run_pod := (RunPodSandbox exec InterfaceByIndex InterfaceAddrs Stat Do Wait Marshal valid_url cfg).
Abbreviation cleanup := (cleanupPod exec InterfaceByIndex Stat Do Wait Marshal valid_url cfg).
Abbreviation stop_pod := (StopPodSandbox exec InterfaceByIndex Stat Do Wait Marshal valid_url cfg).
Abbreviation remove_pod := (RemovePodSandbox exec InterfaceByIndex Stat Do Wait Marshal valid_url cfg).
Abbreviation synchronize := (Synchronize exec InterfaceByIndex InterfaceAddrs Stat Do Wait Marshal valid_url cfg).
Abbreviation tick := (syncActivePodsWithProxy Do Wait Marshal Unmarshal valid_url range cfg).
Abbreviation notify := (notifyPodUpdate Do Wait Marshal valid_url cfg).

(** The goroutine of the reconciliation loop runs next to the events: it has
    copied the active pods, and it has found that the proxy has fewer. *)
Inductive tick_phase :=
  | Resting
  | Copied (infos : list PodInfo)
  | Pushing (infos : list PodInfo).

Abbreviation node := ((W * plugin_state) * tick_phase)%type.

(** An event of the node. What the operator does through the admin API, a
    restart of the portal (with an empty pod map) and everything else on the host
    change the world as [w ⟶ w']. *)
Inductive node_event :=
  | RunPod (pod : PodSandbox)
  | StopPod (pod : PodSandbox)
  | RemovedPod (pod : PodSandbox)
  | SyncPods (l : list PodSandbox)
  | TickCopies
  | TickAsks
  | TickPushes
  | Operator (o : pod_op)
  | PortalRestart
  | Elsewhere.

Inductive node_step : node_event → node → node → Prop :=
  | step_run pod x k : node_step (RunPod pod) (x, k) ((run_pod pod x).2, k)
  | step_stop pod x k : node_step (StopPod pod) (x, k) ((stop_pod pod x).2, k)
  | step_removed pod x k : node_step (RemovedPod pod) (x, k) ((remove_pod pod x).2, k)
  | step_sync l x k : node_step (SyncPods l) (x, k) ((synchronize l x).2, k)
  | step_copies w s :
      node_step TickCopies ((w, s), Resting) ((w, s), from_option Copied Resting (sync_snapshot range s))
  | step_asks w s infos fewer w' :
      sync_ask Do Unmarshal valid_url cfg infos w = (fewer, w') →
      node_step TickAsks ((w, s), Copied infos) ((w', s), if fewer then Pushing infos else Resting)
  | step_pushes w s infos :
      node_step TickPushes ((w, s), Pushing infos)
        (((notify #"PUT" #"/api/v1/pods" (Some (AllPods infos)) w).2, s), Resting)
  | step_operator o w w' s k :
      match o with OpBind _ _ _ | OpUnbind _ => True | _ => False end →
      registry w' = run_op o (registry w) → node_step (Operator o) ((w, s), k) ((w', s), k)
  | step_restart w w' s k : registry w' = NewPodMap → node_step PortalRestart ((w, s), k) ((w', s), k)
  | step_elsewhere w w' s k : registry w' = registry w → node_step Elsewhere ((w, s), k) ((w', s), k).

Inductive node_run : list node_event → node → node → Prop :=
  | node_run_nil x : node_run [] x x
  | node_run_cons e es x y z : node_step e x y → node_run es y z → node_run (e :: es) x z.

(** A sandbox that brings no binding for [uid]: it is another pod, or it has no
    policy annotation. *)
Definition plain_sandbox (uid : gostring) (pod : PodSandbox) : Prop :=
  Uid pod = uid → pod_Annotations pod !! policy_key = None ∨ pod_Annotations pod !! policy_key = Some [].

(** UIDs the admin API's paths carry as they are. *)
Definition path_safe (pod : PodSandbox) : Prop := forallb uid_byte (Uid pod) = true.

(** The event grants [uid] nothing. *)
Definition grants_nothing (uid : gostring) (e : node_event) : Prop :=
  match e with
  | RunPod pod => plain_sandbox uid pod ∧ path_safe pod
  | StopPod pod | RemovedPod pod => path_safe pod
  | SyncPods l => Forall (plain_sandbox uid) l
  | Operator o => no_grant uid o
  | TickCopies | TickAsks | TickPushes | PortalRestart | Elsewhere => True
  end.

(** ** The invariant *)

Definition map_ungranted (uid : gostring) (pm : PodMap) : Prop := wf pm ∧ unbound_in uid (abs pm).

Definition node_ungranted (uid : gostring) (x : W * plugin_state) : Prop :=
  map_ungranted uid (registry x.1) ∧
  ∀ u info, activePods x.2 !! u = Some info → plain_registration uid info.

(** The copy a tick holds is as harmless as what it was taken from. *)
Definition copy_plain (uid : gostring) (k : tick_phase) : Prop :=
  match k with Resting => True | Copied infos | Pushing infos => Forall (plain_registration uid) infos end.

Definition ungranted_node (uid : gostring) (x : node) : Prop := node_ungranted uid x.1 ∧ copy_plain uid x.2.

Lemma map_ungranted_op uid o pm : no_grant uid o → map_ungranted uid pm → map_ungranted uid (run_op o pm).
Proof.
  intros Ho [Hw Hu]. destruct (run_op_refines o pm Hw) as [Hw' Ha]. split; [done|].
  rewrite Ha. by apply r_op_unbound.
Qed.

Lemma plain_pod_info uid pod st : plain_sandbox uid pod → plain_registration uid (pod_info pod st).
Proof. intros Hp Hu. split; [done|]. exact (Hp Hu). Qed.

Section Keeps.
Context (uid : gostring).
Definition keeps_map (w w' : W) : Prop := map_ungranted uid (registry w) → map_ungranted uid (registry w').
Definition keeps_node (x y : W * plugin_state) : Prop := node_ungranted uid x → node_ungranted uid y.

#[local] Instance keeps_map_refl : Reflexive keeps_map.
Proof. by intros w ?. Qed.
#[local] Instance keeps_map_trans : Transitive keeps_map.
Proof. intros w1 w2 w3 H1 H2 ?. by apply H2, H1. Qed.
#[local] Instance keeps_node_refl : Reflexive keeps_node.
Proof. by intros w ?. Qed.
#[local] Instance keeps_node_trans : Transitive keeps_node.
Proof. intros w1 w2 w3 H1 H2 ?. by apply H2, H1. Qed.

Ltac trivial_steps :=
  repeat first [apply io_step_if|apply io_step_ret|apply io_step_throw|apply io_step_lift|apply io_step_gets
               |apply io_step_attempt|typeclasses eauto].

(** A call every attempt of which keeps the map. *)
Lemma attempts_keep n call :
  (∀ w, keeps_map w (Do call w).2) → io_step keeps_map (notify_attempts Do Wait valid_url n call).
Proof.
  intros Hd. induction n as [|n IH]; intros w; [done|]. cbn [notify_attempts].
  destruct (negb _); [done|]. specialize (Hd w).
  destruct (Do call w) as [[[code body]|] w1]; cbn [snd] in Hd; [by destruct (ok_status code)|].
  assert (Hw : keeps_map w1 (Wait w1).2) by (intros HP; by rewrite wait_registry).
  destruct (Wait w1) as [ended w2]; cbn [snd] in Hw.
  destruct ended; [by etrans|]. etrans; [|apply IH]. by etrans.
Qed.

Lemma pods_call_keeps method data w :
  (∀ pm, map_ungranted uid pm → map_ungranted uid (pods_request exec Do Wait Marshal Unmarshal cfg registry method data pm).2) →
  keeps_map w (Do (plugin_call cfg method pods_path data) w).2.
Proof.
  intros Hk HP. destruct (Do _ w) as [[[code out]|] w1] eqn:Ed; cbn [snd].
  - apply pods_answered in Ed. unfold pods_request in Hk. specialize (Hk _ HP).
    destruct (serve_admin _ _ _) as [resp pm]. by destruct Ed as (-> & _).
  - apply pods_lost in Ed as [-> | ->]; [done|by apply Hk].
Qed.

Lemma delete_handled u pm :
  u ≠ [] → serve_admin EpPod (admin_request #"DELETE" (pod_path u) []) pm = (StatusOK, RemovePod u pm).
Proof.
  intros Hu. unfold serve_admin. cbn [AdminHandler]. unfold pod_handler. cbn [a_path admin_request a_method].
  assert (TrimPrefix (pod_path u) #"/api/v1/pods/" = u) as -> by apply TrimPrefix_app.
  rewrite (bool_decide_eq_true_2 (#"DELETE" = #"DELETE")) by done.
  by rewrite bool_decide_eq_false_2.
Qed.

Lemma delete_call_keeps u w :
  u ≠ [] → forallb uid_byte u = true → keeps_map w (Do (plugin_call cfg #"DELETE" (pod_path u) []) w).2.
Proof.
  intros Hu Hb HP. pose proof (map_ungranted_op uid (OpRemove u) (registry w) I HP) as HP'.
  destruct (Do _ w) as [[[code out]|] w1] eqn:Ed; cbn [snd].
  - apply pod_answered in Ed; [|done]. rewrite delete_handled in Ed by done. by destruct Ed as (-> & _).
  - apply pod_lost in Ed; [|done]. rewrite delete_handled in Ed by done. by destruct Ed as [-> | ->].
Qed.

Lemma on_host_keeps {B} (m : io W nri_err B) : io_step keeps_map m → io_step keeps_node (on_host m).
Proof.
  intros Hm [w s] [H1 H2]. specialize (Hm w). unfold on_host. destruct (m w) as [r w'].
  split; [by apply Hm|done].
Qed.

Lemma on_state_keeps {B} (f : plugin_state → B * plugin_state) :
  (∀ s, (∀ u info, activePods s !! u = Some info → plain_registration uid info) →
     ∀ u info, activePods (f s).2 !! u = Some info → plain_registration uid info) →
  io_step keeps_node (on_state f).
Proof.
  intros Hf [w s] [H1 H2]. specialize (Hf s H2). unfold on_state. by destruct (f s) as [b s'].
Qed.

Lemma notify_post_keeps info : plain_registration uid info →
  io_step keeps_map (notify #"POST" #"/api/v1/pods" (Some (OnePod info))).
Proof.
  intros Hi. unfold notifyPodUpdate. apply io_step_if; [trivial_steps|].
  destruct (Marshal (OnePod info)) as [data|] eqn:Em; [|trivial_steps].
  apply attempts_keep. intros w. apply (pods_call_keeps #"POST" data). intros pm Hp.
  rewrite (post_handled exec Do Wait Marshal Unmarshal cfg registry info) by done.
  by apply (map_ungranted_op uid (OpAdd info)).
Qed.

Lemma notify_put_keeps infos : Forall (plain_registration uid) infos →
  io_step keeps_map (notify #"PUT" #"/api/v1/pods" (Some (AllPods infos))).
Proof.
  intros Hi. unfold notifyPodUpdate. apply io_step_if; [trivial_steps|].
  destruct (Marshal (AllPods infos)) as [data|] eqn:Em; [|trivial_steps].
  apply attempts_keep. intros w. apply (pods_call_keeps #"PUT" data). intros pm Hp.
  rewrite (put_handled exec Do Wait Marshal Unmarshal cfg registry infos) by done.
  by apply (map_ungranted_op uid (OpSync infos)).
Qed.

Lemma notify_delete_keeps u : u ≠ [] → forallb uid_byte u = true →
  io_step keeps_map (notify #"DELETE" (#"/api/v1/pods/" ++ u) None).
Proof.
  intros Hu Hb. unfold notifyPodUpdate. apply io_step_if; [trivial_steps|].
  apply attempts_keep. intros w. by apply (delete_call_keeps u).
Qed.

Lemma exec_keeps bin args w : keeps_map w (exec bin args w).2.
Proof. intros HP. by rewrite exec_registry. Qed.

Lemma cleanup_keeps pod : path_safe pod → io_step keeps_node (cleanup pod).
Proof.
  intros Hs. unfold cleanupPod. apply io_step_bind; [typeclasses eauto..| |].
  { apply on_state_keeps. intros s Hall u info. cbn. intros [_ Hl]%lookup_delete_Some. by apply (Hall u). }
  intros _ found _ _. apply io_step_bind; [typeclasses eauto..| |].
  { apply on_host_keeps, cleanup_interface_step; [typeclasses eauto..|].
    intros bin args w _ _. apply exec_keeps. }
  intros _ i _ _. apply io_step_bind; [typeclasses eauto..| |].
  { apply io_step_if; [trivial_steps|]. apply on_host_keeps, io_step_bind; [typeclasses eauto..| |intros _ _ _ _];
      apply runNetfilter_step; first [typeclasses eauto|apply exec_keeps]. }
  intros _ _ _ _. case_bool_decide as Hu; [trivial_steps|].
  by apply on_host_keeps, notify_delete_keeps.
Qed.

Lemma install6_keeps_map i : io_step keeps_map (installHostIp6tablesRules exec InterfaceAddrs cfg i).
Proof.
  unfold installHostIp6tablesRules. apply io_step_bind; [typeclasses eauto..| |].
  - apply io_step_if; [|trivial_steps]. intros w.
    pose proof (DiscoverNodeIPv6_step exec InterfaceAddrs keeps_map w (λ bin args w _ _, exec_keeps bin args w)) as Hd.
    by destruct (DiscoverNodeIPv6 _ _ w).
  - intros _ host6 _ _. apply io_step_if; [trivial_steps|].
    apply runNetfilter_step; [typeclasses eauto..|apply exec_keeps].
Qed.

Lemma configure_keeps pod : io_step keeps_node (configure pod).
Proof.
  assert (Hq : queries_respect exec keeps_map) by (intros bin args w _ _; apply exec_keeps).
  unfold configurePod.
  repeat first [apply on_state_keeps; done
               |apply on_host_keeps, findNetnsPath_step; typeclasses eauto
               |apply on_host_keeps, findHostInterface_step; [typeclasses eauto..|done]
               |apply on_host_keeps, io_step_map_err, DiscoverPodIPs_step; [typeclasses eauto..|done]
               |apply on_host_keeps, runNetfilter_step; [typeclasses eauto..|apply exec_keeps]
               |apply on_host_keeps, install6_keeps_map
               |apply io_step_bind; [typeclasses eauto..| |intros]
               |progress case_match|progress trivial_steps].
Qed.

Lemma run_pod_keeps pod : plain_sandbox uid pod → path_safe pod → io_step keeps_node (run_pod pod).
Proof.
  intros Hp Hs. unfold RunPodSandbox. apply io_step_if; [trivial_steps|].
  apply io_step_bind; [typeclasses eauto..|trivial_steps|intros _ _ _ _].
  apply io_step_bind; [typeclasses eauto..|apply configure_keeps|intros _ _ _ _].
  apply io_step_bind; [typeclasses eauto..|by apply on_state_keeps|intros _ st _ _].
  apply io_step_bind; [typeclasses eauto..| |intros _ r _ _].
  { by apply io_step_attempt, on_host_keeps, notify_post_keeps, plain_pod_info. }
  destruct r as [[]|e|p]; [| |trivial_steps].
  - apply on_state_keeps. intros s Hall u info. cbn.
    intros [[_ <-]|[_ Hl]]%lookup_insert_Some; [by apply plain_pod_info|by apply (Hall u)].
  - apply io_step_bind; [typeclasses eauto..|by apply io_step_attempt, cleanup_keeps|intros _ _ _ _; trivial_steps].
Qed.

Lemma sync_pods_keeps l : Forall (plain_sandbox uid) l →
  io_step keeps_node (sync_pods exec InterfaceByIndex InterfaceAddrs Stat cfg l).
Proof.
  induction 1 as [|pod l Hp _ IH]; cbn [sync_pods]; [trivial_steps|].
  apply io_step_if; [exact IH|].
  apply io_step_bind; [typeclasses eauto..|apply io_step_attempt, configure_keeps|intros _ r _ _].
  destruct r as [[]|e|p]; [| |trivial_steps].
  - apply io_step_bind; [typeclasses eauto..|by apply on_state_keeps|intros _ st _ _].
    apply io_step_bind; [typeclasses eauto..| |intros _ _ _ _].
    { apply on_state_keeps. intros s Hall u info. cbn.
      intros [[_ <-]|[_ Hl]]%lookup_insert_Some; [by apply plain_pod_info|by apply (Hall u)]. }
    apply io_step_bind; [typeclasses eauto..|exact IH|intros _ [infos errs] _ _; trivial_steps].
  - apply io_step_bind; [typeclasses eauto..|exact IH|intros _ [infos errs] _ _; trivial_steps].
Qed.

Lemma sync_pods_plain l x infos errs x' : Forall (plain_sandbox uid) l →
  sync_pods exec InterfaceByIndex InterfaceAddrs Stat cfg l x = (Ok (infos, errs), x') →
  Forall (plain_registration uid) infos.
Proof.
  intros Hall. revert x infos errs x'. induction Hall as [|pod l Hp _ IH]; intros x infos errs x'.
  { cbn. intros [= <- _ _]. constructor. }
  cbn [sync_pods]. destruct (negb _); [apply IH|].
  intros (r & x1 & _ & Hr)%io_bind_ok. destruct r as [[]|e|p]; [| |done].
  - apply io_bind_ok in Hr as (st & x2 & _ & Hr). apply io_bind_ok in Hr as (? & x3 & _ & Hr).
    apply io_bind_ok in Hr as ([infos' errs'] & x4 & Hs & Hr). injection Hr as <- _ _.
    constructor; [by apply plain_pod_info|by eapply IH].
  - apply io_bind_ok in Hr as ([infos' errs'] & x4 & Hs & Hr). injection Hr as <- _ _. by eapply IH.
Qed.

Lemma synchronize_keeps l : Forall (plain_sandbox uid) l → io_step keeps_node (synchronize l).
Proof.
  intros Hall. unfold Synchronize.
  apply io_step_bind; [typeclasses eauto..|by apply on_state_keeps|intros _ _ _ _].
  apply io_step_bind; [typeclasses eauto..|by apply sync_pods_keeps|].
  intros x [infos errs] x' Hs. apply (sync_pods_plain l) in Hs; [|done].
  apply io_step_bind; [typeclasses eauto..| |intros _ _ _ _; trivial_steps].
  apply io_step_if; [trivial_steps|]. by apply on_host_keeps, notify_put_keeps.
Qed.

Lemma snapshot_plain w s infos :
  node_ungranted uid (w, s) → sync_snapshot range s = Some infos → Forall (plain_registration uid) infos.
Proof.
  intros [_ Ha]. unfold sync_snapshot. case_bool_decide; [done|]. intros [= <-].
  rewrite range_values. apply Forall_fmap, Forall_forall. intros [u info] Hin%elem_of_map_to_list. by apply (Ha u).
Qed.

Lemma ask_keeps infos w : keeps_map w (sync_ask Do Unmarshal valid_url cfg infos w).2.
Proof.
  unfold sync_ask. destruct (negb _); [done|].
  change (c_base (newAdminHTTPClient (adminURL cfg)) ++ #"/api/v1/pods")
    with (c_base (newAdminHTTPClient (adminURL cfg)) ++ pods_path).
  change (mkCall _ #"GET" _ []) with (plugin_call cfg #"GET" pods_path []).
  pose proof (pods_call_keeps #"GET" [] w (λ pm Hp, Hp)) as Hg.
  by destruct (Do _ w) as [[[code [body|]]|] w1].
Qed.

Lemma node_step_keeps e x y : grants_nothing uid e → node_step e x y → ungranted_node uid x → ungranted_node uid y.
Proof.
  intros Hg Hs [Hx Hk]. destruct Hs as [pod x k|pod x k|pod x k|l x k|w s|w s infos fewer w' Ha|w s infos
    |o w w' s k _ Hr|w w' s k Hr|w w' s k Hr]; cbn [fst snd] in *; (split; cbn [fst snd]; [|try done]).
  - destruct Hg. by apply (run_pod_keeps pod).
  - revert Hx. unfold StopPodSandbox. apply (io_step_if keeps_node); [trivial_steps|by apply cleanup_keeps].
  - revert Hx. unfold RemovePodSandbox. apply (io_step_if keeps_node); [trivial_steps|by apply cleanup_keeps].
  - by apply (synchronize_keeps l).
  - done.
  - destruct (sync_snapshot range s) as [infos|] eqn:E; [by eapply snapshot_plain|done].
  - destruct Hx as [Hm Hp]. split; [|done]. pose proof (ask_keeps infos w Hm) as Hm'. by rewrite Ha in Hm'.
  - by destruct fewer.
  - destruct Hx as [Hm Hp]. split; [|done]. by apply (notify_put_keeps infos Hk w).
  - destruct Hx as [Hm Hp]. split; [|done]. cbn [fst]. rewrite Hr. by apply map_ungranted_op.
  - destruct Hx as [Hm Hp]. split; [|done]. cbn [fst]. rewrite Hr. split; [apply wf_new|]. intros pod. by rewrite abs_pods.
  - destruct Hx as [Hm Hp]. split; [|done]. cbn [fst]. by rewrite Hr.
Qed.

Lemma node_run_keeps es x y :
  Forall (grants_nothing uid) es → node_run es x y → ungranted_node uid x → ungranted_node uid y.
Proof.
  intros Hall Hr. induction Hr as [x|e es x y z Hs _ IH]; [done|].
  apply Forall_cons in Hall as [Hg Hall]. intros Hx. apply (IH Hall). by eapply node_step_keeps.
Qed.
End Keeps.

(** A deletion that succeeds was handled last. *)
Lemma notify_delete_ok (P : PodMap → Prop) u w w' :
  adminURL cfg ≠ [] → u ≠ [] → forallb uid_byte u = true →
  (∀ pm, P pm → P (RemovePod u pm)) → P (registry w) →
  notify #"DELETE" (#"/api/v1/pods/" ++ u) None w = (Ok (), w') →
  ∃ pm, P pm ∧ registry w' = RemovePod u pm.
Proof.
  intros Ha Hu Hb Hstep HP Hn. unfold notifyPodUpdate in Hn. rewrite bool_decide_eq_false_2 in Hn by done.
  change (mkCall _ #"DELETE" _ []) with (plugin_call cfg #"DELETE" (pod_path u) []) in Hn.
  revert w HP Hn. generalize 3 as n. induction n as [|n IH]; intros w HP; [done|].
  cbn [notify_attempts]. destruct (negb _); [done|].
  destruct (Do _ w) as [[[code body]|] w1] eqn:Ed.
  - destruct (ok_status code); [|done]. intros [= <-]. apply pod_answered in Ed; [|done].
    rewrite delete_handled in Ed by done. exists (registry w). by destruct Ed as (-> & _).
  - pose proof (wait_registry w1) as Hw. destruct (Wait w1) as [[] w2]; [done|]. cbn [snd] in Hw.
    intros Hn. apply (IH w2); [|done]. rewrite Hw.
    apply pod_lost in Ed; [|done]. rewrite delete_handled in Ed by done.
    destruct Ed as [-> | ->]; [done|by apply Hstep].
Qed.

(** A pod whose cleanup succeeds has been deleted last. *)
Lemma cleanup_deletes (P : PodMap → Prop) pod w s w' s' :
  adminURL cfg ≠ [] → Uid pod ≠ [] → path_safe pod →
  (∀ pm, P pm → P (RemovePod (Uid pod) pm)) → P (registry w) →
  cleanup pod (w, s) = (Ok (), (w', s')) →
  ∃ pm, P pm ∧ registry w' = RemovePod (Uid pod) pm.
Proof.
  intros Ha Hu Hs Hstep HP Hc. unfold cleanupPod in Hc.
  assert (Hx : ∀ bin args w, same_registry registry w (exec bin args w).2) by (intros; apply exec_registry).
  apply io_bind_ok in Hc as (found & [w0 s0] & [= _ <- _] & Hc).
  apply io_bind_ok in Hc as (i & [w1 s1] & (Hi & ->)%on_host_ok & Hc).
  apply io_bind_ok in Hc as ([] & [w2 s2] & Hrm & Hc).
  rewrite (bool_decide_eq_false_2 (Uid pod = [])) in Hc by done.
  apply on_host_ok in Hc as [Hn _].
  assert (H1 : registry w1 = registry w).
  { pose proof (cleanup_interface_step exec InterfaceByIndex Stat (same_registry registry) pod found
      (λ bin args w _ _, Hx bin args w) w) as Hr. by rewrite Hi in Hr. }
  assert (H2 : registry w2 = registry w1).
  { case_bool_decide; [by injection Hrm as <- _|]. apply on_host_ok in Hrm as [Hrm _].
    assert (Hr : io_step (same_registry registry) (removeHostIptablesRules exec i)).
    { apply io_step_bind; [typeclasses eauto..| |intros _ _ _ _];
        apply runNetfilter_step; first [typeclasses eauto|exact Hx]. }
    specialize (Hr w1). by rewrite Hrm in Hr. }
  apply (notify_delete_ok P _ w2 w'); try done. by rewrite H2, H1.
Qed.

(** ** Properties *)

(** C1: From the sandbox to the upstream: when RunPodSandbox succeeds for an
    opted-in pod that brings no policy annotation and that nobody has granted
    anything, the packets of its interface reach the portal or are rejected, and
    the portal turns away every request and handshake from each of its addresses,
    for every rule table; as soon as the operator binds its UID, the router serves
    those addresses by the policy bound, as this namespace, name and identity; and
    when the operator unbinds it, they are turned away again. *)
Theorem sandbox_to_upstream other pod w s w' s' :
  present exec false → present exec true → adminURL cfg ≠ [] → Uid pod ≠ [] →
  matchesPod (Some pod) = true → (∀ info, is_Some (Marshal (OnePod info))) →
  plain_sandbox (Uid pod) pod → map_ungranted (Uid pod) (registry w) →
  run_pod pod (w, s) = (Ok (), (w', s')) →
  ∃ st, NriPlugin.pods s' !! Id pod = Some st ∧
    (plain (hostInterface st) → pod_confined tables cfg other st w') ∧
    ∀ ip, ip ∈ IPs (pod_info pod st) → ip ≠ [] →
      turned_away ip (registry w') ∧
      (∀ identity policy, ∃ p,
         served_by_policy ip p (Bind (Uid pod) identity policy (registry w')) ∧
         caller p = pod_Namespace pod ++ #"/" ++ pod_Name pod ∧ Bound p = true ∧
         Identity p = identity ∧ Policy p = policy ∧
         ∃ pm, Unbind (Uid pod) (Bind (Uid pod) identity policy (registry w')) = Ok pm ∧ turned_away ip pm).
Proof.
  intros Hp4 Hp6 Ha Hu Hm Hmar Hplain Hung Hrun.
  destruct (run_pod_confined exec tables InterfaceByIndex InterfaceAddrs Stat Do Wait Marshal valid_url cfg
    Do_same Wait_same pod w s w' s' Hp4 Hp6 Hm Hrun) as (st & Hst & _ & Hc).
  destruct (run_pod_posts exec InterfaceByIndex InterfaceAddrs Stat Do Wait Marshal Unmarshal valid_url cfg registry
    (map_ungranted (Uid pod)) pod w s w' s' Ha Hm Hmar) as (st' & pm & Hpm & Hreg & Hst' & _); [|done..|].
  { intros st' pm HP. by apply (map_ungranted_op (Uid pod) (OpAdd (pod_info pod st'))), HP; apply plain_pod_info. }
  assert (st' = st) as -> by congruence. exists st. split_and!; [done|by apply confined_confines|].
  intros ip Hin Hne.
  assert (Hinv : map_ungranted (Uid pod) (registry w')).
  { rewrite Hreg. by apply (map_ungranted_op (Uid pod) (OpAdd (pod_info pod st))), Hpm; apply plain_pod_info. }
  destruct (registered_pod ip (pod_info pod st) pm (proj1 Hpm) Hu Hin Hne) as (p & Hp & Hpu & Hpn & Hpm').
  rewrite <- Hreg in Hp. cbn [pod_info UID Namespace PodMap.Name] in Hpu, Hpn, Hpm'. split.
  - apply unbound_turned_away. intros pod' Hp'. assert (pod' = p) as -> by congruence.
    destruct Hinv as [Hw Hun]. apply (Hun p). rewrite <- Hpu. by apply (pod_at_registered ip).
  - intros identity policy. destruct (bind_by_ip _ ip p identity policy (proj1 Hinv) Hp) as (Hb & Hub).
    rewrite Hpu in Hb, Hub. exists (set_binding identity policy true p). split_and!; try done.
    + by apply bound_served.
    + unfold caller. cbn. by rewrite Hpn, Hpm'.
    + destruct Hub as (pm' & Hpm2 & Hat). exists pm'. split; [done|].
      apply unbound_turned_away. intros pod' Hp'. rewrite Hat in Hp'. by injection Hp' as <-.
Qed.

(** C2: Nothing is forwarded for a pod nobody granted anything, over the whole
    life of the node: whatever sequence of sandbox events, synchronisations, steps of
    the reconciliation loop (its copy of the active pods may be stale when it is
    sent), operator's commands, portal restarts and lost or
    repeated calls happens, as long as no [Bind] names the pod and no sandbox of it
    carries a policy annotation, the router turns away every request and handshake
    from every address that resolves to the pod or to nothing. *)
Theorem ungranted_pod_never_forwarded uid es w s w' s' k ip :
  registry w = NewPodMap → activePods s = ∅ →
  Forall (grants_nothing uid) es → node_run es ((w, s), Resting) ((w', s'), k) →
  (∀ p, pod_at ip (registry w') = Some p → UID p = uid) →
  turned_away ip (registry w').
Proof.
  intros Hw Hs Hall Hrun Hip.
  destruct (node_run_keeps uid es _ _ Hall Hrun) as [[[Hwf Hun] _] _].
  { split; [|done]. split; cbn [fst snd].
    - rewrite Hw. split; [apply wf_new|]. intros pod. by rewrite abs_pods.
    - rewrite Hs. intros u info. by rewrite lookup_empty. }
  apply unbound_turned_away. intros pod Hp. apply (Hun pod). rewrite <- (Hip _ Hp).
  by apply (pod_at_registered ip).
Qed.

(** A pod that has stopped is forgotten by the portal: when StopPodSandbox
    succeeds no address resolves to its UID any more, so that an address it had is
    turned away until another pod is registered with it. *)
Theorem stopped_pod_forgotten pod w s w' s' :
  adminURL cfg ≠ [] → Uid pod ≠ [] → path_safe pod → matchesPod (Some pod) = true →
  wf (registry w) → stop_pod pod (w, s) = (Ok (), (w', s')) →
  byUID (registry w') !! Uid pod = None ∧
  ∀ ip, (∀ p, pod_at ip (registry w') = Some p → UID p ≠ Uid pod) ∧
    (pod_at ip (registry w') = None → turned_away ip (registry w')).
Proof.
  intros Ha Hu Hs Hm Hwf Hstop. unfold StopPodSandbox in Hstop. rewrite Hm in Hstop. cbn [negb] in Hstop.
  destruct (cleanup_deletes wf pod w s w' s' Ha Hu Hs (RemovePod_wf _) Hwf Hstop) as (pm & Hpm & Hreg).
  assert (Hw' : wf (registry w')) by (rewrite Hreg; by apply RemovePod_wf).
  assert (Hnone : byUID (registry w') !! Uid pod = None).
  { rewrite Hreg. unfold RemovePod. destruct (byUID pm !! Uid pod) as [l|] eqn:E; [|done].
    destruct (wf_uid _ Hpm _ _ E) as (p & Hl & _). unfold remove_loc. rewrite Hl. cbn. by rewrite lookup_delete_eq. }
  split; [done|]. intros ip. split.
  - intros p Hp Hpu. apply pod_at_registered in Hp as [Hp _]; [|done].
    rewrite Hpu, abs_pods, Hnone in Hp. done.
  - intros Hno. apply unbound_turned_away. by rewrite Hno.
Qed.

(** The three steps of a tick in a row are the function of the source. *)
Theorem uninterrupted_tick x :
  ∃ es, es `prefix_of` [TickCopies; TickAsks; TickPushes] ∧ node_run es (x, Resting) (tick x, Resting).
Proof.
  destruct x as [w s]. unfold syncActivePodsWithProxy. cbn [fst snd].
  destruct (sync_snapshot range s) as [infos|] eqn:Es.
  2:{ exists [TickCopies]. split; [by eexists|]. eapply node_run_cons; [apply step_copies|]. rewrite Es. apply node_run_nil. }
  unfold sync_push. destruct (sync_ask _ _ _ _ _ w) as [fewer w'] eqn:Ea. destruct fewer.
  - exists [TickCopies; TickAsks; TickPushes]. split; [done|].
    eapply node_run_cons; [apply step_copies|]. rewrite Es. eapply node_run_cons; [by apply step_asks|].
    eapply node_run_cons; [apply step_pushes|]. apply node_run_nil.
  - exists [TickCopies; TickAsks]. split; [by eexists|].
    eapply node_run_cons; [apply step_copies|]. rewrite Es. eapply node_run_cons; [by apply step_asks|]. apply node_run_nil.
Qed.

(** A pod that starts after a tick has copied the active pods is not in what the
    tick sends: the update unregisters it, and the portal refuses it until
    a later tick finds the proxy short of a pod. *)
Theorem update_forgets_newcomer infos data w s y uid :
  adminURL cfg ≠ [] → valid_pods_url valid_url cfg → Marshal (AllPods infos) = Some data →
  pod_reachable (registry w) → (Do (plugin_call cfg #"PUT" pods_path data) w).1 ≠ None →
  uid ∉ UID <$> infos → node_step TickPushes ((w, s), Pushing infos) y →
  byUID (registry y.1.1) !! uid = None.
Proof.
  intros Ha Hv Hm Hr Hput Hnot Hs. inversion Hs; subst; cbn [fst snd].
  pose proof (put_effect exec Do Wait Marshal Unmarshal valid_url cfg registry infos data w Ha Hv Hm Hput) as E.
  unfold pods_path in E. rewrite E. apply eq_None_not_Some. rewrite sync_registers_aux by done. tauto.
Qed.
End Node.

(** ** The operator's commands *)

(** The admin API as the commands [bind] and [unbind] reach it, the socket
    given on the command line: a call that is answered ran the handler once, one
    that is not ran it once or not at all. *)
Class CommandServer {W : Type} (Do : admin_call → W → option (Z * option bytes) * W)
    (Marshal_bind : BindRequest → option bytes) (Marshal_unbind : gostring → option bytes)
    (registry : W → PodMap) : Type := {
  cmd_decode_bind : bytes → option BindRequest;
  cmd_decode_unbind : bytes → option gostring;
  cmd_call (socket path : gostring) (data : bytes) : admin_call :=
    let client := newAdminHTTPClient socket in mkCall (c_socket client) #"POST" (c_base client ++ path) data;
  bind_answered socket data w code out w' :
    Do (cmd_call socket #"/bind" data) w = (Some (code, out), w') →
    let '(resp, pm) := bind_handler cmd_decode_bind (admin_request #"POST" #"/bind" data) (registry w) in
    registry w' = pm ∧ code = admin_status resp;
  bind_lost socket data w w' :
    Do (cmd_call socket #"/bind" data) w = (None, w') →
    registry w' = registry w ∨
    registry w' = (bind_handler cmd_decode_bind (admin_request #"POST" #"/bind" data) (registry w)).2;
  unbind_answered socket data w code out w' :
    Do (cmd_call socket #"/unbind" data) w = (Some (code, out), w') →
    let '(resp, pm) := unbind_handler cmd_decode_unbind (admin_request #"POST" #"/unbind" data) (registry w) in
    registry w' = pm ∧ code = admin_status resp;
  unbind_lost socket data w w' :
    Do (cmd_call socket #"/unbind" data) w = (None, w') →
    registry w' = registry w ∨
    registry w' = (unbind_handler cmd_decode_unbind (admin_request #"POST" #"/unbind" data) (registry w)).2;
  sent_bind req data : Marshal_bind req = Some data → cmd_decode_bind data = Some req;
  sent_unbind uid data : Marshal_unbind uid = Some data → cmd_decode_unbind data = Some uid;
}.

Section Commands.
Context `{Unicode} {W : Type} (Do : admin_call → W → option (Z * option bytes) * W)
        (valid_url : gostring → bool)
        (Marshal_bind : BindRequest → option bytes) (Marshal_unbind : gostring → option bytes)
        (registry : W → PodMap) `{C : !CommandServer Do Marshal_bind Marshal_unbind registry}.

Abbreviation bind_command := (runBindCommand Do valid_url Marshal_bind).
Abbreviation unbind_command := (runUnbindCommand Do valid_url Marshal_unbind).

Lemma bind_handled uid i p data pm :
  uid ≠ [] → cmd_decode_bind data = Some (mkBindRequest uid i p) →
  bind_handler cmd_decode_bind (admin_request #"POST" #"/bind" data) pm = (StatusBound uid, Bind uid i p pm).
Proof.
  intros Hu Hd. unfold bind_handler. cbn [admin_request a_body]. rewrite Hd. cbn.
  by rewrite bool_decide_eq_false_2.
Qed.

(** C10: The operator's bind command takes effect when it says so: printed output
    means that the UID is bound as asked, so that every address that resolves to the
    pod is served by that policy under that identity; an error status cannot come
    back; a request that failed has bound the pod or changed nothing. *)
Theorem bind_command_effect socket uid identity policy w x w' :
  bind_command socket uid identity policy w = (x, w') →
  match x with
  | Printed _ => registry w' = Bind uid identity policy (registry w) ∧
      ∀ ip pod, wf (registry w) → pod_at ip (registry w) = Some pod → UID pod = uid →
        served_by_policy ip (set_binding identity policy true pod) (registry w')
  | StatusFailed _ _ => False
  | RequestFailed => registry w' = registry w ∨ registry w' = Bind uid identity policy (registry w)
  | UIDRequired => uid = [] ∧ w' = w
  | MarshalError => w' = w
  end.
Proof.
  unfold runBindCommand. case_bool_decide as Hu; [by intros [= <- <-]|].
  unfold post_command. destruct (Marshal_bind _) as [data|] eqn:Em; [|by intros [= <- <-]].
  apply sent_bind in Em. destruct (negb _); [intros [= <- <-]; by left|].
  change (mkCall _ #"POST" _ data) with (cmd_call socket #"/bind" data).
  destruct (Do _ w) as [[[code body]|] w1] eqn:Ed.
  - apply bind_answered in Ed. rewrite (bind_handled uid identity policy) in Ed by done. destruct Ed as [Hr ->].
    intros [= <- <-]. cbn. split; [done|]. intros ip pod Hwf Hp <-. rewrite Hr.
    apply bound_served; [|done]. by apply bind_by_ip.
  - apply bind_lost in Ed. rewrite (bind_handled uid identity policy) in Ed by done. by intros [= <- <-].
Qed.

(** C11: The unbind command revokes when it says so: printed output means that the
    UID was registered and is unbound, so that every address that resolves to it is
    turned away; an error status means that the portal does not know the UID, and
    then nothing has changed. *)
Theorem unbind_command_effect socket uid w x w' :
  unbind_command socket uid w = (x, w') →
  match x with
  | Printed _ => Unbind uid (registry w) = Ok (registry w') ∧
      ∀ ip pod, wf (registry w) → pod_at ip (registry w) = Some pod → UID pod = uid →
        turned_away ip (registry w')
  | StatusFailed code _ => code = 404%Z ∧ Unbind uid (registry w) = Err (PodNotFound uid) ∧ registry w' = registry w
  | RequestFailed => registry w' = registry w ∨ Unbind uid (registry w) = Ok (registry w')
  | UIDRequired => uid = [] ∧ w' = w
  | MarshalError => w' = w
  end.
Proof.
  unfold runUnbindCommand. case_bool_decide as Hu; [by intros [= <- <-]|].
  unfold post_command. destruct (Marshal_unbind _) as [data|] eqn:Em; [|by intros [= <- <-]].
  apply sent_unbind in Em. destruct (negb _); [intros [= <- <-]; by left|].
  change (mkCall _ #"POST" _ data) with (cmd_call socket #"/unbind" data).
  assert (Hh : ∀ pm, unbind_handler cmd_decode_unbind (admin_request #"POST" #"/unbind" data) pm
    = match Unbind uid pm with Ok pm => (StatusUnbound uid, pm) | _ => (ErrorStatus 404, pm) end).
  { intros pm. unfold unbind_handler. cbn [admin_request a_body]. rewrite Em. by rewrite bool_decide_eq_false_2. }
  destruct (Do _ w) as [[[code body]|] w1] eqn:Ed.
  - apply unbind_answered in Ed. rewrite Hh in Ed. intros [= <- <-].
    destruct (Unbind uid (registry w)) as [pm|e|p] eqn:Eu; destruct Ed as [Hr ->]; cbn.
    + split; [by rewrite Hr|]. intros ip pod Hwf Hp <-. apply unbound_turned_away. rewrite Hr.
      intros pod' Hp'. unfold Unbind in Eu. destruct (byUID (registry w) !! UID pod) as [l|] eqn:El; [|done].
      injection Eu as <-. unfold pod_at, GetPodByIP in Hp, Hp'. cbn in Hp'.
      destruct (byIP (registry w) !! ip) as [l'|] eqn:Ei; [|done]. cbn in Hp, Hp'.
      destruct (wf_ip _ Hwf _ _ Ei) as (pod2 & Hl & _ & _ & Hu2). assert (pod2 = pod) as -> by congruence.
      assert (l' = l) as -> by congruence. rewrite lookup_alter_eq, Hp in Hp'. by injection Hp' as <-.
    + unfold Unbind in Eu. destruct (byUID _ !! uid); [done|]. injection Eu as <-. done.
    + unfold Unbind in Eu. by destruct (byUID _ !! uid).
  - apply unbind_lost in Ed. rewrite Hh in Ed. intros [= <- <-].
    destruct (Unbind uid (registry w)) as [pm|e|p] eqn:Eu; destruct Ed as [Ed|Ed]; cbn in Ed; auto.
    right. by rewrite Ed.
Qed.
End Commands.

(** ** The properties at concrete inputs *)

Abbreviation host_run_events := (@node_run ascii_unicode host host_exec host_interface (λ _, None) host_stat host_Do host_Wait
  host_marshal host_decode_pods (λ _, true) host_range host_cfg h_registry).

(** A portal with one rule, and a request and its sender. *)
Definition host_router (pm : PodMap) : RuleRouter := mkRuleRouter demo_routes None #"/rules" false (Some pm).
Definition host_request : Request := demo_req #"api.example.com" #"10.244.0.6:4711".

Definition host_verdict (pm : PodMap) : verdict := @route_request ascii_unicode [] (host_router pm) host_request.

Lemma sandbox_to_upstream_witness :
  (∃ d, host_verdict (h_registry running.1) = Denied d) ∧
  (∃ p, host_verdict (Bind #"uid-1" #"alice" #"api" (h_registry running.1))
        = ToRule (demo_rule #"api.example.com" #"api" #"t1" true) (Some p) ∧ Identity p = #"alice").
Proof.
  destruct (@sandbox_to_upstream ascii_unicode host host_exec host_tables host_netfilter host_interface (λ _, None)
    host_stat host_Do host_Wait host_marshal host_decode_pods (λ _, true) host_cfg h_registry host_admin_server
    host_Do_same host_Wait_same (λ _ _ _, false) (demo_sandbox #"sb1" #"uid-1") base_host base_state running.1 running.2)
    as (st & Hst & _ & Hall).
  - apply host_present.
  - apply host_present.
  - vm_compute. discriminate.
  - vm_compute. discriminate.
  - vm_compute. reflexivity.
  - intros info. eexists. reflexivity.
  - intros _. left. vm_compute. reflexivity.
  - split; [apply wf_new|]. intros pod. by rewrite abs_pods.
  - apply host_run_ok. vm_compute. reflexivity.
  - assert (Hips : (λ st, IPs (pod_info (demo_sandbox #"sb1" #"uid-1") st)) <$> NriPlugin.pods running.2 !! #"sb1"
      = Some [ #"10.244.0.6"]) by (vm_compute; reflexivity).
    rewrite (Hst : NriPlugin.pods running.2 !! #"sb1" = Some st) in Hips. apply (inj Some) in Hips.
    destruct (Hall #"10.244.0.6") as [Haway Hbind]; [cbv beta in Hips; rewrite Hips; by left|discriminate|].
    split.
    + destruct (Haway [] (host_router (h_registry running.1)) eq_refl) as [Hreq _].
      destruct (Hreq host_request ltac:(vm_compute; reflexivity)) as (d & Hd & _). by exists d.
    + destruct (Hbind #"alice" #"api") as (p & Hserved & _ & Hb & Hi & Hp & _). exists p. split; [|exact Hi].
      specialize (Hserved [] (host_router (Bind #"uid-1" #"alice" #"api" (h_registry running.1))) host_request eq_refl
        ltac:(vm_compute; reflexivity)).
      unfold host_verdict. etrans; [exact Hserved|].
      assert (Hal : @IsRuleAllowed ascii_unicode (Some p) #"api" (@request_host ascii_unicode host_request) = true).
      { unfold IsRuleAllowed. rewrite Hb, Hp. vm_compute. reflexivity. }
      change (Name _) with (#"api"). by rewrite Hal.
Defined.

(** The portal restarts in the middle of a tick, and the rest of the tick gives it
    its pods back. *)
Abbreviation host_ask := (@sync_ask host host_Do host_decode_pods (λ _, true) host_cfg).
Abbreviation host_notify := (@notifyPodUpdate host host_Do host_Wait host_marshal (λ _, true) host_cfg).
Definition portal_restarts (x : host * plugin_state) : host * plugin_state :=
  let infos := host_range (activePods x.2) in
  ((host_notify #"PUT" #"/api/v1/pods" (Some (AllPods infos)) (host_ask infos (set_registry NewPodMap x.1)).2).2, x.2).

Lemma portal_restarts_run x :
  activePods x.2 ≠ ∅ → (host_ask (host_range (activePods x.2)) (set_registry NewPodMap x.1)).1 = true →
  host_run_events [TickCopies; PortalRestart; TickAsks; TickPushes] (x, Resting) (portal_restarts x, Resting).
Proof.
  destruct x as [w s]. cbn [fst snd]. intros Hne Hask. unfold portal_restarts. cbn [fst snd].
  destruct (host_ask _ _) as [fewer w'] eqn:E in Hask |- *. cbn [fst snd] in *. subst fewer.
  eapply node_run_cons; [apply step_copies|]. unfold sync_snapshot. rewrite bool_decide_eq_false_2 by done.
  eapply node_run_cons; [by apply step_restart with (w' := set_registry NewPodMap w)|].
  eapply node_run_cons; [by apply step_asks|]. eapply node_run_cons; [apply step_pushes|]. apply node_run_nil.
Qed.

Lemma host_later_run :
  host_run_events [RunPod (demo_sandbox #"sb1" #"uid-1"); TickCopies; PortalRestart; TickAsks; TickPushes]
    ((base_host, base_state), Resting) (portal_restarts running, Resting).
Proof.
  eapply node_run_cons; [apply step_run|].
  apply (portal_restarts_run (host_run (demo_sandbox #"sb1" #"uid-1") (base_host, base_state)).2).
  - apply (bool_decide_eq_false_1 _). vm_compute. reflexivity.
  - vm_compute. reflexivity.
Qed.

Lemma host_later_pod : UID <$> pod_at #"10.244.0.6" (h_registry (portal_restarts running).1) = Some #"uid-1".
Proof. vm_compute. reflexivity. Qed.

Lemma ungranted_pod_never_forwarded_witness :
  ∃ d, host_verdict (h_registry (portal_restarts running).1) = Denied d.
Proof.
  assert (Hrun := host_later_run). assert (Hpod := host_later_pod).
  unfold host_verdict. set (y := portal_restarts running) in *. clearbody y. destruct y as [w' s'].
  destruct (@ungranted_pod_never_forwarded ascii_unicode host host_exec host_interface (λ _, None) host_stat host_Do
    host_Wait host_marshal host_decode_pods (λ _, true) host_range host_cfg h_registry host_admin_server
    (λ m, reflexivity _) #"uid-1"
    [RunPod (demo_sandbox #"sb1" #"uid-1"); TickCopies; PortalRestart; TickAsks; TickPushes]
    base_host base_state w' s' Resting #"10.244.0.6") with (order := @nil (gostring * Rule))
    (rr := host_router (h_registry w')) as [Hreq _].
  - reflexivity.
  - reflexivity.
  - constructor; [split; [intros _; left|]; vm_compute; reflexivity|]. by repeat constructor.
  - exact Hrun.
  - intros p Hp. cbn [fst] in Hpod. rewrite Hp in Hpod. by injection Hpod.
  - reflexivity.
  - destruct (Hreq host_request ltac:(vm_compute; reflexivity)) as (d & Hd & _). by exists d.
Defined.

Lemma running_reachable : pod_reachable (h_registry running.1).
Proof.
  assert (E : h_registry running.1 = AddOrUpdatePod (pod_info (demo_sandbox #"sb1" #"uid-1")
    (default no_state (NriPlugin.pods running.2 !! #"sb1"))) NewPodMap) by (vm_compute; reflexivity).
  rewrite E. apply reach_add, reach_new.
Qed.

(** The tick has copied no pod when the demo pod starts. *)
Lemma update_forgets_newcomer_witness :
  is_Some (byUID (h_registry running.1) !! #"uid-1") ∧
  byUID (h_registry (host_notify #"PUT" #"/api/v1/pods" (Some (AllPods [])) running.1).2) !! #"uid-1" = None.
Proof.
  split; [apply (bool_decide_unpack _); vm_compute; exact I|].
  destruct (host_marshal (AllPods [])) as [data|] eqn:Em; [|discriminate].
  assert (Hput : (host_Do (plugin_call host_cfg #"PUT" pods_path data) running.1).1 ≠ None)
    by (injection Em as <-; vm_compute; discriminate).
  exact (@update_forgets_newcomer ascii_unicode host host_exec host_interface (λ _, None) host_stat host_Do host_Wait
    host_marshal host_decode_pods (λ _, true) host_range host_cfg h_registry host_admin_server [] data running.1 running.2
    _ #"uid-1" ltac:(vm_compute; discriminate) eq_refl Em running_reachable Hput ltac:(apply not_elem_of_nil)
    (step_pushes _ _ _ _ _ _ _ _ _ _ _ _ _ _ _)).
Defined.

(** The host once the pod has stopped (its IPv6 chains exist, so that its cleanup succeeds). *)
Definition dual_host : host :=
  mkHost (h_tables4 running.1) (h_tables4 running.1) (h_registry running.1) true.
Definition stopped : host * plugin_state := (host_stop (demo_sandbox #"sb1" #"uid-1") (dual_host, running.2)).2.

Lemma host_stop_ok pod x :
  is_ok (host_stop pod x).1 = true →
  host_stop pod x = (Ok (), ((host_stop pod x).2.1, (host_stop pod x).2.2)).
Proof. destruct (host_stop pod x) as [[[]| |] [w s]]; done. Qed.

Lemma stopped_pod_forgotten_witness : byUID (h_registry stopped.1) !! #"uid-1" = None.
Proof.
  apply (@stopped_pod_forgotten ascii_unicode host host_exec host_interface host_stat host_Do
    host_Wait host_marshal host_decode_pods (λ _, true) host_cfg h_registry host_admin_server
    (demo_sandbox #"sb1" #"uid-1") dual_host running.2 stopped.1 stopped.2).
  - vm_compute. discriminate.
  - discriminate.
  - vm_compute. reflexivity.
  - vm_compute. reflexivity.
  - apply reachable_wf, running_reachable.
  - apply host_stop_ok. vm_compute. reflexivity.
Defined.

(** A portal whose commands are answered, or lost on the way back. *)
Definition command_decode_bind (b : bytes) : option BindRequest :=
  (λ '(u, i, p), mkBindRequest u i p) <$> decode (A := gostring * gostring * gostring) (from_bits b).
Definition command_decode_unbind (b : bytes) : option gostring := decode (from_bits b).
Definition command_bind (r : BindRequest) : option bytes :=
  Some (bits (encode (b_podUID r, b_identity r, b_policy r))).
Definition command_unbind (uid : gostring) : option bytes := Some (bits (encode uid)).
Definition command_Do (answers : bool) (c : admin_call) (pm : PodMap) : option (Z * option bytes) * PodMap :=
  let '(resp, pm) :=
    if HasSuffix (ac_url c) #"/unbind"
    then unbind_handler command_decode_unbind (admin_request #"POST" #"/unbind" (ac_body c)) pm
    else bind_handler command_decode_bind (admin_request #"POST" #"/bind" (ac_body c)) pm in
  (if answers then Some (admin_status resp, Some []) else None, pm).

Lemma not_unbind base : HasSuffix (base ++ #"/bind") #"/unbind" = false.
Proof. unfold HasSuffix. rewrite rev_app_distr. reflexivity. Qed.

#[global] Instance command_server answers :
  CommandServer (command_Do answers) command_bind command_unbind (λ pm, pm).
Proof.
  assert (Hb : ∀ socket data w, command_Do answers
    (let client := newAdminHTTPClient socket in mkCall (c_socket client) #"POST" (c_base client ++ #"/bind") data) w
    = let '(resp, pm) := bind_handler command_decode_bind (admin_request #"POST" #"/bind" data) w in
      (if answers then Some (admin_status resp, Some []) else None, pm)).
  { intros socket data w. unfold command_Do. cbn [ac_url ac_body]. by rewrite not_unbind. }
  assert (Hu : ∀ socket data w, command_Do answers
    (let client := newAdminHTTPClient socket in mkCall (c_socket client) #"POST" (c_base client ++ #"/unbind") data) w
    = let '(resp, pm) := unbind_handler command_decode_unbind (admin_request #"POST" #"/unbind" data) w in
      (if answers then Some (admin_status resp, Some []) else None, pm)).
  { intros socket data w. unfold command_Do. cbn [ac_url ac_body].
    by rewrite (proj2 (HasSuffix_spec _ #"/unbind")) by (by eexists). }
  apply (Build_CommandServer _ _ _ _ _ command_decode_bind command_decode_unbind).
  - intros socket data w code out w'. cbn zeta. rewrite Hb. destruct (bind_handler _ _ w) as [resp pm].
    by destruct answers; intros [= <- <- <-].
  - intros socket data w w'. cbn zeta. rewrite Hb. destruct (bind_handler _ _ w) as [resp pm].
    destruct answers; intros [= <-]. by right.
  - intros socket data w code out w'. cbn zeta. rewrite Hu. destruct (unbind_handler _ _ w) as [resp pm].
    by destruct answers; intros [= <- <- <-].
  - intros socket data w w'. cbn zeta. rewrite Hu. destruct (unbind_handler _ _ w) as [resp pm].
    destruct answers; intros [= <-]. by right.
  - intros [u i p] data [= <-]. unfold command_decode_bind. by rewrite from_bits_bits, decode_encode.
  - intros uid data [= <-]. unfold command_decode_unbind. by rewrite from_bits_bits, decode_encode.
Defined.

Definition admin_socket : gostring := #"unix:///run/service-portal/portal.sock".

Lemma bind_command_effect_witness :
  ∃ pm, @runBindCommand PodMap (command_Do true) (λ _, true) command_bind admin_socket #"uid-1" #"alice" #"api"
      (h_registry running.1) = (Printed [], pm) ∧
    pm = Bind #"uid-1" #"alice" #"api" (h_registry running.1).
Proof.
  destruct (@runBindCommand PodMap (command_Do true) (λ _, true) command_bind admin_socket #"uid-1" #"alice" #"api"
      (h_registry running.1)) as [x pm] eqn:E.
  assert (Hx : match (@runBindCommand PodMap (command_Do true) (λ _, true) command_bind admin_socket #"uid-1" #"alice"
      #"api" (h_registry running.1)).1 with Printed [] => true | _ => false end = true) by (vm_compute; reflexivity).
  rewrite E in Hx. cbn [fst] in Hx. destruct x as [[|? ?]| | | |]; try discriminate Hx. exists pm. split; [reflexivity|].
  apply (@bind_command_effect ascii_unicode PodMap (command_Do true) (λ _, true) command_bind command_unbind (λ pm, pm)
    (command_server true) admin_socket #"uid-1" #"alice" #"api" (h_registry running.1) _ pm E).
Defined.

Lemma unbind_command_effect_witness :
  ∃ pm, @runUnbindCommand PodMap (command_Do true) (λ _, true) command_unbind admin_socket #"uid-9"
      (h_registry running.1) = (StatusFailed 404 [], pm) ∧ pm = h_registry running.1.
Proof.
  destruct (@runUnbindCommand PodMap (command_Do true) (λ _, true) command_unbind admin_socket #"uid-9"
      (h_registry running.1)) as [x pm] eqn:E.
  pose proof (@unbind_command_effect ascii_unicode PodMap (command_Do true) (λ _, true) command_bind command_unbind
    (λ pm, pm) (command_server true) admin_socket #"uid-9" (h_registry running.1) _ pm E) as Hc.
  assert (Hx : match (@runUnbindCommand PodMap (command_Do true) (λ _, true) command_unbind admin_socket #"uid-9"
      (h_registry running.1)).1 with StatusFailed _ [] => true | _ => false end = true) by (vm_compute; reflexivity).
  rewrite E in Hx. cbn [fst] in Hx. destruct x as [ | | | |code [|? ?]]; try discriminate Hx.
  destruct Hc as (-> & _ & Hr). exists pm. split; [reflexivity|exact Hr].
Defined.
