(* ===== verification/GoOS.v ===== *)
(** * Files (Go's os and path/filepath)

    The part of the file system the programs set up: the nodes at the paths
    they name, with mode and owner. Whether a call goes through is an oracle, a
    write that fails may leave part of the data. Symbolic links and the parents
    of a path are not modelled: that a parent is missing is one of the reasons
    the oracle has for a failure. *)

From S2P Require Import Prelude GoStrings.

(** ** Paths

    A path in normal form: whether it is absolute, and its components. *)
Abbreviation path := (bool * list gostring)%type.

(** One more component, as [filepath.Clean] treats it. *)
Definition push_component (rooted : bool) (done : list gostring) (c : gostring) : list gostring :=
  if bool_decide (c = []) || bool_decide (c = #".") then done
  else if bool_decide (c = #"..") then
    match last done with
    | None => if rooted then [] else [c]
    | Some d => if bool_decide (d = #"..") then done ++ [c] else removelast done
    end
  else done ++ [c].

Definition Clean (s : gostring) : path :=
  let rooted := HasPrefix s #"/" in (rooted, foldl (push_component rooted) [] (Split s #"/")).

(** [filepath.Join(dir, name)] for a [dir] that is not empty. *)
Definition Join_path (dir name : gostring) : path := Clean (dir ++ #"/" ++ name).

(** ** Nodes *)

Record node := mkNode {
  n_dir : bool;
  n_data : bytes;
  n_mode : Z;
  n_uid : Z;
  n_gid : Z;
}.
Abbreviation fs := (gmap path node).

Definition with_mode (m : Z) (n : node) : node := mkNode (n_dir n) (n_data n) m (n_uid n) (n_gid n).
(** -1 is no change. *)
Definition with_owner (uid gid : Z) (n : node) : node :=
  mkNode (n_dir n) (n_data n) (n_mode n)
    (if (uid =? -1)%Z then n_uid n else uid) (if (gid =? -1)%Z then n_gid n else gid).
Definition with_data (b : bytes) (n : node) : node := mkNode (n_dir n) b (n_mode n) (n_uid n) (n_gid n).

(** ** Calls *)

Inductive fs_op :=
  | OpStat (p : path) | OpMkdirAll (p : path) | OpChmod (p : path) | OpChown (p : path)
  | OpWriteFile (p : path) | OpReadFile (p : path).

#[global] Instance fs_op_eq_dec : EqDecision fs_op.
Proof. solve_decision. Defined.

(** How a call fails: without effect, or a write after [n] bytes. *)
Inductive fault := Refused | Torn (n : nat).

Inductive os_err := NotExist (op : fs_op) | OpFailed (op : fs_op).
Definition is_not_exist (e : os_err) : bool := match e with NotExist _ => true | OpFailed _ => false end.

Section Calls.
Context (fate : fs_op → option fault) (umask : Z) (me : Z * Z).

Definition masked (mode : Z) : Z := Z.ldiff mode umask.

Definition guarded {A} (op : fs_op) (m : io fs os_err A) : io fs os_err A := λ s,
  match fate op with None => m s | Some _ => (Err (OpFailed op), s) end.

Definition Stat (p : path) : io fs os_err node := guarded (OpStat p) (λ s,
  (match s !! p with Some n => Ok n | None => Err (NotExist (OpStat p)) end, s)).

Definition MkdirAll (p : path) (mode : Z) : io fs os_err () := guarded (OpMkdirAll p) (λ s,
  match s !! p with
  | Some n => (if n_dir n then Ok () else Err (OpFailed (OpMkdirAll p)), s)
  | None => (Ok (), <[p := mkNode true [] (masked mode) me.1 me.2]> s)
  end).

Definition change (op : fs_op) (p : path) (f : node → node) : io fs os_err () := guarded op (λ s,
  match s !! p with
  | Some n => (Ok (), <[p := f n]> s)
  | None => (Err (NotExist op), s)
  end).
Definition Chmod (p : path) (mode : Z) : io fs os_err () := change (OpChmod p) p (with_mode mode).
Definition Chown (p : path) (uid gid : Z) : io fs os_err () := change (OpChown p) p (with_owner uid gid).

(** An existing file is truncated and keeps its mode and owner. *)
Definition put_data (p : path) (b : bytes) (mode : Z) (s : fs) : fs :=
  <[p := from_option (with_data b) (mkNode false b (masked mode) me.1 me.2) (s !! p)]> s.
Definition WriteFile (p : path) (b : bytes) (mode : Z) : io fs os_err () := λ s,
  if from_option n_dir false (s !! p) then (Err (OpFailed (OpWriteFile p)), s) else
  match fate (OpWriteFile p) with
  | None => (Ok (), put_data p b mode s)
  | Some Refused => (Err (OpFailed (OpWriteFile p)), s)
  | Some (Torn n) => (Err (OpFailed (OpWriteFile p)), put_data p (take n b) mode s)
  end.

Definition ReadFile (p : path) : io fs os_err bytes := guarded (OpReadFile p) (λ s,
  match s !! p with
  | Some n => (if n_dir n then Err (OpFailed (OpReadFile p)) else Ok (n_data n), s)
  | None => (Err (NotExist (OpReadFile p)), s)
  end).
End Calls.

(** ** Lemmas *)

Example clean_paths : Clean #"/etc//service-portal/./ca/" = (true, [ #"etc"; #"service-portal"; #"ca"]) ∧
  Clean #"../a/../../b" = (false, [ #".."; #".."; #"b"]) ∧ Clean #"/../x" = (true, [ #"x"]).
Proof. vm_compute. split_and!; reflexivity. Qed.

(** A name that is one component. *)
Definition plain_name (s : gostring) : Prop := "/"%char ∉ s ∧ s ≠ [] ∧ s ≠ #"." ∧ s ≠ #"..".

Lemma Split_app c s t : Split (s ++ c :: t) [c] = Split s [c] ++ Split t [c].
Proof.
  assert (H : ∀ cur, split_aux [c] 0 cur (s ++ c :: t) = split_aux [c] 0 cur s ++ split_aux [c] 0 [] t); [|apply H].
  induction s as [|d s IH]; intros cur; cbn [app split_aux HasPrefix]; rewrite !HasPrefix_nil, !andb_true_r.
  - by rewrite bool_decide_eq_true_2 by done.
  - change (length [c] - 1) with 0. case_bool_decide; rewrite IH; reflexivity.
Qed.

(** A file of a directory. *)
Lemma Join_path_plain dir name :
  dir ≠ [] → plain_name name → Join_path dir name = ((Clean dir).1, (Clean dir).2 ++ [name]).
Proof.
  intros Hd (Hs & Hn & H1 & H2). unfold Join_path, Clean.
  assert (HasPrefix (dir ++ #"/" ++ name) #"/" = HasPrefix dir #"/") as ->.
  { destruct dir as [|c dir]; [done|]. cbn [app HasPrefix gostr String.list_ascii_of_string]. by rewrite !HasPrefix_nil. }
  cbn [fst snd]. f_equal.
  assert (Split (dir ++ #"/" ++ name) #"/" = Split dir #"/" ++ [name]) as ->
    by (rewrite <- (Split_byte_none "/" name Hs); exact (Split_app "/" dir name)).
  rewrite foldl_app. cbn [foldl]. unfold push_component at 1.
  by rewrite !bool_decide_eq_false_2 by done.
Qed.

Lemma Join_path_inj dir name1 name2 :
  dir ≠ [] → plain_name name1 → plain_name name2 → Join_path dir name1 = Join_path dir name2 → name1 = name2.
Proof. intros Hd H1 H2. rewrite !Join_path_plain by done. intros [= E]. by apply app_inv_head in E as [= ->]. Qed.

Lemma Join_path_ne dir name : dir ≠ [] → plain_name name → Join_path dir name ≠ Clean dir.
Proof.
  intros Hd Hn. rewrite Join_path_plain by done. destruct (Clean dir) as [r l]. cbn. intros [= E].
  apply (f_equal length) in E. rewrite length_app in E. cbn in E. lia.
Qed.

(** What a call that returns no error did. *)
Lemma guarded_ok (fate : fs_op → option fault) {A} (op : fs_op) (m : io fs os_err A) s a s' :
  guarded fate op m s = (Ok a, s') → fate op = None ∧ m s = (Ok a, s').
Proof. unfold guarded. by destruct (fate op). Qed.

Lemma change_ok fate op p f s s' :
  change fate op p f s = (Ok (), s') → ∃ n, s !! p = Some n ∧ s' = <[p := f n]> s.
Proof. intros [_ H]%guarded_ok. destruct (s !! p) as [n|]; [|done]. injection H as <-. by exists n. Qed.

Lemma WriteFile_ok fate umask me p b mode s s' :
  WriteFile fate umask me p b mode s = (Ok (), s') → s' = put_data umask me p b mode s ∧ from_option n_dir false (s !! p) = false.
Proof.
  unfold WriteFile. destruct (from_option n_dir false (s !! p)); [done|].
  destruct (fate _) as [[]|]; [done..|]. by intros [= <-].
Qed.

Lemma MkdirAll_ok fate umask me p mode s s' :
  MkdirAll fate umask me p mode s = (Ok (), s') →
  (∃ n, s !! p = Some n ∧ n_dir n = true ∧ s' = s) ∨
  (s !! p = None ∧ s' = <[p := mkNode true [] (masked umask mode) me.1 me.2]> s).
Proof.
  intros [_ H]%guarded_ok. destruct (s !! p) as [n|]; [|injection H as <-; by right].
  destruct (n_dir n) eqn:E; [|done]. injection H as <-. left. by exists n.
Qed.
