(* ===== verification/Lifecycle.v ===== *)
(** * The portal's life cycle (pkg/portals/server.go, [Run])

    [Run] with its effects: what [Portal.Run_plan] decides, interleaved with
    what [Run] does on the host, in the order of the source: the admin socket,
    the rules, the DNS servers, the proxies, and the shutdown when the context
    ends, with the goroutines of the DNS servers that the context wakes too. The
    host keeps what listens and the socket files with their modes;
    [trace] is what was asked of it. Which calls fail is an oracle of the history. *)

From S2P Require Import Prelude GoStrings GoNet Http HTTPProxy PodMap RuleRouter GoOS Portal.
From S2P Require Dns.

(** ** The host *)

Inductive endpoint :=
  | AdminUnix (path : gostring)
  | AdminTcp (addr : gostring)
  | DnsServer (addr : gostring)
  | HttpServer (addr : gostring)
  | HttpsServer (addr : gostring).
#[global] Instance endpoint_eq_dec : EqDecision endpoint.
Proof. solve_decision. Defined.

Inductive action :=
  | RemoveSocket (p : gostring)                (** [os.Remove] *)
  | MkdirSocketDir (dir : path) (mode : Z)     (** [os.MkdirAll] *)
  | ListenUnix (p : gostring)                  (** [net.Listen("unix", p)] *)
  | ChmodSocket (p : gostring) (mode : Z)      (** [os.Chmod] *)
  | CloseListener (p : gostring)
  | ServeAdmin (l : admin_listener)            (** the goroutine of [adminSrv] *)
  | ShutdownAdmin (l : admin_listener)
  | StartDNS (addr : gostring)
  | ShutdownDNS (addr : gostring)
  | DNSContextDone (addr : gostring)           (** the goroutine [Start] leaves: [Shutdown] when the context ends *)
  | ListenAndServe (addr : gostring)
  | ListenAndServeTLS (addr : gostring)
  | ShutdownHTTP (addr : gostring)
  | ShutdownHTTPS (addr : gostring).
#[global] Instance admin_listener_eq_dec : EqDecision admin_listener.
Proof. solve_decision. Defined.
#[global] Instance action_eq_dec : EqDecision action.
Proof. solve_decision. Defined.

Record portal_host := mkPortalHost {
  listening : list endpoint;
  sockets : gmap gostring Z;       (** socket files and their modes *)
  trace : list action;
}.

Definition admin_endpoint (l : admin_listener) : endpoint :=
  match l with UnixSocket p => AdminUnix p | TcpAddr a => AdminTcp a end.

Definition opened (e : endpoint) (w : portal_host) : portal_host :=
  mkPortalHost (e :: listening w) (sockets w) (trace w).
Definition closed (e : endpoint) (w : portal_host) : portal_host :=
  mkPortalHost (filter (λ e', e' ≠ e) (listening w)) (sockets w) (trace w).
Definition unlinked (p : gostring) (w : portal_host) : portal_host :=
  mkPortalHost (listening w) (delete p (sockets w)) (trace w).

(** [filepath.Dir]: the path up to its last separator, cleaned. *)
Definition Dir (p : gostring) : path :=
  match LastIndexByte p "/" with
  | None => Clean []
  | Some i => Clean (take (S i) p)
  end.

(** The modes 0750 of the socket's directory and 0600 of the socket. *)
Definition dir_mode : Z := 488.
Definition socket_mode : Z := 384.

Section Host.
(** Which calls succeed, and the mode [net.Listen] gives a new socket file. *)
Context (works : list action → action → bool) (listen_mode : Z).

(** A socket file in the way makes [net.Listen] fail. *)
Definition succeeds (a : action) (w : portal_host) : bool :=
  works (trace w) a &&
  match a with ListenUnix p => bool_decide (sockets w !! p = None) | _ => true end.

(** A close and a shutdown close their listener, also when they report an
    error; a Unix listener removes its file as it closes. *)
Definition effect (ok : bool) (a : action) (w : portal_host) : portal_host :=
  match a with
  | RemoveSocket p => if ok then unlinked p w else w
  | MkdirSocketDir _ _ => w
  | ListenUnix p =>
      if ok then mkPortalHost (AdminUnix p :: listening w) (<[p := listen_mode]> (sockets w)) (trace w) else w
  | ChmodSocket p mode =>
      if ok then mkPortalHost (listening w) (alter (λ _, mode) p (sockets w)) (trace w) else w
  | CloseListener p => unlinked p (closed (AdminUnix p) w)
  | ServeAdmin (UnixSocket _) => w
  | ServeAdmin (TcpAddr a) => if ok then opened (AdminTcp a) w else w
  | ShutdownAdmin (UnixSocket p) => unlinked p (closed (AdminUnix p) w)
  | ShutdownAdmin (TcpAddr a) => closed (AdminTcp a) w
  | StartDNS a => if ok then opened (DnsServer a) w else w
  | ShutdownDNS a | DNSContextDone a => closed (DnsServer a) w
  | ListenAndServe a => if ok then opened (HttpServer a) w else w
  | ListenAndServeTLS a => if ok then opened (HttpsServer a) w else w
  | ShutdownHTTP a => closed (HttpServer a) w
  | ShutdownHTTPS a => closed (HttpsServer a) w
  end.

Definition recorded (a : action) (w : portal_host) : portal_host :=
  mkPortalHost (listening w) (sockets w) (trace w ++ [a]).

Inductive life_err :=
  | PlanError (e : run_err)
  | AdminDirError (p : gostring)
  | AdminListenError (p : gostring)
  | AdminChmodError (p : gostring)
  | DNSStartError (addr : gostring)
  | HTTPServerError
  | HTTPSServerError.

(** A call; whether it succeeded. *)
Definition call (a : action) : io portal_host life_err bool := λ w,
  let ok := succeeds a w in (Ok ok, recorded a (effect ok a w)).
(** A call whose failure is only logged. *)
Definition call_ (a : action) : io portal_host life_err () := call a ≫= λ _, mret ().
(** A call whose failure ends [Run]. *)
Definition must (a : action) (e : life_err) : io portal_host life_err () :=
  call a ≫= λ ok, if (ok : bool) then mret () else throw e.

(** ** Starting *)

Definition start_admin (admin : option admin_listener) : io portal_host life_err () :=
  match admin with
  | None => mret ()
  | Some (UnixSocket p) =>
      call_ (RemoveSocket p);;
      must (MkdirSocketDir (Dir p) dir_mode) (AdminDirError p);;
      must (ListenUnix p) (AdminListenError p);;
      ok ← call (ChmodSocket p socket_mode);
      if (ok : bool) then call_ (ServeAdmin (UnixSocket p))
      else
        call_ (CloseListener p);;
        call_ (RemoveSocket p);;
        throw (AdminChmodError p)
  | Some (TcpAddr a) => call_ (ServeAdmin (TcpAddr a))
  end.

Fixpoint start_dns (l : list Dns.Config) : io portal_host life_err () :=
  match l with
  | [] => mret ()
  | d :: l => must (StartDNS (Dns.BindAddr d)) (DNSStartError (Dns.BindAddr d));; start_dns l
  end.

(** ** Stopping

    The end of the context also wakes the goroutine that the [Start] of each
    DNS server left, which shuts its server down while [Run] does: [background]
    says which of them have run before the next call of [Run]. *)
Section Stop.
Context (background : list action → list gostring) (addrs : list gostring).

(** [Shutdown] does nothing on a server that is shut down already. *)
Definition dns_goroutine (a : gostring) (w : portal_host) : portal_host :=
  if bool_decide (DnsServer a ∈ listening w)
  then recorded (DNSContextDone a) (effect true (DNSContextDone a) w) else w.
Definition dns_goroutines : io portal_host life_err () := λ w,
  (Ok (), foldl (λ w a, dns_goroutine a w) w (filter (λ a, a ∈ addrs) (background (trace w)))).

(** A call of the shutdown. *)
Definition quit (a : action) : io portal_host life_err () := dns_goroutines;; call_ a.

Definition stop_admin (admin : option admin_listener) : io portal_host life_err () :=
  match admin with
  | None => mret ()
  | Some l =>
      quit (ShutdownAdmin l);;
      match l with
      | UnixSocket p => quit (CloseListener p);; quit (RemoveSocket p)
      | TcpAddr _ => mret ()
      end
  end.

Fixpoint stop_dns (l : list Dns.Config) : io portal_host life_err () :=
  match l with
  | [] => mret ()
  | d :: l => quit (ShutdownDNS (Dns.BindAddr d));; stop_dns l
  end.
End Stop.

(** What [select] sees first. *)
Inductive wakeup := HTTPFailed | HTTPSFailed | ContextDone.

Definition serve_until (background : list action → list gostring) (plan : Plan) (e : wakeup)
    : io portal_host life_err () :=
  let addrs := Dns.BindAddr <$> pl_dns plan in
  call_ (ListenAndServe (pl_addr plan));;
  call_ (ListenAndServeTLS (pl_httpsAddr plan));;
  match e with
  | HTTPFailed => throw HTTPServerError
  | HTTPSFailed => throw HTTPSServerError
  | ContextDone =>
      stop_admin background addrs (pl_admin plan);;
      stop_dns background addrs (pl_dns plan);;
      quit background addrs (ShutdownHTTP (pl_addr plan));;
      quit background addrs (ShutdownHTTPS (pl_httpsAddr plan))
  end.

(** ** [Run] *)

Section Run.
Context `{Unicode}.
Context (Getenv : gostring → gostring)
        (unmarshal : bytes → option PortalRule)
        (url_Parse : gostring → option URL)
        (ParseDuration : gostring → option Z)
        (ca_ok : option PortalRule → bool) (DiscoverNodeIPv6 : gostring).

(** A decision of [Run] that does nothing on the host. *)
Definition decide_ {A} (m : outcome run_err A) : io portal_host life_err A := map_err PlanError (lift m).

(** Up to the goroutines of the proxies. *)
Definition start_up (cfg : Config) (es : list walk_entry) : io portal_host life_err Plan :=
  let rulesDir := first_set [RulesDir cfg; Getenv #"RULES_DIR"] in
  fallback ← decide_ (make_fallback Getenv url_Parse ca_ok cfg (target_of Getenv cfg rulesDir));
  ttl ← decide_ (cache_ttl Getenv ParseDuration cfg);
  '(has_cache, fallback) ← decide_ (with_caching Getenv ParseDuration ttl fallback);
  let fallback := setup cfg fallback in
  let pm := pod_map Getenv cfg in
  admin ← decide_ (admin_of Getenv pm);
  start_admin admin;;
  h ← decide_ (make_handler unmarshal url_Parse ParseDuration ca_ok rulesDir fallback has_cache pm es);
  let dns := dns_configs Getenv DiscoverNodeIPv6 cfg h in
  start_dns dns;;
  mret (mkPlan h pm admin dns
          (JoinHostPort (bind_host Getenv) (first_set [Getenv #"PORT"; #"8080"]))
          (JoinHostPort (bind_host Getenv) (first_set [Getenv #"HTTPS_PORT"; #"8443"]))).

Definition Run (background : list action → list gostring) (cfg : Config) (es : list walk_entry) (e : wakeup)
    : io portal_host life_err () :=
  plan ← start_up cfg es; serve_until background plan e.
End Run.
End Host.

(** ** Lemmas *)

Section Facts.
Context (works : list action → action → bool) (listen_mode : Z).
Notation call := (call works listen_mode).
Notation call_ := (call_ works listen_mode).
Notation must := (must works listen_mode).
Notation start_admin := (start_admin works listen_mode).
Notation start_dns := (start_dns works listen_mode).
Notation stop_admin := (stop_admin works listen_mode).
Notation stop_dns := (stop_dns works listen_mode).
Notation quit := (quit works listen_mode).
Notation dns_goroutines := (dns_goroutines listen_mode).

(** The host after a call. *)
Definition after (a : action) (w : portal_host) : portal_host :=
  recorded a (effect listen_mode (succeeds works a w) a w).

Lemma call_run a w : call a w = (Ok (succeeds works a w), after a w).
Proof. done. Qed.
Lemma call__run a w : call_ a w = (Ok (), after a w).
Proof. done. Qed.
Lemma must_run a e w : must a e w = (if succeeds works a w then Ok () else Err e, after a w).
Proof. unfold must. rewrite (io_bind_run _ _ _ _ _ (call_run a w)). by destruct (succeeds works a w). Qed.

Lemma call__bind {B} a (f : io portal_host life_err B) w : (call_ a;; f) w = f (after a w).
Proof. exact (io_bind_run _ _ _ _ _ (call__run a w)). Qed.
Lemma must_bind {B} a e (f : io portal_host life_err B) w :
  (must a e;; f) w = if succeeds works a w then f (after a w) else (Err e, after a w).
Proof. unfold mbind, io_bind. rewrite must_run. by destruct (succeeds works a w). Qed.

Lemma after_trace a w : trace (after a w) = trace w ++ [a].
Proof. unfold after, recorded. cbn. f_equal. destruct a as [| | | | |[]|[]| | | | | | |]; cbn; by repeat case_match. Qed.

(** What a call can add to what listens. *)
Definition adds (a : action) : option endpoint :=
  match a with
  | ListenUnix p => Some (AdminUnix p)
  | ServeAdmin (TcpAddr a) => Some (AdminTcp a)
  | StartDNS a => Some (DnsServer a)
  | ListenAndServe a => Some (HttpServer a)
  | ListenAndServeTLS a => Some (HttpsServer a)
  | _ => None
  end.

Lemma after_listening a w e :
  e ∈ listening (after a w) → e ∈ listening w ∨ (adds a = Some e ∧ succeeds works a w = true).
Proof.
  unfold after. destruct a as [| | | | |[]|[]| | | | | | |]; cbn; repeat case_match; cbn;
    rewrite ?elem_of_cons, ?list_elem_of_filter; naive_solver.
Qed.

(** What a call takes from it. *)
Definition removes (a : action) : option endpoint :=
  match a with
  | CloseListener p => Some (AdminUnix p)
  | ShutdownAdmin l => Some (admin_endpoint l)
  | ShutdownDNS a | DNSContextDone a => Some (DnsServer a)
  | ShutdownHTTP a => Some (HttpServer a)
  | ShutdownHTTPS a => Some (HttpsServer a)
  | _ => None
  end.

Lemma after_removed a e w : removes a = Some e → e ∉ listening (after a w).
Proof.
  unfold after. destruct a as [| | | | |[]|[]| | | | | | |]; cbn; try done; intros [= <-];
    rewrite list_elem_of_filter; naive_solver.
Qed.

Lemma after_kept a e w : removes a ≠ Some e → e ∈ listening w → e ∈ listening (after a w).
Proof.
  unfold after. destruct a as [| | | | |[]|[]| | | | | | |]; cbn; repeat case_match; cbn;
    rewrite ?elem_of_cons, ?list_elem_of_filter; naive_solver.
Qed.

Lemma after_added a e w : adds a = Some e → succeeds works a w = true → e ∈ listening (after a w).
Proof.
  unfold after. intros Ha ->. destruct a as [| | | | |[]|[]| | | | | | |]; cbn in *; try done;
    injection Ha as <-; by left.
Qed.

Lemma after_close_unlinks p w : sockets (after (CloseListener p) w) !! p = None.
Proof. cbn. by rewrite lookup_delete_eq. Qed.

Lemma after_unlinked p w : sockets w !! p = None → sockets (after (RemoveSocket p) w) !! p = None.
Proof.
  intros Hn. unfold after. destruct (succeeds _ _ w); cbn; [by rewrite lookup_delete_eq|done].
Qed.

(** How the host grows while [Run] starts. *)
Definition grows (P : endpoint → Prop) (w w' : portal_host) : Prop :=
  (∀ e, e ∈ listening w → e ∈ listening w') ∧
  (∀ e, e ∈ listening w' → e ∈ listening w ∨ P e) ∧
  ∃ tr, trace w' = trace w ++ tr.

Lemma grows_refl P w : grows P w w.
Proof. split_and!; [done|by left|]. exists []. by rewrite app_nil_r. Qed.

Lemma grows_trans P w1 w2 w3 : grows P w1 w2 → grows P w2 w3 → grows P w1 w3.
Proof.
  intros (H1 & H2 & tr & E) (H1' & H2' & tr' & E'). split_and!; [auto| |].
  - intros e [He|He]%H2'; [by apply H2|by right].
  - exists (tr ++ tr'). by rewrite E', E, <- app_assoc.
Qed.

Lemma grows_after (P : endpoint → Prop) a w :
  removes a = None → (∀ e, adds a = Some e → P e) → grows P w (after a w).
Proof.
  intros Hr Ha. split_and!.
  - intros e. apply after_kept. by rewrite Hr.
  - intros e [He|[He _]]%after_listening; [by left|right; auto].
  - exists [a]. apply after_trace.
Qed.

Lemma grows_step (P : endpoint → Prop) a w w1 :
  grows P w w1 → removes a = None → (∀ e, adds a = Some e → P e) → grows P w (after a w1).
Proof. intros Hg Hr Ha. eapply grows_trans; [exact Hg|by apply grows_after]. Qed.

Lemma grows_weaken (P Q : endpoint → Prop) w w' : (∀ e, P e → Q e) → grows P w w' → grows Q w w'.
Proof. intros HPQ (H1 & H2 & H3). split_and!; [done| |done]. intros e [?|?]%H2; auto. Qed.

(** *** The admin server *)

Lemma start_admin_unix p w :
  let w1 := after (RemoveSocket p) w in
  let w2 := after (MkdirSocketDir (Dir p) dir_mode) w1 in
  let w3 := after (ListenUnix p) w2 in
  let w4 := after (ChmodSocket p socket_mode) w3 in
  start_admin (Some (UnixSocket p)) w =
  if succeeds works (MkdirSocketDir (Dir p) dir_mode) w1 then
    if succeeds works (ListenUnix p) w2 then
      if succeeds works (ChmodSocket p socket_mode) w3
      then (Ok (), after (ServeAdmin (UnixSocket p)) w4)
      else (Err (AdminChmodError p),
            after (RemoveSocket p) (after (CloseListener p) w4))
    else (Err (AdminListenError p), w3)
  else (Err (AdminDirError p), w2).
Proof.
  intros w1 w2 w3 w4. unfold Lifecycle.start_admin. rewrite call__bind, must_bind. fold w1 w2.
  destruct (succeeds _ _ w1); [|done]. rewrite must_bind. fold w3. destruct (succeeds _ _ w2); [|done].
  rewrite (io_bind_run _ _ _ _ _ (call_run _ _)). fold (after (ChmodSocket p socket_mode) w3).
  fold w4. destruct (succeeds _ _ w3); [done|]. by rewrite !call__bind.
Qed.

Lemma start_admin_ok admin w w' :
  start_admin admin w = (Ok (), w') →
  grows (λ e, admin_endpoint <$> admin = Some e) w w' ∧
  ∀ p, admin = Some (UnixSocket p) → sockets w' !! p = Some socket_mode ∧ AdminUnix p ∈ listening w'.
Proof.
  destruct admin as [[p|a]|].
  - rewrite start_admin_unix. cbn zeta. destruct (succeeds _ (MkdirSocketDir _ _) _) eqn:E1; [|done].
    destruct (succeeds _ (ListenUnix p) _) eqn:E2; [|done].
    destruct (succeeds _ (ChmodSocket p _) _) eqn:E3; [|done]. intros [= <-].
    set (w2 := after (MkdirSocketDir (Dir p) dir_mode) _) in *.
    set (w3 := after (ListenUnix p) w2) in *.
    set (w4 := after (ChmodSocket p socket_mode) w3) in *.
    split.
    + repeat (apply grows_step; [|done|cbn; naive_solver]). apply grows_refl.
    + intros p' [= <-]. split.
      * change (sockets w4 !! p = Some socket_mode). unfold w4, after, effect. rewrite E3. cbn.
        rewrite lookup_alter_eq. unfold w3, after, effect. rewrite E2. cbn. by rewrite lookup_insert_eq.
      * apply after_kept; [done|]. apply after_kept; [done|]. by apply after_added.
  - cbn. rewrite call__run. intros [= <-]. split; [|done]. apply grows_after; [done|cbn; naive_solver].
  - intros [= <-]. split; [apply grows_refl|done].
Qed.

(** *** The DNS servers *)

Lemma start_dns_ok l w w' :
  start_dns l w = (Ok (), w') →
  grows (λ e, e ∈ (DnsServer ∘ Dns.BindAddr <$> l)) w w' ∧ sockets w' = sockets w ∧
  Forall (λ d, DnsServer (Dns.BindAddr d) ∈ listening w') l.
Proof.
  revert w. induction l as [|d l IH]; intros w; cbn [Lifecycle.start_dns].
  { intros [= <-]. split_and!; [apply grows_refl|done|done]. }
  rewrite must_bind. destruct (succeeds _ _ w) eqn:E; [|done]. intros (Hg & Hs & Hall)%IH.
  assert (Hin : DnsServer (Dns.BindAddr d) ∈ listening (after (StartDNS (Dns.BindAddr d)) w))
    by (by apply after_added).
  split_and!.
  - eapply grows_trans; [apply (grows_after _ (StartDNS (Dns.BindAddr d))); [done|]|].
    + intros e [= <-]. by left.
    + eapply grows_weaken, Hg. intros e He. by right.
  - rewrite Hs. unfold after, effect. by rewrite E.
  - constructor; [|done]. by apply Hg.
Qed.

(** *** The shutdown *)

Definition stop_admin_actions (admin : option admin_listener) : list action :=
  match admin with
  | None => []
  | Some (UnixSocket p) => [ShutdownAdmin (UnixSocket p); CloseListener p; RemoveSocket p]
  | Some (TcpAddr a) => [ShutdownAdmin (TcpAddr a)]
  end.

Definition shutdown_actions (plan : Plan) : list action :=
  stop_admin_actions (pl_admin plan) ++ (ShutdownDNS ∘ Dns.BindAddr <$> pl_dns plan) ++
  [ShutdownHTTP (pl_addr plan); ShutdownHTTPS (pl_httpsAddr plan)].

(** A list of calls one after the other. *)
Definition afters (l : list action) (w : portal_host) : portal_host :=
  foldl (λ w a, after a w) w l.

Lemma afters_app l l' w : afters (l ++ l') w = afters l' (afters l w).
Proof. apply foldl_app. Qed.

Lemma afters_trace l w : trace (afters l w) = trace w ++ l.
Proof.
  unfold afters. revert w. induction l as [|a l IH]; intros w; cbn; [by rewrite app_nil_r|].
  by rewrite IH, after_trace, <- app_assoc.
Qed.

Lemma afters_listening l w e :
  e ∈ listening (afters l w) → (e ∈ listening w ∨ ∃ a, a ∈ l ∧ adds a = Some e).
Proof.
  unfold afters. revert w. induction l as [|a l IH]; intros w; cbn; [by left|].
  intros [He|(a' & Hin & Ha)]%IH.
  - apply after_listening in He as [He|[Ha _]]; [by left|]. right. exists a. split; [by left|done].
  - right. exists a'. split; [by right|done].
Qed.

(** Calls that add nothing and of which one removes [e] leave it closed. *)
Lemma afters_removed l w e :
  (∀ a, a ∈ l → adds a = None) → (∃ a, a ∈ l ∧ removes a = Some e) → e ∉ listening (afters l w).
Proof.
  intros Hadd (a & Hin & Hr) He. apply list_elem_of_split in Hin as (l1 & l2 & ->).
  unfold afters in He. rewrite foldl_app in He. cbn in He.
  apply (afters_listening l2) in He as [He|(a' & Hin & Ha)].
  - by eapply after_removed.
  - rewrite Hadd in Ha; [done|]. apply elem_of_app. right. by right.
Qed.

(** A socket file that is gone stays gone while nothing listens on its path. *)
Lemma after_no_socket a p w :
  a ≠ ListenUnix p → sockets w !! p = None → sockets (after a w) !! p = None.
Proof.
  intros Hne Hn. unfold after. destruct a as [| | | | |[]|[]| | | | | | |]; cbn; repeat case_match; cbn;
    rewrite ?lookup_delete_None, ?lookup_alter_None; auto. rewrite lookup_insert_ne by congruence. done.
Qed.

Lemma afters_no_socket l p w :
  ListenUnix p ∉ l → CloseListener p ∈ l → sockets (afters l w) !! p = None.
Proof.
  intros Hno (l1 & l2 & ->)%list_elem_of_split. rewrite afters_app. cbn [afters foldl].
  assert (Hno2 : ListenUnix p ∉ l2) by (intros Hin; apply Hno, elem_of_app; right; by right).
  pose proof (after_close_unlinks p (afters l1 w)) as Hn. revert Hn.
  generalize (after (CloseListener p) (afters l1 w)). clear Hno. induction l2 as [|a l2 IH]; intros w0 Hn; [done|].
  apply not_elem_of_cons in Hno2 as [Hne Hno2]. cbn [foldl]. apply IH; [done|]. by apply after_no_socket.
Qed.

(** What [Run] itself does, and what goroutines of DNS servers do meanwhile. *)
Definition of_goroutine (a : action) : bool := match a with DNSContextDone _ => true | _ => false end.
Definition own_calls (l : list action) : list action := filter (λ a, of_goroutine a = false) l.

(** [shuts addrs l m]: [m] makes the calls [l], one after the other, between
    which goroutines of the DNS servers at [addrs] may run. *)
Definition shuts (addrs : list gostring) (l : list action) (m : io portal_host life_err ()) : Prop :=
  ∀ w, ∃ tr, m w = (Ok (), afters tr w) ∧ own_calls tr = l ∧
    ∀ a, a ∈ tr → a ∈ l ∨ ∃ addr, a = DNSContextDone addr ∧ addr ∈ addrs.

Lemma shuts_nil addrs : shuts addrs [] (mret ()).
Proof. intros w. exists []. split_and!; [done..|]. by intros a ?%elem_of_nil. Qed.

Lemma shuts_bind addrs l l' m m' : shuts addrs l m → shuts addrs l' m' → shuts addrs (l ++ l') (m;; m').
Proof.
  intros Hm Hm' w. destruct (Hm w) as (tr & Hr & Hl & Ha). destruct (Hm' (afters tr w)) as (tr' & Hr' & Hl' & Ha').
  exists (tr ++ tr'). rewrite (io_bind_run _ _ _ _ _ Hr), afters_app. split_and!; [done| |].
  - unfold own_calls in *. by rewrite filter_app, Hl, Hl'.
  - intros a [Hin|Hin]%elem_of_app; [destruct (Ha a Hin)|destruct (Ha' a Hin)]; rewrite ?elem_of_app; auto.
Qed.

Lemma goroutines_shut bg addrs : shuts addrs [] (dns_goroutines bg addrs).
Proof.
  intros w. unfold Lifecycle.dns_goroutines. generalize (bg (trace w)) as l. intros l.
  assert (Hl : Forall (λ a, a ∈ addrs) (filter (λ a, a ∈ addrs) l))
    by (apply Forall_forall; by intros a [? _]%list_elem_of_filter).
  generalize dependent (filter (λ a, a ∈ addrs) l). clear l. intros l Hl. revert w.
  induction Hl as [|x l Hx _ IH]; intros w; cbn [foldl]; [by apply shuts_nil|].
  assert (dns_goroutine listen_mode x w = w ∨ dns_goroutine listen_mode x w = after (DNSContextDone x) w) as [-> | ->]
    by (unfold dns_goroutine; case_bool_decide; by auto); [done|].
  destruct (IH (after (DNSContextDone x) w)) as (tr & Hr & Ho & Ha). exists (DNSContextDone x :: tr). split_and!; [exact Hr|done|].
  intros a [->|Hin]%elem_of_cons; [right; eauto|auto].
Qed.

Lemma quit_shuts bg addrs a : of_goroutine a = false → shuts addrs [a] (quit bg addrs a).
Proof.
  intros Hg. apply (shuts_bind addrs [] [a]); [apply goroutines_shut|]. intros w. exists [a].
  unfold own_calls. rewrite filter_cons, decide_True by done. split_and!; [done..|by left].
Qed.

Lemma stop_admin_shuts bg addrs admin : shuts addrs (stop_admin_actions admin) (stop_admin bg addrs admin).
Proof.
  destruct admin as [[p|a]|]; cbn [Lifecycle.stop_admin stop_admin_actions]; [| |apply shuts_nil].
  - apply (shuts_bind addrs [_] [_; _]); [by apply quit_shuts|]. apply (shuts_bind addrs [_] [_]); by apply quit_shuts.
  - apply (shuts_bind addrs [_] []); [by apply quit_shuts|apply shuts_nil].
Qed.

Lemma stop_dns_shuts bg addrs l : shuts addrs (ShutdownDNS ∘ Dns.BindAddr <$> l) (stop_dns bg addrs l).
Proof.
  induction l as [|d l IH]; [apply shuts_nil|]. cbn [Lifecycle.stop_dns].
  apply (shuts_bind addrs [_]); [by apply quit_shuts|done].
Qed.

Lemma shutdown_run bg plan w : ∃ tr,
  serve_until works listen_mode bg plan ContextDone w =
  (Ok (), afters ([ListenAndServe (pl_addr plan); ListenAndServeTLS (pl_httpsAddr plan)] ++ tr) w) ∧
  own_calls tr = shutdown_actions plan ∧
  ∀ a, a ∈ tr → a ∈ shutdown_actions plan ∨ ∃ d, a = DNSContextDone (Dns.BindAddr d) ∧ d ∈ pl_dns plan.
Proof.
  set (addrs := Dns.BindAddr <$> pl_dns plan).
  assert (Hs : shuts addrs (shutdown_actions plan) (stop_admin bg addrs (pl_admin plan);; stop_dns bg addrs (pl_dns plan);;
    quit bg addrs (ShutdownHTTP (pl_addr plan));; quit bg addrs (ShutdownHTTPS (pl_httpsAddr plan)))).
  { unfold shutdown_actions. apply shuts_bind; [apply stop_admin_shuts|]. apply shuts_bind; [apply stop_dns_shuts|].
    apply (shuts_bind addrs [_] [_]); by apply quit_shuts. }
  destruct (Hs (after (ListenAndServeTLS (pl_httpsAddr plan)) (after (ListenAndServe (pl_addr plan)) w)))
    as (tr & Hr & Ho & Ha).
  exists tr. unfold serve_until. rewrite !call__bind. fold addrs. rewrite Hr. split_and!; [done..|].
  intros a [?|(addr & -> & (d & -> & Hd)%list_elem_of_fmap)]%Ha; eauto.
Qed.
End Facts.

(** ** Properties: the admin API *)

Section AdminFacts.
Context (works : list action → action → bool) (listen_mode : Z).
Notation start_admin := (start_admin works listen_mode).

(** C15: The admin socket fails closed: whatever the host refuses, starting the
    admin API on a Unix socket either ends with a socket of mode 0600 that is
    listening, or with an error, nothing listening on the socket and the API never
    served; and when it is the mode that could not be set, no socket file is left. *)
Theorem admin_socket_fail_closed p w r w' :
  AdminUnix p ∉ listening w → start_admin (Some (UnixSocket p)) w = (r, w') →
  match r with
  | Ok _ => sockets w' !! p = Some socket_mode ∧ AdminUnix p ∈ listening w'
  | Err e => AdminUnix p ∉ listening w' ∧
      (∃ tr, trace w' = trace w ++ tr ∧ ServeAdmin (UnixSocket p) ∉ tr) ∧
      (e = AdminChmodError p → sockets w' !! p = None)
  | Panic _ => False
  end.
Proof.
  intros Hno Hs. destruct r as [[]|e|pn].
  - by apply start_admin_ok in Hs as [_ Hs]; apply Hs.
  - rewrite start_admin_unix in Hs. cbn zeta in Hs.
    assert (Hkeep : ∀ a w0, AdminUnix p ∉ listening w0 → adds a ≠ Some (AdminUnix p) →
      AdminUnix p ∉ listening (after works listen_mode a w0)).
    { intros a w0 Hn Ha [He|[He _]]%after_listening; tauto. }
    destruct (succeeds _ (MkdirSocketDir _ _) _); [destruct (succeeds _ (ListenUnix p) _) eqn:El;
      [destruct (succeeds _ (ChmodSocket p _) _); [done|]|]|]; injection Hs as <- <-.
    + split_and!.
      * apply Hkeep; [|done]. by apply after_removed.
      * rewrite !after_trace, <- !app_assoc. eexists. split; [done|]. cbn. set_solver.
      * intros _. apply after_unlinked, after_close_unlinks.
    + split_and!; [|rewrite !after_trace, <- !app_assoc; eexists; split; [done|cbn; set_solver]|done].
      intros [He|[_ He]]%after_listening; [|by rewrite El in He].
      revert He. by repeat apply Hkeep.
    + split_and!; [by repeat apply Hkeep|rewrite !after_trace, <- !app_assoc; eexists; split; [done|cbn; set_solver]|done].
  - rewrite start_admin_unix in Hs. cbn zeta in Hs. repeat case_match; done.
Qed.

(** An admin API on TCP that cannot listen is only logged: the portal goes on
    without it. *)
Theorem tcp_admin_fails_silently a w :
  AdminTcp a ∉ listening w → succeeds works (ServeAdmin (TcpAddr a)) w = false →
  ∃ w', start_admin (Some (TcpAddr a)) w = (Ok (), w') ∧ AdminTcp a ∉ listening w'.
Proof.
  intros Hno Hf. exists (after works listen_mode (ServeAdmin (TcpAddr a)) w). split; [done|].
  intros [He|[_ He]]%after_listening; [done|congruence].
Qed.
(** A socket file left behind by a process that did not shut down is no obstacle:
    it is removed first. *)
Theorem stale_socket_replaced p w mode :
  (∀ h a, works h a = true) → sockets w !! p = Some mode →
  ∃ w', start_admin (Some (UnixSocket p)) w = (Ok (), w') ∧ sockets w' !! p = Some socket_mode ∧
    AdminUnix p ∈ listening w'.
Proof.
  intros Hall _. rewrite start_admin_unix. cbn zeta.
  assert (Hs : ∀ a w, match a with ListenUnix _ => False | _ => True end → succeeds works a w = true).
  { intros a w0 Ha. unfold succeeds. rewrite Hall. by destruct a. }
  rewrite (Hs (MkdirSocketDir _ _)) by done.
  set (w2 := after works listen_mode (MkdirSocketDir _ _) _).
  assert (Hl : succeeds works (ListenUnix p) w2 = true).
  { unfold succeeds. rewrite Hall. apply bool_decide_eq_true_2. subst w2. unfold after.
    rewrite (Hs (RemoveSocket p)) by done. cbn. by rewrite lookup_delete_eq. }
  rewrite Hl, (Hs (ChmodSocket _ _)) by done. eexists. split; [done|]. apply (start_admin_ok works listen_mode (Some (UnixSocket p)) w); [|done].
  rewrite start_admin_unix. cbn zeta. rewrite (Hs (MkdirSocketDir _ _)) by done. fold w2.
  by rewrite Hl, (Hs (ChmodSocket _ _)) by done.
Qed.
End AdminFacts.

(** ** The reload on SIGHUP *)

Section Reload.
Context `{Unicode} (unmarshal : bytes → option PortalRule)
        (url_Parse : gostring → option URL)
        (ParseDuration : gostring → option Z) (ca_ok : PortalRule → bool).

(** What the goroutine's [select] yields: a signal, with what the rules
    directory then holds, or the end of the context. *)
Inductive reload_event := Sighup (es : list walk_entry) | ReloadDone.

Fixpoint reload_loop (events : list reload_event) (rr : RuleRouter) : RuleRouter :=
  match events with
  | [] | ReloadDone :: _ => rr
  | Sighup es :: events => reload_loop events (loadRules unmarshal url_Parse ParseDuration ca_ok es rr).2
  end.

(** A reload never leaves a broken table: after any signals the router serves
    the table it had, or the table of a load that had no error; its pod map and its
    fallback are those it started with. *)
Theorem reload_keeps_serving events rr :
  let rr' := reload_loop events rr in
  podMap rr' = podMap rr ∧ fallback rr' = fallback rr ∧
  (routes rr' = routes rr ∨ ∃ es rr1, Sighup es ∈ events ∧
     (loadRules unmarshal url_Parse ParseDuration ca_ok es rr1).1 = None ∧
     routes rr' = routes (loadRules unmarshal url_Parse ParseDuration ca_ok es rr1).2).
Proof.
  revert rr. induction events as [|[es|] events IH]; intros rr; cbn [reload_loop]; [by auto| |by auto].
  set (rr1 := (loadRules _ _ _ _ es rr).2) in *.
  assert (Hone : podMap rr1 = podMap rr ∧ fallback rr1 = fallback rr ∧
    (routes rr1 = routes rr ∨ (loadRules unmarshal url_Parse ParseDuration ca_ok es rr).1 = None)).
  { subst rr1. unfold loadRules. destruct (bool_decide _); [by auto|].
    destruct (walk_rules _ _ _ _ _ _) as [walked st]. destruct (negb walked); [by auto|].
    destruct (errs st); by auto. }
  destruct Hone as (H1 & H2 & H3), (IH rr1) as (H4 & H5 & H6). split_and!; [congruence|congruence|].
  destruct H6 as [H6|(es' & rr2 & Hin & Hok & Hr)].
  - destruct H3 as [H3|H3]; [left; congruence|]. right. exists es, rr. split_and!; [by left|done|done].
  - right. exists es', rr2. split_and!; [by right|done|done].
Qed.
End Reload.

Section RunFacts.
Context `{Unicode} (works : list action → action → bool) (listen_mode : Z).
Context (Getenv : gostring → gostring)
        (unmarshal : bytes → option PortalRule)
        (url_Parse : gostring → option URL)
        (ParseDuration : gostring → option Z)
        (ca_ok : option PortalRule → bool) (DiscoverNodeIPv6 : gostring) (cfg : Config) (es : list walk_entry).
Notation plan_of := (Run_plan Getenv unmarshal url_Parse ParseDuration ca_ok DiscoverNodeIPv6 cfg es).
Notation start_up := (start_up works listen_mode Getenv unmarshal url_Parse ParseDuration ca_ok DiscoverNodeIPv6 cfg es).
Notation Run bg := (Run works listen_mode Getenv unmarshal url_Parse ParseDuration ca_ok DiscoverNodeIPv6 bg cfg es).
Notation start_admin := (start_admin works listen_mode).
Notation start_dns := (start_dns works listen_mode).

Lemma decide_bind {A B} (m : outcome run_err A) (f : A → io portal_host life_err B) w :
  (decide_ m ≫= f) w = match m with
                       | Ok a => f a w
                       | Err e => (Err (PlanError e), w)
                       | Panic p => (Panic p, w)
                       end.
Proof. by destruct m. Qed.

(** What is decided before the admin socket: the fallback, whether there is a
    cache, and the admin listener. *)
Definition decisions : outcome run_err (option (HTTPProxy * transport) * bool * option admin_listener) :=
  let rulesDir := first_set [RulesDir cfg; Getenv #"RULES_DIR"] in
  fallback ← make_fallback Getenv url_Parse ca_ok cfg (target_of Getenv cfg rulesDir);
  ttl ← cache_ttl Getenv ParseDuration cfg;
  '(has_cache, fallback) ← with_caching Getenv ParseDuration ttl fallback;
  admin ← admin_of Getenv (pod_map Getenv cfg);
  Ok (setup cfg fallback, has_cache, admin).

Definition handler_of (fallback : option (HTTPProxy * transport)) (has_cache : bool) : outcome run_err handler :=
  make_handler unmarshal url_Parse ParseDuration ca_ok (first_set [RulesDir cfg; Getenv #"RULES_DIR"])
    fallback has_cache (pod_map Getenv cfg) es.

Definition finished (admin : option admin_listener) (h : handler) : Plan :=
  mkPlan h (pod_map Getenv cfg) admin (dns_configs Getenv DiscoverNodeIPv6 cfg h)
    (JoinHostPort (bind_host Getenv) (first_set [Getenv #"PORT"; #"8080"]))
    (JoinHostPort (bind_host Getenv) (first_set [Getenv #"HTTPS_PORT"; #"8443"])).

Lemma plan_of_decisions :
  plan_of = (d ← decisions; h ← handler_of d.1.1 d.1.2; Ok (finished d.2 h)).
Proof.
  unfold Run_plan, decisions, handler_of. cbn zeta.
  destruct (make_fallback _ _ _ _ _) as [fb| |]; [|done|done]. cbn.
  destruct (cache_ttl _ _ _) as [ttl| |]; [|done|done]. cbn.
  destruct (with_caching _ _ _ _) as [[hc fb']| |]; [|done|done]. cbn.
  destruct (admin_of _ _) as [admin| |]; done.
Qed.

Lemma start_up_decisions w :
  start_up w = match decisions with
               | Ok (fallback, has_cache, admin) =>
                   (start_admin admin;; h ← decide_ (handler_of fallback has_cache);
                    let plan := finished admin h in start_dns (pl_dns plan);; mret plan) w
               | Err e => (Err (PlanError e), w)
               | Panic p => (Panic p, w)
               end.
Proof.
  unfold Lifecycle.start_up, decisions, handler_of. cbn zeta. rewrite decide_bind.
  destruct (make_fallback _ _ _ _ _) as [fb| |]; [|done|done]. cbn [mbind outcome_bind]. rewrite decide_bind.
  destruct (cache_ttl _ _ _) as [ttl| |]; [|done|done]. cbn [mbind outcome_bind]. rewrite decide_bind.
  destruct (with_caching _ _ _ _) as [[hc fb']| |]; [|done|done]. cbn [mbind outcome_bind]. rewrite decide_bind.
  by destruct (admin_of _ _).
Qed.

Lemma start_up_ok w plan w' :
  start_up w = (Ok plan, w') →
  plan_of = Ok plan ∧ ∃ w1, start_admin (pl_admin plan) w = (Ok (), w1) ∧ start_dns (pl_dns plan) w1 = (Ok (), w').
Proof.
  rewrite start_up_decisions, plan_of_decisions.
  destruct decisions as [[[fb hc] admin]| |]; [|done|done]. cbn [mbind outcome_bind fst snd].
  intros ([] & w1 & Ha & Hh)%io_bind_ok. rewrite decide_bind in Hh.
  destruct (handler_of fb hc) as [h| |]; [|done|done]. cbn zeta in Hh.
  apply io_bind_ok in Hh as ([] & w2 & Hd & [= <- <-]). split; [done|]. by exists w1.
Qed.

(** What a portal that has started holds besides what the host had. *)
Definition planned (plan : Plan) (e : endpoint) : Prop :=
  admin_endpoint <$> pl_admin plan = Some e ∨ e ∈ (DnsServer ∘ Dns.BindAddr <$> pl_dns plan).

Lemma start_up_grows w plan w' : start_up w = (Ok plan, w') → grows (planned plan) w w'.
Proof.
  intros (_ & w1 & [Ha _]%start_admin_ok & (Hd & _)%start_dns_ok)%start_up_ok.
  eapply grows_trans; eapply grows_weaken; [|exact Ha| |exact Hd]; intros e He; [by left|by right].
Qed.

(** ** Properties *)

(** C16: Starting implements the plan: a portal that has started has decided
    exactly what [Run_plan] decides, its admin API listens on a socket of mode 0600,
    every DNS server listens, and it holds nothing else that it did not hold before;
    when [Run_plan] is an error the portal does not start. *)
Theorem start_up_implements_plan w :
  match start_up w with
  | (Ok plan, w') =>
      plan_of = Ok plan ∧
      (∀ p, pl_admin plan = Some (UnixSocket p) → sockets w' !! p = Some socket_mode ∧ AdminUnix p ∈ listening w') ∧
      Forall (λ d, DnsServer (Dns.BindAddr d) ∈ listening w') (pl_dns plan) ∧
      (∀ e, e ∈ listening w' → e ∈ listening w ∨ planned plan e)
  | (Err _, _) | (Panic _, _) => True
  end ∧ (∀ e, plan_of = Err e → is_ok (start_up w).1 = false).
Proof.
  split.
  - destruct (start_up w) as [[plan|e|p] w'] eqn:E; [|done..].
    pose proof (start_up_grows _ _ _ E) as (_ & Hg & _).
    apply start_up_ok in E as (Hp & w1 & (_ & Ha)%start_admin_ok & ((Hk & _) & Hs & Hd)%start_dns_ok).
    split_and!; try done. intros p [H1 H2]%Ha. rewrite Hs. split; [done|by apply Hk].
  - intros e He. destruct (start_up w) as [[plan|e'|p] w'] eqn:E; [|done|done].
    apply start_up_ok in E as [E _]. congruence.
Qed.
(** C17: A clean shutdown gives everything back: [Run] returns without an error only
    when its context ends, and then nothing it opened still listens and the admin
    socket's file is gone, whatever errors the calls report and however the goroutines
    of the DNS servers, which the end of the context wakes too, run in between. [Run]'s
    own calls are in order: the admin API first, then the DNS servers, then the
    proxies; besides them only these goroutines act, each on a DNS server of the plan. *)
Theorem shutdown_releases_everything background e w w' :
  Run background e w = (Ok (), w') →
  e = ContextDone ∧ ∃ plan w1 tr, start_up w = (Ok plan, w1) ∧
    (∀ ep, ep ∈ listening w' → ep ∈ listening w) ∧
    (∀ p, pl_admin plan = Some (UnixSocket p) → sockets w' !! p = None) ∧
    trace w' = trace w1 ++ [ListenAndServe (pl_addr plan); ListenAndServeTLS (pl_httpsAddr plan)] ++ tr ∧
    own_calls tr = shutdown_actions plan ∧
    ∀ a, a ∈ tr → a ∈ shutdown_actions plan ∨ ∃ d, a = DNSContextDone (Dns.BindAddr d) ∧ d ∈ pl_dns plan.
Proof.
  intros (plan & w1 & Hs & Hr)%io_bind_ok.
  assert (e = ContextDone) as ->.
  { destruct e; [| |done]; unfold serve_until in Hr; by rewrite !call__bind in Hr. }
  split; [done|]. destruct (shutdown_run works listen_mode background plan w1) as (tr & Hrun & Ho & Htr).
  exists plan, w1, tr. split; [done|]. rewrite Hrun, afters_app in Hr.
  set (w2 := afters works listen_mode [_; _] w1) in Hr. apply (f_equal snd) in Hr. cbn [snd] in Hr. subst w'.
  assert (Hshut : ∀ a, a ∈ shutdown_actions plan → adds a = None ∧ ∀ p, a ≠ ListenUnix p).
  { intros a. unfold shutdown_actions. rewrite !elem_of_app, list_elem_of_fmap.
    intros [Ha|[(d & -> & _)|Ha]]; [|done|].
    - destruct (pl_admin plan) as [[]|]; cbn in Ha; rewrite ?elem_of_cons, ?elem_of_nil in Ha; naive_solver.
    - rewrite !elem_of_cons, elem_of_nil in Ha. naive_solver. }
  assert (Hnone : ∀ a, a ∈ tr → adds a = None ∧ ∀ p, a ≠ ListenUnix p) by (intros a [?|(d & -> & _)]%Htr; auto).
  assert (Hin_tr : ∀ a, a ∈ shutdown_actions plan → a ∈ tr).
  { intros a. rewrite <- Ho. unfold own_calls. by intros [_ ?]%list_elem_of_filter. }
  split_and!; [| | |done|done].
  - intros ep Hin. destruct (afters_listening _ _ _ _ _ Hin) as [Hin2|(a & Ha & Ha')].
    2:{ by rewrite (proj1 (Hnone _ Ha)) in Ha'. }
    assert (Hgone : ∀ a, a ∈ shutdown_actions plan → removes a ≠ Some ep).
    { intros a Ha Hrm. revert Hin. apply afters_removed; [intros b Hb; by apply Hnone|exists a; auto]. }
    apply after_listening in Hin2 as [Hin2|[[= <-] _]].
    2:{ exfalso. apply (Hgone (ShutdownHTTPS (pl_httpsAddr plan))); [|done]. unfold shutdown_actions. set_solver. }
    apply after_listening in Hin2 as [Hin2|[[= <-] _]].
    2:{ exfalso. apply (Hgone (ShutdownHTTP (pl_addr plan))); [|done]. unfold shutdown_actions. set_solver. }
    destruct (start_up_grows _ _ _ Hs) as (_ & Hg & _). apply Hg in Hin2 as [|[Ha|Hd]]; [done| |]; exfalso.
    + destruct (pl_admin plan) as [l|] eqn:El; [|done]. injection Ha as <-.
      apply (Hgone (ShutdownAdmin l)); [|done]. unfold shutdown_actions. rewrite El. destruct l; set_solver.
    + apply list_elem_of_fmap in Hd as (d & -> & Hd). apply (Hgone (ShutdownDNS (Dns.BindAddr d))); [|done].
      unfold shutdown_actions. apply elem_of_app. right. apply elem_of_app. left.
      apply list_elem_of_fmap. by exists d.
  - intros p Hp. apply afters_no_socket.
    + intros Hin. by destruct (proj2 (Hnone _ Hin) p).
    + apply Hin_tr. unfold shutdown_actions. rewrite Hp. cbn. set_solver.
  - rewrite afters_trace. subst w2. rewrite afters_trace. by rewrite <- app_assoc.
Qed.

(** What fails after the admin API runs leaves it running: when the rules
    cannot be loaded [Run] returns the error with the admin socket still served and
    its file still there; when a proxy's server fails it returns the error with the
    admin API and the DNS servers still listening. The goroutines of the DNS servers
    still close these when the context ends; nothing of the program stops the admin API. *)
Theorem failed_run_leaves_servers background e w :
  (∀ p le w1, plan_of = Err (LoadRulesFailed le) →
     admin_of Getenv (pod_map Getenv cfg) = Ok (Some (UnixSocket p)) →
     start_admin (Some (UnixSocket p)) w = (Ok (), w1) →
     Run background e w = (Err (PlanError (LoadRulesFailed le)), w1) ∧
     AdminUnix p ∈ listening w1 ∧ sockets w1 !! p = Some socket_mode) ∧
  (∀ plan w1, start_up w = (Ok plan, w1) → e ≠ ContextDone →
     ∃ err w', Run background e w = (Err err, w') ∧ (∀ ep, ep ∈ listening w1 → ep ∈ listening w') ∧
       sockets w' = sockets w1).
Proof.
  split.
  - intros p le w1 Hp Ha Hs.
    assert (Hd : ∃ fb hc, decisions = Ok (fb, hc, Some (UnixSocket p)) ∧
      handler_of fb hc = Err (LoadRulesFailed le)).
    { rewrite plan_of_decisions in Hp. unfold decisions in *. rewrite Ha in *. cbn zeta in *.
      destruct (make_fallback _ _ _ _ _) as [fb|x|] eqn:E1; cbn [mbind outcome_bind] in *; [| |done].
      2:{ exfalso. injection Hp as ->. unfold make_fallback in E1. repeat case_match; done. }
      destruct (cache_ttl _ _ _) as [ttl|x|] eqn:E2; cbn [mbind outcome_bind] in *; [| |done].
      2:{ exfalso. injection Hp as ->. unfold cache_ttl in E2. repeat case_match; done. }
      destruct (with_caching _ _ _ _) as [[hc fb']|x|] eqn:E3; cbn [mbind outcome_bind] in *; [| |done].
      2:{ exfalso. injection Hp as ->. unfold with_caching in E3. repeat case_match; done. }
      exists (setup cfg fb'), hc. split; [done|]. cbn [fst snd] in Hp.
      destruct (handler_of _ _) as [h|x|]; [done| |done]. by injection Hp as ->. }
    destruct Hd as (fb & hc & Hd & Hh). split; [|by apply start_admin_ok in Hs as [_ Hs]; destruct (Hs p eq_refl)].
    unfold Lifecycle.Run. unfold mbind at 1, io_bind at 1. rewrite start_up_decisions, Hd.
    rewrite (io_bind_run _ _ _ _ _ Hs), decide_bind. by rewrite Hh.
  - intros plan w1 Hs He. unfold Lifecycle.Run. rewrite (io_bind_run _ _ _ _ _ Hs).
    unfold serve_until. rewrite !call__bind.
    assert (Hkeep : ∀ ep, ep ∈ listening w1 → ep ∈ listening (after works listen_mode
      (ListenAndServeTLS (pl_httpsAddr plan)) (after works listen_mode (ListenAndServe (pl_addr plan)) w1))).
    { intros ep Hin. by repeat apply after_kept. }
    assert (Hsock : sockets (after works listen_mode
      (ListenAndServeTLS (pl_httpsAddr plan)) (after works listen_mode (ListenAndServe (pl_addr plan)) w1)) = sockets w1).
    { unfold after, recorded, effect. cbn. by repeat case_match. }
    destruct e; [by eauto..|done].
Qed.

End RunFacts.

(** ** The properties at concrete inputs *)

Definition quiet_host : portal_host := mkPortalHost [] ∅ [].
Definition all_works : list action → action → bool := λ _ _, true.
(** The mode of the socket cannot be set. *)
Definition no_chmod : list action → action → bool :=
  λ _ a, match a with ChmodSocket _ _ => false | _ => true end.

Definition demo_rules (text : bytes) : list walk_entry := [WalkFile #"/rules/a.yaml" (Some text)].
Definition demo_start (works : list action → action → bool) (text : bytes) : outcome life_err Plan * portal_host :=
  @start_up works 509 ascii_unicode (demo_env demo_vars) demo_unmarshal demo_parse (λ _, None) (λ _, true) []
    demo_config (demo_rules text) quiet_host.
(** The goroutine of the DNS server runs before anything else. *)
Definition demo_background : list action → list gostring := λ _, [ #"10.0.0.1:53"].
Definition demo_life (text : bytes) (e : wakeup) : outcome life_err () * portal_host :=
  @Run all_works 509 ascii_unicode (demo_env demo_vars) demo_unmarshal demo_parse (λ _, None) (λ _, true) []
    demo_background demo_config (demo_rules text) e quiet_host.

(** What listens while the portal serves, and what its shutdown does. *)
Example demo_serving : listening (demo_start all_works #"api.example.com").2
  = [DnsServer #"10.0.0.1:53"; AdminUnix DefaultAdminSocketPath].
Proof. vm_compute. reflexivity. Qed.

Example demo_shutdown : skipn 8 (trace (demo_life #"api.example.com" ContextDone).2)
  = [DNSContextDone #"10.0.0.1:53"; ShutdownAdmin (UnixSocket DefaultAdminSocketPath);
     CloseListener DefaultAdminSocketPath; RemoveSocket DefaultAdminSocketPath; ShutdownDNS #"10.0.0.1:53";
     ShutdownHTTP #"10.0.0.1:8080"; ShutdownHTTPS #"10.0.0.1:8443"].
Proof. vm_compute. reflexivity. Qed.

Lemma admin_socket_fail_closed_witness :
  AdminUnix DefaultAdminSocketPath ∉ listening (demo_start no_chmod #"api.example.com").2 ∧
  AdminUnix #"/run/p.sock" ∉ listening (start_admin no_chmod 509 (Some (UnixSocket #"/run/p.sock")) quiet_host).2.
Proof.
  split; [vm_compute; intros Hin; inversion Hin|].
  destruct (start_admin no_chmod 509 (Some (UnixSocket #"/run/p.sock")) quiet_host) as [r w'] eqn:E.
  pose proof (admin_socket_fail_closed no_chmod 509 #"/run/p.sock" quiet_host r w') as H.
  destruct r as [[]|e|pn].
  - apply (f_equal fst) in E. vm_compute in E. discriminate E.
  - apply H; [intros Hin; inversion Hin|exact E].
  - apply (f_equal fst) in E. vm_compute in E. discriminate E.
Defined.

Lemma start_up_implements_plan_witness :
  ∃ plan, (demo_start all_works #"api.example.com").1 = Ok plan ∧
    @Run_plan ascii_unicode (demo_env demo_vars) demo_unmarshal demo_parse (λ _, None) (λ _, true) [] demo_config
      (demo_rules #"api.example.com") = Ok plan.
Proof.
  destruct (@start_up_implements_plan ascii_unicode all_works 509 (demo_env demo_vars) demo_unmarshal demo_parse
    (λ _, None) (λ _, true) [] demo_config (demo_rules #"api.example.com") quiet_host) as [H _].
  assert (Hok : is_ok (demo_start all_works #"api.example.com").1 = true) by (vm_compute; reflexivity).
  unfold demo_start in *. destruct (start_up _ _ _ _ _ _ _ _ _ _ quiet_host) as [[plan|e|p] w']; [|discriminate..].
  exists plan. split; [reflexivity|apply H].
Defined.

Lemma shutdown_releases_everything_witness :
  ∃ w', demo_life #"api.example.com" ContextDone = (Ok (), w') ∧
    AdminUnix DefaultAdminSocketPath ∉ listening w'.
Proof.
  destruct (demo_life #"api.example.com" ContextDone) as [r w'] eqn:E.
  assert (Hr : is_ok (demo_life #"api.example.com" ContextDone).1 = true) by (vm_compute; reflexivity).
  rewrite E in Hr. destruct r as [[]|e|p]; [|discriminate..]. exists w'. split; [reflexivity|].
  destruct (@shutdown_releases_everything ascii_unicode all_works 509 (demo_env demo_vars) demo_unmarshal demo_parse
    (λ _, None) (λ _, true) [] demo_config (demo_rules #"api.example.com") demo_background ContextDone quiet_host w' E)
    as [_ (plan & w1 & tr & _ & Hgone & _)].
  intros Hin%Hgone. inversion Hin.
Defined.

Lemma failed_run_leaves_servers_witness :
  AdminUnix DefaultAdminSocketPath ∈ listening (demo_life #"x: y" ContextDone).2.
Proof.
  destruct (@failed_run_leaves_servers ascii_unicode all_works 509 (demo_env demo_vars) demo_unmarshal demo_parse
    (λ _, None) (λ _, true) [] demo_config (demo_rules #"x: y") demo_background ContextDone quiet_host) as [H _].
  destruct (H DefaultAdminSocketPath (ErrRules [ErrYAML #"/rules/a.yaml"])
    (start_admin all_works 509 (Some (UnixSocket DefaultAdminSocketPath)) quiet_host).2) as (Hr & Hin & _);
    [vm_compute; reflexivity|vm_compute; reflexivity|vm_compute; reflexivity|].
  unfold demo_life. rewrite Hr. exact Hin.
Defined.

Lemma tcp_admin_fails_silently_witness :
  ∃ w', start_admin (λ _ _, false) 509 (Some (TcpAddr #"127.0.0.1:9")) quiet_host = (Ok (), w') ∧
    AdminTcp #"127.0.0.1:9" ∉ listening w'.
Proof.
  apply (tcp_admin_fails_silently (λ _ _, false) 509 #"127.0.0.1:9" quiet_host); [|reflexivity].
  intros Hin. inversion Hin.
Defined.

Lemma stale_socket_replaced_witness :
  ∃ w', start_admin all_works 509 (Some (UnixSocket #"/run/p.sock"))
      (mkPortalHost [] {[ #"/run/p.sock" := 384%Z ]} []) = (Ok (), w') ∧
    sockets w' !! #"/run/p.sock" = Some socket_mode ∧ AdminUnix #"/run/p.sock" ∈ listening w'.
Proof.
  apply (stale_socket_replaced all_works 509 #"/run/p.sock" _ 384); [reflexivity|vm_compute; reflexivity].
Defined.
