(* ===== verification/Pki.v ===== *)
(** * Certificates: the CA and the certificates of hosts

    The certificate authority the init programs create
    (cmd/portal-nri-plugin/init.go, cmd/init-service-portals/main.go), and what
    the proxy does with it (pkg/proxy/proxy.go: [NewHTTPProxy], [signCert]).
    crypto/x509, RSA and PEM are the class [X509]; its laws are what their
    documentation says, and [chain_verifies] is what a TLS client checks. *)

From S2P Require Import Prelude GoStrings GoNet GoOS.

(** ** X.509 *)

(** Bits of [x509.KeyUsage]. *)
Definition KeyUsageDigitalSignature : Z := 1.
Definition KeyUsageKeyEncipherment : Z := 4.
Definition KeyUsageCertSign : Z := 32.
Definition KeyUsageCRLSign : Z := 64.
Inductive ExtKeyUsage := ExtKeyUsageServerAuth | ExtKeyUsageOther (n : Z).
#[global] Instance ext_key_usage_eq_dec : EqDecision ExtKeyUsage.
Proof. solve_decision. Defined.

Record Name := mkName { Organization : list gostring; CommonName : gostring }.
#[global] Instance name_eq_dec : EqDecision Name.
Proof. solve_decision. Defined.

(** The fields the sources set of [x509.Certificate]; times are in seconds. *)
Record Certificate := mkCertificate {
  SerialNumber : Z;
  Subject : Name;
  NotBefore : Z;
  NotAfter : Z;
  KeyUsage : Z;
  ExtKeyUsages : list ExtKeyUsage;
  BasicConstraintsValid : bool;
  IsCA : bool;
  DNSNames : list gostring;
  IPAddresses : list IP;
}.

#[global] Instance certificate_eq_dec : EqDecision Certificate.
Proof. intros c1 c2. unfold Decision. repeat decide equality. Defined.

(** A certificate as it is parsed: its fields, its key and its issuer. *)
Record parsed {Pub : Type} := mkParsed { p_cert : Certificate; p_key : Pub; p_issuer : Name }.
Arguments parsed : clear implicits.
Arguments mkParsed {Pub}.

Class X509 (Priv Pub : Type) := {
  PublicKey : Priv → Pub;
  CreateCertificate : Certificate → Certificate → Pub → Priv → option bytes;
  ParseCertificate : bytes → option (parsed Pub);
  CheckSignature : Pub → bytes → bool;
  MarshalPKCS8PrivateKey : Priv → option bytes;
  pem_EncodeToMemory : gostring → bytes → bytes;
  X509KeyPair : bytes → bytes → option (bytes * Priv);
}.

Class X509Laws (Priv Pub : Type) `{X509 Priv Pub} := {
  parse_created template parent pub priv der :
    CreateCertificate template parent pub priv = Some der →
    ParseCertificate der = Some (mkParsed template pub (Subject parent)) ∧
    CheckSignature (PublicKey priv) der = true;
  key_pair_pem der c priv key :
    ParseCertificate der = Some c → p_key c = PublicKey priv → MarshalPKCS8PrivateKey priv = Some key →
    X509KeyPair (pem_EncodeToMemory #"CERTIFICATE" der) (pem_EncodeToMemory #"PRIVATE KEY" key) = Some (der, priv);
}.

(** What a client that trusts [root] checks of the certificate [leaf] of a
    server it calls [host], at time [t]. *)
Record accepts {Pub} (root leaf : parsed Pub) (host : gostring) (t : Z) : Prop := {
  acc_issuer : p_issuer leaf = Subject (p_cert root);
  acc_ca : BasicConstraintsValid (p_cert root) = true ∧ IsCA (p_cert root) = true ∧
           Z.testbit (KeyUsage (p_cert root)) 5 = true;
  acc_not_ca : IsCA (p_cert leaf) = false;
  acc_server : ExtKeyUsageServerAuth ∈ ExtKeyUsages (p_cert leaf);
  acc_root_time : (NotBefore (p_cert root) ≤ t ≤ NotAfter (p_cert root))%Z;
  acc_leaf_time : (NotBefore (p_cert leaf) ≤ t ≤ NotAfter (p_cert leaf))%Z;
  acc_host : match ParseIP host with
             | Some ip => ip ∈ IPAddresses (p_cert leaf)
             | None => host ∈ DNSNames (p_cert leaf)
             end;
}.

Definition chain_verifies {Priv Pub : Type} `{X509 Priv Pub} (root leaf : bytes) (host : gostring) (t : Z) : Prop :=
  ∃ r l, ParseCertificate root = Some r ∧ ParseCertificate leaf = Some l ∧
    CheckSignature (p_key r) leaf = true ∧ accepts r l host t.

Definition hour : Z := 3600.

Section Pki.
Context {Priv Pub : Type} `{X509 Priv Pub}.

(** What one call of the random sources gives. *)
Record draw := mkDraw { GenerateKey : option Priv; rand_Int : option Z }.

(** ** The CA *)

Inductive ca_err := CAKeyFailed | CASerialFailed | CACreateFailed | CAMarshalFailed.

Definition ca_template (serial now : Z) : Certificate :=
  mkCertificate serial (mkName [ #"Service Portal Dynamic CA"] #"Service Portal Root CA")
    (now - 24 * hour) (now + 10 * 365 * 24 * hour)
    (Z.lor (Z.lor KeyUsageCertSign KeyUsageCRLSign) KeyUsageDigitalSignature) [] true true [] [].

(** The certificate and the key, in PEM. *)
Definition generateNodeCACertKey (d : draw) (now : Z) : outcome ca_err (bytes * bytes) :=
  priv ← (match GenerateKey d with Some p => Ok p | None => Err CAKeyFailed end);
  serial ← (match rand_Int d with Some n => Ok n | None => Err CASerialFailed end);
  let tmpl := ca_template serial now in
  der ← (match CreateCertificate tmpl tmpl (PublicKey priv) priv with Some b => Ok b | None => Err CACreateFailed end);
  keyBytes ← (match MarshalPKCS8PrivateKey priv with Some b => Ok b | None => Err CAMarshalFailed end);
  Ok (pem_EncodeToMemory #"CERTIFICATE" der, pem_EncodeToMemory #"PRIVATE KEY" keyBytes).

(** ** The proxy's side *)

Inductive proxy_err := ReadCACert | ReadCAKey | LoadKeyPair | ParseCACert.

(** [caCert] and [caKey] of the proxy: both, or neither when no path is given. *)
Definition load_ca (fate : fs_op → option fault) (caCertPath caKeyPath : gostring)
    : io fs proxy_err (option (bytes * parsed Pub * Priv)) :=
  if bool_decide (caCertPath = []) || bool_decide (caKeyPath = []) then mret None else
  certPEM ← map_err (λ _, ReadCACert) (ReadFile fate (Clean caCertPath));
  keyPEM ← map_err (λ _, ReadCAKey) (ReadFile fate (Clean caKeyPath));
  match X509KeyPair certPEM keyPEM with
  | None => throw LoadKeyPair
  | Some (der, priv) =>
      match ParseCertificate der with
      | None => throw ParseCACert
      | Some c => mret (Some (der, c, priv))
      end
  end.

Inductive sign_err := SignSerialFailed | SignKeyFailed | SignCreateFailed | SignMarshalFailed | SignPairFailed.

Definition leaf_template (serial now : Z) (host : gostring) : Certificate :=
  mkCertificate serial (mkName [] host) (now - hour) (now + hour * 24 * 365)
    (Z.lor KeyUsageKeyEncipherment KeyUsageDigitalSignature) [ExtKeyUsageServerAuth] true false
    (match ParseIP host with Some _ => [] | None => [host] end)
    (match ParseIP host with Some ip => [ip] | None => [] end).

(** Without a CA, signing with the nil key is an error. *)
Definition signCert (ca : option (parsed Pub * Priv)) (d : draw) (now : Z) (host : gostring)
    : outcome sign_err (bytes * Priv) :=
  serial ← (match rand_Int d with Some n => Ok n | None => Err SignSerialFailed end);
  priv ← (match GenerateKey d with Some p => Ok p | None => Err SignKeyFailed end);
  derBytes ← (match '(caCert, caKey) ← ca;
                    CreateCertificate (leaf_template serial now host) (p_cert caCert) (PublicKey priv) caKey with
              | Some b => Ok b | None => Err SignCreateFailed end);
  keyBytes ← (match MarshalPKCS8PrivateKey priv with Some b => Ok b | None => Err SignMarshalFailed end);
  match X509KeyPair (pem_EncodeToMemory #"CERTIFICATE" derBytes) (pem_EncodeToMemory #"PRIVATE KEY" keyBytes) with
  | Some cert => Ok cert
  | None => Err SignPairFailed
  end.
End Pki.
Arguments draw : clear implicits.
Arguments mkDraw {Priv}.
