(* ===== verification/NodeInit.v ===== *)
(** * Initialising a node (cmd/portal-nri-plugin/init.go, cmd/init-service-portals/main.go)

    The init programs prepare the directory of the admin socket and create the
    certificate authority of the node. *)

From S2P Require Import Prelude GoStrings GoNet GoOS Pki.

(** File modes, in octal in the source. *)
Definition o600 : Z := 384.
Definition o644 : Z := 420.
Definition o750 : Z := 488.
Definition o755 : Z := 493.

Record nodeInitConfig := mkNodeInitConfig {
  caDir : gostring;
  socketDir : gostring;
  proxyUID : Z;
  proxyGID : Z;
}.

Inductive init_err :=
  | CreateSocketDir (dir : gostring) (e : os_err)
  | ChmodSocketDir (dir : gostring) (e : os_err)
  | ChownSocketDir (dir : gostring) (e : os_err)
  | CreateCADir (dir : gostring) (e : os_err)
  | GenerateCA (e : ca_err)
  | WriteCACert (e : os_err)
  | WriteCAKey (e : os_err)
  | ChownCADir (dir : gostring) (e : os_err)
  | ChownCAKey (e : os_err).

Section Init.
Context {Priv Pub : Type} `{X509 Priv Pub}.
Context (fate : fs_op → option fault) (umask : Z) (me : Z * Z) (d : draw Priv) (now : Z).

Abbreviation act := (io fs init_err).

Definition chowns (cfg : nodeInitConfig) : bool := (0 <=? proxyUID cfg)%Z && (0 <=? proxyGID cfg)%Z.

(** A file that is not there is not an error. *)
Definition ignore_missing (e : os_err → init_err) (m : io fs os_err ()) : act () :=
  r ← attempt m;
  match r with
  | Err err => if is_not_exist err then mret () else throw (e err)
  | _ => mret ()
  end.

Definition init_sockets (cfg : nodeInitConfig) : act () :=
  if bool_decide (socketDir cfg = []) then mret () else
  map_err (CreateSocketDir (socketDir cfg)) (MkdirAll fate umask me (Clean (socketDir cfg)) o750);;
  map_err (ChmodSocketDir (socketDir cfg)) (Chmod fate (Clean (socketDir cfg)) o750);;
  if chowns cfg
  then map_err (ChownSocketDir (socketDir cfg)) (Chown fate (Clean (socketDir cfg)) (proxyUID cfg) (proxyGID cfg))
  else mret ().

(** [os.IsNotExist] of the error of [os.Stat]. *)
Definition missing (p : path) : act bool :=
  r ← attempt (Stat fate p);
  mret (match r with Err e => is_not_exist e | _ => false end).

Definition certPath (dir : gostring) : path := Join_path dir #"tls.crt".
Definition keyPath (dir : gostring) : path := Join_path dir #"tls.key".

Definition create_ca (dir : gostring) : act () :=
  map_err (CreateCADir dir) (MkdirAll fate umask me (Clean dir) o755);;
  '(certPEM, keyPEM) ← lift (outcome_map_err GenerateCA (generateNodeCACertKey d now));
  map_err WriteCACert (WriteFile fate umask me (certPath dir) certPEM o644);;
  map_err WriteCAKey (WriteFile fate umask me (keyPath dir) keyPEM o600).

Definition init_ca (cfg : nodeInitConfig) : act () :=
  let dir := caDir cfg in
  if bool_decide (dir = []) then mret () else
  cErr ← missing (certPath dir);
  kErr ← missing (keyPath dir);
  (if (cErr : bool) || kErr then create_ca dir else mret ());;
  if chowns cfg then
    ignore_missing (ChownCADir dir) (Chown fate (Clean dir) (proxyUID cfg) (proxyGID cfg));;
    ignore_missing ChownCAKey (Chown fate (keyPath dir) (proxyUID cfg) (proxyGID cfg))
  else mret ().

Definition initNode (cfg : nodeInitConfig) : act () := init_sockets cfg;; init_ca cfg.

(** ** cmd/init-service-portals *)

Inductive generate_err :=
  | GenerateFailed (e : ca_err)
  | CreateCertDir (e : os_err)
  | WritePublicCert (e : os_err)
  | CreateKeyDir (e : os_err)
  | WritePrivateCert (e : os_err)
  | WriteKey (e : os_err)
  | ChownKeyDir (e : os_err)
  | ChownKey (e : os_err).

(** The CA is generated anew whatever is there. *)
Definition generateCA (certDir keyDir : gostring) (chownUID chownGID : Z) : io fs generate_err () :=
  '(certPEM, keyPEM) ← lift (outcome_map_err GenerateFailed (generateNodeCACertKey d now));
  (if bool_decide (certDir = []) then mret () else
   map_err CreateCertDir (MkdirAll fate umask me (Clean certDir) o755);;
   map_err WritePublicCert (WriteFile fate umask me (certPath certDir) certPEM o644));;
  (if bool_decide (keyDir = []) then mret () else
   map_err CreateKeyDir (MkdirAll fate umask me (Clean keyDir) o755);;
   map_err WritePrivateCert (WriteFile fate umask me (certPath keyDir) certPEM o644);;
   map_err WriteKey (WriteFile fate umask me (keyPath keyDir) keyPEM o600);;
   if negb (chownUID =? -1)%Z || negb (chownGID =? -1)%Z then
     map_err ChownKeyDir (Chown fate (Clean keyDir) chownUID chownGID);;
     map_err ChownKey (Chown fate (keyPath keyDir) chownUID chownGID)
   else mret ()).
End Init.

(** ** Lemmas *)

Lemma plain_crt : plain_name #"tls.crt".
Proof. split; [apply (bool_decide_unpack _); vm_compute; exact I|done]. Qed.
Lemma plain_key : plain_name #"tls.key".
Proof. split; [apply (bool_decide_unpack _); vm_compute; exact I|done]. Qed.

Lemma paths_distinct dir : dir ≠ [] →
  certPath dir ≠ keyPath dir ∧ certPath dir ≠ Clean dir ∧ keyPath dir ≠ Clean dir.
Proof.
  intros Hd. split_and!; [|by apply Join_path_ne, plain_crt|by apply Join_path_ne, plain_key].
  intros E. by apply Join_path_inj in E; [|done|apply plain_crt|apply plain_key].
Qed.

Lemma with_owner_idem uid gid n : with_owner uid gid (with_owner uid gid n) = with_owner uid gid n.
Proof. unfold with_owner. cbn. by destruct (uid =? -1)%Z, (gid =? -1)%Z. Qed.

Section Lemmas.
Context {Priv Pub : Type} `{X509 Priv Pub}.
Context (fate : fs_op → option fault) (umask : Z) (me : Z * Z) (d : draw Priv) (now : Z).

Abbreviation create_ca_here := (create_ca fate umask me d now).
Abbreviation init_ca_here := (init_ca fate umask me d now).

(** What creating the CA leaves. *)
Lemma create_ca_ok dir s s' :
  create_ca_here dir s = (Ok (), s') →
  ∃ certPEM keyPEM s1, generateNodeCACertKey d now = Ok (certPEM, keyPEM) ∧
    MkdirAll fate umask me (Clean dir) o755 s = (Ok (), s1) ∧
    from_option n_dir false (s1 !! certPath dir) = false ∧
    from_option n_dir false (put_data umask me (certPath dir) certPEM o644 s1 !! keyPath dir) = false ∧
    s' = put_data umask me (keyPath dir) keyPEM o600 (put_data umask me (certPath dir) certPEM o644 s1).
Proof.
  intros ([] & s1 & Hm%map_err_ok & ([cert key] & s2 & Hg & ([] & s3 & Hc%map_err_ok & Hk%map_err_ok)%io_bind_ok)%io_bind_ok)%io_bind_ok.
  apply WriteFile_ok in Hc as [-> Hc], Hk as [-> Hk].
  unfold lift in Hg. destruct (generateNodeCACertKey d now) as [[c k]| |]; try done. injection Hg as -> -> ->.
  by exists cert, key, s2.
Qed.

Lemma missing_ok p s b s' :
  missing fate p s = (Ok b, s') → s' = s ∧ (fate (OpStat p) = None → b = bool_decide (s !! p = None)).
Proof.
  unfold missing, attempt, Stat, guarded, mbind, io_bind. destruct (fate _); [by intros [= <- <-]|].
  destruct (s !! p); by intros [= <- <-].
Qed.

(** Changing owners keeps everything else. *)
Definition same_but_owner (s s' : fs) : Prop :=
  ∀ p, (λ n, (n_dir n, n_data n, n_mode n)) <$> s' !! p = (λ n, (n_dir n, n_data n, n_mode n)) <$> s !! p.

Lemma ignore_missing_chown e p uid gid s s' :
  ignore_missing e (Chown fate p uid gid) s = (Ok (), s') →
  s' = match s !! p with Some n => <[p := with_owner uid gid n]> s | None => s end.
Proof.
  unfold ignore_missing, attempt, Chown, change, guarded, mbind, io_bind. destruct (fate _); [done|].
  destruct (s !! p); by intros [= <-].
Qed.

Lemma owner_insert p uid gid s :
  same_but_owner s match s !! p with Some n => <[p := with_owner uid gid n]> s | None => s end.
Proof.
  intros q. destruct (s !! p) as [n|] eqn:E; [|done]. destruct (decide (p = q)) as [<-|Hne].
  - by rewrite lookup_insert_eq, E.
  - by rewrite lookup_insert_ne.
Qed.

(** The two ways through [init_ca]. *)
Lemma init_ca_ok cfg s s' :
  caDir cfg ≠ [] → init_ca_here cfg s = (Ok (), s') →
  ∃ (cErr kErr : bool) s1,
    (fate (OpStat (certPath (caDir cfg))) = None → cErr = bool_decide (s !! certPath (caDir cfg) = None)) ∧
    (fate (OpStat (keyPath (caDir cfg))) = None → kErr = bool_decide (s !! keyPath (caDir cfg) = None)) ∧
    (if cErr || kErr then create_ca_here (caDir cfg) s = (Ok (), s1) else s1 = s) ∧
    s' = if chowns cfg then
           let s2 := match s1 !! Clean (caDir cfg) with
                     | Some n => <[Clean (caDir cfg) := with_owner (proxyUID cfg) (proxyGID cfg) n]> s1 | None => s1 end in
           match s2 !! keyPath (caDir cfg) with
           | Some n => <[keyPath (caDir cfg) := with_owner (proxyUID cfg) (proxyGID cfg) n]> s2 | None => s2 end
         else s1.
Proof.
  intros Hd. unfold init_ca. rewrite bool_decide_eq_false_2 by done.
  intros (cErr & ? & [-> Hc]%missing_ok & (kErr & ? & [-> Hk]%missing_ok & ([] & s1 & Hcreate & H1)%io_bind_ok)%io_bind_ok)%io_bind_ok.
  exists cErr, kErr, s1. split_and!; [done..| |].
  - destruct (cErr || kErr); [done|]. by injection Hcreate as <-.
  - destruct (chowns cfg); [|by injection H1 as <-].
    apply io_bind_ok in H1 as ([] & s2 & ->%ignore_missing_chown & ->%ignore_missing_chown). done.
Qed.
End Lemmas.

(** Lookups in the nodes a program names. *)
Lemma put_data_eq umask me p b mode s :
  put_data umask me p b mode s !! p = Some (from_option (with_data b) (mkNode false b (masked umask mode) me.1 me.2) (s !! p)).
Proof. apply lookup_insert_eq. Qed.
Lemma put_data_ne umask me p q b mode s : p ≠ q → put_data umask me p b mode s !! q = s !! q.
Proof. intros. by apply lookup_insert_ne. Qed.

Section Specs.
Context {Priv Pub : Type} `{X509 Priv Pub}.
Context (fate : fs_op → option fault) (umask : Z) (me : Z * Z) (d : draw Priv) (now : Z).

Abbreviation init_ca_here := (init_ca fate umask me d now).
Abbreviation init_sockets_here := (init_sockets fate umask me).

(** The socket directory is not one of the CA's files. *)
Definition separate (cfg : nodeInitConfig) : Prop :=
  Clean (socketDir cfg) ∉ [certPath (caDir cfg); keyPath (caDir cfg)].

(** A call on one path leaves the others alone. *)
Definition keeps (p : path) : fs → fs → Prop := λ s s', s' !! p = s !! p.
#[local] Instance keeps_reflexive p : Reflexive (keeps p).
Proof. intros s. done. Qed.
#[local] Instance keeps_transitive p : Transitive (keeps p).
Proof. intros s1 s2 s3 E1 E2. unfold keeps in *. congruence. Qed.

Lemma change_keeps op p q f : p ≠ q → io_step (keeps q) (change fate op p f).
Proof.
  intros Hp s. unfold change, guarded, keeps. destruct (fate op); [done|].
  destruct (s !! p); cbn; [|done]. by apply lookup_insert_ne.
Qed.
Lemma MkdirAll_keeps p q mode : p ≠ q → io_step (keeps q) (MkdirAll fate umask me p mode).
Proof.
  intros Hp s. unfold MkdirAll, guarded, keeps. destruct (fate _); [done|].
  destruct (s !! p); cbn; [done|]. by apply lookup_insert_ne.
Qed.

Lemma init_sockets_keeps cfg p : Clean (socketDir cfg) ≠ p → io_step (keeps p) (init_sockets_here cfg).
Proof.
  intros Hp. unfold init_sockets. apply io_step_if; [by apply io_step_ret; apply _|].
  apply io_step_bind; [apply _..| |intros _ _ _ _; apply io_step_bind; [apply _..| |intros _ _ _ _]].
  - by apply io_step_map_err, MkdirAll_keeps.
  - by apply io_step_map_err, change_keeps.
  - apply io_step_if; [by apply io_step_map_err, change_keeps|by apply io_step_ret; apply _].
Qed.

(** The CA's files after [init_ca]. *)
Lemma init_ca_files cfg s s' :
  caDir cfg ≠ [] → fate (OpStat (certPath (caDir cfg))) = None → fate (OpStat (keyPath (caDir cfg))) = None →
  init_ca_here cfg s = (Ok (), s') →
  let owner n := if chowns cfg then with_owner (proxyUID cfg) (proxyGID cfg) n else n in
  if bool_decide (s !! certPath (caDir cfg) = None) || bool_decide (s !! keyPath (caDir cfg) = None) then
    ∃ certPEM keyPEM, generateNodeCACertKey d now = Ok (certPEM, keyPEM) ∧
      from_option n_dir false (s !! certPath (caDir cfg)) = false ∧ from_option n_dir false (s !! keyPath (caDir cfg)) = false ∧
      s' !! certPath (caDir cfg)
      = Some (from_option (with_data certPEM) (mkNode false certPEM (masked umask o644) me.1 me.2) (s !! certPath (caDir cfg))) ∧
      s' !! keyPath (caDir cfg)
      = Some (owner (from_option (with_data keyPEM) (mkNode false keyPEM (masked umask o600) me.1 me.2) (s !! keyPath (caDir cfg))))
  else s' !! certPath (caDir cfg) = s !! certPath (caDir cfg) ∧ s' !! keyPath (caDir cfg) = owner <$> s !! keyPath (caDir cfg).
Proof.
  intros Hd Hfc Hfk Hi owner. destruct (paths_distinct (caDir cfg) Hd) as (Hck & Hcd & Hkd).
  destruct (init_ca_ok _ _ _ _ _ _ _ _ Hd Hi) as (cErr & kErr & s1 & Hc & Hk & H1 & Hs').
  specialize (Hc Hfc). specialize (Hk Hfk). subst cErr kErr.
  assert (Hkey : s' !! keyPath (caDir cfg) = owner <$> s1 !! keyPath (caDir cfg) ∧ s' !! certPath (caDir cfg) = s1 !! certPath (caDir cfg)).
  { rewrite Hs'. subst owner. destruct (chowns cfg).
    2:{ split; [|done]. by destruct (s1 !! _). }
    cbv zeta. set (s2 := match s1 !! Clean _ with Some _ => _ | None => _ end).
    assert (H2 : s2 !! keyPath (caDir cfg) = s1 !! keyPath (caDir cfg) ∧ s2 !! certPath (caDir cfg) = s1 !! certPath (caDir cfg)).
    { subst s2. destruct (s1 !! Clean _); [|done]. by rewrite !lookup_insert_ne by congruence. }
    destruct H2 as [H2 H2c]. destruct (s2 !! keyPath _) as [n|] eqn:E; rewrite <- H2.
    - rewrite lookup_insert_eq, lookup_insert_ne by congruence. done.
    - rewrite E. done. }
  destruct Hkey as [Hkey Hcert]. destruct (_ || _).
  - apply create_ca_ok in H1 as (certPEM & keyPEM & s0 & Hg & Hm & Hdc & Hdk & ->).
    assert (H0 : ∀ p, p ≠ Clean (caDir cfg) → s0 !! p = s !! p).
    { intros p Hp. apply MkdirAll_ok in Hm as [(? & _ & _ & ->)|[_ ->]]; [done|]. by rewrite lookup_insert_ne. }
    exists certPEM, keyPEM. rewrite put_data_ne in Hdk by done. rewrite H0 in Hdc, Hdk by done. split_and!; [done..| |].
    + rewrite Hcert, put_data_ne, put_data_eq by done. by rewrite H0.
    + rewrite Hkey, put_data_eq, put_data_ne by done. by rewrite H0.
  - subst s1. done.
Qed.
End Specs.

Lemma initNode_split {Priv Pub} `{X509 Priv Pub} fate umask me (d : draw Priv) now cfg s s' :
  initNode fate umask me d now cfg s = (Ok (), s') →
  ∃ s1, init_sockets fate umask me cfg s = (Ok (), s1) ∧ init_ca fate umask me d now cfg s1 = (Ok (), s').
Proof. intros ([] & s1 & H1 & H2)%io_bind_ok. by exists s1. Qed.

(** Neither group nor others have access to a file of mode 0600, whatever the umask. *)
Lemma masked_private umask : Z.land (masked umask o600) 63 = 0%Z.
Proof.
  unfold masked. rewrite Z.ldiff_land, (Z.land_comm o600), <- Z.land_assoc. change (Z.land o600 63) with 0%Z.
  apply Z.land_0_r.
Qed.

Lemma separate_keeps {Priv Pub} `{X509 Priv Pub} fate umask me cfg s r s' :
  separate cfg → init_sockets fate umask me cfg s = (r, s') →
  s' !! certPath (caDir cfg) = s !! certPath (caDir cfg) ∧ s' !! keyPath (caDir cfg) = s !! keyPath (caDir cfg).
Proof.
  intros Hsep Hr. unfold separate in Hsep. rewrite !elem_of_cons, elem_of_nil in Hsep.
  pose proof (init_sockets_keeps fate umask me cfg (certPath (caDir cfg)) ltac:(intros E; apply Hsep; auto) s) as Hc.
  pose proof (init_sockets_keeps fate umask me cfg (keyPath (caDir cfg)) ltac:(intros E; apply Hsep; auto) s) as Hk.
  rewrite Hr in Hc, Hk. done.
Qed.

(** ** Properties *)

(** Initialising a node creates its CA once and keeps its key private: when initNode returns without
    an error and could look for the files, then either both were there, and their contents and modes
    are as before, or they are a certificate and key just generated for each other; a key file that
    is new can be read and written by its owner only, the proxy's user when one is configured; one
    that was there before keeps its mode. *)
Theorem node_ca_files {Priv Pub} `{X509 Priv Pub} fate umask me (d : draw Priv) now cfg s s' :
  let cert := certPath (caDir cfg) in let key := keyPath (caDir cfg) in
  caDir cfg ≠ [] → separate cfg → fate (OpStat cert) = None → fate (OpStat key) = None →
  initNode fate umask me d now cfg s = (Ok (), s') →
  ∃ nc nk, s' !! cert = Some nc ∧ s' !! key = Some nk ∧
    (chowns cfg = true → n_uid nk = proxyUID cfg ∧ n_gid nk = proxyGID cfg) ∧
    match s !! key with
    | Some old => n_mode nk = n_mode old
    | None => n_mode nk = masked umask o600 ∧ Z.land (n_mode nk) 63 = 0%Z
    end ∧
    (if bool_decide (s !! cert = None) || bool_decide (s !! key = None)
     then generateNodeCACertKey d now = Ok (n_data nc, n_data nk)
     else s !! cert = Some nc ∧ n_data <$> s !! key = Some (n_data nk)).
Proof.
  intros cert key Hd Hsep Hfc Hfk (s1 & Hs & Hi)%initNode_split.
  destruct (separate_keeps _ _ _ _ _ _ _ Hsep Hs) as [Ec Ek]. apply init_ca_files in Hi; [|done..].
  fold cert key in Ec, Ek, Hi. rewrite Ec, Ek in Hi. cbv zeta in Hi.
  assert (Hown : ∀ n, let n' := if chowns cfg then with_owner (proxyUID cfg) (proxyGID cfg) n else n in
    n_mode n' = n_mode n ∧ n_data n' = n_data n ∧ (chowns cfg = true → n_uid n' = proxyUID cfg ∧ n_gid n' = proxyGID cfg)).
  { intros n. unfold chowns. destruct (0 <=? proxyUID cfg)%Z eqn:E1, (0 <=? proxyGID cfg)%Z eqn:E2; cbn; try by split_and!.
    bools. rewrite (proj2 (Z.eqb_neq _ _)), (proj2 (Z.eqb_neq (proxyGID cfg) _)) by lia. by split_and!. }
  destruct (_ || _) eqn:Emiss.
  - destruct Hi as (certPEM & keyPEM & Hg & _ & _ & Hc & Hk). do 2 eexists. split; [exact Hc|]. split; [exact Hk|].
    destruct (Hown (from_option (with_data keyPEM) (mkNode false keyPEM (masked umask o600) me.1 me.2) (s !! key))) as (Hm & Hdat & Ho).
    rewrite Hm, Hdat. split; [exact Ho|]. split.
    + destruct (s !! key); [done|]. split; [done|]. apply masked_private.
    + rewrite Hg. destruct (s !! cert), (s !! key); done.
  - destruct Hi as [Hc Hk]. bools. destruct Emiss as [Ec' Ek']. destruct (s !! cert) as [nc|], (s !! key) as [nk|]; try done.
    destruct (Hown nk) as (Hm & Hdat & Ho). do 2 eexists. split; [exact Hc|]. split; [exact Hk|]. split; [exact Ho|].
    split; [exact Hm|]. split; [done|]. cbn. by rewrite Hdat.
Qed.

(** ** Running it again *)

(** A node that already is as it is set up leaves the map as it is. *)
Definition settled (f : node → node) (p : path) (s : fs) : Prop := ∀ n, s !! p = Some n → f n = n.

Lemma change_settled fate op p f s n :
  fate op = None → s !! p = Some n → settled f p s → change fate op p f s = (Ok (), s).
Proof.
  intros Hf Hn Hs. unfold change, guarded. rewrite Hf, Hn, (Hs n Hn). by rewrite insert_id.
Qed.

Lemma ignore_missing_settled fate e p uid gid s :
  fate (OpChown p) = None → settled (with_owner uid gid) p s →
  ignore_missing e (Chown fate p uid gid) s = (Ok (), s).
Proof.
  intros Hf Hs. unfold ignore_missing, attempt, mbind, io_bind. destruct (s !! p) as [n|] eqn:E.
  - unfold Chown. by rewrite (change_settled _ _ _ _ _ n).
  - unfold Chown, change, guarded. by rewrite Hf, E.
Qed.

Lemma missing_found p s : is_Some (s !! p) → missing (λ _, None) p s = (Ok false, s).
Proof. intros [n Hn]. unfold missing, attempt, Stat, guarded, mbind, io_bind. by rewrite Hn. Qed.

(** The socket directory as it is set up. *)
Definition sockets_ready (cfg : nodeInitConfig) (s : fs) : Prop :=
  socketDir cfg ≠ [] → ∃ n, s !! Clean (socketDir cfg) = Some n ∧ n_dir n = true ∧ n_mode n = o750 ∧
    (chowns cfg = true → with_owner (proxyUID cfg) (proxyGID cfg) n = n).

Lemma sockets_ready_run cfg fate umask me s s' :
  init_sockets fate umask me cfg s = (Ok (), s') → sockets_ready cfg s'.
Proof.
  unfold init_sockets. case_bool_decide as Hd; [by intros _ Hne|]. intros Hr _.
  apply io_bind_ok in Hr as ([] & s1 & Hm%map_err_ok & ([] & s2 & Hc%map_err_ok & Ho)%io_bind_ok).
  apply change_ok in Hc as (n & Hn & ->).
  assert (Hdir : n_dir n = true).
  { apply MkdirAll_ok in Hm as [(n0 & E & Hdir & ->)|[_ ->]]; [congruence|].
    rewrite lookup_insert_eq in Hn. by injection Hn as <-. }
  destruct (chowns cfg).
  - apply map_err_ok, change_ok in Ho as (n1 & Hn1 & ->). rewrite lookup_insert_eq in Hn1. injection Hn1 as <-.
    eexists. split; [apply lookup_insert_eq|]. split_and!; [done..|]. intros _. apply with_owner_idem.
  - injection Ho as <-. eexists. split; [apply lookup_insert_eq|]. by split_and!.
Qed.

Lemma init_sockets_ready cfg umask me s :
  sockets_ready cfg s → init_sockets (λ _, None) umask me cfg s = (Ok (), s).
Proof.
  intros Hr. unfold init_sockets. case_bool_decide as Hd; [done|]. destruct (Hr Hd) as (n & Hn & Hdir & Hm & Ho).
  rewrite (io_bind_run _ _ s () s) by (unfold map_err, MkdirAll, guarded; by rewrite Hn, Hdir).
  rewrite (io_bind_run _ _ s () s).
  - destruct (chowns cfg); [|done]. unfold map_err, Chown. rewrite (change_settled _ _ _ _ _ n); [done..|].
    intros n' Hn'. rewrite Hn in Hn'. injection Hn' as <-. by apply Ho.
  - unfold map_err, Chmod. rewrite (change_settled _ _ _ _ _ n); [done..|].
    intros n' Hn'. rewrite Hn in Hn'. injection Hn' as <-. unfold with_mode. rewrite <- Hm. by destruct n.
Qed.

Lemma missing_absent (fate : fs_op → option fault) p s :
  fate (OpStat p) = None → s !! p = None → missing fate p s = (Ok true, s).
Proof. intros Hf Hn. unfold missing, attempt, Stat, guarded, mbind, io_bind. by rewrite Hf, Hn. Qed.

Section Again.
Context {Priv Pub : Type} `{X509 Priv Pub}.

(** Setting up the CA leaves other directories, but for their owner. *)
Lemma init_ca_others fate umask me (d : draw Priv) now cfg s s' p n :
  caDir cfg ≠ [] → init_ca fate umask me d now cfg s = (Ok (), s') →
  p ∉ [certPath (caDir cfg); keyPath (caDir cfg)] → s !! p = Some n →
  s' !! p = Some n ∨ chowns cfg = true ∧ s' !! p = Some (with_owner (proxyUID cfg) (proxyGID cfg) n).
Proof.
  intros Hd Hi Hp Hn. rewrite !elem_of_cons, elem_of_nil in Hp.
  destruct (init_ca_ok _ _ _ _ _ _ _ _ Hd Hi) as (cErr & kErr & s1 & _ & _ & H1 & ->).
  assert (Hn1 : s1 !! p = Some n).
  { destruct (cErr || kErr); [|by subst]. apply create_ca_ok in H1 as (c & k & s0 & _ & Hm & _ & _ & ->).
    rewrite !put_data_ne by (intros <-; apply Hp; auto).
    apply MkdirAll_ok in Hm as [(? & _ & _ & ->)|[Hnone ->]]; [done|]. rewrite lookup_insert_ne; [done|]. congruence. }
  destruct (chowns cfg); [|by left]. cbv zeta. set (s2 := match s1 !! Clean _ with Some _ => _ | None => _ end).
  assert (H2 : s2 !! p = Some n ∨ s2 !! p = Some (with_owner (proxyUID cfg) (proxyGID cfg) n)).
  { subst s2. destruct (s1 !! Clean (caDir cfg)) as [m|] eqn:E; [|by left].
    destruct (decide (Clean (caDir cfg) = p)) as [<-|Hne]; [|rewrite lookup_insert_ne by done; by left].
    right. rewrite lookup_insert_eq. congruence. }
  destruct (s2 !! keyPath _); [|tauto]. rewrite lookup_insert_ne by (intros <-; apply Hp; auto). tauto.
Qed.

Lemma init_ca_settled fate umask me (d : draw Priv) now cfg s s' :
  caDir cfg ≠ [] → init_ca fate umask me d now cfg s = (Ok (), s') → chowns cfg = true →
  settled (with_owner (proxyUID cfg) (proxyGID cfg)) (Clean (caDir cfg)) s' ∧
  settled (with_owner (proxyUID cfg) (proxyGID cfg)) (keyPath (caDir cfg)) s'.
Proof.
  intros Hd Hi Hc. destruct (paths_distinct (caDir cfg) Hd) as (_ & _ & Hkd).
  destruct (init_ca_ok _ _ _ _ _ _ _ _ Hd Hi) as (cErr & kErr & s1 & _ & _ & _ & ->). rewrite Hc. cbv zeta.
  set (s2 := match s1 !! Clean _ with Some _ => _ | None => _ end).
  assert (H2 : settled (with_owner (proxyUID cfg) (proxyGID cfg)) (Clean (caDir cfg)) s2).
  { subst s2. intros n. destruct (s1 !! Clean (caDir cfg)) as [m|] eqn:E; [|by rewrite E].
    rewrite lookup_insert_eq. intros [= <-]. apply with_owner_idem. }
  destruct (s2 !! keyPath (caDir cfg)) as [m|] eqn:E; split; intros n; rewrite ?lookup_insert_eq; try congruence.
  - rewrite lookup_insert_ne by done. apply H2.
  - intros [= <-]. apply with_owner_idem.
  - apply H2.
Qed.

Lemma init_ca_ready umask me (d : draw Priv) now cfg s :
  is_Some (s !! certPath (caDir cfg)) → is_Some (s !! keyPath (caDir cfg)) →
  (chowns cfg = true → settled (with_owner (proxyUID cfg) (proxyGID cfg)) (Clean (caDir cfg)) s ∧
     settled (with_owner (proxyUID cfg) (proxyGID cfg)) (keyPath (caDir cfg)) s) →
  init_ca (λ _, None) umask me d now cfg s = (Ok (), s).
Proof.
  intros Hc Hk Hs. unfold init_ca. case_bool_decide; [done|].
  rewrite (io_bind_run _ _ s false s) by by apply missing_found.
  rewrite (io_bind_run _ _ s false s) by by apply missing_found.
  rewrite (io_bind_run _ _ s () s) by done. destruct (chowns cfg); [|done]. destruct (Hs eq_refl) as [H1 H2].
  rewrite (io_bind_run _ _ s () s) by by apply ignore_missing_settled. by apply ignore_missing_settled.
Qed.

(** Initialising again is harmless: after a run that succeeded, running initNode again with the same
    configuration changes nothing at all, whatever keys the random source would now give: the CA
    that pods trust is not replaced when the node's init container is restarted. *)
Theorem init_idempotent fate umask me (d : draw Priv) now cfg s s' umask' me' (d' : draw Priv) now' :
  caDir cfg ≠ [] → separate cfg →
  fate (OpStat (certPath (caDir cfg))) = None → fate (OpStat (keyPath (caDir cfg))) = None →
  initNode fate umask me d now cfg s = (Ok (), s') →
  initNode (λ _, None) umask' me' d' now' cfg s' = (Ok (), s').
Proof.
  intros Hd Hsep Hfc Hfk (s1 & Hs & Hi)%initNode_split. apply sockets_ready_run in Hs.
  assert (Hr : sockets_ready cfg s').
  { intros Hne. destruct (Hs Hne) as (n & Hn & Hdir & Hm & Ho).
    destruct (init_ca_others _ _ _ _ _ _ _ _ _ _ Hd Hi Hsep Hn) as [Hn'|[Hc Hn']]; [by exists n|].
    rewrite (Ho Hc) in Hn'. by exists n. }
  assert (He : is_Some (s' !! certPath (caDir cfg)) ∧ is_Some (s' !! keyPath (caDir cfg))).
  { pose proof (init_ca_files _ _ _ _ _ _ _ _ Hd Hfc Hfk Hi) as Hf. cbv zeta in Hf. destruct (_ || _) eqn:E.
    - destruct Hf as (? & ? & _ & _ & _ & -> & ->). by split; eexists.
    - destruct Hf as [-> ->]. bools. destruct E as [Ec Ek]. rewrite fmap_is_Some. by rewrite <- !not_eq_None_Some. }
  destruct He as [Hc Hk]. unfold initNode. rewrite (io_bind_run _ _ s' () s') by by apply init_sockets_ready.
  apply init_ca_ready; [done..|]. by apply (init_ca_settled _ _ _ _ _ _ _ _ Hd Hi).
Qed.
End Again.

(** ** From the init container to a TLS handshake *)

Section Interception.
Context {Priv Pub : Type} `{X509Laws Priv Pub}.

(** A CA that was generated loads. *)
Lemma generated_loads (d : draw Priv) now certPEM keyPEM :
  generateNodeCACertKey d now = Ok (certPEM, keyPEM) →
  ∃ priv serial der, certPEM = pem_EncodeToMemory #"CERTIFICATE" der ∧
    X509KeyPair certPEM keyPEM = Some (der, priv) ∧
    ParseCertificate der = Some (mkParsed (ca_template serial now) (PublicKey priv) (Subject (ca_template serial now))).
Proof.
  unfold generateNodeCACertKey. destruct (GenerateKey d) as [priv|]; [|done]. destruct (rand_Int d) as [serial|]; [|done].
  cbn [mbind outcome_bind]. destruct (CreateCertificate _ _ _ _) as [der|] eqn:Ec; [|done].
  destruct (MarshalPKCS8PrivateKey priv) as [key|] eqn:Em; [|done]. cbn. intros [= <- <-].
  apply parse_created in Ec as [Hp _]. exists priv, serial, der. split_and!; [done| |done].
  by eapply key_pair_pem.
Qed.

Lemma load_ca_files (fate : fs_op → option fault) (caCertPath caKeyPath : gostring) (s : fs) nc nk :
  caCertPath ≠ [] → caKeyPath ≠ [] → fate (OpReadFile (Clean caCertPath)) = None → fate (OpReadFile (Clean caKeyPath)) = None →
  s !! Clean caCertPath = Some nc → s !! Clean caKeyPath = Some nk → n_dir nc = false → n_dir nk = false →
  load_ca fate caCertPath caKeyPath s
  = (match X509KeyPair (n_data nc) (n_data nk) with
     | None => Err LoadKeyPair
     | Some (der, priv) => match ParseCertificate der with
                           | None => Err ParseCACert | Some c => Ok (Some (der, c, priv)) end
     end, s).
Proof.
  intros Hc Hk Hfc Hfk Hnc Hnk Hdc Hdk. unfold load_ca. rewrite !bool_decide_eq_false_2 by done. cbn [orb].
  rewrite (io_bind_run _ _ s (n_data nc) s) by (unfold map_err, ReadFile, guarded; by rewrite Hfc, Hnc, Hdc).
  rewrite (io_bind_run _ _ s (n_data nk) s) by (unfold map_err, ReadFile, guarded; by rewrite Hfk, Hnk, Hdk).
  destruct (X509KeyPair _ _) as [[der priv]|]; [|done]. by destruct (ParseCertificate der).
Qed.

(** The certificates the proxy signs with a generated CA. *)
Lemma signed_verifies root now serial priv (d : draw Priv) now' host leaf key t :
  ParseCertificate root = Some (mkParsed (ca_template serial now) (PublicKey priv) (Subject (ca_template serial now))) →
  signCert (Some (mkParsed (ca_template serial now) (PublicKey priv) (Subject (ca_template serial now)), priv)) d now' host
  = Ok (leaf, key) →
  chain_verifies root leaf host t ↔
  (now - 24 * hour ≤ t ≤ now + 10 * 365 * 24 * hour ∧ now' - hour ≤ t ≤ now' + hour * 24 * 365)%Z.
Proof.
  intros Hroot. unfold signCert. destruct (rand_Int d) as [n|]; [|done]. destruct (GenerateKey d) as [lp|]; [|done].
  cbn [mbind outcome_bind option_bind]. destruct (CreateCertificate _ _ _ priv) as [der|] eqn:Ec; [|done].
  destruct (MarshalPKCS8PrivateKey lp) as [kb|] eqn:Em; [|done]. cbn [mbind outcome_bind].
  apply parse_created in Ec as [Hp Hsig]. rewrite (key_pair_pem der _ lp kb Hp eq_refl Em). intros [= <- <-].
  split.
  - intros (r & l & Hr & Hl & _ & Ha). rewrite Hroot in Hr. rewrite Hp in Hl. injection Hr as <-. injection Hl as <-.
    destruct Ha as [_ _ _ _ H1 H2 _]. done.
  - intros [H1 H2]. do 2 eexists. split; [exact Hroot|]. split; [exact Hp|]. split; [exact Hsig|].
    split; [done|by split_and!|done|by left|exact H1|exact H2|]. cbn. destruct (ParseIP host); by left.
Qed.

(** C14: Interception works end to end: on a node without a CA, after initNode succeeds, the proxy started with
    the two files loads the CA; and every certificate it then signs, for any host name or IP address, is
    accepted for that host by every client that trusts the tls.crt of the node, exactly while the CA (ten
    years) and the certificate (one year from its signature) are valid. *)
Theorem tls_interception fate umask me (d : draw Priv) now cfg s s' caCertPath caKeyPath :
  caDir cfg ≠ [] → separate cfg →
  fate (OpStat (certPath (caDir cfg))) = None → fate (OpStat (keyPath (caDir cfg))) = None →
  s !! certPath (caDir cfg) = None ∨ s !! keyPath (caDir cfg) = None →
  initNode fate umask me d now cfg s = (Ok (), s') →
  caCertPath ≠ [] → caKeyPath ≠ [] → Clean caCertPath = certPath (caDir cfg) → Clean caKeyPath = keyPath (caDir cfg) →
  ∃ root ca priv,
    load_ca (λ _, None) caCertPath caKeyPath s' = (Ok (Some (root, ca, priv)), s') ∧
    n_data <$> s' !! certPath (caDir cfg) = Some (pem_EncodeToMemory #"CERTIFICATE" root) ∧
    ∀ host d' now' leaf key t, signCert (Some (ca, priv)) d' now' host = Ok (leaf, key) →
      chain_verifies root leaf host t ↔
      (now - 24 * hour ≤ t ≤ now + 10 * 365 * 24 * hour ∧ now' - hour ≤ t ≤ now' + hour * 24 * 365)%Z.
Proof.
  intros Hd Hsep Hfc Hfk Hnew (s1 & Hs & Hi)%initNode_split Hcp Hkp Hcc Hkc.
  destruct (separate_keeps _ _ _ _ _ _ _ Hsep Hs) as [Ec Ek]. rewrite <- Ec, <- Ek in Hnew.
  pose proof (init_ca_files _ _ _ _ _ _ _ _ Hd Hfc Hfk Hi) as Hf. cbv zeta in Hf.
  assert (bool_decide (s1 !! certPath (caDir cfg) = None) || bool_decide (s1 !! keyPath (caDir cfg) = None) = true) as Hb.
  { apply orb_true_iff. by rewrite !bool_decide_eq_true. }
  rewrite Hb in Hf. destruct Hf as (certPEM & keyPEM & Hg & Hdc & Hdk & Hc & Hk).
  destruct (generated_loads _ _ _ _ Hg) as (priv & serial & der & Hpem & Hpair & Hparse).
  eexists der, _, priv. split; [|split].
  - rewrite (load_ca_files _ _ _ _ _ _ Hcp Hkp eq_refl eq_refl 
      (eq_trans (f_equal (λ p, s' !! p) Hcc) Hc) (eq_trans (f_equal (λ p, s' !! p) Hkc) Hk)).
    + assert (∀ p b mode, n_data (from_option (with_data b) (mkNode false b (masked umask mode) me.1 me.2) (s1 !! p)) = b) as Hdat
        by (intros p b mode; by destruct (s1 !! p)).
      destruct (chowns cfg); cbn [n_data with_owner]; rewrite !Hdat, Hpair, Hparse; done.
    + by destruct (s1 !! certPath _).
    + destruct (chowns cfg), (s1 !! keyPath _); done.
  - rewrite Hc. cbn. rewrite Hpem. by destruct (s1 !! certPath _).
  - intros host d' now' leaf key t Hsign. by apply (signed_verifies der now serial priv d' now' host leaf key t).
Qed.
End Interception.

(** ** Failures *)

(** The oracle under which only one write fails, after [n] bytes. *)
Definition torn_write (p : path) (n : nat) (op : fs_op) : option fault :=
  if decide (op = OpWriteFile p) then Some (Torn n) else None.

(** The first run: the key's file is left with a part of the key. *)
Definition torn_state (umask : Z) (me : Z * Z) (dir : gostring) (n : nat) (certPEM keyPEM : bytes) (s : fs) : fs :=
  put_data umask me (keyPath dir) (take n keyPEM) o600
    (put_data umask me (certPath dir) certPEM o644 (<[Clean dir := mkNode true [] (masked umask o755) me.1 me.2]> s)).

Lemma torn_write_fails {Priv Pub} `{X509 Priv Pub} umask me (d : draw Priv) now dir n certPEM keyPEM s :
  dir ≠ [] → generateNodeCACertKey d now = Ok (certPEM, keyPEM) →
  s !! certPath dir = None → s !! keyPath dir = None → s !! Clean dir = None →
  create_ca (torn_write (keyPath dir) n) umask me d now dir s
  = (Err (WriteCAKey (OpFailed (OpWriteFile (keyPath dir)))), torn_state umask me dir n certPEM keyPEM s).
Proof.
  intros Hd Hg Hc Hk Hdir. destruct (paths_distinct dir Hd) as (Hck & Hcd & Hkd).
  set (s0 := <[Clean dir := mkNode true [] (masked umask o755) me.1 me.2]> s). unfold create_ca.
  rewrite (io_bind_run _ _ s () s0) by (unfold map_err, MkdirAll, guarded; by rewrite Hdir).
  rewrite (io_bind_run _ _ s0 (certPEM, keyPEM) s0) by (unfold lift; by rewrite Hg). cbn iota beta.
  rewrite (io_bind_run _ _ s0 () (put_data umask me (certPath dir) certPEM o644 s0)).
  - unfold map_err, WriteFile, torn_write. rewrite put_data_ne by done. subst s0.
    by rewrite lookup_insert_ne, Hk, decide_True by done.
  - unfold map_err, WriteFile, torn_write. subst s0. rewrite lookup_insert_ne, Hc by done. cbn [from_option].
    rewrite decide_False; [done|]. intros E. apply Hck. congruence.
Qed.

(** A failure while the key is written is not recovered from: the file is left with a part of the key;
    initNode reports the error, but the next run, finding both files, takes them for a CA and succeeds
    with the truncated key in place. *)
Theorem torn_key_is_kept {Priv Pub} `{X509 Priv Pub} umask me (d d' : draw Priv) now now' cfg n certPEM keyPEM s :
  caDir cfg ≠ [] → socketDir cfg = [] → generateNodeCACertKey d now = Ok (certPEM, keyPEM) →
  s !! certPath (caDir cfg) = None → s !! keyPath (caDir cfg) = None → s !! Clean (caDir cfg) = None →
  let '(r1, s1) := initNode (torn_write (keyPath (caDir cfg)) n) umask me d now cfg s in
  is_ok r1 = false ∧
  let '(r2, s2) := initNode (λ _, None) umask me d' now' cfg s1 in
  r2 = Ok () ∧ n_data <$> s2 !! keyPath (caDir cfg) = Some (take n keyPEM).
Proof.
  intros Hd Hso Hg Hc Hk Hdir. destruct (paths_distinct (caDir cfg) Hd) as (Hck & Hcd & Hkd).
  set (s1 := torn_state umask me (caDir cfg) n certPEM keyPEM s).
  assert (H1 : initNode (torn_write (keyPath (caDir cfg)) n) umask me d now cfg s
    = (Err (WriteCAKey (OpFailed (OpWriteFile (keyPath (caDir cfg))))), s1)).
  { unfold initNode, init_sockets. rewrite Hso. rewrite (io_bind_run _ _ s () s) by done.
    unfold init_ca. rewrite (bool_decide_eq_false_2 (caDir cfg = [])) by done.
    rewrite (io_bind_run _ _ s true s) by by apply missing_absent.
    rewrite (io_bind_run _ _ s true s) by by apply missing_absent. cbn [orb]. unfold mbind at 1, io_bind at 1.
    by rewrite (torn_write_fails umask me d now (caDir cfg) n certPEM keyPEM). }
  rewrite H1. split; [done|].
  set (key1 := mkNode false (take n keyPEM) (masked umask o600) me.1 me.2).
  assert (Hk1 : s1 !! keyPath (caDir cfg) = Some key1).
  { subst s1. unfold torn_state. rewrite put_data_eq, put_data_ne, lookup_insert_ne by done. by rewrite Hk. }
  assert (Hc1 : is_Some (s1 !! certPath (caDir cfg))).
  { subst s1. unfold torn_state. rewrite put_data_ne, put_data_eq by done. by eexists. }
  unfold initNode, init_sockets. rewrite Hso. rewrite (io_bind_run _ _ s1 () s1) by done.
  unfold init_ca. rewrite (bool_decide_eq_false_2 (caDir cfg = [])) by done.
  rewrite (io_bind_run _ _ s1 false s1) by by apply missing_found.
  rewrite (io_bind_run _ _ s1 false s1) by (apply missing_found; by eexists). cbn [orb].
  rewrite (io_bind_run _ _ s1 () s1) by done. destruct (chowns cfg); [|split; [done|by rewrite Hk1]].
  assert (Hin : ∀ e p (s : fs), ignore_missing e (Chown (λ _, None) p (proxyUID cfg) (proxyGID cfg)) s
    = (Ok (), match s !! p with Some n => <[p := with_owner (proxyUID cfg) (proxyGID cfg) n]> s | None => s end)).
  { intros e p s2. unfold ignore_missing, attempt, Chown, change, guarded, mbind, io_bind. by destruct (s2 !! p). }
  rewrite (io_bind_run _ _ s1 () _ (Hin _ _ _)), Hin. split; [done|].
  set (s2 := match s1 !! Clean _ with Some _ => _ | None => _ end).
  assert (H2 : s2 !! keyPath (caDir cfg) = Some key1).
  { subst s2. destruct (s1 !! Clean _); [|done]. by rewrite lookup_insert_ne. }
  rewrite H2, lookup_insert_eq. done.
Qed.

(** ** The CA of the sidecar set-up *)

(** What a file holds. *)
Definition holds_data (p : path) (b : bytes) (s : fs) : Prop := ∃ n, s !! p = Some n ∧ n_dir n = false ∧ n_data n = b.

Lemma holds_MkdirAll fate umask me p q mode b s s' :
  MkdirAll fate umask me p mode s = (Ok (), s') → holds_data q b s → holds_data q b s'.
Proof.
  intros Hm (n & Hn & Hd & Hb). exists n. split; [|done].
  apply MkdirAll_ok in Hm as [(? & _ & _ & ->)|[Hp ->]]; [done|]. rewrite lookup_insert_ne; [done|]. congruence.
Qed.
Lemma holds_Chown fate p q uid gid b s s' :
  Chown fate p uid gid s = (Ok (), s') → holds_data q b s → holds_data q b s'.
Proof.
  intros (m & Hm & ->)%change_ok (n & Hn & Hd & Hb). destruct (decide (p = q)) as [<-|Hne].
  - eexists. split; [apply lookup_insert_eq|]. assert (m = n) as -> by congruence. done.
  - exists n. by rewrite lookup_insert_ne.
Qed.
Lemma holds_written fate umask me p b mode s s' :
  WriteFile fate umask me p b mode s = (Ok (), s') → holds_data p b s' ∧ ∀ q c, p ≠ q → holds_data q c s → holds_data q c s'.
Proof.
  intros [-> Hd]%WriteFile_ok. split.
  - eexists. split; [apply put_data_eq|]. by destruct (s !! p).
  - intros q c Hne (n & Hn & ?). exists n. by rewrite put_data_ne.
Qed.

Lemma cert_ne_key dir dir' : dir ≠ [] → dir' ≠ [] → certPath dir ≠ keyPath dir'.
Proof.
  intros H1 H2. unfold certPath, keyPath. rewrite !Join_path_plain by first [done|apply plain_crt|apply plain_key].
  intros E. apply (f_equal (last ∘ snd)) in E. cbn in E. by rewrite !last_snoc in E.
Qed.

(** A run of init-service-portals that succeeds publishes one consistent CA, whatever was there before: the
    certificate generated in this run is in the public directory and in the private one, next to its
    own key. *)
Theorem ca_published {Priv Pub} `{X509 Priv Pub} fate umask me (d : draw Priv) now certDir keyDir uid gid s s' :
  certDir ≠ [] → keyDir ≠ [] → generateCA fate umask me d now certDir keyDir uid gid s = (Ok (), s') →
  ∃ certPEM keyPEM, generateNodeCACertKey d now = Ok (certPEM, keyPEM) ∧
    holds_data (certPath certDir) certPEM s' ∧ holds_data (certPath keyDir) certPEM s' ∧ holds_data (keyPath keyDir) keyPEM s'.
Proof.
  intros Hcd Hkd. unfold generateCA. rewrite !bool_decide_eq_false_2 by done.
  intros ([certPEM keyPEM] & s0 & Hg & ([] & s2 & ([] & s1 & _ & Hw1%map_err_ok%holds_written)%io_bind_ok
    & ([] & s3 & Hm3%map_err_ok & ([] & s4 & Hw4%map_err_ok%holds_written & ([] & s5 & Hw5%map_err_ok%holds_written & Hend)%io_bind_ok)%io_bind_ok)%io_bind_ok)%io_bind_ok)%io_bind_ok.
  exists certPEM, keyPEM. split.
  { unfold lift in Hg. destruct (generateNodeCACertKey d now) as [[c k]| |]; try done. by injection Hg as -> -> _. }
  destruct Hw1 as [Hc1 _], Hw4 as [Hc4 Hk4], Hw5 as [Hc5 Hk5].
  assert (H5 : holds_data (certPath certDir) certPEM s5 ∧ holds_data (certPath keyDir) certPEM s5 ∧ holds_data (keyPath keyDir) keyPEM s5).
  { split_and!; [| |done]; (apply Hk5; [apply not_eq_sym, cert_ne_key; done|]); [|done].
    destruct (decide (certPath keyDir = certPath certDir)) as [<-|Hne]; [done|]. apply Hk4; [done|].
    by apply (holds_MkdirAll _ _ _ _ _ _ _ _ _ Hm3). }
  destruct H5 as (Ha & Hb & Hc). destruct (_ || _).
  - apply io_bind_ok in Hend as ([] & s6 & Ho1%map_err_ok & Ho2%map_err_ok).
    split_and!; by eapply holds_Chown, holds_Chown.
  - injection Hend as <-. done.
Qed.

(** ** A reference PKI

    Keys are numbers, and a certificate is its fields, its key, its issuer and
    the number that signed it. *)
#[local] Instance ext_key_usage_countable : Countable ExtKeyUsage.
Proof.
  apply (inj_countable' (λ u, match u with ExtKeyUsageServerAuth => None | ExtKeyUsageOther n => Some n end)
    (from_option ExtKeyUsageOther ExtKeyUsageServerAuth)). by intros [].
Defined.
#[local] Instance name_countable : Countable Name.
Proof. apply (inj_countable' (λ n, (Organization n, CommonName n)) (λ '(o, c), mkName o c)). by intros []. Defined.
#[local] Instance certificate_countable : Countable Certificate.
Proof.
  apply (inj_countable'
    (λ c, (SerialNumber c, Subject c, NotBefore c, NotAfter c, KeyUsage c,
           (ExtKeyUsages c, BasicConstraintsValid c, IsCA c, DNSNames c, (IPAddresses c : list (list byte)))))
    (λ '(n, s, b, a, k, (e, v, i, dn, ip)), mkCertificate n s b a k e v i dn ip)). by intros [].
Defined.

Definition pem_block (type b : bytes) : bytes := type ++ #":" ++ b.
Definition pem_contents (type b : bytes) : bytes := drop (S (length type)) b.

Definition toy_cert : Type := Certificate * Z * Name * Z.
Definition toy_parse (der : bytes) : option (parsed Z) :=
  '(c, key, issuer, _) ← (decode (from_bits der) : option toy_cert); Some (mkParsed c key issuer).
Definition toy_pair (cert key : bytes) : option (bytes * Z) :=
  c ← toy_parse (pem_contents #"CERTIFICATE" cert);
  p ← decode (from_bits (pem_contents #"PRIVATE KEY" key));
  if bool_decide (p_key c = p) then Some (pem_contents #"CERTIFICATE" cert, p) else None.
#[local] Instance toy_x509 : X509 Z Z := {
  PublicKey p := p;
  CreateCertificate c parent pub priv := Some (bits (encode (c, pub, Subject parent, priv)));
  ParseCertificate := toy_parse;
  CheckSignature pub der :=
    match (decode (from_bits der) : option toy_cert) with Some (_, _, _, signer) => bool_decide (signer = pub) | None => false end;
  MarshalPKCS8PrivateKey p := Some (bits (encode p));
  pem_EncodeToMemory := pem_block;
  X509KeyPair := toy_pair;
}.

Lemma pem_contents_block type b : pem_contents type (pem_block type b) = b.
Proof. unfold pem_contents, pem_block. by induction type. Qed.

#[local] Instance toy_laws : X509Laws Z Z.
Proof.
  split.
  - intros template parent pub priv der [= <-]. cbn. unfold toy_parse.
    rewrite from_bits_bits, decode_encode. split; [done|]. by apply bool_decide_eq_true.
  - intros der c priv key Hp Hk [= <-].
    change (toy_pair (pem_block #"CERTIFICATE" der) (pem_block #"PRIVATE KEY" (bits (encode priv))) = Some (der, priv)).
    unfold toy_pair. rewrite !pem_contents_block. change (toy_parse der = Some c) in Hp. rewrite Hp.
    cbn [mbind option_bind]. rewrite from_bits_bits, decode_encode. cbn [mbind option_bind].
    by rewrite bool_decide_eq_true_2.
Qed.

Definition demo_init : nodeInitConfig := mkNodeInitConfig #"/etc/service-portal/ca" #"/run/service-portal" 65532 65532.
Definition demo_draw (key : Z) : draw Z := mkDraw (Some key) (Some 7%Z).
Definition demo_node (key : Z) (s : fs) : outcome init_err () * fs :=
  initNode (λ _, None) 18 (0, 0)%Z (demo_draw key) 1000000000 demo_init s.

Lemma demo_separate : separate demo_init.
Proof. apply (bool_decide_unpack _). vm_compute. exact I. Qed.

Lemma demo_node_ok key : (demo_node key ∅).1 = Ok ().
Proof. destruct key; vm_compute; reflexivity. Qed.

Lemma node_ca_files_witness :
  ∃ nk, (demo_node 5 ∅).2 !! keyPath #"/etc/service-portal/ca" = Some nk ∧ n_mode nk = 384%Z ∧ n_uid nk = 65532%Z.
Proof.
  destruct (node_ca_files (λ _, None) 18 (0, 0)%Z (demo_draw 5) 1000000000 demo_init ∅ (demo_node 5 ∅).2)
    as (nc & nk & _ & Hk & Ho & Hm & _); [done|exact demo_separate|done|done| |].
  - rewrite <- (demo_node_ok 5). apply surjective_pairing.
  - exists nk. split; [exact Hk|]. split; [|by apply Ho]. destruct Hm as [Hm _]. rewrite Hm. vm_compute. reflexivity.
Defined.

Lemma init_idempotent_witness : demo_node 9 (demo_node 5 ∅).2 = (Ok (), (demo_node 5 ∅).2).
Proof.
  apply (init_idempotent (λ _, None) 18 (0, 0)%Z (demo_draw 5) 1000000000 demo_init ∅ (demo_node 5 ∅).2);
    [done|exact demo_separate|done|done|].
  rewrite <- (demo_node_ok 5). apply surjective_pairing.
Defined.

Lemma tls_interception_witness :
  ∃ root ca priv, load_ca (λ _, None) #"/etc/service-portal/ca/tls.crt" #"/etc/service-portal/ca/tls.key" (demo_node 5 ∅).2
    = (Ok (Some (root, ca, priv)), (demo_node 5 ∅).2) ∧
    ∀ leaf key, signCert (Some (ca, priv)) (demo_draw 11) 1000003600 #"api.example.com" = Ok (leaf, key) →
      chain_verifies root leaf #"api.example.com" 1000003600.
Proof.
  destruct (tls_interception (λ _, None) 18 (0, 0)%Z (demo_draw 5) 1000000000 demo_init ∅ (demo_node 5 ∅).2
    #"/etc/service-portal/ca/tls.crt" #"/etc/service-portal/ca/tls.key") as (root & ca & priv & Hl & _ & Hv);
    [done|exact demo_separate|done|done|by left| |done|done|vm_compute; reflexivity|vm_compute; reflexivity|].
  - rewrite <- (demo_node_ok 5). apply surjective_pairing.
  - exists root, ca, priv. split; [exact Hl|]. intros leaf key Hs. apply (Hv _ _ _ _ _ _ Hs). cbv [hour]. lia.
Defined.

(** The certificate of the example is signed, and is the host's. *)
Example demo_sign : match demo_node 5 ∅ with
  | (_, s) => match load_ca (λ _, None) #"/etc/service-portal/ca/tls.crt" #"/etc/service-portal/ca/tls.key" s with
              | (Ok (Some (_, ca, priv)), _) => is_ok (signCert (Some (ca, priv)) (demo_draw 11) 1000003600 #"api.example.com")
              | _ => false end end = true.
Proof. vm_compute. reflexivity. Qed.

Lemma torn_key_is_kept_witness :
  let '(r1, s1) := initNode (torn_write (keyPath #"/ca") 3) 18 (0, 0)%Z (demo_draw 5) 10 (mkNodeInitConfig #"/ca" [] (-1) (-1)) ∅ in
  is_ok r1 = false ∧
  let '(r2, s2) := initNode (λ _, None) 18 (0, 0)%Z (demo_draw 6) 20 (mkNodeInitConfig #"/ca" [] (-1) (-1)) s1 in
  r2 = Ok () ∧ n_data <$> s2 !! keyPath #"/ca" = Some #"PRI".
Proof.
  assert (Ht : match generateNodeCACertKey (demo_draw 5) 10 with Ok (_, k) => take 3 k | _ => [] end = #"PRI")
    by (vm_compute; reflexivity).
  destruct (generateNodeCACertKey (demo_draw 5) 10) as [[certPEM keyPEM]| |] eqn:E; [|discriminate Ht..].
  pose proof (torn_key_is_kept 18 (0, 0)%Z (demo_draw 5) (demo_draw 6) 10 20 (mkNodeInitConfig #"/ca" [] (-1) (-1)) 3
    certPEM keyPEM ∅ ltac:(done) eq_refl E eq_refl eq_refl eq_refl) as HT.
  cbn [caDir] in HT. rewrite Ht in HT. exact HT.
Defined.

Lemma ca_published_witness :
  ∃ certPEM, let s := (generateCA (λ _, None) 18 (0, 0)%Z (demo_draw 5) 10 #"/pub" #"/priv" (-1) (-1) ∅).2 in
    holds_data (certPath #"/pub") certPEM s ∧ holds_data (certPath #"/priv") certPEM s.
Proof.
  destruct (generateCA (λ _, None) 18 (0, 0)%Z (demo_draw 5) 10 #"/pub" #"/priv" (-1) (-1) ∅) as [r s] eqn:E.
  assert (r = Ok ()) as -> by (change r with (r, s).1; rewrite <- E; vm_compute; reflexivity).
  destruct (ca_published (λ _, None) 18 (0, 0)%Z (demo_draw 5) 10 #"/pub" #"/priv" (-1) (-1) ∅ s ltac:(done) ltac:(done) E) as (c & k & _ & H1 & H2 & _).
  exists c. exact (conj H1 H2).
Defined.
