(* ===== verification/Programs.v ===== *)
(** * The main functions of the programs

    What the processes do with their arguments and how they exit: the portals
    and the Git proxy on the host of [Lifecycle], the plugin's commands and the
    init programs on the files of [GoOS]. The values of the flags are given as
    the [flag] package has parsed them. *)

From S2P Require Import Prelude GoStrings GoNet Http HTTPProxy PodMap RuleRouter GoOS Pki NodeInit Networking NriPlugin Portal Binaries Lifecycle.
From S2P Require GitServer.

(** [os.Exit(1)] on an error. *)
Definition exit_status {E A} (r : outcome E A) : Z := if is_ok r then 0%Z else 1%Z.

(** ** The portals *)

Section Portals.
Context `{Unicode} (works : list action → action → bool) (listen_mode : Z).
Context (Getenv : gostring → gostring)
        (unmarshal : bytes → option PortalRule)
        (url_Parse : gostring → option URL)
        (ParseDuration : gostring → option Z)
        (ca_ok : option PortalRule → bool) (DiscoverNodeIPv6 : gostring) (background : list action → list gostring)
        (es : list walk_entry) (e : wakeup).

Definition portal_main (cfg : Config) : portal_host → Z * portal_host := λ w,
  let '(r, w) := Run works listen_mode Getenv unmarshal url_Parse ParseDuration ca_ok DiscoverNodeIPv6 background cfg es e w in
  (exit_status r, w).

Definition gemini_main : portal_host → Z * portal_host := portal_main gemini_config.
Definition anthropic_main : portal_host → Z * portal_host := portal_main anthropic_config.
Definition github_main : portal_host → Z * portal_host := portal_main (github_config Getenv).
Definition service_main (rulesDir : gostring) : portal_host → Z * portal_host :=
  portal_main (service_config rulesDir).
Definition all_in_one_main (rulesDir : gostring) (serveDNS : bool) (dnsBindAddr dnsPort : gostring)
    : portal_host → Z * portal_host :=
  portal_main (all_in_one_config Getenv rulesDir serveDNS dnsBindAddr dnsPort).
End Portals.

(** ** The Git proxy *)

Inductive git_err := GitStart (e : git_start_err) | GitServe (e : life_err) | GitShutdown.

Section Git.
Context (works : list action → action → bool) (listen_mode : Z).
Context (Getenv : gostring → gostring) (ParseDuration : gostring → option Z) (disk_ok : gostring → bool).

(** [gitproxy.Run] from its listening on: unlike the portal it returns the
    error of the shutdown. [cancelled]: the context ended before the server
    failed. *)
Definition git_serve (addr : gostring) (cancelled : bool) : io portal_host git_err () :=
  map_err GitServe (call_ works listen_mode (ListenAndServe addr));;
  if cancelled then
    ok ← map_err GitServe (call works listen_mode (ShutdownHTTP addr));
    if (ok : bool) then mret () else throw GitShutdown
  else throw (GitServe HTTPServerError).

Definition git_main (f : git_flags) (cancelled : bool) : portal_host → Z * portal_host := λ w,
  let '(r, w) :=
    ('(addr, _, _) ← lift (outcome_map_err GitStart (gitproxy_server Getenv ParseDuration disk_ok f));
     git_serve addr cancelled) w in
  (exit_status r, w).
End Git.

(** ** The NRI plugin *)

(** [main] looks at its first argument. *)
Inductive nri_command :=
  | InitCommand (args : list gostring)
  | BindCommand (args : list gostring)
  | UnbindCommand (args : list gostring)
  | ServePlugin.

Definition nri_dispatch (args : list gostring) : nri_command :=
  match args with
  | _ :: cmd :: rest =>
      if bool_decide (cmd = #"init") then InitCommand rest
      else if bool_decide (cmd = #"bind") then BindCommand rest
      else if bool_decide (cmd = #"unbind") then UnbindCommand rest
      else ServePlugin
  | _ => ServePlugin
  end.

(** The reconciliation loop, next to what the other goroutines and the portal do. *)
Inductive loop_event (X : Type) := TickerFired | LoopContextDone | Meanwhile (f : X → X).
Arguments TickerFired {X}.
Arguments LoopContextDone {X}.
Arguments Meanwhile {X} f.

Section SyncLoop.
Context {W : Type}
        (Do : admin_call → W → option (Z * option bytes) * W)
        (Wait : W → bool * W)
        (Marshal : payload → option bytes) (Unmarshal : bytes → option (list PodInfo))
        (valid_url : gostring → bool) (range : gmap gostring PodInfo → list PodInfo) (cfg : pluginConfig).

Fixpoint sync_loop (running : bool) (events : list (loop_event (W * plugin_state))) (x : W * plugin_state)
    : W * plugin_state :=
  match events with
  | [] => x
  | TickerFired :: events =>
      sync_loop running events
        (if running then syncActivePodsWithProxy Do Wait Marshal Unmarshal valid_url range cfg x else x)
  | LoopContextDone :: events => sync_loop false events x
  | Meanwhile f :: events => sync_loop running events (f x)
  end.

Definition startProxySyncLoop (events : list (loop_event (W * plugin_state))) (x : W * plugin_state)
    : W * plugin_state :=
  sync_loop (negb (bool_decide (adminURL cfg = []))) events x.
End SyncLoop.

(** ** The init programs *)

Section Init.
Context {Priv Pub : Type} `{X509 Priv Pub}.
Context (fate : fs_op → option fault) (umask : Z) (me : Z * Z) (d : draw Priv) (now : Z).
(** The flags that were given. *)
Context (flag : gostring → option gostring) (int_flag : gostring → option Z).

Definition init_flags : nodeInitConfig :=
  mkNodeInitConfig (default #"/etc/service-portal/ca" (flag #"ca-dir"))
    (default #"/run/service-portal" (flag #"socket-dir"))
    (default 65532%Z (int_flag #"proxy-uid")) (default 65532%Z (int_flag #"proxy-gid")).

Definition runInitCommand : fs → Z * fs := λ s,
  let '(r, s) := initNode fate umask me d now init_flags s in (exit_status r, s).

Definition init_service_portals_main : fs → Z * fs := λ s,
  let '(r, s) := generateCA fate umask me d now
    (default #"/etc/service-portal/ca" (flag #"cert-dir"))
    (default #"/etc/service-portal/ca-private" (flag #"key-dir"))
    (default (-1)%Z (int_flag #"chown-uid")) (default (-1)%Z (int_flag #"chown-gid")) s in
  (exit_status r, s).
End Init.

(** ** Properties *)

(** The exit status of a portal tells how it ended: 0 only after a clean
    shutdown. *)
Theorem portal_exit_status `{Unicode} works mode env um up pd ca v6 bg es e cfg w :
  (portal_main works mode env um up pd ca v6 bg es e cfg w).1 = 0%Z ↔
  (Run works mode env um up pd ca v6 bg cfg es e w).1 = Ok ().
Proof. unfold portal_main. destruct (Run _ _ _ _ _ _ _ _ _ _ _ _ w) as [[[]| |] w']; done. Qed.

(** The Git proxy keeps nothing open once its context has ended, and exits with
    0 exactly when it had started and its shutdown reported no error. *)
Theorem git_proxy_shuts_down works mode env pd disk f w addr cfg c :
  gitproxy_server env pd disk f = Ok (addr, cfg, c) → HttpServer addr ∉ listening w →
  let '(status, w') := git_main works mode env pd disk f true w in
  (∀ ep, ep ∈ listening w' → ep ∈ listening w) ∧
  (status = 0%Z ↔ works (trace w ++ [ListenAndServe addr]) (ShutdownHTTP addr) = true).
Proof.
  intros Hg Hno. unfold git_main. rewrite Hg. cbn [outcome_map_err].
  set (w1 := recorded (ListenAndServe addr) (effect mode (succeeds works (ListenAndServe addr) w) (ListenAndServe addr) w)).
  set (w2 := recorded (ShutdownHTTP addr) (effect mode (succeeds works (ShutdownHTTP addr) w1) (ShutdownHTTP addr) w1)).
  assert (Hrun : git_serve works mode addr true w
    = (if succeeds works (ShutdownHTTP addr) w1 then Ok () else Err GitShutdown, w2)).
  { unfold git_serve. rewrite (io_bind_run _ _ w () w1) by done.
    rewrite (io_bind_run _ _ w1 (succeeds works (ShutdownHTTP addr) w1) w2) by done.
    by destruct (succeeds works (ShutdownHTTP addr) w1). }
  rewrite (io_bind_run _ _ w (addr, cfg, c) w) by done. rewrite Hrun. split.
  - intros ep Hin. unfold w2 in Hin. cbn in Hin. apply list_elem_of_filter in Hin as [Hne Hin].
    unfold w1 in Hin. cbn in Hin. destruct (succeeds _ _ w); [|done]. cbn in Hin.
    by apply elem_of_cons in Hin as [|].
  - assert (Ht : trace w1 = trace w ++ [ListenAndServe addr]).
    { unfold w1. cbn. by destruct (succeeds _ _ w). }
    unfold succeeds. rewrite Ht, andb_true_r. by destruct (works _ _).
Qed.

(** Once the context has ended, or without an admin URL, the loop reconciles
    nothing. *)
Theorem sync_loop_stopped {W} Do Wait mar unm vu range cfg events (x : W * plugin_state) :
  sync_loop Do Wait mar unm vu range cfg false events x
  = foldl (λ x e, match e with Meanwhile f => f x | _ => x end) x events.
Proof. revert x. induction events as [|[] events IH]; intros x; cbn; done. Qed.

(** With nothing configured the programs fit together: the plugin mounts the
    certificate the init command writes, and talks to the socket the portal
    listens on, in the directory the init command makes for the proxy's user. *)
Theorem defaults_agree `{Unicode} :
  let init := init_flags (λ _, None) (λ _, None) in
  let plugin := parsed_flags (λ _, []) (λ _, None) in
  Clean (caCertPath plugin) = certPath (caDir init) ∧
  Dir DefaultAdminSocketPath = Clean (socketDir init) ∧
  admin_of (λ _, []) (Some NewPodMap) = Ok (Some (UnixSocket (default [] (c_socket (newAdminHTTPClient (adminURL plugin)))))).
Proof. split_and!; vm_compute; reflexivity. Qed.

(** ** The properties at concrete inputs *)

Lemma git_proxy_shuts_down_witness :
  (git_main all_works 493 (λ _, []) (λ _, None) (λ _, true) (mkGitFlags [] [] [] 0 0 [] []) true quiet_host).1 = 0%Z.
Proof.
  pose proof (git_proxy_shuts_down all_works 493 (λ _, []) (λ _, None) (λ _, true) (mkGitFlags [] [] [] 0 0 [] [])
    quiet_host #":8080" _ _ ltac:(vm_compute; reflexivity) ltac:(intros Hin; inversion Hin)) as Hs.
  destruct (git_main _ _ _ _ _ _ _ quiet_host) as [status w']. apply Hs. reflexivity.
Defined.
